(** * A shallow embedding of jansson's [load.c]

    The JSON decoder of [src/load.c]: the byte stream with its one-level
    pushback, the lexer and the recursive-descent parser, together with the
    three entry points [json_load], [json_loads] and [json_loadf].

    C [char] is signed here (the source tests [c < 0] for multi-byte
    sequences); characters and tokens are integers of [Z].  Every function
    of the source is a state-passing function into [outcome]: a C [assert]
    that fails aborts the program, a read outside an array or of an
    indeterminate byte is undefined behaviour, and the loops carry fuel. *)

From Stdlib Require Import ZArith Bool String Ascii List Lia.
Import ListNotations.
Open Scope Z_scope.

Set Implicit Arguments.

(** ** Outcomes of a C function call *)

Inductive outcome (A : Type) : Type :=
| Ok (a : A)          (* normal return *)
| Abort               (* a failed [assert]: the process is aborted *)
| Undef               (* undefined behaviour (read out of bounds, ...) *)
| OutOfFuel.          (* the model's loop budget is exhausted *)

Arguments Ok {A} a.
Arguments Abort {A}.
Arguments Undef {A}.
Arguments OutOfFuel {A}.

Definition obind {A B} (m : outcome A) (k : A -> outcome B) : outcome B :=
  match m with
  | Ok a => k a
  | Abort => Abort
  | Undef => Undef
  | OutOfFuel => OutOfFuel
  end.

(** State-passing computations over a state [S]. *)
Definition M (S A : Type) : Type := S -> outcome (A * S).

Definition ret {S A} (a : A) : M S A := fun s => Ok (a, s).

Definition bind {S A B} (m : M S A) (k : A -> M S B) : M S B :=
  fun s => match m s with
           | Ok (a, s') => k a s'
           | Abort => Abort
           | Undef => Undef
           | OutOfFuel => OutOfFuel
           end.

Definition gets {S A} (f : S -> A) : M S A := fun s => Ok (f s, s).
Definition modify {S} (f : S -> S) : M S unit := fun s => Ok (tt, f s).
Definition fail_abort {S A} : M S A := fun _ => Abort.
Definition fail_undef {S A} : M S A := fun _ => Undef.
Definition fail_fuel {S A} : M S A := fun _ => OutOfFuel.

Declare Scope monad_scope.
Delimit Scope monad_scope with monad.
Notation "x <- m ;; k" := (bind m (fun x => k))
  (at level 61, m at next level, right associativity) : monad_scope.
Notation "m ;; k" := (bind m (fun _ => k))
  (at level 61, right associativity) : monad_scope.
Open Scope monad_scope.

(** ** Characters *)

(** The code of an ASCII character, as the [int] a C character constant is. *)
Definition ch (a : ascii) : Z := Z.of_N (N_of_ascii a).

Definition EOF : Z := -1.

(** Conversion of an [int] to (signed, 8-bit) [char]. *)
Definition to_char (z : Z) : Z := (z + 128) mod 256 - 128.

(** Conversion to [unsigned char]. *)
Definition to_uchar (z : Z) : Z := z mod 256.

(** <ctype.h> in the C locale. *)
Definition isdigit (c : Z) : bool := (48 <=? c) && (c <=? 57).
Definition isupper (c : Z) : bool := (65 <=? c) && (c <=? 90).
Definition islower (c : Z) : bool := (97 <=? c) && (c <=? 122).
Definition isxdigit (c : Z) : bool :=
  isdigit c || ((65 <=? c) && (c <=? 70)) || ((97 <=? c) && (c <=? 102)).
Definition isspace (c : Z) : bool :=
  (c =? 32) || ((9 <=? c) && (c <=? 13)).

(** A NUL-terminated buffer seen as a C string: the bytes before the first
    NUL. *)
Fixpoint cstr (l : list Z) : list Z :=
  match l with
  | [] => []
  | c :: r => if c =? 0 then [] else c :: cstr r
  end.

Definition byte_to_ascii (c : Z) : ascii := ascii_of_N (Z.to_N (to_uchar c)).

Fixpoint string_of_bytes (l : list Z) : string :=
  match l with
  | [] => EmptyString
  | c :: r => String (byte_to_ascii c) (string_of_bytes r)
  end.

Fixpoint bytes_of_string (s : string) : list Z :=
  match s with
  | EmptyString => []
  | String a r => to_char (ch a) :: bytes_of_string r
  end.

Definition list_eqb (a b : list Z) : bool :=
  if list_eq_dec Z.eq_dec a b then true else false.

(** [strcmp(a, b) == 0] on C strings. *)
Definition strcmp_eq (a : list Z) (b : string) : bool :=
  list_eqb (cstr a) (bytes_of_string b).

(** ** Token kinds (lines 16-23) *)

Definition TOKEN_INVALID : Z := -1.
Definition TOKEN_EOF : Z := 0.
Definition TOKEN_STRING : Z := 256.
Definition TOKEN_INTEGER : Z := 257.
Definition TOKEN_REAL : Z := 258.
Definition TOKEN_TRUE : Z := 259.
Definition TOKEN_FALSE : Z := 260.
Definition TOKEN_NULL : Z := 261.

(** ** What the translation unit takes from elsewhere *)

(** The build and the headers that are not part of [load.c]: whether
    [NDEBUG] is defined (it turns [assert] into nothing), the length of the
    text field of [json_error_t] (jansson.h), the width of [long], and the
    two UTF-8 checks of utf.h. *)
Class Platform : Type := {
  NDEBUG : bool;
  JSON_ERROR_TEXT_LENGTH : nat;
  LONG_BITS : Z;
  utf8_check_first : Z -> Z;
  utf8_check_full : list Z -> Z -> bool
}.

Definition INT_BITS : Z := 32.

Definition LONG_MAX `{Platform} : Z := 2 ^ (LONG_BITS - 1) - 1.
Definition LONG_MIN `{Platform} : Z := - 2 ^ (LONG_BITS - 1).

(** Conversion of a [long] to [int]: reduction modulo [2^32]. *)
Definition to_int (z : Z) : Z :=
  (z + 2 ^ (INT_BITS - 1)) mod 2 ^ INT_BITS - 2 ^ (INT_BITS - 1).

(** A [double] is kept as the decimal text [strtod] converted: floating
    point is not computed with. *)
Inductive c_double : Type :=
| strtod_of (text : list Z).

(** ** <stdlib.h>: the number conversions *)

Fixpoint count_while (p : Z -> bool) (l : list Z) : nat :=
  match l with
  | c :: r => if p c then S (count_while p r) else O
  | [] => O
  end.

(** The value of a run of decimal digits, most significant first. *)
Fixpoint digits_value (acc : Z) (l : list Z) : Z :=
  match l with
  | c :: r => if isdigit c then digits_value (10 * acc + (c - 48)) r else acc
  | [] => acc
  end.

Definition sign_length (l : list Z) : nat :=
  match l with
  | c :: _ => if (c =? ch "-") || (c =? ch "+") then 1%nat else 0%nat
  | [] => 0%nat
  end.

Definition clamp_long `{Platform} (v : Z) : Z :=
  if v <? LONG_MIN then LONG_MIN else if LONG_MAX <? v then LONG_MAX else v.

(** [strtol(s, &end, 10)]: white space, an optional sign, decimal digits.
    Returns the value, clamped to the range of [long], and the offset of
    [end] in [s]; with no digit nothing is converted and [end == s]. *)
Definition strtol `{Platform} (s : list Z) : Z * nat :=
  let s := cstr s in
  let ws := count_while isspace s in
  let s1 := skipn ws s in
  let sg := sign_length s1 in
  let s2 := skipn sg s1 in
  let nd := count_while isdigit s2 in
  match nd with
  | O => (0, O)
  | _ =>
      let v := digits_value 0 s2 in
      let v := match s1 with
               | c :: _ => if c =? ch "-" then - v else v
               | [] => v
               end in
      (clamp_long v, (ws + sg + nd)%nat)
  end.

(** The offset of [end] after [strtod(s, &end)] on a decimal text: white
    space, an optional sign, digits with at most one radix point and at
    least one digit, then an exponent if it has a digit.  The hexadecimal,
    infinity and NaN forms are left out: no text the number scanner hands
    over as a real begins with one. *)
Definition strtod_end (s : list Z) : nat :=
  let s := cstr s in
  let ws := count_while isspace s in
  let s1 := skipn ws s in
  let sg := sign_length s1 in
  let s2 := skipn sg s1 in
  let d1 := count_while isdigit s2 in
  let s3 := skipn d1 s2 in
  let '(pt, d2) :=
    match s3 with
    | c :: r => if c =? ch "." then (1%nat, count_while isdigit r)
                else (0%nat, 0%nat)
    | [] => (0%nat, 0%nat)
    end in
  match (d1 + d2)%nat with
  | O => O
  | _ =>
      let man := (ws + sg + d1 + pt + d2)%nat in
      let s4 := skipn (pt + d2) s3 in
      match s4 with
      | c :: r =>
          if (c =? ch "e") || (c =? ch "E") then
            let es := sign_length r in
            let ed := count_while isdigit (skipn es r) in
            match ed with
            | O => man
            | _ => (man + 1 + es + ed)%nat
            end
          else man
      | [] => man
      end
  end.

Definition strtod (s : list Z) : c_double * nat :=
  (strtod_of (cstr s), strtod_end s).

(** ** The string buffer of strbuffer.h *)

(** Modelled from the spec: strbuffer.h is not part of [load.c].  The
    "growable raw-text accumulator" is the list of the bytes appended so
    far; [strbuffer_value] is that list read as a C string, and
    [strbuffer_pop] removes and returns the last byte (NUL when there is
    none). *)
Definition strbuffer_t : Type := list Z.

Definition strbuffer_value (b : strbuffer_t) : list Z := cstr b.
Definition strbuffer_append_byte (b : strbuffer_t) (c : Z) : strbuffer_t :=
  b ++ [c].
Definition strbuffer_pop (b : strbuffer_t) : Z * strbuffer_t :=
  match rev b with
  | [] => (0, [])
  | c :: r => (c, rev r)
  end.

(** ** The value model of jansson.h and the allocator *)

(** Modelled from the spec: the value tree of jansson.h ("make-object,
    make-array, make-string, make-integer, make-real,
    make-true/false/null, set-member, append-element, release") is not
    part of [load.c].  A node is a reference-counted cell of a store, a
    [json_t *] is the index of its cell; a container holds the addresses of
    its children and one reference to each. *)
Inductive json_body : Type :=
| JObject (members : list (list Z * nat))
| JArray (elems : list nat)
| JString (s : list Z)
| JInteger (v : Z)
| JReal (d : c_double)
| JTrue
| JFalse
| JNull.

Record json_t : Type := {
  refcount : Z;
  body : json_body
}.

(** The memory a parse works in: the store of nodes (a released cell is
    [None]), the number of live blocks of [malloc] and [strdup], and the
    verdicts of the allocations still to come ([false]: the allocation
    fails; past the end of the list every allocation succeeds). *)
Record memory : Type := {
  nodes : list (option json_t);
  blocks : Z;
  allocs : list bool
}.

Definition set_nodes (h : list (option json_t)) (m : memory) : memory :=
  {| nodes := h; blocks := blocks m; allocs := allocs m |}.

Definition set_blocks (b : Z) (m : memory) : memory :=
  {| nodes := nodes m; blocks := b; allocs := allocs m |}.

(** Whether the next allocation succeeds. *)
Definition alloc_ok : M memory bool :=
  fun m => match allocs m with
           | [] => Ok (true, m)
           | b :: r => Ok (b, {| nodes := nodes m; blocks := blocks m;
                                 allocs := r |})
           end.

(** [malloc] / [strdup]: [true] when a block was obtained. *)
Definition malloc : M memory bool :=
  ok <- alloc_ok ;;
  if ok then (modify (fun m => set_blocks (blocks m + 1) m) ;; ret true)
  else ret false.

(** [free] of a pointer that is not NULL. *)
Definition free : M memory unit :=
  modify (fun m => set_blocks (blocks m - 1) m).

Fixpoint list_set {A} (n : nat) (x : A) (l : list A) : list A :=
  match n, l with
  | O, _ :: r => x :: r
  | S n', y :: r => y :: list_set n' x r
  | _, [] => []
  end.

(** A constructor of the value model: a fresh cell holding one
    reference, or NULL when the allocation fails. *)
Definition json_new (b : json_body) : M memory (option nat) :=
  ok <- alloc_ok ;;
  if ok then
    a <- gets (fun m => length (nodes m)) ;;
    modify (fun m => set_nodes (nodes m ++ [Some {| refcount := 1; body := b |}]) m) ;;
    ret (Some a)
  else ret None.

Definition json_object : M memory (option nat) := json_new (JObject []).
Definition json_array : M memory (option nat) := json_new (JArray []).
Definition json_string_nocheck (s : list Z) : M memory (option nat) :=
  json_new (JString s).
Definition json_integer (v : Z) : M memory (option nat) := json_new (JInteger v).
Definition json_real (d : c_double) : M memory (option nat) := json_new (JReal d).
Definition json_true : M memory (option nat) := json_new JTrue.
Definition json_false : M memory (option nat) := json_new JFalse.
Definition json_null : M memory (option nat) := json_new JNull.

Definition children (b : json_body) : list nat :=
  match b with
  | JObject ms => map snd ms
  | JArray es => es
  | _ => []
  end.

(** Dropping one reference to the cell at [a]; the cell whose count
    reaches zero is released together with the references it holds.
    Touching a released cell is undefined. *)
Fixpoint decref (fuel : nat) (a : nat) (h : list (option json_t))
  : outcome (list (option json_t)) :=
  match fuel with
  | O => OutOfFuel
  | S f =>
      match nth_error h a with
      | Some (Some c) =>
          if refcount c - 1 =? 0 then
            fold_left (fun acc k => obind acc (decref f k))
                      (children (body c)) (Ok (list_set a None h))
          else
            Ok (list_set a (Some {| refcount := refcount c - 1;
                                    body := body c |}) h)
      | _ => Undef
      end
  end.

Definition json_decref (a : nat) : M memory unit :=
  fun m => match decref (S (length (nodes m))) a (nodes m) with
           | Ok h => Ok (tt, set_nodes h m)
           | Abort => Abort
           | Undef => Undef
           | OutOfFuel => OutOfFuel
           end.

Definition json_incref (a : nat) : M memory unit :=
  fun m => match nth_error (nodes m) a with
           | Some (Some c) =>
               Ok (tt, set_nodes (list_set a (Some {| refcount := refcount c + 1;
                                                       body := body c |})
                                           (nodes m)) m)
           | _ => Undef
           end.

Fixpoint assoc_find (key : list Z) (ms : list (list Z * nat)) : option nat :=
  match ms with
  | [] => None
  | (k, v) :: r => if list_eqb k key then Some v else assoc_find key r
  end.

Fixpoint assoc_replace (key : list Z) (v : nat) (ms : list (list Z * nat))
  : list (list Z * nat) :=
  match ms with
  | [] => []
  | (k, w) :: r =>
      if list_eqb k key then (k, v) :: r else (k, w) :: assoc_replace key v r
  end.

(** Modelled from the spec ("insert (key, value) into the object --
    duplicate keys overwrite silently, last write wins"): the object takes
    a reference to [value] and its own copy of [key]; the value a repeated
    key held before loses the object's reference.  Returns 0, or -1 when
    the insertion could not allocate. *)
Definition json_object_set_nocheck (object : nat) (key : list Z) (value : nat)
  : M memory Z :=
  ok <- alloc_ok ;;
  if ok then
    o <- gets (fun m => nth_error (nodes m) object) ;;
    match o with
    | Some (Some {| refcount := rc; body := JObject ms |}) =>
        json_incref value ;;
        match assoc_find key ms with
        | Some old =>
            modify (fun m => set_nodes
                     (list_set object
                        (Some {| refcount := rc;
                                 body := JObject (assoc_replace key value ms) |})
                        (nodes m)) m) ;;
            json_decref old ;;
            ret 0
        | None =>
            modify (fun m => set_nodes
                     (list_set object
                        (Some {| refcount := rc;
                                 body := JObject (ms ++ [(key, value)]) |})
                        (nodes m)) m) ;;
            ret 0
        end
    | _ => fail_undef
    end
  else ret (-1).

(** Modelled from the spec ("append-element"): the array takes a
    reference to [value].  Returns 0, or -1 when it could not allocate. *)
Definition json_array_append (array : nat) (value : nat) : M memory Z :=
  ok <- alloc_ok ;;
  if ok then
    o <- gets (fun m => nth_error (nodes m) array) ;;
    match o with
    | Some (Some {| refcount := rc; body := JArray es |}) =>
        json_incref value ;;
        modify (fun m => set_nodes
                 (list_set array
                    (Some {| refcount := rc; body := JArray (es ++ [value]) |})
                    (nodes m)) m) ;;
        ret 0
    | _ => fail_undef
    end
  else ret (-1).

(** The number of cells that are live. *)
Definition live_nodes (m : memory) : nat :=
  length (filter (fun c => match c with Some _ => true | None => false end)
                 (nodes m)).

(** ** The byte stream and the lexer state (lines 25-50) *)

Definition QUOTE : Z := 34.       (* the double quote character *)

Section Load.

Context {P : Platform}.

(** The type of the opaque handle [void *data] of the byte source. *)
Context {D : Type}.

(** [assert(cond)]: nothing at all under [NDEBUG], else the condition is
    evaluated and the program aborts when it is false. *)
Definition assert {S} (cond : M S bool) : M S unit :=
  fun s =>
    if NDEBUG then Ok (tt, s)
    else match cond s with
         | Ok (true, _) => Ok (tt, s)
         | Ok (false, _) => Abort
         | Abort => Abort
         | Undef => Undef
         | OutOfFuel => OutOfFuel
         end.

(** [get] reads one byte and returns EOF at the end of the input; [eof]
    says whether the end has been reached.  [buffer] is [char buffer[5]],
    a byte nobody wrote yet is [None]. *)
Record stream_t : Type := {
  get : D -> outcome (Z * D);
  eof : D -> outcome bool;
  data : D;
  buffer : list (option Z);
  buffer_pos : Z
}.

Definition set_data (d : D) (s : stream_t) : stream_t :=
  {| get := get s; eof := eof s; data := d; buffer := buffer s;
     buffer_pos := buffer_pos s |}.

Definition set_buffer (b : list (option Z)) (s : stream_t) : stream_t :=
  {| get := get s; eof := eof s; data := data s; buffer := b;
     buffer_pos := buffer_pos s |}.

Definition set_buffer_pos (p : Z) (s : stream_t) : stream_t :=
  {| get := get s; eof := eof s; data := data s; buffer := buffer s;
     buffer_pos := p |}.

Inductive lex_value : Type :=
| VIndeterminate
| VString (s : option (list Z))     (* [char *string], [None] is NULL *)
| VInteger (v : Z)
| VReal (d : c_double).

(** [lex_t]; its [column] is declared and never used. *)
Record lex_t : Type := {
  stream : stream_t;
  saved_text : strbuffer_t;
  token : Z;
  line : Z;
  value : lex_value
}.

Definition set_stream (s : stream_t) (l : lex_t) : lex_t :=
  {| stream := s; saved_text := saved_text l; token := token l;
     line := line l; value := value l |}.

Definition set_saved_text (b : strbuffer_t) (l : lex_t) : lex_t :=
  {| stream := stream l; saved_text := b; token := token l;
     line := line l; value := value l |}.

Definition set_token (t : Z) (l : lex_t) : lex_t :=
  {| stream := stream l; saved_text := saved_text l; token := t;
     line := line l; value := value l |}.

Definition set_line (n : Z) (l : lex_t) : lex_t :=
  {| stream := stream l; saved_text := saved_text l; token := token l;
     line := n; value := value l |}.

Definition set_value (v : lex_value) (l : lex_t) : lex_t :=
  {| stream := stream l; saved_text := saved_text l; token := token l;
     line := line l; value := v |}.

(** What the lexer works on: its own state and the allocator. *)
Record lexst : Type := {
  lex : lex_t;
  mem : memory
}.

Definition L (A : Type) : Type := M lexst A.

Definition on_lex {A} (m : M lex_t A) : L A :=
  fun s => match m (lex s) with
           | Ok (a, l) => Ok (a, {| lex := l; mem := mem s |})
           | Abort => Abort
           | Undef => Undef
           | OutOfFuel => OutOfFuel
           end.

Definition on_mem {A} (m : M memory A) : L A :=
  fun s => match m (mem s) with
           | Ok (a, h) => Ok (a, {| lex := lex s; mem := h |})
           | Abort => Abort
           | Undef => Undef
           | OutOfFuel => OutOfFuel
           end.

Definition on_stream {A} (m : M stream_t A) : M lex_t A :=
  fun l => match m (stream l) with
           | Ok (a, s) => Ok (a, set_stream s l)
           | Abort => Abort
           | Undef => Undef
           | OutOfFuel => OutOfFuel
           end.

(** *** The stream (lines 93-147) *)

Definition stream_init (g : D -> outcome (Z * D)) (e : D -> outcome bool)
  (d : D) : stream_t :=
  {| get := g; eof := e; data := d;
     buffer := [Some 0; None; None; None; None];
     buffer_pos := 0 |}.

(** [stream->buffer[i]] read and written. *)
Definition buffer_read (i : Z) : M stream_t Z :=
  fun s =>
    if (i <? 0) || (5 <=? i) then Undef
    else match nth_error (buffer s) (Z.to_nat i) with
         | Some (Some v) => Ok (v, s)
         | _ => Undef
         end.

Definition buffer_write (i : Z) (v : Z) : M stream_t unit :=
  fun s =>
    if (i <? 0) || (5 <=? i) then Undef
    else Ok (tt, set_buffer (list_set (Z.to_nat i) (Some v) (buffer s)) s).

(** [stream->get(stream->data)], converted to [char] by the store into
    the buffer. *)
Definition call_get : M stream_t Z :=
  fun s => match get s (data s) with
           | Ok (r, d) => Ok (to_char r, set_data d s)
           | Abort => Abort
           | Undef => Undef
           | OutOfFuel => OutOfFuel
           end.

Definition call_eof : M stream_t bool :=
  fun s => match eof s (data s) with
           | Ok b => Ok (b, s)
           | Abort => Abort
           | Undef => Undef
           | OutOfFuel => OutOfFuel
           end.

(** [for(i = 1; i < count; i++) stream->buffer[i] = stream->get(...)],
    with [n] iterations to go. *)
Fixpoint read_continuation (n : nat) (i : Z) : M stream_t unit :=
  match n with
  | O => ret tt
  | S n' =>
      c <- call_get ;;
      buffer_write i c ;;
      read_continuation n' (i + 1)
  end.

(** The first [n] bytes of the buffer, as [utf8_check_full] reads them. *)
Fixpoint buffer_prefix (n : nat) (i : Z) : M stream_t (list Z) :=
  match n with
  | O => ret []
  | S n' =>
      b <- buffer_read i ;;
      r <- buffer_prefix n' (i + 1) ;;
      ret (b :: r)
  end.

(** The refill of [stream_get]: [Some c] is an early [return c]. *)
Definition stream_fill : M stream_t (option Z) :=
  c <- call_get ;;
  buffer_write 0 c ;;
  modify (set_buffer_pos 0) ;;
  e <- (if c =? EOF then call_eof else ret false) ;;
  if e then ret (Some EOF)
  else if c <? 0 then
    (* multi-byte UTF-8 sequence *)
    let count := utf8_check_first c in
    if count =? 0 then ret (Some 0)
    else
      assert (ret (2 <=? count)) ;;
      read_continuation (Z.to_nat (count - 1)) 1 ;;
      bs <- buffer_prefix (Z.to_nat count) 0 ;;
      if negb (utf8_check_full bs count) then ret (Some 0)
      else (buffer_write count 0 ;; ret None)
  else (buffer_write 1 0 ;; ret None).

Definition stream_get : M stream_t Z :=
  p <- gets buffer_pos ;;
  b <- buffer_read p ;;
  r <- (if b =? 0 then stream_fill else ret None) ;;
  match r with
  | Some c => ret c
  | None =>
      p <- gets buffer_pos ;;
      c <- buffer_read p ;;
      modify (set_buffer_pos (p + 1)) ;;
      ret c
  end.

Definition stream_unget (c : Z) : M stream_t unit :=
  assert (p <- gets buffer_pos ;; ret (0 <? p)) ;;
  modify (fun s => set_buffer_pos (buffer_pos s - 1) s) ;;
  assert (p <- gets buffer_pos ;; b <- buffer_read p ;;
          ret (b =? to_uchar c)).

(** *** The lexer (lines 150-429) *)

Definition lex_get : L Z := on_lex (on_stream stream_get).

Definition lex_eof : L bool := on_lex (on_stream call_eof).

Definition lex_save (c : Z) : L unit :=
  on_lex (modify (fun l => set_saved_text
                             (strbuffer_append_byte (saved_text l) c) l)).

Definition lex_get_save : L Z :=
  c <- lex_get ;;
  lex_save c ;;
  ret c.

Definition lex_unget_unsave (c : Z) : L unit :=
  on_lex (on_stream (stream_unget c)) ;;
  b <- on_lex (gets saved_text) ;;
  let '(d, b') := strbuffer_pop b in
  on_lex (modify (set_saved_text b')) ;;
  assert (ret (c =? d)).

Definition lex_set_token (t : Z) : L unit := on_lex (modify (set_token t)).
Definition lex_set_value (v : lex_value) : L unit :=
  on_lex (modify (set_value v)).

(** The four hexadecimal digits after [\u]: [None] is [goto out], [Some c]
    is the character read after the fourth digit. *)
Fixpoint scan_hex (n : nat) (c : Z) : L (option Z) :=
  match n with
  | O => ret (Some c)
  | S n' =>
      if negb (isxdigit c) then (lex_unget_unsave c ;; ret None)
      else (c' <- lex_get_save ;; scan_hex n' c')
  end.

Definition is_shortcut_escape (c : Z) : bool :=
  (c =? QUOTE) || (c =? ch "\") || (c =? ch "/") || (c =? ch "b") ||
  (c =? ch "f") || (c =? ch "n") || (c =? ch "r") || (c =? ch "t").

(** The first loop of [lex_scan_string], up to the closing quote: [true]
    when the closing quote was reached, [false] for [goto out]. *)
Fixpoint scan_string_raw (fuel : nat) (c : Z) : L bool :=
  match fuel with
  | O => fail_fuel
  | S f =>
      if c =? QUOTE then ret true
      else
        e <- (if c =? EOF then lex_eof else ret false) ;;
        if e then ret false
        else if (0 <=? c) && (c <=? 31) then
          (* control character *)
          (lex_unget_unsave c ;; ret false)
        else if c =? ch "\" then
          c <- lex_get_save ;;
          if c =? ch "u" then
            c <- lex_get_save ;;
            r <- scan_hex 4 c ;;
            match r with
            | None => ret false
            | Some c => scan_string_raw f c
            end
          else if is_shortcut_escape c then
            (c <- lex_get_save ;; scan_string_raw f c)
          else (lex_unget_unsave c ;; ret false)
        else (c <- lex_get_save ;; scan_string_raw f c)
  end.

(** The byte a shortcut escape stands for (the [switch] of line 253). *)
Definition unescape (c : Z) : option Z :=
  if (c =? QUOTE) || (c =? ch "\") || (c =? ch "/") then Some c
  else if c =? ch "b" then Some 8
  else if c =? ch "f" then Some 12
  else if c =? ch "n" then Some 10
  else if c =? ch "r" then Some 13
  else if c =? ch "t" then Some 9
  else None.

(** The second loop of [lex_scan_string], again up to the closing quote,
    over the bytes at [p]: [Ok None] when it met [\u], [Ok (Some t)] with the bytes
    written to the target otherwise.  Past the saved text the loop reads
    the terminating NUL and then memory nobody wrote; [default: assert(0)]
    aborts, and without the assertion leaves the target byte unwritten. *)
Fixpoint decode_escapes (p : list Z) : outcome (option (list Z)) :=
  match p with
  | [] => Undef
  | c :: r =>
      if c =? QUOTE then Ok (Some [])
      else if c =? ch "\" then
        match r with
        | [] => if NDEBUG then Undef else Abort
        | e :: r' =>
            if e =? ch "u" then Ok None
            else match unescape e with
                 | Some b =>
                     obind (decode_escapes r')
                           (fun o => Ok (option_map (cons b) o))
                 | None => if NDEBUG then Undef else Abort
                 end
        end
      else obind (decode_escapes r) (fun o => Ok (option_map (cons c) o))
  end.

Definition lex_scan_string (fuel : nat) : L unit :=
  lex_set_token TOKEN_INVALID ;;
  (* skip the opening quote *)
  c <- lex_get_save ;;
  closed <- scan_string_raw fuel c ;;
  if negb closed then ret tt
  else
    got <- on_mem malloc ;;
    if negb got then lex_set_value (VString None)
    else
      saved <- on_lex (gets saved_text) ;;
      fun s =>
        match decode_escapes (tl saved) with
        | Ok None =>
            (* \uXXXX not supported yet *)
            (on_mem free ;; lex_set_value (VString None)) s
        | Ok (Some t) =>
            (lex_set_value (VString (Some t)) ;;
             lex_set_token TOKEN_STRING) s
        | Abort => Abort
        | Undef => Undef
        | OutOfFuel => OutOfFuel
        end.

(** [while(isdigit(c)) c = lex_get_save(lex);] *)
Fixpoint scan_digits (fuel : nat) (c : Z) : L Z :=
  match fuel with
  | O => fail_fuel
  | S f =>
      if isdigit c then (c' <- lex_get_save ;; scan_digits f c')
      else ret c
  end.

(** Lines 285-299 of [lex_scan_number]: the sign and the integer part.
    [None] is [goto out], [Some c] carries the character read last. *)
Definition scan_integer_part (fuel : nat) (c : Z) : L (option Z) :=
  c <- (if c =? ch "-" then lex_get_save else ret c) ;;
  if c =? ch "0" then
    c <- lex_get_save ;;
    if isdigit c then (lex_unget_unsave c ;; ret None)
    else ret (Some c)
  else
    c <- lex_get_save ;;
    c <- scan_digits fuel c ;;
    ret (Some c).

(** Lines 302-309: the token is an integer. *)
Definition finish_integer (c : Z) : L unit :=
  lex_unget_unsave c ;;
  lex_set_token TOKEN_INTEGER ;;
  saved <- on_lex (gets saved_text) ;;
  let '(v, e) := strtol (strbuffer_value saved) in
  lex_set_value (VInteger (to_int v)) ;;
  assert (ret (Nat.eqb e (List.length saved))).

(** Lines 312-321: the fraction. *)
Definition scan_fraction (fuel : nat) (c : Z) : L (option Z) :=
  if c =? ch "." then
    c <- lex_get ;;
    if negb (isdigit c) then ret None
    else
      lex_save c ;;
      c <- lex_get_save ;;
      c <- scan_digits fuel c ;;
      ret (Some c)
  else ret (Some c).

(** Lines 323-336: the exponent. *)
Definition scan_exponent (fuel : nat) (c : Z) : L (option Z) :=
  if (c =? ch "E") || (c =? ch "e") then
    c <- lex_get_save ;;
    c <- (if (c =? ch "+") || (c =? ch "-") then lex_get_save else ret c) ;;
    if negb (isdigit c) then (lex_unget_unsave c ;; ret None)
    else
      c <- lex_get_save ;;
      c <- scan_digits fuel c ;;
      ret (Some c)
  else ret (Some c).

(** Lines 338-343: the token is a real. *)
Definition finish_real (c : Z) : L unit :=
  lex_unget_unsave c ;;
  lex_set_token TOKEN_REAL ;;
  saved <- on_lex (gets saved_text) ;;
  let '(v, e) := strtod (strbuffer_value saved) in
  lex_set_value (VReal v) ;;
  assert (ret (Nat.eqb e (List.length saved))).

Definition lex_scan_number (fuel : nat) (c : Z) : L unit :=
  lex_set_token TOKEN_INVALID ;;
  r <- scan_integer_part fuel c ;;
  match r with
  | None => ret tt
  | Some c =>
      if negb (c =? ch ".") && negb (c =? ch "E") && negb (c =? ch "e") then
        finish_integer c
      else
        r <- scan_fraction fuel c ;;
        match r with
        | None => ret tt
        | Some c =>
            r <- scan_exponent fuel c ;;
            match r with
            | None => ret tt
            | Some c => finish_real c
            end
        end
  end.

Definition is_blank (c : Z) : bool :=
  (c =? ch " ") || (c =? 9) || (c =? 10) || (c =? 13).

(** [while(c == ' ' || c == '\t' || c == '\n' || c == '\r')] of
    [lex_scan]. *)
Fixpoint skip_blanks (fuel : nat) (c : Z) : L Z :=
  match fuel with
  | O => fail_fuel
  | S f =>
      if is_blank c then
        (if c =? 10 then on_lex (modify (fun l => set_line (line l + 1) l))
         else ret tt) ;;
        c' <- lex_get ;;
        skip_blanks f c'
      else ret c
  end.

(** [while(isupper(c) || islower(c)) c = lex_get_save(lex);] *)
Fixpoint scan_letters (fuel : nat) (c : Z) : L Z :=
  match fuel with
  | O => fail_fuel
  | S f =>
      if isupper c || islower c then (c' <- lex_get_save ;; scan_letters f c')
      else ret c
  end.

Definition is_punctuation (c : Z) : bool :=
  (c =? ch "{") || (c =? ch "}") || (c =? ch "[") || (c =? ch "]") ||
  (c =? ch ":") || (c =? ch ",").

(** [lex_scan] up to its label [out]. *)
Definition lex_scan_token (fuel : nat) : L unit :=
  on_lex (modify (set_saved_text [])) ;;
  tok <- on_lex (gets token) ;;
  (if tok =? TOKEN_STRING then
     v <- on_lex (gets value) ;;
     (match v with
      | VString (Some _) => on_mem free
      | VString None => ret tt
      | _ => fail_undef
      end) ;;
     lex_set_value (VString None)
   else ret tt) ;;
  c <- lex_get ;;
  c <- skip_blanks fuel c ;;
  e <- (if c =? EOF then lex_eof else ret false) ;;
  if e then lex_set_token TOKEN_EOF
  else
    lex_save c ;;
    if is_punctuation c then lex_set_token c
    else if c =? QUOTE then lex_scan_string fuel
    else if isdigit c || (c =? ch "-") then lex_scan_number fuel c
    else if isupper c || islower c then
      (* eat up the whole identifier for clearer error messages *)
      c <- lex_get_save ;;
      c <- scan_letters fuel c ;;
      lex_unget_unsave c ;;
      saved <- on_lex (gets saved_text) ;;
      if strcmp_eq saved "true" then lex_set_token TOKEN_TRUE
      else if strcmp_eq saved "false" then lex_set_token TOKEN_FALSE
      else if strcmp_eq saved "null" then lex_set_token TOKEN_NULL
      else lex_set_token TOKEN_INVALID
    else lex_set_token TOKEN_INVALID.

(** [lex_scan]: [return lex->token;] after the label. *)
Definition lex_scan (fuel : nat) : L Z :=
  lex_scan_token fuel ;;
  on_lex (gets token).

(** [lex_init] on the indeterminate [lex_t] of the caller's frame; the
    result is -1 when the string buffer could not be set up. *)
Definition lex_init (g : D -> outcome (Z * D)) (e : D -> outcome bool)
  (d : D) (m : memory) : outcome (Z * lexst) :=
  match alloc_ok m with
  | Ok (ok, m') =>
      let l0 := {| stream := stream_init g e d; saved_text := [];
                   token := 0; line := 0; value := VIndeterminate |} in
      if ok then
        Ok (0, {| lex := set_line 1 (set_token TOKEN_INVALID l0); mem := m' |})
      else Ok (-1, {| lex := l0; mem := m' |})
  | Abort => Abort
  | Undef => Undef
  | OutOfFuel => OutOfFuel
  end.

Definition lex_close : L unit :=
  tok <- on_lex (gets token) ;;
  if tok =? TOKEN_STRING then
    v <- on_lex (gets value) ;;
    match v with
    | VString (Some _) => on_mem free
    | VString None => ret tt
    | _ => fail_undef
    end
  else ret tt.

End Load.

(** ** Error reporting (lines 55-88) *)

(** [json_error_t] of jansson.h: the line and the text, a [char] array of
    [JSON_ERROR_TEXT_LENGTH] bytes. *)
Record json_error_t : Type := {
  error_line : Z;
  error_text : string
}.

(** [snprintf(dst, size, "%s", s)]: at most [size - 1] characters are
    written. *)
Definition snprintf (size : nat) (s : string) : string :=
  substring 0 (size - 1) s.

Section Parser.

Context {P : Platform}.
Context {D : Type}.

(** [error_set(error, lex, msg, ...)]: [msg] is the format with its
    arguments filled in; [error] and [lex] are [None] for NULL.  The
    result is what [*error] holds afterwards. *)
Definition error_set (error : option json_error_t) (lex : option (@lex_t D))
  (msg : string) : option json_error_t :=
  match error with
  | None => None
  | Some _ =>
      let text := snprintf JSON_ERROR_TEXT_LENGTH msg in
      match lex with
      | Some lex =>
          let saved_text := strbuffer_value (saved_text lex) in
          match saved_text with
          | _ :: _ =>
              Some {| error_line := line lex;
                      error_text :=
                        snprintf JSON_ERROR_TEXT_LENGTH
                          (text ++ " near '" ++ string_of_bytes saved_text
                                ++ "'")%string |}
          | [] =>
              Some {| error_line := line lex;
                      error_text :=
                        snprintf JSON_ERROR_TEXT_LENGTH
                          (text ++ " near end of file")%string |}
          end
      | None =>
          Some {| error_line := -1;
                  error_text := snprintf JSON_ERROR_TEXT_LENGTH text |}
      end
  end.

(** ** The parser (lines 434-606) *)

(** The parser works on the lexer's state and on [*error]. *)
Record parst : Type := {
  ls : @lexst D;
  err : option json_error_t
}.

Definition set_err (e : option json_error_t) (s : parst) : parst :=
  {| ls := ls s; err := e |}.

Definition PM (A : Type) : Type := M parst A.

Definition lexer {A} (m : @L D A) : PM A :=
  fun s => match m (ls s) with
           | Ok (a, l) => Ok (a, {| ls := l; err := err s |})
           | Abort => Abort
           | Undef => Undef
           | OutOfFuel => OutOfFuel
           end.

Definition heap {A} (m : M memory A) : PM A := lexer (on_mem m).

(** [error_set(error, lex, msg)] with the parser's two arguments. *)
Definition parse_error (msg : string) : PM unit :=
  modify (fun s => set_err (error_set (err s) (Some (lex (ls s))) msg) s).

Definition cur_token : PM Z := lexer (on_lex (gets token)).

(** The loop budget handed to every loop. *)
Variable budget : nat.

Section Productions.

(** [parse_value], declared ahead (line 434). *)
Variable parse_value : PM (option nat).

(** [error: json_decref(object); return NULL;] *)
Definition release_and_fail (node : nat) : PM (option nat) :=
  heap (json_decref node) ;;
  ret None.

(** [while(1)] of [parse_object]; the code after the loop is the [break]
    branch. *)
Fixpoint parse_object_loop (fuel : nat) (object : nat) : PM (option nat) :=
  match fuel with
  | O => fail_fuel
  | S f =>
      tok <- cur_token ;;
      if negb (tok =? TOKEN_STRING) then
        parse_error "string or '}' expected" ;;
        release_and_fail object
      else
        v <- lexer (on_lex (gets value)) ;;
        match v with
        | VString (Some key) =>
            got <- heap malloc ;;                  (* strdup *)
            if negb got then ret None
            else
              lexer (lex_scan budget) ;;
              tok <- cur_token ;;
              if negb (tok =? ch ":") then
                heap free ;;
                parse_error "':' expected" ;;
                release_and_fail object
              else
                lexer (lex_scan budget) ;;
                value <- parse_value ;;
                match value with
                | None =>
                    heap free ;;
                    release_and_fail object
                | Some value =>
                    r <- heap (json_object_set_nocheck object key value) ;;
                    if negb (r =? 0) then
                      heap free ;;
                      heap (json_decref value) ;;
                      release_and_fail object
                    else
                      heap (json_decref value) ;;
                      heap free ;;
                      lexer (lex_scan budget) ;;
                      tok <- cur_token ;;
                      if negb (tok =? ch ",") then
                        if negb (tok =? ch "}") then
                          parse_error "'}' expected" ;;
                          release_and_fail object
                        else ret (Some object)
                      else
                        lexer (lex_scan budget) ;;
                        parse_object_loop f object
                end
        | _ => fail_undef
        end
  end.

Definition parse_object : PM (option nat) :=
  object <- heap json_object ;;
  match object with
  | None => ret None
  | Some object =>
      lexer (lex_scan budget) ;;
      tok <- cur_token ;;
      if tok =? ch "}" then ret (Some object)
      else parse_object_loop budget object
  end.

(** [while(lex->token)] of [parse_array], with the code after it. *)
Fixpoint parse_array_loop (fuel : nat) (array : nat) : PM (option nat) :=
  match fuel with
  | O => fail_fuel
  | S f =>
      tok <- cur_token ;;
      let after :=
        tok <- cur_token ;;
        if negb (tok =? ch "]") then
          parse_error "']' expected" ;;
          release_and_fail array
        else ret (Some array) in
      if tok =? 0 then after
      else
        elem <- parse_value ;;
        match elem with
        | None => release_and_fail array
        | Some elem =>
            r <- heap (json_array_append array elem) ;;
            if negb (r =? 0) then
              heap (json_decref elem) ;;
              release_and_fail array
            else
              heap (json_decref elem) ;;
              lexer (lex_scan budget) ;;
              tok <- cur_token ;;
              if negb (tok =? ch ",") then after
              else
                lexer (lex_scan budget) ;;
                parse_array_loop f array
        end
  end.

Definition parse_array : PM (option nat) :=
  array <- heap json_array ;;
  match array with
  | None => ret None
  | Some array =>
      lexer (lex_scan budget) ;;
      tok <- cur_token ;;
      if tok =? ch "]" then ret (Some array)
      else parse_array_loop budget array
  end.

(** The body of [parse_value]. *)
Definition parse_value_body : PM (option nat) :=
  tok <- cur_token ;;
  v <- lexer (on_lex (gets value)) ;;
  if tok =? TOKEN_STRING then
    match v with
    | VString (Some s) => heap (json_string_nocheck s)
    | _ => fail_undef
    end
  else if tok =? TOKEN_INTEGER then
    match v with
    | VInteger i => heap (json_integer i)
    | _ => fail_undef
    end
  else if tok =? TOKEN_REAL then
    match v with
    | VReal d => heap (json_real d)
    | _ => fail_undef
    end
  else if tok =? TOKEN_TRUE then heap json_true
  else if tok =? TOKEN_FALSE then heap json_false
  else if tok =? TOKEN_NULL then heap json_null
  else if tok =? ch "{" then parse_object
  else if tok =? ch "[" then parse_array
  else if tok =? TOKEN_INVALID then
    (parse_error "invalid token" ;; ret None)
  else (parse_error "unexpected token" ;; ret None).

End Productions.

(** [parse_value]: one unit of [depth] for each level of nesting. *)
Fixpoint parse_value (depth : nat) : PM (option nat) :=
  match depth with
  | O => fail_fuel
  | S d => parse_value_body (parse_value d)
  end.

Definition parse_json : PM (option nat) :=
  lexer (lex_scan budget) ;;
  tok <- cur_token ;;
  if negb (tok =? ch "[") && negb (tok =? ch "{") then
    parse_error "'[' or '{' expected" ;;
    ret None
  else parse_value budget.

End Parser.

(** ** The entry points and their byte sources (lines 608-691) *)

(** A [FILE *] opened for reading: the bytes not read yet and the
    end-of-file indicator, which [fgetc] sets when it finds nothing left
    and [feof] reports. *)
Record FILE : Type := {
  unread : list Z;
  at_eof : bool
}.

Definition fgetc (f : FILE) : outcome (Z * FILE) :=
  match unread f with
  | [] => Ok (EOF, {| unread := []; at_eof := true |})
  | b :: r => Ok (to_uchar b, {| unread := r; at_eof := at_eof f |})
  end.

Definition feof (f : FILE) : outcome bool := Ok (at_eof f).

(** [string_data_t]: [str_data] is the memory [data] points to, as far as
    it belongs to the caller's object; [str_pos] is [pos]. *)
Record string_data_t : Type := {
  str_data : list Z;
  str_pos : Z
}.

(** [stream->data[i]]: outside the caller's object the read is
    undefined. *)
Definition str_read (d : string_data_t) (i : Z) : outcome Z :=
  if i <? 0 then Undef
  else match nth_error (str_data d) (Z.to_nat i) with
       | Some c => Ok (to_char c)
       | None => Undef
       end.

Definition string_get (d : string_data_t) : outcome (Z * string_data_t) :=
  obind (str_read d (str_pos d))
        (fun c =>
           let d' := {| str_data := str_data d; str_pos := str_pos d + 1 |} in
           if c =? 0 then Ok (EOF, d') else Ok (c, d')).

Definition string_eof (d : string_data_t) : outcome bool :=
  obind (str_read d (str_pos d)) (fun c => Ok (c =? 0)).

Section Entry.

Context {P : Platform}.

Variable budget : nat.

(** What a call leaves behind: the result ([None] is NULL), the error
    record and the memory. *)
Definition finish {D A} (r : outcome (A * @parst D))
  : outcome (A * option json_error_t * memory) :=
  obind r (fun '(a, s) => Ok (a, err s, mem (ls s))).

Definition json_loads (string : list Z) (error : option json_error_t)
  (m : memory) : outcome (option nat * option json_error_t * memory) :=
  obind (lex_init string_get string_eof
                  {| str_data := string; str_pos := 0 |} m)
    (fun '(r, l) =>
       if negb (r =? 0) then Ok (None, error, mem l)
       else
         finish
           ((result <- parse_json budget ;;
             result <- match result with
                       | None => ret None
                       | Some node =>
                           lexer (lex_scan budget) ;;
                           tok <- cur_token ;;
                           if negb (tok =? TOKEN_EOF) then
                             parse_error "end of file expected" ;;
                             heap (json_decref node) ;;
                             ret None
                           else ret (Some node)
                       end ;;
             lexer lex_close ;;
             ret result) {| ls := l; err := error |})).

Definition json_loadf (input : FILE) (error : option json_error_t)
  (m : memory) : outcome (option nat * option json_error_t * memory) :=
  obind (lex_init fgetc feof input m)
    (fun '(r, l) =>
       if negb (r =? 0) then Ok (None, error, mem l)
       else
         finish
           ((result <- parse_json budget ;;
             lexer lex_close ;;
             ret result) {| ls := l; err := error |})).

(** [json_load]: [fopen] gives the stream, or the text of
    [strerror(errno)]. *)
Definition json_load (fopen : string -> FILE + string) (path : string)
  (error : option json_error_t) (m : memory)
  : outcome (option nat * option json_error_t * memory) :=
  match fopen path with
  | inr reason =>
      Ok (None,
          error_set (D := FILE) error None
                    ("unable to open " ++ path ++ ": " ++ reason)%string,
          m)
  | inl fp => json_loadf fp error m
  end.

End Entry.

(** ** A concrete platform *)

(** Modelled from the spec: utf.h is not part of [load.c].  The length of
    a sequence is read off "the leading byte's bit pattern" ([110xxxxx],
    [1110xxxx], [11110xxx]; anything else is no leading byte). *)
Definition utf8_first (byte : Z) : Z :=
  let u := to_uchar byte in
  if u <? 128 then 1
  else if (192 <=? u) && (u <=? 223) then 2
  else if (224 <=? u) && (u <=? 239) then 3
  else if (240 <=? u) && (u <=? 247) then 4
  else 0.

Fixpoint utf8_continuation (acc : Z) (l : list Z) : option Z :=
  match l with
  | [] => Some acc
  | b :: r =>
      let u := to_uchar b in
      if (128 <=? u) && (u <=? 191)
      then utf8_continuation (acc * 64 + (u - 128)) r
      else None
  end.

(** Modelled from the spec: the full sequence is well formed when its
    continuation bytes are [10xxxxxx] and the code point is neither
    overlong, nor a surrogate, nor beyond U+10FFFF ("rejecting overlong
    encodings, surrogate-range codepoints, and truncated sequences"). *)
Definition utf8_full (bytes : list Z) (size : Z) : bool :=
  match bytes with
  | [] => false
  | b :: r =>
      let u := to_uchar b in
      let lead := if size =? 2 then u - 192
                  else if size =? 3 then u - 224
                  else u - 240 in
      if negb ((2 <=? size) && (size <=? 4)) then false
      else match utf8_continuation lead r with
           | None => false
           | Some v =>
               negb (1114111 <? v) &&
               negb ((55296 <=? v) && (v <=? 57343)) &&
               negb (((size =? 2) && (v <? 128)) ||
                     ((size =? 3) && (v <? 2048)) ||
                     ((size =? 4) && (v <? 65536)))
           end
  end.

(** A build with assertions and a 64-bit [long]; the text of an error has
    160 bytes. *)
Definition debug_build : Platform :=
  {| NDEBUG := false;
     JSON_ERROR_TEXT_LENGTH := 160;
     LONG_BITS := 64;
     utf8_check_first := utf8_first;
     utf8_check_full := utf8_full |}.

(** The same with [NDEBUG] defined. *)
Definition release_build : Platform :=
  {| NDEBUG := true;
     JSON_ERROR_TEXT_LENGTH := 160;
     LONG_BITS := 64;
     utf8_check_first := utf8_first;
     utf8_check_full := utf8_full |}.

(** A build with assertions and a 32-bit [long]. *)
Definition debug_build32 : Platform :=
  {| NDEBUG := false;
     JSON_ERROR_TEXT_LENGTH := 160;
     LONG_BITS := 32;
     utf8_check_first := utf8_first;
     utf8_check_full := utf8_full |}.

Definition empty_memory : memory :=
  {| nodes := []; blocks := 0; allocs := [] |}.

Definition file_of (s : string) : FILE :=
  {| unread := bytes_of_string s; at_eof := false |}.

(** The memory of a C string literal: its bytes, the terminating NUL, and
    the bytes [after] it that belong to the same object. *)
Definition c_string (s : list Z) (after : list Z) : list Z :=
  s ++ 0 :: after.

(** * The vocabulary of the properties *)

(** ** Documents, files and memories used as examples *)

(** A JSON text written with a backquote for each double quote. *)
Definition json_text (s : string) : list Z :=
  map (fun c => if c =? 96 then QUOTE else c) (bytes_of_string s).

Definition file_with (l : list Z) : FILE := {| unread := l; at_eof := false |}.

(** An error record as the caller may hand it in. *)
Definition blank_error : json_error_t :=
  {| error_line := 0; error_text := "" |}.

Definition memory_with (plan : list bool) : memory :=
  {| nodes := []; blocks := 0; allocs := plan |}.

Definition integer_node (v : Z) : option json_t :=
  Some {| refcount := 1; body := JInteger v |}.

(** The allocations of a parse of an object with one member, in order:
    the string buffer, the object, the payload of the key token, the copy
    of the key, the member's value, the insertion. *)
Definition fail_at (n : nat) : list bool := repeat true n ++ [false].

Definition count_key (key : list Z) (ms : list (list Z * nat)) : nat :=
  List.length (filter (fun m => list_eqb (fst m) key) ms).

(** The lexer as [lex_init] leaves it on a file holding [input]. *)
Definition lexing (input : list Z) : @lexst FILE :=
  {| lex := {| stream := stream_init fgetc feof (file_with input);
               saved_text := []; token := TOKEN_INVALID; line := 1;
               value := VIndeterminate |};
     mem := empty_memory |}.

(** The parser's state on a file holding [input], before the first
    token. *)
Definition parsing (input : list Z) (error : option json_error_t)
  : @parst FILE :=
  {| ls := lexing input; err := error |}.

(** The state a computation ends in (the state it began in when it does
    not return). *)
Definition state_after {S A} (m : M S A) (s : S) : S :=
  match m s with
  | Ok (_, s') => s'
  | _ => s
  end.

Definition result_of {S A} (m : M S A) (s : S) : option A :=
  match m s with
  | Ok (a, _) => Some a
  | _ => None
  end.

(** [lex_scan] has read the opening quote of a string and saved it. *)
Definition quote_read {P : Platform} (input : list Z) : @lexst FILE :=
  state_after (c <- lex_get ;; lex_save c) (lexing input).

(** The document with a repeated key, read from a file or from a string
    (with one more NUL after the terminating one). *)
Definition load_repeated_key {P : Platform} (from_string : bool)
  : outcome (option nat * option json_error_t * memory) :=
  if from_string then
    json_loads 100 (c_string (json_text "{`a`:1,`a`:2}") [0])
               (Some blank_error) empty_memory
  else
    json_loadf 100 (file_with (json_text "{`a`:1,`a`:2}"))
               (Some blank_error) empty_memory.

(** ** Results without the error record *)

(** What a parser computation yields when the error record is left out of
    the picture. *)
Definition forget {D A} (r : outcome (A * @parst D)) : outcome (A * @lexst D) :=
  match r with
  | Ok (a, s) => Ok (a, ls s)
  | Abort => Abort
  | Undef => Undef
  | OutOfFuel => OutOfFuel
  end.

(** A computation is blind to the error record when this does not depend
    on what [*error] holds, nor on whether there is one. *)
Definition blind {D A} (m : @PM D A) : Prop :=
  forall s1 s2, ls s1 = ls s2 -> forget (m s1) = forget (m s2).

(** The result of an entry point without the error record: the tree and
    the memory. *)
Definition tree_of (r : outcome (option nat * option json_error_t * memory))
  : outcome (option nat * memory) :=
  match r with
  | Ok (a, _, m) => Ok (a, m)
  | Abort => Abort
  | Undef => Undef
  | OutOfFuel => OutOfFuel
  end.

(** ** What a scanning step leaves alone *)

(** [frame s s']: the token, the line, the payload and the memory are the
    same in [s'] as in [s]. *)
Definition frame {D} (s s' : @lexst D) : Prop :=
  token (lex s') = token (lex s) /\ line (lex s') = line (lex s) /\
  value (lex s') = value (lex s) /\ mem s' = mem s.

(** ** The text of a string literal *)

(** What stands between the quotes of a string: characters that stand
    for themselves, two-character escapes, and [\u] with four digits. *)
Inductive piece : Type :=
| Plain (c : Z)
| Shortcut (e : Z)
| Unicode (h1 h2 h3 h4 : Z).

Definition piece_text (p : piece) : list Z :=
  match p with
  | Plain c => [c]
  | Shortcut e => [ch "\"; e]
  | Unicode h1 h2 h3 h4 => [ch "\"; ch "u"; h1; h2; h3; h4]
  end.

(** The two-character escapes and the byte each one stands for: quote,
    backslash, slash, backspace, form feed, newline, carriage return,
    tab. *)
Definition escape_table : list (Z * Z) :=
  [(QUOTE, QUOTE); (ch "\", ch "\"); (ch "/", ch "/"); (ch "b", 8);
   (ch "f", 12); (ch "n", 10); (ch "r", 13); (ch "t", 9)].

Fixpoint table_find (e : Z) (t : list (Z * Z)) : option Z :=
  match t with
  | [] => None
  | (k, v) :: r => if k =? e then Some v else table_find e r
  end.

Definition piece_ok (p : piece) : bool :=
  match p with
  | Plain c =>
      negb (c =? QUOTE) && negb (c =? ch "\") &&
      negb ((0 <=? c) && (c <=? 31))
  | Shortcut e =>
      match table_find e escape_table with Some _ => true | None => false end
  | Unicode h1 h2 h3 h4 =>
      isxdigit h1 && isxdigit h2 && isxdigit h3 && isxdigit h4
  end.

Definition is_unicode (p : piece) : bool :=
  match p with Unicode _ _ _ _ => true | _ => false end.

Definition piece_byte (p : piece) : Z :=
  match p with
  | Plain c => c
  | Shortcut e => match table_find e escape_table with
                  | Some b => b
                  | None => 0
                  end
  | Unicode _ _ _ _ => 0
  end.

Definition body_text (ps : list piece) : list Z := flat_map piece_text ps.

(** The raw text of the literal: the pieces between two quotes. *)
Definition literal_text (ps : list piece) : list Z :=
  QUOTE :: body_text ps ++ [QUOTE].

(** ** The text of a number literal *)

(** A number as the grammar has it: an optional minus sign, the digits of
    the integer part, the digits of the fraction (none when there is no
    fraction), and the exponent: its letter, its sign (empty, plus or
    minus) and its digits. *)
Record number_literal : Type := {
  minus : bool;
  integer : list Z;
  fraction : list Z;
  exponent : option (Z * list Z * list Z)
}.

Definition sign_text (n : number_literal) : list Z :=
  if minus n then [ch "-"] else [].

Definition fraction_text (n : number_literal) : list Z :=
  match fraction n with
  | [] => []
  | ds => ch "." :: ds
  end.

Definition exponent_text (n : number_literal) : list Z :=
  match exponent n with
  | None => []
  | Some (e, sg, ds) => e :: sg ++ ds
  end.

Definition number_text (n : number_literal) : list Z :=
  sign_text n ++ integer n ++ fraction_text n ++ exponent_text n.

(** The integer part is a single zero, or begins with another digit. *)
Definition integer_ok (l : list Z) : bool :=
  match l with
  | [] => false
  | d :: ds =>
      isdigit d && forallb isdigit ds &&
      (negb (d =? ch "0") || match ds with [] => true | _ => false end)
  end.

Definition exponent_ok (x : option (Z * list Z * list Z)) : bool :=
  match x with
  | None => true
  | Some (e, sg, ds) =>
      ((e =? ch "e") || (e =? ch "E")) &&
      match sg with
      | [] => true
      | [c] => (c =? ch "+") || (c =? ch "-")
      | _ => false
      end &&
      forallb isdigit ds && match ds with [] => false | _ => true end
  end.

Definition number_ok (n : number_literal) : bool :=
  integer_ok (integer n) && forallb isdigit (fraction n) &&
  exponent_ok (exponent n).

(** No fraction part and no exponent part. *)
Definition is_integer (n : number_literal) : bool :=
  match fraction n, exponent n with
  | [], None => true
  | _, _ => false
  end.

(** The number an integer literal denotes. *)
Definition integer_value (n : number_literal) : Z :=
  let v := digits_value 0 (integer n) in
  if minus n then - v else v.

(** A character that cannot continue a number. *)
Definition ends_number (x : Z) : bool :=
  (0 <? x) && (x <? 128) && negb (isdigit x) && negb (x =? ch ".") &&
  negb (x =? ch "e") && negb (x =? ch "E").

(** [p] fails on the first element of [r], if there is one. *)
Definition stops (p : Z -> bool) (r : list Z) : Prop :=
  match r with
  | [] => True
  | x :: _ => p x = false
  end.

(** ** What the lexer is about to read *)

Definition ascii (c : Z) : Prop := 0 < c < 128.

Section SourceView.

Context {D : Type}.

(** What the source still holds, as a list of characters: [view] reads it
    off the handle. *)
Variable view : D -> list Z.

(** The source hands out the ASCII characters of its view one by one. *)
Definition source_ok (st : @stream_t D) : Prop :=
  forall d c r, view d = c :: r -> ascii c ->
    exists d', get st d = Ok (c, d') /\ view d' = r.

(** The buffer is used up: the next [stream_get] refills it. *)
Definition drained (st : @stream_t D) : Prop :=
  List.length (buffer st) = 5%nat /\
  buffer_read (buffer_pos st) st = Ok (0, st).

(** [c] is the one character in the buffer and [buffer_pos] is [pos]. *)
Definition holds (st : @stream_t D) (c : Z) (pos : Z) : Prop :=
  buffer_pos st = pos /\
  exists b2 b3 b4, buffer st = [Some c; Some 0; b2; b3; b4].

(** The characters the stream gives next are [cs], all that is left. *)
Inductive pending (st : @stream_t D) : list Z -> Prop :=
| pending_source :
    drained st -> pending st (view (data st))
| pending_pushed c :
    ascii c -> holds st c 0 -> pending st (c :: view (data st)).

(** The lexer will read [cs] next. *)
Definition reading (s : @lexst D) (cs : list Z) : Prop :=
  source_ok (stream (lex s)) /\ pending (stream (lex s)) cs.

(** The lexer has just read [c], and [cs] is what the source holds. *)
Definition read_last (s : @lexst D) (c : Z) (cs : list Z) : Prop :=
  source_ok (stream (lex s)) /\ holds (stream (lex s)) c 1 /\
  view (data (stream (lex s))) = cs.

End SourceView.

(** What a file still holds. *)
Definition file_view (f : FILE) : list Z := unread f.

(** What a string source still holds: the memory from [pos] on. *)
Definition string_view (d : string_data_t) : list Z :=
  if str_pos d <? 0 then [] else skipn (Z.to_nat (str_pos d)) (str_data d).

(** The token [lex_scan] returns on a file holding [text], and the
    payload it leaves. *)
Definition scanned {P : Platform} (text : string) : option Z * lex_value :=
  (result_of (lex_scan 100) (lexing (json_text text)),
   value (lex (state_after (lex_scan 100) (lexing (json_text text))))).

(** ** White space, tokens and the state between two tokens *)

(** The number of newline characters of a text. *)
Fixpoint newlines (ws : list Z) : Z :=
  match ws with
  | [] => 0
  | c :: r => (if c =? 10 then 1 else 0) + newlines r
  end.

(** The payload of a string token is [value.string]. *)
Definition payload_ok {D} (s : @lexst D) : Prop :=
  token (lex s) = TOKEN_STRING -> exists o, value (lex s) = VString o.

(** What [lex_scan] makes of the token before it reads: the saved text is
    cleared, the payload of a string token is freed and set to NULL. *)
Definition released {D} (s : @lexst D) : @lexst D :=
  if token (lex s) =? TOKEN_STRING then
    {| lex := set_value (VString None) (set_saved_text [] (lex s));
       mem := match value (lex s) with
              | VString (Some _) => set_blocks (blocks (mem s) - 1) (mem s)
              | _ => mem s
              end |}
  else {| lex := set_saved_text [] (lex s); mem := mem s |}.

(** The token of an identifier. *)
Definition word_token (w : list Z) : Z :=
  if strcmp_eq w "true" then TOKEN_TRUE
  else if strcmp_eq w "false" then TOKEN_FALSE
  else if strcmp_eq w "null" then TOKEN_NULL
  else TOKEN_INVALID.

Definition is_letter (c : Z) : bool := isupper c || islower c.

(** Where its view is [tail] the source has come to its end: it returns
    EOF and reports the end.  [tail] is empty for a file; a string ends
    before the terminating NUL. *)
Definition source_end {D} (view : D -> list Z) (tail : list Z)
  (st : @stream_t D) : Prop :=
  forall d, view d = tail ->
    exists d', get st d = Ok (EOF, d') /\ eof st d' = Ok true.

(** Where its view is [tail] the source returns EOF and the question
    whether it has ended reads outside the caller's object. *)
Definition source_breaks {D} (view : D -> list Z) (tail : list Z)
  (st : @stream_t D) : Prop :=
  forall d, view d = tail ->
    exists d', get st d = Ok (EOF, d') /\ eof st d' = Undef.

(** Where its view is [tail] the source returns EOF and denies that it
    has ended. *)
Definition source_passes {D} (view : D -> list Z) (tail : list Z)
  (st : @stream_t D) : Prop :=
  forall d, view d = tail ->
    exists d', get st d = Ok (EOF, d') /\ eof st d' = Ok false.

(** No character of a token begins [tail]. *)
Definition no_token (tail : list Z) : Prop :=
  match tail with
  | [] => True
  | c :: _ => ~ ascii c
  end.

(** A piece whose characters are ASCII. *)
Definition piece_ascii (p : piece) : bool :=
  match p with
  | Plain c => (0 <? c) && (c <? 128)
  | _ => true
  end.

(** The memory after an allocation of a block that succeeded. *)
Definition allocated (m : memory) : memory :=
  {| nodes := nodes m; blocks := blocks m + 1; allocs := tl (allocs m) |}.

(** The next allocation succeeds. *)
Definition can_allocate (m : memory) : Prop := hd true (allocs m) = true.

(** ** Documents of the grammar *)

(** A JSON value as it is written: the pieces of a string, the literal of
    a number, the members and the elements in their order. *)
Unset Elimination Schemes.
Inductive doc : Type :=
| DObject (ms : list (list piece * doc))
| DArray (es : list doc)
| DString (ps : list piece)
| DNumber (n : number_literal)
| DTrue
| DFalse
| DNull.
Set Elimination Schemes.

(** Lists of tokens with a comma between them. *)
Fixpoint separated (l : list (list (list Z))) : list (list Z) :=
  match l with
  | [] => []
  | a :: r =>
      match r with
      | [] => a
      | _ :: _ => a ++ [ch ","] :: separated r
      end
  end.

(** The tokens of a value as they are written, in their order. *)
Fixpoint token_texts (v : doc) : list (list Z) :=
  match v with
  | DObject ms =>
      [ch "{"] ::
      separated (map (fun m : list piece * doc =>
                        let (k, x) := m in
                        literal_text k :: [ch ":"] :: token_texts x) ms) ++
      [[ch "}"]]
  | DArray es =>
      [ch "["] :: separated (map token_texts es) ++ [[ch "]"]]
  | DString ps => [literal_text ps]
  | DNumber n => [number_text n]
  | DTrue => [bytes_of_string "true"]
  | DFalse => [bytes_of_string "false"]
  | DNull => [bytes_of_string "null"]
  end.

(** A text: the tokens [ts], numbered from [i], each with its white space
    before it, [sp j] before the token of number [j]. *)
Fixpoint layout (sp : nat -> list Z) (i : nat) (ts : list (list Z))
  : list Z :=
  match ts with
  | [] => []
  | t :: r => sp i ++ t ++ layout sp (S i) r
  end.

(** The number of tokens of a value. *)
Definition tokens (v : doc) : nat := List.length (token_texts v).

Section DocText.

(** The layout of a text: [sp i] is the white space written before the
    token of number [i], the tokens of the text counted from its start. *)
Variable sp : nat -> list Z.

(** The text of a value whose first token has the number [i], by
    recursion on the value: it is [layout sp i (token_texts v)]. *)
Fixpoint doc_text (i : nat) (v : doc) : list Z :=
  sp i ++
  match v with
  | DObject ms =>
      ch "{" ::
      match ms with
      | [] => sp (S i) ++ [ch "}"]
      | (k, x) :: r =>
          sp (S i) ++ literal_text k ++ sp (S (S i)) ++ ch ":" ::
          doc_text (S (S (S i))) x ++
          (fix tail (j : nat) (r : list (list piece * doc)) : list Z :=
             match r with
             | [] => sp j ++ [ch "}"]
             | (k, x) :: r' =>
                 sp j ++ ch "," :: sp (S j) ++ literal_text k ++
                 sp (S (S j)) ++ ch ":" ::
                 doc_text (S (S (S j))) x ++
                 tail (S (S (S j)) + tokens x)%nat r'
             end) (S (S (S i)) + tokens x)%nat r
      end
  | DArray es =>
      ch "[" ::
      match es with
      | [] => sp (S i) ++ [ch "]"]
      | e :: r =>
          doc_text (S i) e ++
          (fix tail (j : nat) (r : list doc) : list Z :=
             match r with
             | [] => sp j ++ [ch "]"]
             | e :: r' =>
                 sp j ++ ch "," :: doc_text (S j) e ++
                 tail (S j + tokens e)%nat r'
             end) (S i + tokens e)%nat r
      end
  | DString ps => literal_text ps
  | DNumber n => number_text n
  | DTrue => bytes_of_string "true"
  | DFalse => bytes_of_string "false"
  | DNull => bytes_of_string "null"
  end.

(** What follows an element of an array: the elements [r] that remain and
    the closing bracket; the comma or the bracket that comes first is the
    token of number [j]. *)
Fixpoint array_tail (j : nat) (r : list doc) : list Z :=
  match r with
  | [] => sp j ++ [ch "]"]
  | e :: r' =>
      sp j ++ ch "," :: doc_text (S j) e ++ array_tail (S j + tokens e)%nat r'
  end.

(** A member whose key is the token of number [j]. *)
Definition member_text (j : nat) (m : list piece * doc) : list Z :=
  sp j ++ literal_text (fst m) ++ sp (S j) ++ ch ":" ::
  doc_text (S (S j)) (snd m).

(** What follows a member of an object. *)
Fixpoint object_tail (j : nat) (r : list (list piece * doc)) : list Z :=
  match r with
  | [] => sp j ++ [ch "}"]
  | m :: r' =>
      sp j ++ ch "," :: member_text (S j) m ++
      object_tail (S (S (S j)) + tokens (snd m))%nat r'
  end.

End DocText.

(** A string the lexer turns into a STRING token: well-formed pieces of
    ASCII characters, without [\u]. *)
Definition string_ok (ps : list piece) : bool :=
  forallb piece_ok ps && forallb piece_ascii ps && negb (existsb is_unicode ps).

(** The bytes of a string. *)
Definition string_bytes (ps : list piece) : list Z := map piece_byte ps.

(** The keys of the members of an object, in their order. *)
Definition keys (ms : list (list piece * doc)) : list (list Z) :=
  map (fun m => string_bytes (fst m)) ms.

(** [key] is one of the keys [l]. *)
Definition has_key (key : list Z) (l : list (list Z)) : bool :=
  existsb (list_eqb key) l.

(** The documents of the theorems: strings as above and numbers of the
    grammar; an object may repeat a key. *)
Fixpoint doc_ok (v : doc) : bool :=
  match v with
  | DObject ms =>
      (fix all (l : list (list piece * doc)) : bool :=
         match l with
         | [] => true
         | (k, x) :: r => string_ok k && doc_ok x && all r
         end) ms
  | DArray es =>
      (fix all (l : list doc) : bool :=
         match l with
         | [] => true
         | e :: r => doc_ok e && all r
         end) es
  | DString ps => string_ok ps
  | DNumber n => number_ok n
  | _ => true
  end.

Definition is_container (v : doc) : bool :=
  match v with
  | DObject _ | DArray _ => true
  | _ => false
  end.

(** The number of nodes of the tree of a value. *)
Fixpoint doc_size (v : doc) : nat :=
  S (match v with
     | DObject ms =>
         (fix sum (l : list (list piece * doc)) : nat :=
            match l with
            | [] => O
            | (_, x) :: r => (doc_size x + sum r)%nat
            end) ms
     | DArray es =>
         (fix sum (l : list doc) : nat :=
            match l with
            | [] => O
            | e :: r => (doc_size e + sum r)%nat
            end) es
     | _ => O
     end).

(** The addresses of values laid out one after the other from [base]. *)
Fixpoint addresses (base : nat) (l : list doc) : list nat :=
  match l with
  | [] => []
  | e :: r => base :: addresses (base + doc_size e) r
  end.

(** The number of nodes of the trees of the elements. *)
Fixpoint elements_size (l : list doc) : nat :=
  match l with
  | [] => O
  | e :: r => (doc_size e + elements_size r)%nat
  end.

(** The number of nodes of the values of the members. *)
Fixpoint members_size (l : list (list piece * doc)) : nat :=
  match l with
  | [] => O
  | m :: r => (doc_size (snd m) + members_size r)%nat
  end.

(** The members of an object after [json_object_set_nocheck] at [key]:
    the value of a key that is there is replaced where it stands, a new
    key goes to the end. *)
Definition assoc_set (key : list Z) (a : nat) (ms : list (list Z * nat))
  : list (list Z * nat) :=
  match assoc_find key ms with
  | Some _ => assoc_replace key a ms
  | None => ms ++ [(key, a)]
  end.

(** The members of an object that held [done] when the members [l] have
    been inserted one after the other, the values of [l] laid out from
    [base]. *)
Fixpoint members_after (done : list (list Z * nat)) (base : nat)
  (l : list (list piece * doc)) : list (list Z * nat) :=
  match l with
  | [] => done
  | (k, x) :: r =>
      members_after (assoc_set (string_bytes k) base done)
                    (base + doc_size x) r
  end.

Definition member_addresses (base : nat) (l : list (list piece * doc))
  : list (list Z * nat) :=
  members_after [] base l.

(** The address of the value of the last member of [l] whose key is
    [key]. *)
Fixpoint last_address (key : list Z) (base : nat)
  (l : list (list piece * doc)) : option nat :=
  match l with
  | [] => None
  | (k, x) :: r =>
      match last_address key (base + doc_size x) r with
      | Some a => Some a
      | None => if list_eqb (string_bytes k) key then Some base else None
      end
  end.

(** The value of the last member of [l] whose key is [key]. *)
Fixpoint last_value (key : list Z) (l : list (list piece * doc))
  : option doc :=
  match l with
  | [] => None
  | (k, x) :: r =>
      match last_value key r with
      | Some y => Some y
      | None => if list_eqb (string_bytes k) key then Some x else None
      end
  end.

Section Platformed.

Context {P : Platform}.

(** The payload of the node of a number. *)
Definition number_body (n : number_literal) : json_body :=
  if is_integer n then JInteger (to_int (clamp_long (integer_value n)))
  else JReal (strtod_of (number_text n)).

(** The node of a value whose children begin at [next]. *)
Definition doc_body (next : nat) (v : doc) : json_body :=
  match v with
  | DObject ms => JObject (member_addresses next ms)
  | DArray es => JArray (addresses next es)
  | DString ps => JString (string_bytes ps)
  | DNumber n => number_body n
  | DTrue => JTrue
  | DFalse => JFalse
  | DNull => JNull
  end.

(** The cells of the tree of a value, the root at [base], every node
    before its children and every child before the next one; each live
    cell holds one reference.  The value of a member whose key comes again
    in the same object has been released: its cells are empty. *)
Fixpoint doc_cells (base : nat) (v : doc) : list (option json_t) :=
  Some {| refcount := 1; body := doc_body (S base) v |} ::
  match v with
  | DObject ms =>
      (fix cells (b : nat) (l : list (list piece * doc)) :=
         match l with
         | [] => []
         | (k, x) :: r =>
             (if has_key (string_bytes k) (keys r)
              then repeat None (doc_size x) else doc_cells b x) ++
             cells (b + doc_size x)%nat r
         end) (S base) ms
  | DArray es =>
      (fix cells (b : nat) (l : list doc) :=
         match l with
         | [] => []
         | e :: r => doc_cells b e ++ cells (b + doc_size e)%nat r
         end) (S base) es
  | _ => []
  end.

Fixpoint array_cells (b : nat) (l : list doc) : list (option json_t) :=
  match l with
  | [] => []
  | e :: r => doc_cells b e ++ array_cells (b + doc_size e)%nat r
  end.

(** The cells of the values of the members [l], when the keys [later]
    come after them in the object. *)
Fixpoint object_cells (later : list (list Z)) (b : nat)
  (l : list (list piece * doc)) : list (option json_t) :=
  match l with
  | [] => []
  | m :: r =>
      (if has_key (string_bytes (fst m)) (keys r ++ later)
       then repeat None (doc_size (snd m)) else doc_cells b (snd m)) ++
      object_cells later (b + doc_size (snd m))%nat r
  end.

End Platformed.

(** The tree of [v] lies in the store [h] with its root at [a]. *)
Definition stored {P : Platform} (h : list (option json_t)) (a : nat)
  (v : doc) : Prop :=
  firstn (doc_size v) (skipn a h) = doc_cells a v.

(** The [n] cells of [h] from [a] on are released. *)
Definition released_cells (h : list (option json_t)) (a n : nat) : Prop :=
  firstn n (skipn a h) = repeat None n.

(** The token a value begins with. *)
Definition first_token (v : doc) : Z :=
  match v with
  | DObject _ => ch "{"
  | DArray _ => ch "["
  | DString _ => TOKEN_STRING
  | DNumber n => if is_integer n then TOKEN_INTEGER else TOKEN_REAL
  | DTrue => TOKEN_TRUE
  | DFalse => TOKEN_FALSE
  | DNull => TOKEN_NULL
  end.

(** A character that may follow a value inside a container. *)
Definition delimiter (x : Z) : bool :=
  is_blank x || (x =? ch ",") || (x =? ch "]") || (x =? ch "}").

Definition delimited (rest : list Z) : Prop :=
  match rest with
  | x :: _ => delimiter x = true
  | [] => False
  end.

(** The token a value ends with. *)
Definition last_token (v : doc) : Z :=
  match v with
  | DObject _ => ch "}"
  | DArray _ => ch "]"
  | _ => first_token v
  end.

(** The number of blocks the current token holds. *)
Definition held {D} (s : @lexst D) : Z :=
  if token (lex s) =? TOKEN_STRING then
    match value (lex s) with
    | VString (Some _) => 1
    | _ => 0
    end
  else 0.

Definition with_mem {D} (m : memory) (s : @parst D) : @parst D :=
  {| ls := {| lex := lex (ls s); mem := m |}; err := err s |}.

(** [parse_value] on the text of [v] laid out by [sp] from the token of
    number [i]: when the lexer is about to read the text, [lex_scan]
    returns the first token of the value and [parse_value] then returns
    the root of its tree, laid out at the end of the store; what follows
    the text is read next, no block is left behind and the error record is
    not written. *)
Definition parses {P : Platform} {D} (view : D -> list Z)
  (sp : nat -> list Z) (budget depth i : nat) (v : doc) : Prop :=
  forall (s : @parst D) (rest : list Z),
    doc_ok v = true ->
    (List.length (doc_text sp i v) < budget)%nat ->
    (List.length (doc_text sp i v) <= depth)%nat ->
    is_container v = true \/ delimited rest ->
    reading view (ls s) (doc_text sp i v ++ rest) ->
    payload_ok (ls s) -> allocs (mem (ls s)) = [] ->
    exists s1 s2,
      lexer (lex_scan budget) s = Ok (first_token v, s1) /\
      parse_value budget depth s1
      = Ok (Some (List.length (nodes (mem (ls s)))), s2) /\
      reading view (ls s2) rest /\
      nodes (mem (ls s2)) =
        nodes (mem (ls s)) ++ doc_cells (List.length (nodes (mem (ls s)))) v /\
      blocks (mem (ls s2)) - held (ls s2) = blocks (mem (ls s)) - held (ls s) /\
      allocs (mem (ls s2)) = [] /\ err s2 = err s /\
      payload_ok (ls s2) /\ token (lex (ls s2)) = last_token v /\
      line (lex (ls s2)) = line (lex (ls s)) + newlines (doc_text sp i v).

(** ** Documents with a [\u] escape *)

(** The tokens of a member: the key, the colon and the value. *)
Definition member_tokens (m : list piece * doc) : list (list Z) :=
  literal_text (fst m) :: [ch ":"] :: token_texts (snd m).

(** A document up to its first string with a [\u] escape: that string;
    or an array, the elements before the one that holds the string, and
    that element; or an object, the members before, and either the key
    that is the string, or the key of the member whose value holds it and
    that value.  What the text has after the string is not part of it. *)
Inductive spoiled : Type :=
| SString (ps : list piece)
| SElement (before : list doc) (s : spoiled)
| SKey (before : list (list piece * doc)) (ps : list piece)
| SMember (before : list (list piece * doc)) (k : list piece) (s : spoiled).

(** The tokens up to the string, the string included. *)
Fixpoint spoiled_tokens (s : spoiled) : list (list Z) :=
  match s with
  | SString ps => [literal_text ps]
  | SElement before s =>
      [ch "["] ::
      flat_map (fun e => token_texts e ++ [[ch ","]]) before ++
      spoiled_tokens s
  | SKey before ps =>
      [ch "{"] ::
      flat_map (fun m => member_tokens m ++ [[ch ","]]) before ++
      [literal_text ps]
  | SMember before k s =>
      [ch "{"] ::
      flat_map (fun m => member_tokens m ++ [[ch ","]]) before ++
      literal_text k :: [ch ":"] :: spoiled_tokens s
  end.

(** The string with the escape. *)
Fixpoint spoiled_literal (s : spoiled) : list piece :=
  match s with
  | SString ps => ps
  | SElement _ s => spoiled_literal s
  | SKey _ ps => ps
  | SMember _ _ s => spoiled_literal s
  end.

(** A string of well-formed pieces of ASCII characters, with a [\u]
    escape among them. *)
Definition escaped_ok (ps : list piece) : bool :=
  forallb piece_ok ps && forallb piece_ascii ps && existsb is_unicode ps.

(** What comes before the string is of the grammar, as in [doc_ok]. *)
Fixpoint spoiled_ok (s : spoiled) : bool :=
  match s with
  | SString ps => escaped_ok ps
  | SElement before s => forallb doc_ok before && spoiled_ok s
  | SKey before ps =>
      forallb (fun m => string_ok (fst m) && doc_ok (snd m)) before &&
      escaped_ok ps
  | SMember before k s =>
      forallb (fun m => string_ok (fst m) && doc_ok (snd m)) before &&
      string_ok k && spoiled_ok s
  end.

(** The message of the parser at the string: where a value stands the
    token is refused by [parse_value], where a key stands by
    [parse_object]. *)
Fixpoint spoiled_message (s : spoiled) : string :=
  match s with
  | SString _ => "invalid token"
  | SElement _ s => spoiled_message s
  | SKey _ _ => "string or '}' expected"
  | SMember _ _ s => spoiled_message s
  end.

(** The number of nodes made before the string is reached. *)
Fixpoint spoiled_size (s : spoiled) : nat :=
  match s with
  | SString _ => O
  | SElement before s => S (elements_size before + spoiled_size s)
  | SKey before _ => S (members_size before)
  | SMember before _ s => S (members_size before + spoiled_size s)
  end.

(** The token the text begins with. *)
Definition spoiled_first (s : spoiled) : Z :=
  match s with
  | SString _ => TOKEN_INVALID
  | SElement _ _ => ch "["
  | _ => ch "{"
  end.

Definition spoiled_container (s : spoiled) : bool :=
  match s with
  | SString _ => false
  | _ => true
  end.

(** [parse_value] on a text that is cut at a string with [\u]: it
    returns NULL, with the message of the place, the string as the token
    it stopped at, every node it made released and no block left. *)
Definition refuses {P : Platform} {D} (view : D -> list Z)
  (sp : nat -> list Z) (budget depth i : nat) (s : spoiled) : Prop :=
  forall (st : @parst D) (rest : list Z),
    spoiled_ok s = true ->
    (List.length (layout sp i (spoiled_tokens s)) < budget)%nat ->
    (List.length (layout sp i (spoiled_tokens s)) <= depth)%nat ->
    reading view (ls st) (layout sp i (spoiled_tokens s) ++ rest) ->
    payload_ok (ls st) -> allocs (mem (ls st)) = [] ->
    exists s1 s2,
      lexer (lex_scan budget) st = Ok (spoiled_first s, s1) /\
      parse_value budget depth s1 = Ok (None, s2) /\
      reading view (ls s2) rest /\
      nodes (mem (ls s2)) =
        nodes (mem (ls st)) ++ repeat None (spoiled_size s) /\
      blocks (mem (ls s2)) = blocks (mem (ls st)) - held (ls st) /\
      allocs (mem (ls s2)) = [] /\
      token (lex (ls s2)) = TOKEN_INVALID /\
      saved_text (lex (ls s2)) = literal_text (spoiled_literal s) /\
      line (lex (ls s2)) =
        line (lex (ls st)) + newlines (layout sp i (spoiled_tokens s)) /\
      err s2 =
        error_set (err st) (Some (lex (ls s2))) (spoiled_message s).

(** ** Invariants *)

(** [m] keeps [I]: from a state where [I] holds it returns in a state
    where [I] holds. *)
Definition preserved {S A} (I : S -> Prop) (m : M S A) : Prop :=
  forall s a s', I s -> m s = Ok (a, s') -> I s'.

(** The byte source of a stream: its two callbacks. *)
Definition same_source {D} (st st' : @stream_t D) : Prop :=
  get st' = get st /\ eof st' = eof st.

(** An operation on the memory that plans no failure where none was
    planned: with an empty plan it leaves the plan empty. *)
Definition plan_kept {A} (op : M memory A) : Prop :=
  forall m a m', op m = Ok (a, m') -> allocs m = [] -> allocs m' = [].

(** ** The discipline of the parser *)

(** The blocks that are live, those of the current token apart. *)
Definition balance {D} (s : @parst D) : Z :=
  blocks (mem (ls s)) - held (ls s).

(** The messages of the parser, in the order of the source. *)
Definition parse_messages : list string :=
  ["string or '}' expected"; "':' expected"; "'}' expected";
   "']' expected"; "invalid token"; "unexpected token";
   "'[' or '{' expected"; "end of file expected"]%string.

(** [e'] is what [error_set] made of [e] with the lexer [lx] and one of
    these messages. *)
Definition reported {P : Platform} {D} (lx : @lex_t D)
  (e e' : option json_error_t) : Prop :=
  exists msg : string,
    In msg parse_messages /\ e' = error_set e (Some lx) msg.

(** From [s] to [s'] the balance of the blocks grew by [delta], the error
    record was not written, and no allocation failed if none was planned
    to. *)
Definition step {D} (delta : Z) (s s' : @parst D) : Prop :=
  balance s' = balance s + delta /\ err s' = err s /\
  (allocs (mem (ls s)) = [] -> allocs (mem (ls s')) = []).

(** The same with an error reported on the way, from the lexer as it is
    in [s']: after the report no token is scanned. *)
Definition fails {P : Platform} {D} (delta : Z) (s s' : @parst D) : Prop :=
  balance s' = balance s + delta /\
  (allocs (mem (ls s)) = [] ->
   allocs (mem (ls s')) = [] /\ reported (lex (ls s')) (err s) (err s')).

(** What a production of the parser owes its caller: a tree and a silent
    error record, or NULL and a message; the blocks balanced either
    way. *)
Definition disciplined {P : Platform} {D} (m : @PM D (option nat)) : Prop :=
  forall s r s',
    m s = Ok (r, s') ->
    match r with
    | Some _ => step 0 s s'
    | None => fails 0 s s'
    end.

(** ** The parse of an entry point *)

(** The parser's state when [lex_init] has succeeded on the byte source
    [g], [e], [d] (lines 413-423). *)
Definition started {D} (g : D -> outcome (Z * D)) (e : D -> outcome bool)
  (d : D) (m : memory) (error : option json_error_t) : @parst D :=
  {| ls := {| lex := {| stream := stream_init g e d; saved_text := [];
                        token := TOKEN_INVALID; line := 1;
                        value := VIndeterminate |};
              mem := m |};
     err := error |}.

(** Lines 667-672 of [json_loads]: the token after the top-level value. *)
Definition end_check {P : Platform} {D} (budget : nat) (result : option nat)
  : @PM D (option nat) :=
  match result with
  | None => ret None
  | Some node =>
      lexer (lex_scan budget) ;;
      tok <- cur_token ;;
      if negb (tok =? TOKEN_EOF) then
        parse_error "end of file expected" ;;
        heap (json_decref node) ;;
        ret None
      else ret (Some node)
  end.

(** Lines 663-672 of [json_loads]: what it does between [lex_init] and
    [lex_close]. *)
Definition loads_parse {P : Platform} {D} (budget : nat)
  : @PM D (option nat) :=
  result <- parse_json budget ;;
  end_check budget result.

(** ** Sequences of characters *)

(** [n] calls of [stream_get] in a row and the characters they return. *)
Fixpoint stream_get_many {P : Platform} {D} (n : nat)
  : M (@stream_t D) (list Z) :=
  match n with
  | O => ret []
  | S k =>
      c <- stream_get ;;
      r <- stream_get_many k ;;
      ret (c :: r)
  end.

(** The position of the stream is that of the first character of its
    buffer. *)
Definition at_start {D} (st : @stream_t D) : Prop := buffer_pos st = 0.

(** ** Values used as examples *)

Definition number_one : number_literal :=
  {| minus := false; integer := [ch "1"]; fraction := []; exponent := None |}.

Definition number_two : number_literal :=
  {| minus := false; integer := [ch "2"]; fraction := []; exponent := None |}.

(** A layout: nothing before the tokens whose number is a multiple of
    three, a space before the next one, a newline and a tab before the
    one after. *)
Definition sample_layout (i : nat) : list Z :=
  match (i mod 3)%nat with
  | O => []
  | S O => [32]
  | _ => [10; 9]
  end.

(** No white space at all. *)
Definition dense : nat -> list Z := fun _ => [].

(** The object that has a member a with the value 1 and then a member a
    with the value 2. *)
Definition repeated_doc : doc :=
  DObject [([Plain (ch "a")], DNumber number_one);
           ([Plain (ch "a")], DNumber number_two)].

(** An object with the members a, the array of 1, true and the string of
    b and an escaped newline, and c, null. *)
Definition sample_doc : doc :=
  DObject [([Plain (ch "a")],
            DArray [DNumber number_one; DTrue;
                    DString [Plain (ch "b"); Shortcut (ch "n")]]);
           ([Plain (ch "c")], DNull)].

(** * Properties of the decoder *)

(** ** Running a computation step by step *)

Lemma bind_ok {S A B} (m : M S A) (k : A -> M S B) s a s' :
  m s = Ok (a, s') -> bind m k s = k a s'.
Proof. intros H. unfold bind. now rewrite H. Qed.

Lemma bind_inv {S A B} (m : M S A) (k : A -> M S B) s r :
  bind m k s = Ok r -> exists a s', m s = Ok (a, s') /\ k a s' = Ok r.
Proof.
  unfold bind. destruct (m s) as [[a s']| | |]; try discriminate.
  intros H. now exists a, s'.
Qed.

Lemma lexer_inv {P : Platform} {D A} (m : @L D A) (s : @parst D) a s' :
  lexer m s = Ok (a, s') ->
  exists l, m (ls s) = Ok (a, l) /\ s' = {| ls := l; err := err s |}.
Proof.
  unfold lexer. destruct (m (ls s)) as [[a' l]| | |]; try discriminate.
  intros H. inversion H. subst. now exists l.
Qed.

Lemma lex_scan_returns_token {P : Platform} {D} fuel (s s' : @lexst D) t :
  lex_scan fuel s = Ok (t, s') -> t = token (lex s').
Proof.
  unfold lex_scan. intros H.
  apply bind_inv in H. destruct H as (u & s1 & _ & H).
  unfold on_lex, gets in H. inversion H. reflexivity.
Qed.

Lemma cur_token_after_scan {P : Platform} {D} fuel (s s1 : @parst D) t :
  lexer (lex_scan fuel) s = Ok (t, s1) -> cur_token s1 = Ok (t, s1).
Proof.
  intros H. apply lexer_inv in H. destruct H as (l & H & ->).
  apply lex_scan_returns_token in H. subst t.
  unfold cur_token, lexer, on_lex, gets. simpl.
  destruct l as [lx m]. reflexivity.
Qed.

(** ** The top level: [parse_json] *)

(** The check of [parse_json].  Whatever the source and the build: when
    the first token [lex_scan] returns is neither an opening bracket nor
    an opening brace, [parse_json] returns NULL and what it leaves in the
    error record is [error_set] of the message "'[' or '{' expected" at
    that token; when it is an opening brace or bracket, [parse_json] goes
    on with [parse_value], which calls [parse_object], respectively
    [parse_array]. *)
Lemma parse_json_container_check {P : Platform} {D} (budget : nat)
  (s s1 : @parst D) (tok : Z) :
  lexer (lex_scan budget) s = Ok (tok, s1) ->
  (tok <> ch "[" -> tok <> ch "{" ->
   parse_json budget s =
   Ok (None, set_err (error_set (err s1) (Some (lex (ls s1)))
                                "'[' or '{' expected") s1)) /\
  (tok = ch "{" ->
   parse_json budget s = parse_value budget budget s1 /\
   forall depth, parse_value budget (S depth) s1 =
                 parse_object budget (parse_value budget depth) s1) /\
  (tok = ch "[" ->
   parse_json budget s = parse_value budget budget s1 /\
   forall depth, parse_value budget (S depth) s1 =
                 parse_array budget (parse_value budget depth) s1).
Proof.
  intros H. pose proof (cur_token_after_scan _ _ H) as Ht.
  repeat split.
  - intros Hb Hc. unfold parse_json.
    rewrite (bind_ok _ _ _ H), (bind_ok _ _ _ Ht).
    apply Z.eqb_neq in Hb, Hc. rewrite Hb, Hc. reflexivity.
  - subst tok. unfold parse_json.
    rewrite (bind_ok _ _ _ H), (bind_ok _ _ _ Ht). reflexivity.
  - intros depth. subst tok. simpl. unfold parse_value_body.
    rewrite (bind_ok _ _ _ Ht). unfold bind at 1.
    unfold lexer at 1, on_lex at 1, gets at 1. reflexivity.
  - subst tok. unfold parse_json.
    rewrite (bind_ok _ _ _ H), (bind_ok _ _ _ Ht). reflexivity.
  - intros depth. subst tok. simpl. unfold parse_value_body.
    rewrite (bind_ok _ _ _ Ht). unfold bind at 1.
    unfold lexer at 1, on_lex at 1, gets at 1. reflexivity.
Qed.

(** ** The error reporter *)

Lemma substring_all (s : string) (n : nat) :
  (String.length s <= n)%nat -> substring 0 n s = s.
Proof.
  revert n. induction s as [|a s IH]; intros n Hn.
  - now destruct n.
  - destruct n as [|n]; simpl in *; [lia|]. f_equal. apply IH. lia.
Qed.

Lemma substring_length_le (s : string) (n : nat) :
  (String.length (substring 0 n s) <= n)%nat.
Proof.
  revert n. induction s as [|a s IH]; intros n.
  - destruct n; simpl; lia.
  - destruct n as [|n]; simpl; [lia|]. specialize (IH n). lia.
Qed.

Lemma snprintf_fits (size : nat) (s : string) :
  (String.length s < size)%nat -> snprintf size s = s.
Proof. intros H. unfold snprintf. apply substring_all. lia. Qed.

Lemma snprintf_twice (size : nat) (s : string) :
  snprintf size (snprintf size s) = snprintf size s.
Proof.
  unfold snprintf. apply substring_all. apply substring_length_le.
Qed.

Section Blind.

Context {P : Platform} {D : Type}.

Lemma blind_ret {A} (a : A) : blind (D := D) (ret a).
Proof. intros s1 s2 H. simpl. now rewrite H. Qed.

Lemma blind_fail_fuel {A} : blind (D := D) (A := A) fail_fuel.
Proof. now intros s1 s2 H. Qed.

Lemma blind_fail_undef {A} : blind (D := D) (A := A) fail_undef.
Proof. now intros s1 s2 H. Qed.

Lemma blind_bind {A B} (m : @PM D A) (k : A -> @PM D B) :
  blind m -> (forall a, blind (k a)) -> blind (bind m k).
Proof.
  intros Hm Hk s1 s2 H. unfold bind.
  specialize (Hm s1 s2 H).
  destruct (m s1) as [[a1 t1]| | |], (m s2) as [[a2 t2]| | |];
    simpl in Hm; try discriminate; try reflexivity.
  inversion Hm. subst. now apply Hk.
Qed.

Lemma blind_lexer {A} (m : @L D A) : blind (lexer m).
Proof.
  intros s1 s2 H. unfold lexer. rewrite H.
  now destruct (m (ls s2)) as [[a l]| | |].
Qed.

Lemma blind_parse_error (msg : string) : blind (D := D) (parse_error msg).
Proof. intros s1 s2 H. simpl. now rewrite H. Qed.

Ltac blind_step :=
  first
    [ apply blind_ret
    | apply blind_fail_fuel
    | apply blind_fail_undef
    | apply blind_lexer
    | apply blind_parse_error
    | assumption
    | apply blind_bind; [ | intros ? ]
    | match goal with
      | |- blind (if ?b then _ else _) => destruct b
      | |- blind (match ?x with _ => _ end) => destruct x
      end ].

Ltac blind_auto :=
  unfold heap, cur_token, release_and_fail; cbv zeta; repeat blind_step.

Variable budget : nat.

Lemma blind_parse_object_loop (pv : @PM D (option nat)) :
  blind pv -> forall fuel object, blind (parse_object_loop budget pv fuel object).
Proof.
  intros Hpv. induction fuel as [|f IH]; intros object; simpl.
  - apply blind_fail_fuel.
  - blind_auto. apply IH.
Qed.

Lemma blind_parse_array_loop (pv : @PM D (option nat)) :
  blind pv -> forall fuel array, blind (parse_array_loop budget pv fuel array).
Proof.
  intros Hpv. induction fuel as [|f IH]; intros array; simpl.
  - apply blind_fail_fuel.
  - blind_auto. apply IH.
Qed.

Lemma blind_parse_value depth : blind (parse_value (D := D) budget depth).
Proof.
  induction depth as [|d IH]; simpl.
  - apply blind_fail_fuel.
  - unfold parse_value_body, parse_object, parse_array. blind_auto.
    + now apply blind_parse_object_loop.
    + now apply blind_parse_array_loop.
Qed.

Lemma blind_parse_json : blind (parse_json (D := D) budget).
Proof.
  unfold parse_json. blind_auto. apply blind_parse_value.
Qed.

End Blind.

Section BlindEntry.

Context {P : Platform}.

Variable budget : nat.

Lemma tree_of_blind {D} (m : @PM D (option nat)) (s1 s2 : @parst D) :
  blind m -> ls s1 = ls s2 ->
  tree_of (finish (m s1)) = tree_of (finish (m s2)).
Proof.
  intros Hm H. specialize (Hm s1 s2 H).
  destruct (m s1) as [[a1 t1]| | |], (m s2) as [[a2 t2]| | |];
    simpl in Hm; try discriminate; try reflexivity.
  inversion Hm. subst. simpl. now rewrite H2.
Qed.

Lemma json_loadf_blind (input : FILE) (e : json_error_t) (m : memory) :
  tree_of (json_loadf budget input (Some e) m) =
  tree_of (json_loadf budget input None m).
Proof.
  unfold json_loadf.
  destruct (lex_init fgetc feof input m) as [[r l]| | |]; try reflexivity.
  simpl. destruct (negb (r =? 0)); [reflexivity|].
  apply tree_of_blind; [|reflexivity].
  apply blind_bind; [apply blind_parse_json|]. intros a.
  apply blind_bind; [apply blind_lexer|]. intros _. apply blind_ret.
Qed.

Lemma json_loads_blind (text : list Z) (e : json_error_t) (m : memory) :
  tree_of (json_loads budget text (Some e) m) =
  tree_of (json_loads budget text None m).
Proof.
  unfold json_loads.
  destruct (lex_init string_get string_eof _ m) as [[r l]| | |];
    try reflexivity.
  simpl. destruct (negb (r =? 0)); [reflexivity|].
  apply tree_of_blind; [|reflexivity].
  apply blind_bind; [apply blind_parse_json|]. intros a.
  apply blind_bind.
  - destruct a as [node|]; [|apply blind_ret].
    apply blind_bind; [apply blind_lexer|]. intros _.
    apply blind_bind; [apply blind_lexer|]. intros tok.
    destruct (negb (tok =? TOKEN_EOF)); [|apply blind_ret].
    apply blind_bind; [apply blind_parse_error|]. intros _.
    apply blind_bind; [apply blind_lexer|]. intros _. apply blind_ret.
  - intros r'. apply blind_bind; [apply blind_lexer|]. intros _.
    apply blind_ret.
Qed.

Lemma json_load_blind fopen path (e : json_error_t) (m : memory) :
  tree_of (json_load budget fopen path (Some e) m) =
  tree_of (json_load budget fopen path None m).
Proof.
  unfold json_load. destruct (fopen path); [apply json_loadf_blind|].
  reflexivity.
Qed.

End BlindEntry.

(** C8, as amended.  [error_set] reads the saved text as the C string
    that [strbuffer_value] returns, up to its first NUL (line 72).  With
    an error record to fill: with a lexer whose saved text, read so, is
    not empty the line is the lexer's and the text is "msg near 'saved
    text'"; when it is empty, also for a token that begins with a NUL
    byte, the text is "msg near end of file"; with no lexer the line is
    -1 and the text is the message.  Each is cut by [snprintf] to the
    size of the text field, and is exactly this string whenever it fits.
    With no error record [error_set] does nothing, and what a parse
    returns and leaves in memory is the same with a record and without,
    for each entry point, every source, every build and every loop
    budget. *)
Theorem error_set_report {P : Platform} {D} (e : json_error_t)
  (lx : @lex_t D) (msg : string) :
  let size := JSON_ERROR_TEXT_LENGTH in
  let raw := strbuffer_value (saved_text lx) in
  let near := (snprintf size msg ++ " near '" ++ string_of_bytes raw ++ "'")%string in
  let at_end := (snprintf size msg ++ " near end of file")%string in
  (raw <> [] ->
   error_set (Some e) (Some lx) msg =
   Some {| error_line := line lx; error_text := snprintf size near |}) /\
  (raw <> [] ->
   (String.length (msg ++ " near '" ++ string_of_bytes raw ++ "'") < size)%nat ->
   error_set (Some e) (Some lx) msg =
   Some {| error_line := line lx;
           error_text := (msg ++ " near '" ++ string_of_bytes raw ++ "'")%string |}) /\
  (raw = [] ->
   error_set (Some e) (Some lx) msg =
   Some {| error_line := line lx; error_text := snprintf size at_end |}) /\
  (raw = [] ->
   (String.length (msg ++ " near end of file") < size)%nat ->
   error_set (Some e) (Some lx) msg =
   Some {| error_line := line lx;
           error_text := (msg ++ " near end of file")%string |}) /\
  error_set (D := D) (Some e) None msg =
  Some {| error_line := -1; error_text := snprintf size msg |} /\
  ((String.length msg < size)%nat ->
   error_set (D := D) (Some e) None msg =
   Some {| error_line := -1; error_text := msg |}) /\
  (forall l : option (@lex_t D), error_set None l msg = None) /\
  (forall budget (s : @parst D),
     forget (parse_json budget (set_err None s)) =
     forget (parse_json budget s)) /\
  (forall budget input m,
     tree_of (json_loadf budget input (Some e) m) =
     tree_of (json_loadf budget input None m)) /\
  (forall budget text m,
     tree_of (json_loads budget text (Some e) m) =
     tree_of (json_loads budget text None m)) /\
  (forall budget fopen path m,
     tree_of (json_load budget fopen path (Some e) m) =
     tree_of (json_load budget fopen path None m)).
Proof.
  intros size raw near at_end.
  assert (Hlen : forall a b : string,
             String.length (a ++ b) = (String.length a + String.length b)%nat).
  { induction a as [|x a IH]; intros b; simpl; [reflexivity|].
    now rewrite IH. }
  assert (Hmsg : forall tail : string,
             (String.length (msg ++ tail) < size)%nat ->
             snprintf size msg = msg).
  { intros tail H. apply snprintf_fits. rewrite Hlen in H. lia. }
  repeat split.
  - intros Hraw. unfold error_set. fold raw.
    destruct raw; [contradiction|reflexivity].
  - intros Hraw Hfit. unfold error_set. fold raw. fold size.
    destruct raw as [|c r]; [contradiction|].
    rewrite (Hmsg _ Hfit). now rewrite (snprintf_fits _ Hfit).
  - intros Hraw. unfold error_set. fold raw. now rewrite Hraw.
  - intros Hraw Hfit. unfold error_set. fold raw. fold size. rewrite Hraw.
    rewrite (Hmsg _ Hfit). now rewrite (snprintf_fits _ Hfit).
  - unfold error_set. fold size. now rewrite snprintf_twice.
  - intros Hfit. unfold error_set. fold size. rewrite snprintf_twice.
    now rewrite (snprintf_fits _ Hfit).
  - intros budget s. now apply blind_parse_json.
  - intros. apply json_loadf_blind.
  - intros. apply json_loads_blind.
  - intros. apply json_load_blind.
Qed.

(** ** What the scanning primitives change *)

Lemma frame_refl {D} (s : @lexst D) : frame s s.
Proof. now repeat split. Qed.

Lemma frame_trans {D} (s1 s2 s3 : @lexst D) :
  frame s1 s2 -> frame s2 s3 -> frame s1 s3.
Proof.
  intros (A1 & A2 & A3 & A4) (B1 & B2 & B3 & B4).
  repeat split; congruence.
Qed.

Ltac inv_bind H :=
  let a := fresh "a" in
  let s := fresh "s" in
  let H1 := fresh "H" in
  apply bind_inv in H; destruct H as (a & s & H1 & H).

Section Primitives.

Context {P : Platform} {D : Type}.

Implicit Types s : @lexst D.

Lemma assert_inv {S} (cond : M S bool) (x x' : S) u :
  assert cond x = Ok (u, x') -> x' = x.
Proof.
  unfold assert. destruct NDEBUG.
  - intros H. now inversion H.
  - destruct (cond x) as [[[|] y]| | |]; try discriminate.
    intros H. now inversion H.
Qed.

Lemma on_stream_inv {A} (m : M (@stream_t D) A) s a s' :
  on_lex (on_stream m) s = Ok (a, s') ->
  exists st, m (stream (lex s)) = Ok (a, st) /\
             s' = {| lex := set_stream st (lex s); mem := mem s |}.
Proof.
  unfold on_lex, on_stream.
  destruct (m (stream (lex s))) as [[a' st]| | |]; try discriminate.
  intros H. inversion H. subst. now exists st.
Qed.

Lemma lex_get_inv s c s' :
  lex_get s = Ok (c, s') ->
  saved_text (lex s') = saved_text (lex s) /\ frame s s'.
Proof.
  intros H. apply on_stream_inv in H. destruct H as (st & _ & ->).
  simpl. split; [reflexivity|]. now repeat split.
Qed.

Lemma lex_eof_inv s b s' : lex_eof s = Ok (b, s') -> s' = s.
Proof.
  intros H. apply on_stream_inv in H. destruct H as (st & H & ->).
  unfold call_eof in H.
  destruct (eof (stream (lex s)) (data (stream (lex s)))); try discriminate.
  inversion H. subst. destruct s as [[st sv tk ln vl] m]. reflexivity.
Qed.

Lemma lex_get_save_inv s c s' :
  lex_get_save s = Ok (c, s') ->
  saved_text (lex s') = saved_text (lex s) ++ [c] /\ frame s s'.
Proof.
  unfold lex_get_save. intros H. inv_bind H.
  apply lex_get_inv in H0. destruct H0 as (Hs & Hf).
  unfold bind, lex_save, on_lex, modify, ret in H. simpl in H.
  inversion H. subst. simpl. rewrite Hs. split; [reflexivity|].
  destruct Hf as (F1 & F2 & F3 & F4). now repeat split.
Qed.

Lemma lex_unget_unsave_inv s c s' :
  lex_unget_unsave c s = Ok (tt, s') ->
  saved_text (lex s') = snd (strbuffer_pop (saved_text (lex s))) /\
  frame s s'.
Proof.
  unfold lex_unget_unsave. intros H. inv_bind H.
  apply on_stream_inv in H0. destruct H0 as (st & _ & ->).
  unfold bind at 1 in H. unfold on_lex at 1, gets at 1 in H. simpl in H.
  destruct (strbuffer_pop (saved_text (lex s))) as [d b'] eqn:E.
  inv_bind H. unfold on_lex, modify in H0. simpl in H0. inversion H0.
  subst. apply assert_inv in H. subst. simpl. split; [reflexivity|].
  now repeat split.
Qed.

Lemma strbuffer_pop_app (b : strbuffer_t) (c : Z) :
  strbuffer_pop (b ++ [c]) = (c, b).
Proof.
  unfold strbuffer_pop. rewrite rev_app_distr. simpl.
  now rewrite rev_involutive.
Qed.

Lemma lex_set_token_eq t s :
  lex_set_token t s = Ok (tt, {| lex := set_token t (lex s); mem := mem s |}).
Proof. reflexivity. Qed.

Lemma lex_set_value_eq v s :
  lex_set_value v s = Ok (tt, {| lex := set_value v (lex s); mem := mem s |}).
Proof. reflexivity. Qed.

End Primitives.

(** ** The text of a string literal *)

Lemma shortcut_table_agrees (e : Z) :
  is_shortcut_escape e = true ->
  exists b, table_find e escape_table = Some b /\ unescape e = Some b /\
            (e =? ch "u") = false.
Proof.
  unfold is_shortcut_escape, unescape, escape_table, table_find, QUOTE.
  intros H.
  repeat (apply orb_true_iff in H; destruct H as [H|H]);
    apply Z.eqb_eq in H; subst e; eexists; repeat split.
Qed.

Lemma table_shortcut_agrees (e : Z) :
  piece_ok (Shortcut e) = true ->
  unescape e = Some (piece_byte (Shortcut e)) /\ (e =? ch "u") = false.
Proof.
  unfold piece_ok, piece_byte, escape_table, table_find, unescape, QUOTE.
  change (ch "\") with 92. change (ch "/") with 47. change (ch "b") with 98.
  change (ch "f") with 102. change (ch "n") with 110.
  change (ch "r") with 114. change (ch "t") with 116.
  change (ch "u") with 117.
  destruct (34 =? e) eqn:E1; [apply Z.eqb_eq in E1; subst; now split|].
  destruct (92 =? e) eqn:E2; [apply Z.eqb_eq in E2; subst; now split|].
  destruct (47 =? e) eqn:E3; [apply Z.eqb_eq in E3; subst; now split|].
  destruct (98 =? e) eqn:E4; [apply Z.eqb_eq in E4; subst; now split|].
  destruct (102 =? e) eqn:E5; [apply Z.eqb_eq in E5; subst; now split|].
  destruct (110 =? e) eqn:E6; [apply Z.eqb_eq in E6; subst; now split|].
  destruct (114 =? e) eqn:E7; [apply Z.eqb_eq in E7; subst; now split|].
  destruct (116 =? e) eqn:E8; [apply Z.eqb_eq in E8; subst; now split|].
  discriminate.
Qed.

Section Decoding.

Context {P : Platform}.

(** The second pass on well-formed pieces: without [\u] every piece gives
    its byte, with one the pass yields nothing. *)
Lemma decode_escapes_pieces (ps : list piece) (rest : list Z) :
  forallb piece_ok ps = true ->
  decode_escapes (body_text ps ++ QUOTE :: rest) =
  Ok (if existsb is_unicode ps then None else Some (map piece_byte ps)).
Proof.
  induction ps as [|p ps IH]; intros Hok.
  - reflexivity.
  - simpl in Hok. apply andb_true_iff in Hok. destruct Hok as (Hp & Hok).
    specialize (IH Hok).
    destruct p as [c|e|h1 h2 h3 h4]; [| |reflexivity].
    + simpl in Hp. apply andb_true_iff in Hp. destruct Hp as (Hp & _).
      apply andb_true_iff in Hp. destruct Hp as (Hq & Hb).
      apply negb_true_iff in Hq, Hb.
      unfold body_text in *. simpl. rewrite Hq, Hb.
      fold (flat_map piece_text ps). rewrite IH.
      now destruct (existsb is_unicode ps).
    + destruct (table_shortcut_agrees _ Hp) as (Hun & Hne).
      unfold body_text in *.
      cbn [flat_map piece_text app decode_escapes existsb is_unicode orb].
      change (ch "\" =? QUOTE) with false. rewrite Z.eqb_refl.
      rewrite Hne, Hun. rewrite IH.
      now destruct (existsb is_unicode ps).
Qed.

(** The second pass on a text with [\u]: it stops there with nothing,
    whatever follows the two characters. *)
Lemma decode_escapes_unicode (ps : list piece) (rest : list Z) :
  forallb piece_ok ps = true ->
  decode_escapes (body_text ps ++ ch "\" :: ch "u" :: rest) = Ok None.
Proof.
  induction ps as [|p ps IH]; intros Hok.
  - reflexivity.
  - simpl in Hok. apply andb_true_iff in Hok. destruct Hok as (Hp & Hok).
    specialize (IH Hok).
    destruct p as [c|e|h1 h2 h3 h4].
    + simpl in Hp. apply andb_true_iff in Hp. destruct Hp as (Hp & _).
      apply andb_true_iff in Hp. destruct Hp as (Hq & Hb).
      apply negb_true_iff in Hq, Hb.
      unfold body_text in *. simpl. rewrite Hq, Hb.
      fold (flat_map piece_text ps). rewrite IH. reflexivity.
    + destruct (table_shortcut_agrees _ Hp) as (Hun & Hne).
      unfold body_text in *. cbn [flat_map piece_text app decode_escapes].
      change (ch "\" =? QUOTE) with false. rewrite Z.eqb_refl.
      rewrite Hne, Hun. rewrite IH. reflexivity.
    + reflexivity.
Qed.

Lemma body_text_length (ps : list piece) :
  (List.length (map piece_byte ps) <= List.length (body_text ps))%nat.
Proof.
  induction ps as [|p ps IH]; simpl; [lia|].
  unfold body_text in *. simpl. rewrite length_app.
  destruct p; simpl; lia.
Qed.

End Decoding.

Section StringScan.

Context {P : Platform} {D : Type}.

Implicit Types s : @lexst D.

Lemma scan_hex_inv n : forall c s r s',
  scan_hex n c s = Ok (r, s') ->
  frame s s' /\
  forall c', r = Some c' ->
    exists hs app,
      List.length hs = n /\ forallb isxdigit hs = true /\
      saved_text (lex s') = saved_text (lex s) ++ app /\
      c :: app = hs ++ [c'].
Proof.
  induction n as [|n IH]; intros c s r s' H; simpl in H.
  - inversion H. subst. split; [apply frame_refl|].
    intros c' Hc. inversion Hc. subst. exists [], [].
    now rewrite app_nil_r.
  - destruct (isxdigit c) eqn:Hx; simpl in H.
    + inv_bind H. apply lex_get_save_inv in H0. destruct H0 as (Hs & Hf).
      apply IH in H. destruct H as (Hf' & H).
      split; [eapply frame_trans; eassumption|].
      intros c' Hc. destruct (H c' Hc) as (hs & app & Hl & Hh & Hs' & He).
      exists (c :: hs), (a :: app). simpl. rewrite Hl, Hx, Hh.
      repeat split. rewrite Hs', Hs, <- app_assoc. reflexivity.
      now rewrite He.
    + inv_bind H. destruct a. apply lex_unget_unsave_inv in H0.
      inversion H. subst. split; [apply H0|]. discriminate.
Qed.

(** The first pass: when it reaches the closing quote, what it saved
    after the opening quote is a sequence of well-formed pieces and the
    quote; in particular four hexadecimal digits follow every [\u]. *)
Lemma scan_string_raw_inv fuel : forall c s b s',
  scan_string_raw fuel c s = Ok (b, s') ->
  frame s s' /\
  (b = true ->
   exists ps app,
     forallb piece_ok ps = true /\
     saved_text (lex s') = saved_text (lex s) ++ app /\
     c :: app = body_text ps ++ [QUOTE]).
Proof.
  induction fuel as [|f IH]; intros c s b s' H; [discriminate|].
  cbn [scan_string_raw] in H.
  destruct (c =? QUOTE) eqn:Hq.
  { inversion H. subst. split; [apply frame_refl|]. intros _.
    apply Z.eqb_eq in Hq. subst c. exists [], [].
    now rewrite app_nil_r. }
  inv_bind H.
  assert (Hs0 : s0 = s).
  { destruct (c =? EOF); [now apply lex_eof_inv in H0|].
    now inversion H0. }
  subst s0. clear H0. destruct a.
  { inversion H. subst. split; [apply frame_refl|]. discriminate. }
  destruct ((0 <=? c) && (c <=? 31)) eqn:Hctl.
  { inv_bind H. destruct a. apply lex_unget_unsave_inv in H0.
    inversion H. subst. split; [apply H0|]. discriminate. }
  destruct (c =? ch "\") eqn:Hb.
  - apply Z.eqb_eq in Hb. subst c.
    inv_bind H. apply lex_get_save_inv in H0. destruct H0 as (Hs1 & Hf1).
    destruct (a =? ch "u") eqn:Hu.
    + apply Z.eqb_eq in Hu. subst a.
      inv_bind H. apply lex_get_save_inv in H0. destruct H0 as (Hs2 & Hf2).
      inv_bind H. apply scan_hex_inv in H0. destruct H0 as (Hf3 & Hhex).
      destruct a0 as [c'|].
      * apply IH in H. destruct H as (Hf4 & H).
        split; [repeat (eapply frame_trans; [eassumption|]); apply frame_refl|].
        intros Hb. destruct (H Hb) as (ps & app & Hok & Hs4 & He).
        destruct (Hhex c' eq_refl) as (hs & app3 & Hl & Hh & Hs3 & He3).
        destruct hs as [|h1 [|h2 [|h3 [|h4 [|h5 hs]]]]]; try discriminate.
        simpl in Hh. simpl in He3. inversion He3. subst a app3.
        exists (Unicode h1 h2 h3 h4 :: ps), ([ch "u"; h1; h2; h3; h4; c'] ++ app).
        split.
        { simpl. rewrite Hok.
          destruct (isxdigit h1), (isxdigit h2), (isxdigit h3), (isxdigit h4);
            try discriminate; reflexivity. }
        split.
        { rewrite Hs4, Hs3, Hs2, Hs1. now rewrite <- !app_assoc. }
        unfold body_text in *. simpl. simpl in He.
        rewrite <- He. reflexivity.
      * inversion H. subst.
        split; [repeat (eapply frame_trans; [eassumption|]); apply frame_refl|].
        discriminate.
    + destruct (is_shortcut_escape a) eqn:Hsc.
      * inv_bind H. apply lex_get_save_inv in H0. destruct H0 as (Hs2 & Hf2).
        apply IH in H. destruct H as (Hf3 & H).
        split; [repeat (eapply frame_trans; [eassumption|]); apply frame_refl|].
        intros Hb. destruct (H Hb) as (ps & app & Hok & Hs3 & He).
        exists (Shortcut a :: ps), ([a; a0] ++ app).
        split.
        { cbn [forallb piece_ok]. rewrite Hok.
          destruct (shortcut_table_agrees _ Hsc) as (x & -> & _). reflexivity. }
        split.
        { rewrite Hs3, Hs2, Hs1. now rewrite <- !app_assoc. }
        unfold body_text in *. simpl. simpl in He. now rewrite <- He.
      * inv_bind H. destruct a0. apply lex_unget_unsave_inv in H0.
        inversion H. subst.
        split; [repeat (eapply frame_trans; [eassumption|]); apply H0|].
        discriminate.
  - inv_bind H. apply lex_get_save_inv in H0. destruct H0 as (Hs1 & Hf1).
    apply IH in H. destruct H as (Hf2 & H).
    split; [eapply frame_trans; eassumption|].
    intros Hb'. destruct (H Hb') as (ps & app & Hok & Hs2 & He).
    exists (Plain c :: ps), (a :: app).
    split; [simpl; now rewrite Hq, Hb, Hctl, Hok|].
    split.
    { rewrite Hs2, Hs1. now rewrite <- app_assoc. }
    unfold body_text in *. simpl. simpl in He. now rewrite <- He.
Qed.

End StringScan.

Section StringToken.

Context {P : Platform} {D : Type}.

Implicit Types s : @lexst D.

Lemma on_mem_malloc_inv s got s' :
  on_mem malloc s = Ok (got, s') ->
  lex s' = lex s /\ nodes (mem s') = nodes (mem s) /\
  blocks (mem s') = if got then blocks (mem s) + 1 else blocks (mem s).
Proof.
  unfold on_mem, malloc, bind, alloc_ok, modify, ret.
  destruct (allocs (mem s)) as [|[|] r]; simpl; intros H; inversion H;
    subst; simpl; repeat split.
Qed.

(** What [lex_scan_string] leaves, entered with the opening quote saved:
    either an INVALID token, no payload and no block; or a STRING token
    whose saved text is a literal of well-formed pieces without [\u] and
    whose payload, in one block, holds the byte of each piece. *)
Lemma lex_scan_string_inv fuel s s' :
  saved_text (lex s) = [QUOTE] ->
  lex_scan_string fuel s = Ok (tt, s') ->
  line (lex s') = line (lex s) /\
  nodes (mem s') = nodes (mem s) /\
  ((token (lex s') = TOKEN_INVALID /\
    blocks (mem s') = blocks (mem s) /\
    (value (lex s') = value (lex s) \/ value (lex s') = VString None)) \/
   (token (lex s') = TOKEN_STRING /\
    blocks (mem s') = blocks (mem s) + 1 /\
    exists ps,
      forallb piece_ok ps = true /\ existsb is_unicode ps = false /\
      saved_text (lex s') = literal_text ps /\
      value (lex s') = VString (Some (map piece_byte ps)))).
Proof.
  intros Hsv H. unfold lex_scan_string in H.
  rewrite (bind_ok _ _ _ (lex_set_token_eq _ _)) in H.
  inv_bind H. apply lex_get_save_inv in H0. destruct H0 as (Hs1 & Hf1).
  simpl in Hs1. rewrite Hsv in Hs1.
  destruct Hf1 as (T1 & L1 & V1 & M1). simpl in T1, L1, V1, M1.
  inv_bind H. apply scan_string_raw_inv in H0. destruct H0 as (Hf2 & Hraw).
  destruct Hf2 as (T2 & L2 & V2 & M2).
  destruct a0; simpl in H.
  2:{ inversion H. subst. repeat split; try congruence.
      left. repeat split; try congruence. left. congruence. }
  destruct (Hraw eq_refl) as (ps & app & Hok & Hs2 & He). clear Hraw.
  assert (Bs : blocks (mem s1) = blocks (mem s)) by congruence.
  inv_bind H. apply on_mem_malloc_inv in H0.
  destruct H0 as (Hl3 & N3 & B3).
  destruct a0; simpl in H.
  2:{ inversion H. subst. simpl. rewrite N3, B3.
      repeat split; try congruence.
      left. rewrite Hl3. repeat split; try congruence. now right. }
  unfold bind at 1 in H. unfold on_lex at 1, gets at 1 in H.
  assert (Htl : tl (saved_text (lex s2)) = body_text ps ++ [QUOTE]).
  { rewrite Hl3, Hs2, Hs1. simpl. exact He. }
  rewrite Htl in H. rewrite (decode_escapes_pieces ps [] Hok) in H.
  destruct (existsb is_unicode ps) eqn:Hu.
  - unfold bind, on_mem, free, modify, lex_set_value, on_lex in H.
    simpl in H. inversion H. subst. simpl. rewrite N3, B3.
    repeat split; try congruence.
    left. rewrite Hl3. repeat split; try congruence; [lia|now right].
  - unfold bind, lex_set_value, lex_set_token, on_lex, modify in H.
    simpl in H. inversion H. subst. simpl. rewrite N3, B3.
    repeat split; try congruence.
    right. repeat split; [lia|]. exists ps. repeat split; try assumption.
    rewrite Hl3, Hs2, Hs1. unfold literal_text. simpl. now rewrite <- He.
Qed.

End StringToken.

(** ** Strings: the [\u] escape *)

Lemma parse_value_invalid {P : Platform} {D} budget depth (s : @parst D) :
  token (lex (ls s)) = TOKEN_INVALID ->
  parse_value budget (S depth) s =
  Ok (None, set_err (error_set (err s) (Some (lex (ls s))) "invalid token") s).
Proof.
  intros H. destruct s as [[lx m] e]. simpl in H.
  simpl. unfold parse_value_body, bind, cur_token, lexer, on_lex, gets.
  simpl. rewrite H. reflexivity.
Qed.

(** ** Strings: the decoded value *)

(** Once the first pass has reached the closing quote, [lex_scan_string]
    returns: the second pass neither aborts nor leaves the saved text. *)
Lemma lex_scan_string_returns {P : Platform} {D} fuel (s s1 s2 : @lexst D) c :
  saved_text (lex s) = [QUOTE] ->
  lex_get_save {| lex := set_token TOKEN_INVALID (lex s); mem := mem s |}
  = Ok (c, s1) ->
  scan_string_raw fuel c s1 = Ok (true, s2) ->
  exists s', lex_scan_string fuel s = Ok (tt, s').
Proof.
  intros Hsv Hg Hraw. unfold lex_scan_string.
  rewrite (bind_ok _ _ _ (lex_set_token_eq _ _)).
  rewrite (bind_ok _ _ _ Hg), (bind_ok _ _ _ Hraw). cbn [negb].
  apply lex_get_save_inv in Hg. destruct Hg as (Hs1 & _).
  simpl in Hs1. rewrite Hsv in Hs1.
  apply scan_string_raw_inv in Hraw. destruct Hraw as (_ & Hraw).
  destruct (Hraw eq_refl) as (ps & app & Hok & Hs2 & He).
  unfold bind at 1.
  destruct (on_mem malloc s2) as [[got s3]| | |] eqn:Hm;
    try (unfold on_mem, malloc, bind, alloc_ok, modify, ret in Hm;
         destruct (allocs (mem s2)) as [|[|] r]; discriminate).
  apply on_mem_malloc_inv in Hm. destruct Hm as (Hl3 & _).
  destruct got; cbn [negb]; [|now eexists].
  unfold bind at 1. unfold on_lex at 1, gets at 1.
  assert (Htl : tl (saved_text (lex s3)) = body_text ps ++ [QUOTE]).
  { rewrite Hl3, Hs2, Hs1. simpl. exact He. }
  rewrite Htl, (decode_escapes_pieces ps [] Hok).
  destruct (existsb is_unicode ps); now eexists.
Qed.

(** C6.  The second pass.  (1) The source's [switch] maps each
    two-character escape as the table says.  (2) On a text of well-formed
    pieces without [\u] the pass yields the byte of every piece: the
    escapes decoded, every other character copied; the result is no
    longer than the text.  (3) A STRING token of [lex_scan_string] has a
    literal of such pieces as saved text and their bytes as payload,
    shorter than the saved text by the two quotes at least.  (4) The
    literal of a, backslash, t, b decodes to a, TAB, b.  (5) Once the
    first pass has reached the closing quote, [lex_scan_string] returns. *)
Theorem escapes_decoded {P : Platform} {D} :
  (forall fuel (s s1 s2 : @lexst D) c,
     saved_text (lex s) = [QUOTE] ->
     lex_get_save {| lex := set_token TOKEN_INVALID (lex s); mem := mem s |}
     = Ok (c, s1) ->
     scan_string_raw fuel c s1 = Ok (true, s2) ->
     exists s', lex_scan_string fuel s = Ok (tt, s')) /\
  (forall e b, In (e, b) escape_table -> unescape e = Some b) /\
  (forall ps rest,
     forallb piece_ok ps = true -> existsb is_unicode ps = false ->
     decode_escapes (body_text ps ++ QUOTE :: rest) =
     Ok (Some (map piece_byte ps)) /\
     (List.length (map piece_byte ps) <= List.length (body_text ps))%nat) /\
  (forall fuel (s s' : @lexst D),
     saved_text (lex s) = [QUOTE] ->
     lex_scan_string fuel s = Ok (tt, s') ->
     token (lex s') = TOKEN_STRING ->
     exists ps,
       forallb piece_ok ps = true /\ existsb is_unicode ps = false /\
       saved_text (lex s') = literal_text ps /\
       value (lex s') = VString (Some (map piece_byte ps)) /\
       (List.length (map piece_byte ps) + 2
        <= List.length (saved_text (lex s')))%nat) /\
  (forall error,
     json_loadf 100 (file_with (json_text "[`a\tb`]")) error empty_memory =
     Ok (Some 0%nat, error,
         {| nodes := [Some {| refcount := 1; body := JArray [1%nat] |};
                      Some {| refcount := 1;
                              body := JString [ch "a"; 9; ch "b"] |}];
            blocks := 0; allocs := [] |})).
Proof.
  split; [|split; [|split; [|split]]].
  - intros fuel s s1 s2 c. apply lex_scan_string_returns.
  - intros e b H. simpl in H.
    repeat (destruct H as [H|H]; [inversion H; reflexivity|]).
    contradiction.
  - intros ps rest Hok Hu. split; [|apply body_text_length].
    rewrite (decode_escapes_pieces ps rest Hok). now rewrite Hu.
  - intros fuel s s' Hsv H Ht.
    destruct (@lex_scan_string_inv _ _ fuel s s' Hsv H) as (_ & _ & [Hinv|Hstr]).
    + destruct Hinv as (Hinv & _). rewrite Hinv in Ht. discriminate.
    + destruct Hstr as (_ & _ & ps & Hok & Hu & Hs & Hv).
      exists ps. repeat split; try assumption.
      rewrite Hs. unfold literal_text. simpl. rewrite length_app. simpl.
      pose proof (body_text_length ps). lia.
  - intros error. vm_compute. reflexivity.
Qed.

Lemma escapes_decoded_witness :
  let s := quote_read (P := debug_build) (json_text "`a\tb`") in
  let s' := state_after (lex_scan_string (P := debug_build) 100) s in
  exists ps,
    forallb piece_ok ps = true /\ existsb is_unicode ps = false /\
    saved_text (lex s') = literal_text ps /\
    value (lex s') = VString (Some (map piece_byte ps)) /\
    (List.length (map piece_byte ps) + 2
     <= List.length (saved_text (lex s')))%nat.
Proof.
  intros s s'.
  apply (proj1 (proj2 (proj2 (proj2
           (escapes_decoded (P := debug_build) (D := FILE))))) 100%nat s s').
  - vm_compute. reflexivity.
  - vm_compute. reflexivity.
  - vm_compute. reflexivity.
Defined.

(** ** Examples for the top level and the error reporter *)

Lemma error_set_report_witness :
  let lx := lex (ls (state_after (lexer (lex_scan (P := debug_build) 100))
                                 (parsing (json_text "}") None))) in
  error_set (P := debug_build) (Some blank_error) (Some lx) "unexpected token" =
  Some {| error_line := 1; error_text := "unexpected token near '}'" |}.
Proof.
  intros lx.
  apply (proj1 (proj2 (@error_set_report debug_build FILE blank_error lx
                         "unexpected token"))).
  - vm_compute. discriminate.
  - vm_compute. lia.
Defined.

(** The claim as it was stated fails on a token that is a NUL byte: a
    NUL in the input, or the 0 that [stream_get] returns for bytes that
    are not UTF-8.  [lex_scan] saves the one byte, so the raw text of
    the token is not empty, and [error_set] reports "near end of file"
    with the closing bracket still unread. *)
Lemma error_set_report_counterexample :
  let s := state_after (lex_scan (P := debug_build) 100)
                       (lexing [0; ch "]"]) in
  let lx := lex s in
  saved_text lx = [0] /\ token lx = TOKEN_INVALID /\
  unread (data (stream lx)) = [ch "]"] /\
  error_set (P := debug_build) (Some blank_error) (Some lx) "invalid token" =
  Some {| error_line := 1; error_text := "invalid token near end of file" |} /\
  ~ (saved_text lx <> [] ->
     error_set (P := debug_build) (Some blank_error) (Some lx) "invalid token" =
     Some {| error_line := line lx;
             error_text := ("invalid token near '" ++
                            string_of_bytes (saved_text lx) ++ "'")%string |}) /\
  json_loadf (P := debug_build) 100 (file_with [ch "["; 0; ch "]"])
             (Some blank_error) empty_memory =
  Ok (None,
      Some {| error_line := 1;
              error_text := "invalid token near end of file" |},
      {| nodes := [None]; blocks := 0; allocs := [] |}).
Proof.
  intros s lx.
  split; [vm_compute; reflexivity|]. split; [vm_compute; reflexivity|].
  split; [vm_compute; reflexivity|]. split; [vm_compute; reflexivity|].
  split; [|vm_compute; reflexivity].
  intros H. assert (Hne : saved_text lx <> []) by (vm_compute; discriminate).
  specialize (H Hne). vm_compute in H. discriminate H.
Qed.

(** ** The end of the document *)

(** C1.  [json_loadf] returns what [parse_json] returns: no token is
    scanned after the top-level value.  Whatever bytes follow the empty
    object in the file, in any build, the call returns the object and
    leaves the error record as it was.  [json_loads] does scan once more:
    on the same object followed by a closing bracket it releases the tree,
    returns NULL and reports "end of file expected". *)
Theorem json_loadf_skips_end_check :
  (forall (P : Platform) (rest : list Z) (error : option json_error_t),
     json_loadf 100 (file_with (json_text "{}" ++ rest)) error empty_memory =
     Ok (Some 0%nat, error,
         {| nodes := [Some {| refcount := 1; body := JObject [] |}];
            blocks := 0; allocs := [] |})) /\
  json_loadf (P := debug_build) 100 (file_with (json_text "{}trailing"))
             (Some blank_error) empty_memory =
  Ok (Some 0%nat, Some blank_error,
      {| nodes := [Some {| refcount := 1; body := JObject [] |}];
         blocks := 0; allocs := [] |}) /\
  json_loads (P := debug_build) 100 (c_string (json_text "{}]") [0])
             (Some blank_error) empty_memory =
  Ok (None,
      Some {| error_line := 1;
              error_text := "end of file expected near ']'" |},
      {| nodes := [None]; blocks := 0; allocs := [] |}).
Proof.
  split; [|split].
  - intros P rest error. vm_compute. reflexivity.
  - vm_compute. reflexivity.
  - vm_compute. reflexivity.
Qed.

(** ** Release on the error paths of [parse_object] *)

(** C2.  When [strdup] of the key fails, [parse_object] returns NULL at
    once (line 457) and the object stays allocated: after [json_loadf] on
    an object with one member, whose fourth allocation is the copy of the
    key, no tree is returned and one node is still live, in any build.
    With a second member the object and its first member stay.  On the
    other failures of the loop (no string key, no colon, a failed member
    value, a failed insertion) every node and block is released. *)
Theorem parse_object_leaks_when_strdup_fails :
  (forall (P : Platform) (error : option json_error_t),
     json_loadf 100 (file_with (json_text "{`a`:1}")) error
                (memory_with (fail_at 3)) =
     Ok (None, error,
         {| nodes := [Some {| refcount := 1; body := JObject [] |}];
            blocks := 0; allocs := [] |})) /\
  (forall (P : Platform) (error : option json_error_t),
     json_loadf 100 (file_with (json_text "{`b`:[],`a`:1}")) error
                (memory_with (fail_at 7)) =
     Ok (None, error,
         {| nodes := [Some {| refcount := 1;
                              body := JObject [([ch "b"], 1%nat)] |};
                      Some {| refcount := 1; body := JArray [] |}];
            blocks := 0; allocs := [] |})) /\
  (forall doc plan,
     In (doc, plan)
        [("{1}", []); ("{`a` 1}", []); ("{`a`:}", []);
         ("{`a`:[1,}", []); ("{`a`:1}", fail_at 4);
         ("{`a`:1}", fail_at 5); ("{`a`:1 ", [])]%string ->
     exists e m,
       json_loadf (P := debug_build) 100 (file_with (json_text doc))
                  (Some blank_error) (memory_with plan) = Ok (None, e, m) /\
       live_nodes m = 0%nat /\ blocks m = 0).
Proof.
  split; [|split].
  - intros P error. vm_compute. reflexivity.
  - intros P error. vm_compute. reflexivity.
  - intros doc plan H.
    repeat (destruct H as [H|H];
            [inversion H; subst; eexists; eexists;
             split; [vm_compute; reflexivity|split; reflexivity]|]).
    contradiction.
Qed.

Lemma parse_object_leaks_when_strdup_fails_witness :
  exists e m,
    json_loadf (P := debug_build) 100 (file_with (json_text "{`a` 1}"))
               (Some blank_error) (memory_with []) = Ok (None, e, m) /\
    live_nodes m = 0%nat /\ blocks m = 0.
Proof.
  apply (proj2 (proj2 parse_object_leaks_when_strdup_fails) "{`a` 1}"%string []).
  simpl. tauto.
Defined.

(** ** Malformed UTF-8 inside a string *)

(** C7.  On a byte sequence that is not UTF-8 [stream_get] returns 0
    without advancing [buffer_pos] (lines 123 and 131); inside a string
    [lex_scan_string] takes the 0 for a control character and ungets it,
    and [stream_unget] fails its [assert(stream->buffer_pos > 0)]: with
    assertions the program is aborted, on a lone continuation byte as on
    a truncated or overlong sequence.  With [NDEBUG] the same input gives
    an INVALID token and the error "invalid token".  A control character
    does give an INVALID token in both builds, and is read again by the
    next [lex_get]. *)
Theorem invalid_utf8_in_string_aborts :
  (forall bad,
     In bad [[128]; [195; 40]; [192; 128]; [226; 130]] ->
     json_loadf (P := debug_build) 100
       (file_with (json_text "[`" ++ bad ++ json_text "`]"))
       (Some blank_error) empty_memory = Abort) /\
  json_loadf (P := release_build) 100
    (file_with (json_text "[`" ++ [128] ++ json_text "`]"))
    (Some blank_error) empty_memory =
  Ok (None,
      Some {| error_line := 1;
              error_text := string_of_bytes (json_text "invalid token near '`'") |},
      {| nodes := [None]; blocks := 0; allocs := [] |}) /\
  (forall (P : Platform) (ctl : Z),
     In P [debug_build; release_build] -> In ctl [0; 1; 9; 10; 13; 31] ->
     let s := state_after (lex_scan 100)
                          (lexing (json_text "`a" ++ [ctl] ++ json_text "b`")) in
     token (lex s) = TOKEN_INVALID /\
     saved_text (lex s) = json_text "`a" /\
     (ctl <> 0 -> result_of lex_get s = Some ctl)).
Proof.
  split; [|split].
  - intros bad H.
    destruct H as [<-|[<-|[<-|[<-|[]]]]]; vm_compute; reflexivity.
  - vm_compute. reflexivity.
  - intros P ctl HP Hc.
    destruct HP as [<-|[<-|[]]];
      destruct Hc as [<-|[<-|[<-|[<-|[<-|[<-|[]]]]]]];
      vm_compute; repeat split; intros; congruence.
Qed.

Lemma invalid_utf8_in_string_aborts_witness :
  json_loadf (P := debug_build) 100
    (file_with (json_text "[`" ++ [128] ++ json_text "`]"))
    (Some blank_error) empty_memory = Abort.
Proof.
  apply (proj1 invalid_utf8_in_string_aborts [128]). simpl. tauto.
Defined.

(** ** Reading ASCII text from a source *)

Lemma to_char_ascii (c : Z) : ascii c -> to_char c = c.
Proof.
  intros H. unfold to_char, ascii in *.
  rewrite Z.mod_small by lia. lia.
Qed.

Lemma to_uchar_ascii (c : Z) : ascii c -> to_uchar c = c.
Proof. intros H. unfold to_uchar, ascii in *. now rewrite Z.mod_small by lia. Qed.

Section Feeding.

Context {P : Platform} {D : Type}.
Variable view : D -> list Z.

Local Abbreviation source_ok := (source_ok view).
Local Abbreviation pending := (pending view).
Local Abbreviation reading := (reading view).
Local Abbreviation read_last := (read_last view).

Implicit Types st : @stream_t D.

Lemma holds_drained st c : holds st c 1 -> drained st.
Proof.
  intros (Hp & b2 & b3 & b4 & Hb). split; [now rewrite Hb|].
  unfold buffer_read. rewrite Hp, Hb. reflexivity.
Qed.

Lemma stream_get_pending st c cs :
  source_ok st -> pending st (c :: cs) -> ascii c ->
  exists st',
    stream_get st = Ok (c, st') /\ holds st' c 1 /\
    view (data st') = cs /\ get st' = get st /\ eof st' = eof st.
Proof.
  intros Hsrc Hp Hc. pose proof Hc as Hc'. unfold ascii in Hc'.
  inversion Hp as [Hd Hv|c0 Hc0 Hh Hv].
  - destruct Hd as (Hlen & Hrd).
    destruct (Hsrc _ _ _ Hv Hc) as (d' & Hget & Hview).
    destruct st as [g e d buf pos]. simpl in *.
    destruct buf as [|b0 [|b1 [|b2 [|b3 [|b4 [|]]]]]]; try discriminate.
    unfold stream_get, bind, gets. simpl. rewrite Hrd. simpl.
    unfold stream_fill, bind, call_get. simpl. rewrite Hget.
    rewrite (to_char_ascii Hc). simpl.
    replace (c =? EOF) with false by (symmetry; apply Z.eqb_neq; unfold EOF; lia).
    simpl. replace (c <? 0) with false by (symmetry; apply Z.ltb_ge; lia).
    simpl. eexists. split; [reflexivity|]. simpl.
    repeat split; try assumption. now exists b2, b3, b4.
  - subst c0 cs. destruct Hh as (Hpos & b2 & b3 & b4 & Hb).
    destruct st as [g e d buf pos]. simpl in *. subst pos buf.
    unfold stream_get, bind, gets, buffer_read. simpl.
    replace (c =? 0) with false by (symmetry; apply Z.eqb_neq; lia).
    simpl. eexists. split; [reflexivity|]. simpl.
    repeat split. now exists b2, b3, b4.
Qed.

Lemma stream_unget_holds st c :
  holds st c 1 -> ascii c ->
  exists st',
    stream_unget c st = Ok (tt, st') /\ holds st' c 0 /\
    data st' = data st /\ get st' = get st /\ eof st' = eof st.
Proof.
  intros (Hpos & b2 & b3 & b4 & Hb) Hc.
  destruct st as [g e d buf pos]. simpl in *. subst pos buf.
  unfold stream_unget, bind, assert, gets, modify, buffer_read, ret.
  destruct NDEBUG; simpl;
    rewrite ?(to_uchar_ascii Hc), ?Z.eqb_refl;
    eexists; (split; [reflexivity|]); simpl;
    repeat split; now exists b2, b3, b4.
Qed.


Implicit Types s : @lexst D.

Lemma read_last_reading s c cs : read_last s c cs -> reading s cs.
Proof.
  intros (Hs & Hh & Hv). split; [assumption|]. subst cs.
  apply pending_source. eapply holds_drained; eassumption.
Qed.

Lemma source_ok_get (st st' : @stream_t D) :
  get st' = get st -> source_ok st -> source_ok st'.
Proof. intros H Hs d c r Hv Hc. rewrite H. now apply Hs. Qed.

Lemma lex_get_reading s c cs :
  reading s (c :: cs) -> ascii c ->
  exists s',
    lex_get s = Ok (c, s') /\ read_last s' c cs /\
    saved_text (lex s') = saved_text (lex s) /\ frame s s'.
Proof.
  intros (Hs & Hp) Hc.
  destruct (stream_get_pending Hs Hp Hc) as (st' & Hg & Hh & Hv & Hget & _).
  exists {| lex := set_stream st' (lex s); mem := mem s |}.
  split.
  { unfold lex_get, on_lex, on_stream. now rewrite Hg. }
  split.
  { split; [|split]; simpl; try assumption.
    eapply source_ok_get; eassumption. }
  split; [reflexivity|]. now repeat split.
Qed.

Lemma lex_save_eq s c :
  lex_save c s =
  Ok (tt, {| lex := set_saved_text (saved_text (lex s) ++ [c]) (lex s);
             mem := mem s |}).
Proof. reflexivity. Qed.

Lemma lex_get_save_reading s c cs :
  reading s (c :: cs) -> ascii c ->
  exists s',
    lex_get_save s = Ok (c, s') /\ read_last s' c cs /\
    saved_text (lex s') = saved_text (lex s) ++ [c] /\ frame s s'.
Proof.
  intros Hr Hc.
  destruct (lex_get_reading Hr Hc) as (s1 & Hg & Hl & Hsv & Hf).
  exists {| lex := set_saved_text (saved_text (lex s1) ++ [c]) (lex s1);
            mem := mem s1 |}.
  split.
  { unfold lex_get_save. rewrite (bind_ok _ _ _ Hg).
    rewrite (bind_ok _ _ _ (lex_save_eq _ _)). reflexivity. }
  split; [exact Hl|]. split; [simpl; now rewrite Hsv|].
  destruct Hf as (F1 & F2 & F3 & F4). now repeat split.
Qed.

Lemma lex_unget_unsave_read_last s c cs sv :
  read_last s c cs -> ascii c -> saved_text (lex s) = sv ++ [c] ->
  exists s',
    lex_unget_unsave c s = Ok (tt, s') /\ reading s' (c :: cs) /\
    saved_text (lex s') = sv /\ frame s s'.
Proof.
  intros (Hs & Hh & Hv) Hc Hsv.
  destruct (stream_unget_holds Hh Hc) as (st' & Hu & Hh' & Hd & Hget & _).
  exists {| lex := set_saved_text sv (set_stream st' (lex s)); mem := mem s |}.
  split.
  { unfold lex_unget_unsave, bind, on_lex, on_stream. rewrite Hu. simpl.
    rewrite Hsv, strbuffer_pop_app. simpl.
    unfold assert, ret. rewrite Z.eqb_refl. now destruct NDEBUG. }
  split.
  { split; simpl; [eapply source_ok_get; eassumption|].
    subst cs. rewrite <- Hd. now apply pending_pushed. }
  split; [reflexivity|]. now repeat split.
Qed.

Lemma isdigit_ascii (c : Z) : isdigit c = true -> ascii c.
Proof.
  unfold isdigit, ascii. intros H. apply andb_true_iff in H.
  destruct H as (H1 & H2). apply Z.leb_le in H1, H2. lia.
Qed.

Lemma bind_assoc_at {S A B C} (m : M S A) (f : A -> M S B) (k : B -> M S C) x :
  bind m (fun a => bind (f a) k) x = bind (bind m f) k x.
Proof. unfold bind. now destruct (m x) as [[a y]| | |]. Qed.

(** Reading a run of digits [ds] that ends before [x]. *)
Lemma read_digits ds : forall fuel s x cs,
  (List.length ds < fuel)%nat -> forallb isdigit ds = true ->
  isdigit x = false -> ascii x ->
  reading s (ds ++ x :: cs) ->
  exists s',
    bind lex_get_save (scan_digits fuel) s = Ok (x, s') /\
    read_last s' x cs /\
    saved_text (lex s') = saved_text (lex s) ++ ds ++ [x] /\ frame s s'.
Proof.
  induction ds as [|d ds IH]; intros fuel s x cs Hf Hd Hx Hax Hr.
  - destruct (lex_get_save_reading Hr Hax) as (s1 & Hg & Hl & Hsv & Hfr).
    exists s1. rewrite (bind_ok _ _ _ Hg).
    destruct fuel as [|f]; [simpl in Hf; lia|]. simpl. rewrite Hx.
    split; [reflexivity|]. split; [exact Hl|]. split; assumption.
  - simpl in Hd. apply andb_true_iff in Hd. destruct Hd as (Hd & Hds).
    simpl in Hr.
    destruct (lex_get_save_reading Hr (isdigit_ascii _ Hd))
      as (s1 & Hg & Hl & Hsv & Hfr).
    destruct fuel as [|f]; [simpl in Hf; lia|]. simpl in Hf.
    destruct (IH f s1 x cs ltac:(lia) Hds Hx Hax (read_last_reading Hl))
      as (s2 & Hrun & Hl2 & Hsv2 & Hfr2).
    exists s2. rewrite (bind_ok _ _ _ Hg). simpl. rewrite Hd.
    split; [exact Hrun|]. split; [exact Hl2|].
    split; [rewrite Hsv2, Hsv; now rewrite <- app_assoc|].
    eapply frame_trans; eassumption.
Qed.

End Feeding.

(** ** Number literals and the conversions *)

Lemma count_while_run (p : Z -> bool) (l r : list Z) :
  forallb p l = true -> stops p r ->
  count_while p (l ++ r) = List.length l.
Proof.
  intros Hl Hr. induction l as [|a l IH]; simpl in *.
  - destruct r as [|x r]; simpl in *; [reflexivity|now rewrite Hr].
  - apply andb_true_iff in Hl. destruct Hl as (Ha & Hl). rewrite Ha.
    now rewrite IH.
Qed.

Lemma skipn_run {A} (l r : list A) : skipn (List.length l) (l ++ r) = r.
Proof. induction l as [|a l IH]; simpl; [reflexivity|exact IH]. Qed.

Lemma digits_value_run (l r : list Z) : forall acc,
  forallb isdigit l = true -> stops isdigit r ->
  digits_value acc (l ++ r) = digits_value acc l.
Proof.
  induction l as [|a l IH]; intros acc Hl Hr; simpl in *.
  - destruct r as [|x r]; simpl in *; [reflexivity|now rewrite Hr].
  - apply andb_true_iff in Hl. destruct Hl as (Ha & Hl). rewrite Ha.
    now apply IH.
Qed.

Lemma cstr_nonzero (l : list Z) :
  forallb (fun c => negb (c =? 0)) l = true -> cstr l = l.
Proof.
  induction l as [|a l IH]; simpl; [reflexivity|]. intros H.
  apply andb_true_iff in H. destruct H as (Ha & Hl).
  apply negb_true_iff in Ha. rewrite Ha. now rewrite IH.
Qed.

Lemma digits_nonzero (l : list Z) :
  forallb isdigit l = true -> forallb (fun c => negb (c =? 0)) l = true.
Proof.
  induction l as [|a l IH]; simpl; [reflexivity|]. intros H.
  apply andb_true_iff in H. destruct H as (Ha & Hl). rewrite (IH Hl).
  unfold isdigit in Ha. apply andb_true_iff in Ha. destruct Ha as (Ha & _).
  apply Z.leb_le in Ha. replace (a =? 0) with false; [reflexivity|].
  symmetry. apply Z.eqb_neq. lia.
Qed.

Lemma integer_ok_digits (l : list Z) :
  integer_ok l = true ->
  forallb isdigit l = true /\ (0 < List.length l)%nat.
Proof.
  destruct l as [|d ds]; simpl; [discriminate|]. intros H.
  apply andb_true_iff in H. destruct H as (H & _).
  apply andb_true_iff in H. destruct H as (Hd & Hds).
  rewrite Hd, Hds. split; [reflexivity|lia].
Qed.

Lemma number_text_nonzero (n : number_literal) :
  number_ok n = true ->
  forallb (fun c => negb (c =? 0)) (number_text n) = true.
Proof.
  unfold number_ok. intros H.
  apply andb_true_iff in H. destruct H as (H & He).
  apply andb_true_iff in H. destruct H as (Hi & Hf).
  apply integer_ok_digits in Hi. destruct Hi as (Hi & _).
  assert (H1 : forallb (fun c => negb (c =? 0)) (sign_text n) = true).
  { unfold sign_text. now destruct (minus n). }
  assert (H2 : forallb (fun c => negb (c =? 0)) (fraction_text n) = true).
  { unfold fraction_text. pose proof (digits_nonzero _ Hf) as Hf'.
    destruct (fraction n); [reflexivity|]. exact Hf'. }
  assert (H3 : forallb (fun c => negb (c =? 0)) (exponent_text n) = true).
  { unfold exponent_text.
    destruct (exponent n) as [[[e sg] ds]|]; [|reflexivity].
    simpl in He. apply andb_true_iff in He. destruct He as (He & _).
    apply andb_true_iff in He. destruct He as (He & Hds).
    apply andb_true_iff in He. destruct He as (He & Hsg).
    simpl. rewrite forallb_app, (digits_nonzero _ Hds).
    assert (e <> 0).
    { apply orb_true_iff in He. destruct He as [He|He];
        apply Z.eqb_eq in He; subst e; discriminate. }
    replace (e =? 0) with false by (symmetry; now apply Z.eqb_neq).
    simpl. destruct sg as [|c [|]]; try discriminate; [reflexivity|].
    simpl. apply orb_true_iff in Hsg. destruct Hsg as [Hc|Hc];
      apply Z.eqb_eq in Hc; subst c; reflexivity. }
  unfold number_text. rewrite !forallb_app.
  now rewrite H1, (digits_nonzero _ Hi), H2, H3.
Qed.

Ltac bool_to_prop :=
  repeat
    match goal with
    | H : _ && _ = true |- _ => apply andb_true_iff in H; destruct H
    | H : _ || _ = false |- _ => apply orb_false_iff in H; destruct H
    | H : negb _ = true |- _ => apply negb_true_iff in H
    | H : negb _ = false |- _ => apply negb_false_iff in H
    | H : (_ <=? _) = true |- _ => apply Z.leb_le in H
    | H : (_ <=? _) = false |- _ => apply Z.leb_gt in H
    | H : (_ <? _) = true |- _ => apply Z.ltb_lt in H
    | H : (_ <? _) = false |- _ => apply Z.ltb_ge in H
    | H : (_ =? _) = true |- _ => apply Z.eqb_eq in H
    | H : (_ =? _) = false |- _ => apply Z.eqb_neq in H
    end.

Ltac list_length :=
  repeat first [ rewrite length_app | progress cbn [List.length] ].

Lemma eqb_false (a b : Z) : a <> b -> (a =? b) = false.
Proof. apply Z.eqb_neq. Qed.

Lemma isdigit_range (d : Z) : isdigit d = true -> 48 <= d <= 57.
Proof. unfold isdigit. intros H. bool_to_prop. lia. Qed.

Lemma isdigit_not_space (d : Z) : isdigit d = true -> isspace d = false.
Proof.
  intros H. apply isdigit_range in H. unfold isspace.
  rewrite eqb_false by lia. simpl.
  destruct (9 <=? d); [|reflexivity]. simpl. apply Z.leb_gt. lia.
Qed.

Lemma isdigit_not_sign (d : Z) (r : list Z) :
  isdigit d = true -> sign_length (d :: r) = 0%nat.
Proof.
  intros H. apply isdigit_range in H. unfold sign_length.
  change (ch "-") with 45. change (ch "+") with 43.
  now rewrite !eqb_false by lia.
Qed.

Lemma stops_fraction_exponent (n : number_literal) :
  number_ok n = true ->
  stops isdigit (fraction_text n ++ exponent_text n) /\
  stops isdigit (exponent_text n).
Proof.
  unfold number_ok. intros H. bool_to_prop.
  assert (He : stops isdigit (exponent_text n)).
  { unfold exponent_text. destruct (exponent n) as [[[e sg] ds]|]; simpl;
      [|exact I].
    simpl in H0. bool_to_prop.
    match goal with
    | H : (e =? ch "e") || (e =? ch "E") = true |- _ =>
        apply orb_true_iff in H; destruct H as [H|H];
        apply Z.eqb_eq in H; subst e; reflexivity
    end. }
  split; [|exact He].
  unfold fraction_text. destruct (fraction n); [exact He|reflexivity].
Qed.

Section Conversions.

Context {P : Platform}.

Lemma strtol_literal (n : number_literal) :
  integer_ok (integer n) = true ->
  strtol (strbuffer_value (sign_text n ++ integer n)) =
  (clamp_long (integer_value n),
   List.length (sign_text n ++ integer n)).
Proof.
  intros Hok. pose proof (integer_ok_digits _ Hok) as (Hd & Hlen).
  assert (Hz : forallb (fun c => negb (c =? 0)) (sign_text n ++ integer n)
               = true).
  { rewrite forallb_app, (digits_nonzero _ Hd). unfold sign_text.
    now destruct (minus n). }
  unfold strtol, strbuffer_value, integer_value.
  rewrite !(cstr_nonzero _ Hz).
  destruct (integer n) as [|d ds] eqn:Ei; [discriminate|].
  simpl in Hd. apply andb_true_iff in Hd. destruct Hd as (Hd0 & Hds).
  assert (Hrun : count_while isdigit (d :: ds) = S (List.length ds)).
  { rewrite <- (app_nil_r (d :: ds)) at 1.
    rewrite count_while_run; [reflexivity| |exact I].
    simpl. now rewrite Hd0, Hds. }
  unfold sign_text. destruct (minus n).
  - cbn [app count_while isspace]. change (isspace (ch "-")) with false.
    cbn [skipn sign_length]. change (ch "-" =? ch "-") with true.
    cbn [orb skipn]. rewrite Hrun. cbn [List.length Nat.add]. reflexivity.
  - cbn [app count_while]. rewrite (@isdigit_not_space d Hd0).
    cbn [skipn]. rewrite (@isdigit_not_sign d _ Hd0). cbn [skipn].
    rewrite Hrun. cbn [List.length Nat.add].
    pose proof (isdigit_range _ Hd0).
    change (ch "-") with 45. rewrite eqb_false by lia. reflexivity.
Qed.


Lemma strtod_end_literal (n : number_literal) :
  number_ok n = true ->
  strtod_end (strbuffer_value (number_text n)) = List.length (number_text n).
Proof.
  intros Hok. pose proof (number_text_nonzero _ Hok) as Hz.
  pose proof (stops_fraction_exponent _ Hok) as (Hsf & Hse).
  unfold strtod_end, strbuffer_value. rewrite !(cstr_nonzero _ Hz).
  unfold number_ok in Hok. bool_to_prop.
  match goal with H : integer_ok _ = true |- _ =>
    pose proof (integer_ok_digits _ H) as (Hd & _) end.
  destruct (integer n) as [|d ds] eqn:Ei; [discriminate|].
  pose proof Hd as Hd'.
  simpl in Hd'. apply andb_true_iff in Hd'. destruct Hd' as (Hd0 & Hds).
  unfold number_text. rewrite Ei.
  set (tail := fraction_text n ++ exponent_text n) in *.
  assert (Hrun : count_while isdigit ((d :: ds) ++ tail)
                 = S (List.length ds)).
  { now rewrite count_while_run. }
  assert (Hskip : skipn (S (List.length ds)) ((d :: ds) ++ tail) = tail).
  { exact (skipn_run (d :: ds) tail). }
  assert (Hsign :
    count_while isspace (sign_text n ++ (d :: ds) ++ tail) = 0%nat /\
    skipn (sign_length (sign_text n ++ (d :: ds) ++ tail))
          (sign_text n ++ (d :: ds) ++ tail) = (d :: ds) ++ tail /\
    sign_length (sign_text n ++ (d :: ds) ++ tail)
    = List.length (sign_text n)).
  { unfold sign_text. destruct (minus n).
    - repeat split.
    - cbn [app count_while]. rewrite (@isdigit_not_space d Hd0).
      rewrite (@isdigit_not_sign d _ Hd0). repeat split. }
  destruct Hsign as (Hws & Hsk & Hsg).
  rewrite Hws. cbn [skipn]. rewrite Hsk, Hsg, Hrun, Hskip.
  cbn [Nat.add].
  assert (Hexp :
    match exponent_text n with
    | [] => 0%nat
    | c :: r =>
        if (c =? ch "e") || (c =? ch "E") then
          match count_while isdigit (skipn (sign_length r) r) with
          | O => 0%nat
          | S k => (1 + sign_length r + S k)%nat
          end
        else 0%nat
    end = List.length (exponent_text n)).
  { unfold exponent_text.
    destruct (exponent n) as [[[e sg] eds]|]; [|reflexivity].
    match goal with H : exponent_ok _ = true |- _ => simpl in H end.
    bool_to_prop.
    match goal with H : (e =? ch "e") || (e =? ch "E") = true |- _ =>
      rewrite H end.
    destruct eds as [|x xs]; [discriminate|].
    match goal with H : forallb isdigit (x :: xs) = true |- _ =>
      pose proof H as Hx; simpl in Hx; apply andb_true_iff in Hx;
      destruct Hx as (Hx0 & Hxs);
      assert (Hc : count_while isdigit (x :: xs) = S (List.length xs))
        by (rewrite <- (app_nil_r (x :: xs)) at 1;
            rewrite count_while_run; [reflexivity|exact H|exact I])
    end.
    destruct sg as [|c [|]]; try discriminate.
    - cbn [app]. rewrite (@isdigit_not_sign x _ Hx0). cbn [skipn].
      rewrite Hc. cbn [List.length]. lia.
    - cbn [app sign_length].
      match goal with H : (c =? ch "+") || (c =? ch "-") = true |- _ =>
        rewrite orb_comm in H; rewrite H end.
      cbn [skipn]. rewrite Hc. cbn [List.length]. lia. }
  unfold tail, fraction_text in *. clear tail.
  destruct (fraction n) as [|f fs] eqn:Ef.
  - cbn [app] in *.
    assert (Hnodot : match exponent_text n with
                     | [] => (0%nat, 0%nat)
                     | c :: r => if c =? ch "." then (1%nat, count_while isdigit r)
                                 else (0%nat, 0%nat)
                     end = (0%nat, 0%nat)).
    { unfold exponent_text.
      destruct (exponent n) as [[[e sg] eds]|]; [|reflexivity].
      match goal with H : exponent_ok _ = true |- _ => simpl in H end.
      bool_to_prop.
      match goal with H : (e =? ch "e") || (e =? ch "E") = true |- _ =>
        apply orb_true_iff in H; destruct H as [H|H];
        apply Z.eqb_eq in H; subst e; reflexivity end. }
    rewrite Hnodot. cbn [Nat.add skipn].
    rewrite !length_app. cbn [List.length].
    destruct (exponent_text n) as [|c r] eqn:Ee.
    + list_length. lia.
    + destruct ((c =? ch "e") || (c =? ch "E")).
      * destruct (count_while isdigit (skipn (sign_length r) r));
          list_length; cbn [List.length] in *; lia.
      * list_length. cbn [List.length] in *. lia.
  - cbn [app]. change (ch "." =? ch ".") with true. cbv iota beta.
    assert (Hfr : count_while isdigit ((f :: fs) ++ exponent_text n)
                  = S (List.length fs)).
    { rewrite count_while_run; [reflexivity| |exact Hse].
      match goal with H : forallb isdigit (f :: fs) = true |- _ => exact H end. }
    cbn [app] in Hfr. rewrite Hfr. cbn [Nat.add skipn].
    assert (Hs4 : skipn (List.length fs) (fs ++ exponent_text n)
                  = exponent_text n) by apply skipn_run.
    rewrite Hs4.
    rewrite !length_app. cbn [List.length]. rewrite length_app.
    destruct (exponent_text n) as [|c r] eqn:Ee.
    + list_length. lia.
    + destruct ((c =? ch "e") || (c =? ch "E")).
      * destruct (count_while isdigit (skipn (sign_length r) r));
          list_length; cbn [List.length] in *; lia.
      * list_length. cbn [List.length] in *. lia.
Qed.

End Conversions.

Ltac norm_ch :=
  repeat match goal with
         | |- context [ch ?a] =>
             let v := eval vm_compute in (ch a) in change (ch a) with v
         end.

Section NumberScan.

Context {P : Platform} {D : Type}.
Variable view : D -> list Z.

Implicit Types s : @lexst D.

Local Abbreviation reading := (reading view).
Local Abbreviation read_last := (read_last view).

(** Lines 288-299 on an integer part [d :: ds] that ends before [y]. *)
Lemma scan_unsigned_part d ds y rest fuel s sv :
  integer_ok (d :: ds) = true -> ascii y -> isdigit y = false ->
  (List.length ds < fuel)%nat ->
  read_last s d (ds ++ y :: rest) -> saved_text (lex s) = sv ++ [d] ->
  exists s',
    (if d =? ch "0" then
       c <- lex_get_save ;;
       if isdigit c then (lex_unget_unsave c ;; ret None)
       else ret (Some c)
     else
       c <- lex_get_save ;;
       c <- scan_digits fuel c ;;
       ret (Some c)) s = Ok (Some y, s') /\
    read_last s' y rest /\
    saved_text (lex s') = sv ++ d :: ds ++ [y] /\ frame s s'.
Proof.
  intros Hok Hy Hyd Hf Hr Hsv.
  unfold integer_ok in Hok. apply andb_true_iff in Hok.
  destruct Hok as (Hok & Hz). apply andb_true_iff in Hok.
  destruct Hok as (Hd & Hds).
  apply read_last_reading in Hr.
  destruct (d =? ch "0") eqn:E.
  - simpl in Hz. destruct ds; [|discriminate]. simpl in Hr.
    edestruct (@lex_get_save_reading P D view s) as (s1 & Hg & Hl & Hs1 & Hf1);
      [exact Hr|exact Hy|].
    exists s1. rewrite (bind_ok _ _ _ Hg), Hyd.
    split; [reflexivity|]. split; [exact Hl|]. split; [|exact Hf1].
    rewrite Hs1, Hsv. now rewrite <- app_assoc.
  - edestruct (@read_digits P D view ds fuel s) as (s1 & Hrun & Hl & Hs1 & Hf1);
      [exact Hf|exact Hds|exact Hyd|exact Hy|exact Hr|].
    exists s1. rewrite bind_assoc_at, (bind_ok _ _ _ Hrun).
    split; [reflexivity|]. split; [exact Hl|]. split; [|exact Hf1].
    rewrite Hs1, Hsv. now rewrite <- app_assoc.
Qed.

Lemma scan_integer_part_literal (n : number_literal) y rest fuel s :
  integer_ok (integer n) = true -> ascii y -> isdigit y = false ->
  (List.length (integer n) < fuel)%nat ->
  read_last s (hd 0 (sign_text n ++ integer n))
            (tl (sign_text n ++ integer n) ++ y :: rest) ->
  saved_text (lex s) = [hd 0 (sign_text n ++ integer n)] ->
  exists s',
    scan_integer_part fuel (hd 0 (sign_text n ++ integer n)) s
    = Ok (Some y, s') /\
    read_last s' y rest /\
    saved_text (lex s') = sign_text n ++ integer n ++ [y] /\ frame s s'.
Proof.
  intros Hok Hy Hyd Hf Hr Hsv.
  destruct (integer n) as [|d ds] eqn:Ei; [discriminate|].
  pose proof Hok as Hok'. unfold integer_ok in Hok'.
  apply andb_true_iff in Hok'. destruct Hok' as (Hok' & _).
  apply andb_true_iff in Hok'. destruct Hok' as (Hd & _).
  pose proof (isdigit_range _ Hd) as Hrange.
  unfold scan_integer_part, sign_text in *. simpl in Hf.
  destruct (minus n); cbn [app hd tl] in *.
  - change (ch "-" =? ch "-") with true. cbv iota.
    edestruct (@lex_get_save_reading P D view s) as (s1 & Hg & Hl & Hs1 & Hf1);
      [eapply read_last_reading; exact Hr|exact (isdigit_ascii _ Hd)|].
    rewrite (bind_ok _ _ _ Hg). rewrite Hsv in Hs1.
    edestruct (@scan_unsigned_part d ds y rest fuel s1 [ch "-"])
      as (s2 & Hrun & Hl2 & Hs2 & Hf2);
      [exact Hok|exact Hy|exact Hyd|lia|exact Hl|exact Hs1|].
    exists s2. split; [exact Hrun|]. split; [exact Hl2|].
    split; [exact Hs2|]. eapply frame_trans; eassumption.
  - replace (d =? ch "-") with false
      by (symmetry; apply Z.eqb_neq; norm_ch; lia).
    unfold bind at 1, ret at 1.
    edestruct (@scan_unsigned_part d ds y rest fuel s [])
      as (s2 & Hrun & Hl2 & Hs2 & Hf2);
      [exact Hok|exact Hy|exact Hyd|lia|exact Hr|exact Hsv|].
    exists s2. split; [exact Hrun|]. split; [exact Hl2|].
    split; [exact Hs2|exact Hf2].
Qed.

(** Lines 312-321 on a fraction [f :: fs] that ends before [z]. *)
Lemma scan_fraction_present f fs z rest fuel s :
  forallb isdigit (f :: fs) = true -> ascii z -> isdigit z = false ->
  (List.length fs < fuel)%nat ->
  read_last s (ch ".") (f :: fs ++ z :: rest) ->
  exists s',
    scan_fraction fuel (ch ".") s = Ok (Some z, s') /\
    read_last s' z rest /\
    saved_text (lex s') = saved_text (lex s) ++ f :: fs ++ [z] /\
    frame s s'.
Proof.
  intros Hd Hz Hzd Hf Hr. simpl in Hd. apply andb_true_iff in Hd.
  destruct Hd as (Hf0 & Hfs).
  unfold scan_fraction. change (ch "." =? ch ".") with true. cbv iota.
  edestruct (@lex_get_reading P D view s) as (s1 & Hg & Hl & Hs1 & Hf1);
    [eapply read_last_reading; exact Hr|exact (isdigit_ascii _ Hf0)|].
  rewrite (bind_ok _ _ _ Hg), Hf0. cbn [negb].
  rewrite (bind_ok _ _ _ (lex_save_eq _ _)).
  set (s2 := {| lex := set_saved_text (saved_text (lex s1) ++ [f]) (lex s1);
                mem := mem s1 |}).
  assert (Hl2 : reading s2 (fs ++ z :: rest)).
  { apply read_last_reading with (c := f). exact Hl. }
  edestruct (@read_digits P D view fs fuel s2) as (s3 & Hrun & Hl3 & Hs3 & Hf3);
    [exact Hf|exact Hfs|exact Hzd|exact Hz|exact Hl2|].
  exists s3. rewrite bind_assoc_at, (bind_ok _ _ _ Hrun).
  split; [reflexivity|]. split; [exact Hl3|]. split.
  - rewrite Hs3. simpl. rewrite Hs1. now rewrite <- app_assoc.
  - eapply frame_trans; [exact Hf1|].
    destruct Hf3 as (F1 & F2 & F3 & F4). now repeat split.
Qed.

(** Lines 323-336 on an exponent that ends before [x]. *)
Lemma scan_exponent_present e sg d ds x rest fuel s :
  exponent_ok (Some (e, sg, d :: ds)) = true ->
  ascii x -> isdigit x = false -> (List.length ds < fuel)%nat ->
  read_last s e (sg ++ d :: ds ++ x :: rest) ->
  exists s',
    scan_exponent fuel e s = Ok (Some x, s') /\
    read_last s' x rest /\
    saved_text (lex s') = saved_text (lex s) ++ sg ++ d :: ds ++ [x] /\
    frame s s'.
Proof.
  intros Hok Hx Hxd Hf Hr. simpl in Hok.
  apply andb_true_iff in Hok. destruct Hok as (Hok & _).
  apply andb_true_iff in Hok. destruct Hok as (Hok & Hds).
  apply andb_true_iff in Hok. destruct Hok as (He & Hsg).
  apply andb_true_iff in Hds. destruct Hds as (Hd & Hds).
  pose proof (isdigit_range _ Hd) as Hrange.
  unfold scan_exponent. rewrite orb_comm in He. rewrite He.
  apply read_last_reading in Hr.
  destruct sg as [|c [|]]; try discriminate; cbn [app] in *.
  - edestruct (@lex_get_save_reading P D view s) as (s1 & Hg & Hl & Hs1 & Hf1);
      [exact Hr|exact (isdigit_ascii _ Hd)|].
    rewrite (bind_ok _ _ _ Hg).
    replace ((d =? ch "+") || (d =? ch "-")) with false
      by (symmetry; apply orb_false_iff; split; apply Z.eqb_neq;
          norm_ch; lia).
    unfold bind at 1, ret at 1. rewrite Hd. cbn [negb].
    edestruct (@read_digits P D view ds fuel s1) as (s2 & Hrun & Hl2 & Hs2 & Hf2);
      [exact Hf|exact Hds|exact Hxd|exact Hx|
       eapply read_last_reading; exact Hl|].
    exists s2. rewrite bind_assoc_at, (bind_ok _ _ _ Hrun).
    split; [reflexivity|]. split; [exact Hl2|]. split.
    + rewrite Hs2, Hs1. now rewrite <- app_assoc.
    + eapply frame_trans; eassumption.
  - assert (Hc : ascii c).
    { apply orb_true_iff in Hsg. destruct Hsg as [Hc|Hc];
        apply Z.eqb_eq in Hc; subst c; unfold ascii; norm_ch; lia. }
    edestruct (@lex_get_save_reading P D view s) as (s1 & Hg & Hl & Hs1 & Hf1);
      [exact Hr|exact Hc|].
    rewrite (bind_ok _ _ _ Hg). rewrite Hsg.
    edestruct (@lex_get_save_reading P D view s1)
      as (s2 & Hg2 & Hl2 & Hs2 & Hf2);
      [eapply read_last_reading; exact Hl|exact (isdigit_ascii _ Hd)|].
    rewrite (bind_ok _ _ _ Hg2). rewrite Hd. cbn [negb].
    edestruct (@read_digits P D view ds fuel s2) as (s3 & Hrun & Hl3 & Hs3 & Hf3);
      [exact Hf|exact Hds|exact Hxd|exact Hx|
       eapply read_last_reading; exact Hl2|].
    exists s3. rewrite bind_assoc_at, (bind_ok _ _ _ Hrun).
    split; [reflexivity|]. split; [exact Hl3|]. split.
    + rewrite Hs3, Hs2, Hs1. now rewrite <- !app_assoc.
    + eapply frame_trans; [exact Hf1|]. eapply frame_trans; eassumption.
Qed.


(** Lines 302-309 after the integer literal of [n], [x] read last. *)
Lemma finish_integer_literal (n : number_literal) x cs s :
  integer_ok (integer n) = true -> ascii x ->
  read_last s x cs ->
  saved_text (lex s) = (sign_text n ++ integer n) ++ [x] ->
  exists s',
    finish_integer x s = Ok (tt, s') /\
    reading s' (x :: cs) /\
    saved_text (lex s') = sign_text n ++ integer n /\
    token (lex s') = TOKEN_INTEGER /\
    value (lex s') = VInteger (to_int (clamp_long (integer_value n))) /\
    line (lex s') = line (lex s) /\ mem s' = mem s.
Proof.
  intros Hok Hx Hr Hsv.
  edestruct (@lex_unget_unsave_read_last P D view s)
    as (s1 & Hu & Hrd & Hs1 & Hf1); [exact Hr|exact Hx|exact Hsv|].
  destruct Hf1 as (F1 & F2 & F3 & F4).
  unfold finish_integer. rewrite (bind_ok _ _ _ Hu).
  rewrite (bind_ok _ _ _ (lex_set_token_eq _ _)).
  unfold bind at 1. unfold on_lex at 1, gets at 1.
  cbn [lex saved_text set_token]. rewrite Hs1.
  rewrite (strtol_literal n Hok).
  rewrite (bind_ok _ _ _ (lex_set_value_eq _ _)).
  unfold assert, ret. rewrite Nat.eqb_refl.
  eexists. split; [destruct NDEBUG; reflexivity|].
  cbn [lex mem stream saved_text token value line set_value set_token].
  repeat split; try assumption; apply Hrd.
Qed.

(** Lines 338-343 after the literal of [n], [x] read last. *)
Lemma finish_real_literal (n : number_literal) x cs s :
  number_ok n = true -> ascii x ->
  read_last s x cs ->
  saved_text (lex s) = number_text n ++ [x] ->
  exists s',
    finish_real x s = Ok (tt, s') /\
    reading s' (x :: cs) /\
    saved_text (lex s') = number_text n /\
    token (lex s') = TOKEN_REAL /\
    value (lex s') = VReal (strtod_of (number_text n)) /\
    line (lex s') = line (lex s) /\ mem s' = mem s.
Proof.
  intros Hok Hx Hr Hsv.
  edestruct (@lex_unget_unsave_read_last P D view s)
    as (s1 & Hu & Hrd & Hs1 & Hf1); [exact Hr|exact Hx|exact Hsv|].
  destruct Hf1 as (F1 & F2 & F3 & F4).
  unfold finish_real. rewrite (bind_ok _ _ _ Hu).
  rewrite (bind_ok _ _ _ (lex_set_token_eq _ _)).
  unfold bind at 1. unfold on_lex at 1, gets at 1.
  cbn [lex saved_text set_token]. rewrite Hs1.
  unfold strtod. rewrite (strtod_end_literal n Hok).
  unfold strbuffer_value.
  rewrite !(cstr_nonzero _ (number_text_nonzero _ Hok)).
  rewrite (bind_ok _ _ _ (lex_set_value_eq _ _)).
  unfold assert, ret. rewrite Nat.eqb_refl.
  eexists. split; [destruct NDEBUG; reflexivity|].
  cbn [lex mem stream saved_text token value line set_value set_token].
  repeat split; try assumption; apply Hrd.
Qed.

End NumberScan.

Lemma ends_number_inv (x : Z) :
  ends_number x = true ->
  ascii x /\ isdigit x = false /\ (x =? ch ".") = false /\
  (x =? ch "e") = false /\ (x =? ch "E") = false.
Proof.
  unfold ends_number, ascii. intros H.
  repeat (apply andb_true_iff in H; destruct H as (H & ?)).
  repeat match goal with H : negb _ = true |- _ => apply negb_true_iff in H end.
  apply Z.ltb_lt in H. match goal with H : (x <? 128) = true |- _ =>
    apply Z.ltb_lt in H end.
  repeat split; assumption.
Qed.

Ltac list_norm :=
  repeat first [ rewrite <- app_assoc | rewrite app_nil_r
               | progress cbn [app] ].

Section NumberToken.

Context {P : Platform} {D : Type}.
Variable view : D -> list Z.

Implicit Types s : @lexst D.

Local Abbreviation reading := (reading view).
Local Abbreviation read_last := (read_last view).

Lemma read_last_set_token s t c cs :
  read_last s c cs ->
  read_last {| lex := set_token t (lex s); mem := mem s |} c cs.
Proof. intros H. exact H. Qed.

(** [lex_scan_number] on the literal of [n], entered with its first
    character read and saved, [x] following the literal. *)
Lemma lex_scan_number_literal (n : number_literal) x cs fuel s :
  number_ok n = true -> ends_number x = true ->
  (List.length (number_text n) < fuel)%nat ->
  read_last s (hd 0 (number_text n)) (tl (number_text n) ++ x :: cs) ->
  saved_text (lex s) = [hd 0 (number_text n)] ->
  exists s',
    lex_scan_number fuel (hd 0 (number_text n)) s = Ok (tt, s') /\
    reading s' (x :: cs) /\
    saved_text (lex s') = number_text n /\
    token (lex s') = (if is_integer n then TOKEN_INTEGER else TOKEN_REAL) /\
    value (lex s') =
      (if is_integer n
       then VInteger (to_int (clamp_long (integer_value n)))
       else VReal (strtod_of (number_text n))) /\
    line (lex s') = line (lex s) /\ mem s' = mem s.
Proof.
  intros Hok Hx Hfuel Hr Hsv.
  destruct (ends_number_inv _ Hx) as (Hxa & Hxd & Hx1 & Hx2 & Hx3).
  pose proof Hok as Hok'. unfold number_ok in Hok'.
  apply andb_true_iff in Hok'. destruct Hok' as (Hok' & Hoke).
  apply andb_true_iff in Hok'. destruct Hok' as (Hoki & Hokf).
  destruct (integer_ok_digits _ Hoki) as (_ & Hilen).
  assert (Hhd : hd 0 (number_text n) = hd 0 (sign_text n ++ integer n) /\
                tl (number_text n) =
                tl (sign_text n ++ integer n) ++
                fraction_text n ++ exponent_text n).
  { unfold number_text, sign_text.
    destruct (minus n); [now split|].
    destruct (integer n); [simpl in Hilen; lia|now split]. }
  destruct Hhd as (Hhd & Htl). rewrite Hhd in *. rewrite Htl in Hr.
  rewrite <- !app_assoc in Hr.
  assert (Hlen : (List.length (number_text n) =
                  List.length (sign_text n) + List.length (integer n) +
                  List.length (fraction_text n) +
                  List.length (exponent_text n))%nat).
  { unfold number_text. rewrite !length_app. lia. }
  unfold lex_scan_number.
  rewrite (bind_ok _ _ _ (lex_set_token_eq _ _)).
  set (s0 := {| lex := set_token TOKEN_INVALID (lex s); mem := mem s |}).
  assert (Hr0 : read_last s0 (hd 0 (sign_text n ++ integer n))
                  (tl (sign_text n ++ integer n) ++
                   fraction_text n ++ exponent_text n ++ x :: cs))
    by exact Hr.
  assert (Hsv0 : saved_text (lex s0) = [hd 0 (sign_text n ++ integer n)])
    by exact Hsv.
  assert (Hline0 : line (lex s0) = line (lex s)) by reflexivity.
  assert (Hmem0 : mem s0 = mem s) by reflexivity.
  clearbody s0. clear Hr Hsv.
  unfold is_integer, fraction_text, exponent_text in *.
  destruct (fraction n) as [|f fs] eqn:Ef;
    destruct (exponent n) as [[[e sg] eds]|] eqn:Ee;
    cbn [app List.length] in *;
    repeat (rewrite <- app_assoc in Hr0; cbn [app] in Hr0).
  - (* exponent only *)
    destruct eds as [|d ds]; [simpl in Hoke; bool_to_prop; discriminate|].
    assert (He : (e =? ch "e") || (e =? ch "E") = true).
    { simpl in Hoke. now bool_to_prop. }
    assert (Hea : ascii e /\ isdigit e = false /\ (e =? ch ".") = false).
    { apply orb_true_iff in He. destruct He as [He|He];
        apply Z.eqb_eq in He; subst e; repeat split. }
    destruct Hea as (Hea & Hed & Hedot).
    edestruct (@scan_integer_part_literal P D view n e
                 (sg ++ d :: ds ++ x :: cs) fuel s0)
      as (s1 & HA & Hr1 & Hs1 & Hf1);
      [exact Hoki|exact Hea|exact Hed|lia|exact Hr0|exact Hsv0|].
    rewrite (bind_ok _ _ _ HA). rewrite Hedot. cbn [negb andb].
    replace (negb (e =? ch "E") && negb (e =? ch "e")) with false
      by (symmetry; rewrite orb_comm in He;
          apply orb_true_iff in He; destruct He as [He|He]; rewrite He;
          [reflexivity|apply andb_false_r]).
    unfold scan_fraction at 1. rewrite Hedot.
    unfold bind at 1, ret at 1.
    assert (Hfl : (List.length ds < fuel)%nat).
    { rewrite Hlen in Hfuel. rewrite length_app in Hfuel. simpl in Hfuel. lia. }
    edestruct (@scan_exponent_present P D view e sg d ds x cs fuel s1)
      as (s2 & HC & Hr2 & Hs2 & Hf2);
      [exact Hoke|exact Hxa|exact Hxd|exact Hfl|exact Hr1|].
    rewrite (bind_ok _ _ _ HC).
    edestruct (@finish_real_literal P D view n x cs s2)
      as (s3 & HR & Hr3 & Hs3 & Ht3 & Hv3 & Hl3 & Hm3);
      [exact Hok|exact Hxa|exact Hr2| |].
    { rewrite Hs2, Hs1. unfold number_text, fraction_text, exponent_text.
      rewrite Ef, Ee. list_norm. reflexivity. }
    exists s3. split; [exact HR|]. split; [exact Hr3|].
    split; [exact Hs3|]. split; [exact Ht3|]. split; [exact Hv3|].
    destruct Hf1 as (_ & L1 & _ & M1). destruct Hf2 as (_ & L2 & _ & M2).
    split; congruence.
  - (* integer *)
    edestruct (@scan_integer_part_literal P D view n x cs fuel s0)
      as (s1 & HA & Hr1 & Hs1 & Hf1);
      [exact Hoki|exact Hxa|exact Hxd|lia|exact Hr0|exact Hsv0|].
    rewrite (bind_ok _ _ _ HA). rewrite Hx1, Hx2, Hx3. cbn [negb andb].
    edestruct (@finish_integer_literal P D view n x cs s1)
      as (s3 & HR & Hr3 & Hs3 & Ht3 & Hv3 & Hl3 & Hm3);
      [exact Hoki|exact Hxa|exact Hr1| |].
    { rewrite Hs1. list_norm. reflexivity. }
    exists s3. split; [exact HR|]. split; [exact Hr3|].
    split.
    { rewrite Hs3. unfold number_text, fraction_text, exponent_text.
      rewrite Ef, Ee. list_norm. reflexivity. }
    split; [exact Ht3|]. split; [exact Hv3|].
    destruct Hf1 as (_ & L1 & _ & M1). split; congruence.
  - (* fraction and exponent *)
    destruct eds as [|d ds]; [simpl in Hoke; bool_to_prop; discriminate|].
    assert (He : (e =? ch "e") || (e =? ch "E") = true).
    { simpl in Hoke. now bool_to_prop. }
    assert (Hea : ascii e /\ isdigit e = false).
    { apply orb_true_iff in He. destruct He as [He|He];
        apply Z.eqb_eq in He; subst e; repeat split. }
    destruct Hea as (Hea & Hed).
    edestruct (@scan_integer_part_literal P D view n (ch ".")
                 (f :: fs ++ e :: sg ++ d :: ds ++ x :: cs) fuel s0)
      as (s1 & HA & Hr1 & Hs1 & Hf1);
      [exact Hoki|now split|reflexivity|lia|exact Hr0|exact Hsv0|].
    rewrite (bind_ok _ _ _ HA). change (ch "." =? ch ".") with true.
    cbn [negb andb].
    assert (Hfl : (List.length fs < fuel)%nat).
    { rewrite Hlen in Hfuel. simpl in Hfuel. lia. }
    edestruct (@scan_fraction_present P D view f fs e
                 (sg ++ d :: ds ++ x :: cs) fuel s1)
      as (s2 & HB & Hr2 & Hs2 & Hf2);
      [exact Hokf|exact Hea|exact Hed|exact Hfl|exact Hr1|].
    rewrite (bind_ok _ _ _ HB).
    assert (Hdl : (List.length ds < fuel)%nat).
    { rewrite Hlen in Hfuel. rewrite length_app in Hfuel. simpl in Hfuel. lia. }
    edestruct (@scan_exponent_present P D view e sg d ds x cs fuel s2)
      as (s3 & HC & Hr3 & Hs3 & Hf3);
      [exact Hoke|exact Hxa|exact Hxd|exact Hdl|exact Hr2|].
    rewrite (bind_ok _ _ _ HC).
    edestruct (@finish_real_literal P D view n x cs s3)
      as (s4 & HR & Hr4 & Hs4 & Ht4 & Hv4 & Hl4 & Hm4);
      [exact Hok|exact Hxa|exact Hr3| |].
    { rewrite Hs3, Hs2, Hs1. unfold number_text, fraction_text, exponent_text.
      rewrite Ef, Ee. list_norm. reflexivity. }
    exists s4. split; [exact HR|]. split; [exact Hr4|].
    split; [exact Hs4|]. split; [exact Ht4|]. split; [exact Hv4|].
    destruct Hf1 as (_ & L1 & _ & M1). destruct Hf2 as (_ & L2 & _ & M2).
    destruct Hf3 as (_ & L3 & _ & M3).
    split; congruence.
  - (* fraction only *)
    edestruct (@scan_integer_part_literal P D view n (ch ".")
                 (f :: fs ++ x :: cs) fuel s0)
      as (s1 & HA & Hr1 & Hs1 & Hf1);
      [exact Hoki|now split|reflexivity|lia|exact Hr0|exact Hsv0|].
    rewrite (bind_ok _ _ _ HA). change (ch "." =? ch ".") with true.
    cbn [negb andb].
    assert (Hfl : (List.length fs < fuel)%nat).
    { rewrite Hlen in Hfuel. simpl in Hfuel. lia. }
    edestruct (@scan_fraction_present P D view f fs x cs fuel s1)
      as (s2 & HB & Hr2 & Hs2 & Hf2);
      [exact Hokf|exact Hxa|exact Hxd|exact Hfl|exact Hr1|].
    rewrite (bind_ok _ _ _ HB).
    unfold scan_exponent at 1. rewrite Hx2, Hx3. cbn [orb].
    unfold bind at 1, ret at 1.
    edestruct (@finish_real_literal P D view n x cs s2)
      as (s4 & HR & Hr4 & Hs4 & Ht4 & Hv4 & Hl4 & Hm4);
      [exact Hok|exact Hxa|exact Hr2| |].
    { rewrite Hs2, Hs1. unfold number_text, fraction_text, exponent_text.
      rewrite Ef, Ee. list_norm. reflexivity. }
    exists s4. split; [exact HR|]. split; [exact Hr4|].
    split; [exact Hs4|]. split; [exact Ht4|]. split; [exact Hv4|].
    destruct Hf1 as (_ & L1 & _ & M1). destruct Hf2 as (_ & L2 & _ & M2).
    split; congruence.
Qed.


Lemma number_first_char (n : number_literal) :
  number_ok n = true ->
  exists c t,
    number_text n = c :: t /\ ascii c /\ is_blank c = false /\
    (c =? EOF) = false /\ is_punctuation c = false /\
    (c =? QUOTE) = false /\ isdigit c || (c =? ch "-") = true.
Proof.
  intros Hok. unfold number_ok in Hok.
  apply andb_true_iff in Hok. destruct Hok as (Hok & _).
  apply andb_true_iff in Hok. destruct Hok as (Hok & _).
  unfold number_text, sign_text. destruct (minus n).
  - eexists. eexists. split; [reflexivity|]. now repeat split.
  - destruct (integer n) as [|d ds]; [discriminate|].
    exists d. eexists. split; [reflexivity|].
    simpl in Hok. apply andb_true_iff in Hok. destruct Hok as (Hok & _).
    apply andb_true_iff in Hok. destruct Hok as (Hd & _).
    pose proof (isdigit_range _ Hd) as Hrange.
    split; [exact (isdigit_ascii _ Hd)|].
    unfold is_blank, is_punctuation, EOF, QUOTE. norm_ch.
    rewrite !eqb_false by lia. rewrite Hd. now repeat split.
Qed.

(** [lex_scan] up to the call of [lex_scan_number]: the first character
    [c] of a number has been read and saved. *)
Lemma lex_scan_enters_number c rest fuel s :
  reading s (c :: rest) -> ascii c -> is_blank c = false ->
  is_punctuation c = false -> (c =? QUOTE) = false ->
  isdigit c || (c =? ch "-") = true ->
  token (lex s) <> TOKEN_STRING -> (0 < fuel)%nat ->
  exists s2,
    read_last s2 c rest /\ saved_text (lex s2) = [c] /\
    token (lex s2) = token (lex s) /\ value (lex s2) = value (lex s) /\
    line (lex s2) = line (lex s) /\ mem s2 = mem s /\
    lex_scan fuel s =
    bind (lex_scan_number fuel c) (fun _ => on_lex (gets token)) s2.
Proof.
  intros Hr Hc Hbl Hpu Hq Hnum Htok Hfuel.
  assert (Heof : (c =? EOF) = false).
  { apply Z.eqb_neq. unfold ascii, EOF in *. lia. }
  unfold lex_scan, lex_scan_token.
  unfold bind at 1. unfold bind at 1. unfold on_lex at 1, modify at 1.
  unfold bind at 1. unfold on_lex at 1, gets at 1.
  cbn [lex mem token set_saved_text].
  apply Z.eqb_neq in Htok. rewrite Htok.
  unfold bind at 1, ret at 1.
  set (s0 := {| lex := _; mem := _ |}).
  assert (Hr0 : reading s0 (c :: rest)) by exact Hr.
  edestruct (@lex_get_reading P D view s0) as (s1 & Hg & Hl1 & Hs1 & Hf1);
    [exact Hr0|exact Hc|].
  rewrite (bind_ok _ _ _ Hg).
  destruct fuel as [|f]; [lia|]. cbn [skip_blanks]. rewrite Hbl.
  unfold bind at 1, ret at 1. rewrite Heof.
  unfold bind at 1, ret at 1.
  rewrite (bind_ok _ _ _ (lex_save_eq _ _)).
  rewrite Hpu, Hq, Hnum.
  destruct Hf1 as (T1 & L1 & V1 & M1).
  exists {| lex := set_saved_text (saved_text (lex s1) ++ [c]) (lex s1);
            mem := mem s1 |}.
  split; [exact Hl1|]. cbn [lex mem saved_text set_saved_text].
  split; [now rewrite Hs1|].
  repeat split; assumption.
Qed.

(** [lex_scan] on a number literal.  When the lexer is about to read the
    literal of [n] followed by a character that cannot continue a number,
    and the budget exceeds the length of the literal, [lex_scan] returns
    INTEGER for a literal without fraction and exponent and REAL
    otherwise; the saved text is the literal, the character after it is
    read again next, the integer payload is the value [strtol] gives,
    clamped to [long] and cut to [int]. *)
Lemma lex_scan_number_token (n : number_literal) x cs fuel s :
  number_ok n = true -> ends_number x = true ->
  (List.length (number_text n) < fuel)%nat ->
  reading s (number_text n ++ x :: cs) ->
  token (lex s) <> TOKEN_STRING ->
  exists s',
    lex_scan fuel s
    = Ok ((if is_integer n then TOKEN_INTEGER else TOKEN_REAL), s') /\
    reading s' (x :: cs) /\
    saved_text (lex s') = number_text n /\
    token (lex s') = (if is_integer n then TOKEN_INTEGER else TOKEN_REAL) /\
    value (lex s') =
      (if is_integer n
       then VInteger (to_int (clamp_long (integer_value n)))
       else VReal (strtod_of (number_text n))) /\
    line (lex s') = line (lex s) /\ mem s' = mem s.
Proof.
  intros Hok Hx Hfuel Hr Htok.
  destruct (number_first_char n Hok)
    as (c & t & Ht & Hc & Hbl & Heof & Hpu & Hq & Hnum).
  rewrite Ht in Hr. cbn [app] in Hr.
  edestruct (@lex_scan_enters_number c (t ++ x :: cs) fuel s)
    as (s2 & Hl2 & Hs2 & T2 & V2 & L2 & M2 & Hscan);
    try eassumption; [lia|].
  rewrite Hscan.
  assert (Hhd : hd 0 (number_text n) = c) by now rewrite Ht.
  edestruct (@lex_scan_number_literal n x cs fuel s2)
    as (s3 & HN & Hr3 & Hs3 & Ht3 & Hv3 & Hl3 & Hm3);
    [exact Hok|exact Hx|exact Hfuel| | |].
  { rewrite Hhd, Ht. exact Hl2. }
  { now rewrite Hhd. }
  rewrite Hhd in HN. rewrite (bind_ok _ _ _ HN).
  unfold on_lex, gets. rewrite Ht3.
  eexists. split; [reflexivity|]. cbn [lex mem].
  split; [exact Hr3|]. split; [exact Hs3|]. split; [exact Ht3|].
  split; [exact Hv3|]. split; congruence.
Qed.

(** The leading-zero rule: on a zero followed by a digit, after an
    optional minus sign, [lex_scan] returns INVALID; the saved text ends
    with the zero and the digit is read again next. *)
Lemma lex_scan_leading_zero (negative : bool) d cs fuel s :
  isdigit d = true -> (0 < fuel)%nat ->
  let sign := if negative then [ch "-"] else [] in
  reading s (sign ++ ch "0" :: d :: cs) ->
  token (lex s) <> TOKEN_STRING ->
  exists s',
    lex_scan fuel s = Ok (TOKEN_INVALID, s') /\
    reading s' (d :: cs) /\
    saved_text (lex s') = sign ++ [ch "0"] /\
    value (lex s') = value (lex s) /\
    line (lex s') = line (lex s) /\ mem s' = mem s.
Proof.
  intros Hd Hfuel sign Hr Htok. subst sign.
  pose proof (isdigit_ascii _ Hd) as Hda.
  assert (Hzero : ascii (ch "0")) by (unfold ascii; norm_ch; lia).
  destruct negative; cbn [app] in *.
  - edestruct (@lex_scan_enters_number (ch "-") (ch "0" :: d :: cs) fuel s)
      as (s2 & Hl2 & Hs2 & T2 & V2 & L2 & M2 & Hscan);
      [exact Hr|unfold ascii; norm_ch; lia|reflexivity|reflexivity
      |reflexivity|reflexivity|exact Htok|exact Hfuel|].
    rewrite Hscan. unfold lex_scan_number.
    repeat rewrite <- bind_assoc_at; rewrite (bind_ok _ _ _ (lex_set_token_eq _ _)).
    set (s3 := {| lex := _; mem := _ |}).
    assert (Hl3 : read_last s3 (ch "-") (ch "0" :: d :: cs)) by exact Hl2.
    unfold scan_integer_part. change (ch "-" =? ch "-") with true.
    cbv iota.
    edestruct (@lex_get_save_reading P D view s3)
      as (s4 & Hg4 & Hl4 & Hs4 & Hf4);
      [eapply read_last_reading; exact Hl3|exact Hzero|].
    repeat rewrite <- bind_assoc_at; rewrite (bind_ok _ _ _ Hg4).
    change (ch "0" =? ch "0") with true. cbv iota.
    edestruct (@lex_get_save_reading P D view s4)
      as (s5 & Hg5 & Hl5 & Hs5 & Hf5);
      [eapply read_last_reading; exact Hl4|exact Hda|].
    repeat rewrite <- bind_assoc_at; rewrite (bind_ok _ _ _ Hg5). rewrite Hd.
    edestruct (@lex_unget_unsave_read_last P D view s5)
      as (s6 & Hu6 & Hr6 & Hs6 & Hf6); [exact Hl5|exact Hda|exact Hs5|].
    repeat rewrite <- bind_assoc_at; rewrite (bind_ok _ _ _ Hu6).
    unfold bind at 1, ret at 1. unfold bind at 1, ret at 1.
    unfold on_lex, gets.
    destruct Hf4 as (T4 & L4 & V4 & M4). destruct Hf5 as (T5 & L5 & V5 & M5).
    destruct Hf6 as (T6 & L6 & V6 & M6).
    eexists. split.
    { f_equal. f_equal. rewrite T6, T5, T4. reflexivity. }
    cbn [lex mem]. split; [exact Hr6|].
    split; [rewrite Hs6, Hs4; unfold s3; simpl; now rewrite Hs2|].
    unfold s3 in *. simpl in *. repeat split; congruence.
  - edestruct (@lex_scan_enters_number (ch "0") (d :: cs) fuel s)
      as (s2 & Hl2 & Hs2 & T2 & V2 & L2 & M2 & Hscan);
      [exact Hr|exact Hzero|reflexivity|reflexivity
      |reflexivity|reflexivity|exact Htok|exact Hfuel|].
    rewrite Hscan. unfold lex_scan_number.
    repeat rewrite <- bind_assoc_at; rewrite (bind_ok _ _ _ (lex_set_token_eq _ _)).
    set (s3 := {| lex := _; mem := _ |}).
    assert (Hl3 : read_last s3 (ch "0") (d :: cs)) by exact Hl2.
    unfold scan_integer_part. change (ch "0" =? ch "-") with false.
    cbv iota. unfold bind at 3, ret at 1.
    change (ch "0" =? ch "0") with true. cbv iota.
    edestruct (@lex_get_save_reading P D view s3)
      as (s5 & Hg5 & Hl5 & Hs5 & Hf5);
      [eapply read_last_reading; exact Hl3|exact Hda|].
    repeat rewrite <- bind_assoc_at; rewrite (bind_ok _ _ _ Hg5). rewrite Hd.
    edestruct (@lex_unget_unsave_read_last P D view s5)
      as (s6 & Hu6 & Hr6 & Hs6 & Hf6); [exact Hl5|exact Hda|exact Hs5|].
    repeat rewrite <- bind_assoc_at; rewrite (bind_ok _ _ _ Hu6).
    unfold bind at 1, ret at 1. unfold bind at 1, ret at 1.
    unfold on_lex, gets.
    destruct Hf5 as (T5 & L5 & V5 & M5).
    destruct Hf6 as (T6 & L6 & V6 & M6).
    eexists. split.
    { f_equal. f_equal. rewrite T6, T5. reflexivity. }
    cbn [lex mem]. split; [exact Hr6|].
    split; [rewrite Hs6; unfold s3; simpl; now rewrite Hs2|].
    unfold s3 in *. simpl in *. repeat split; congruence.
Qed.

End NumberToken.

(** ** The byte sources as views *)

Lemma fgetc_source_ok (st : @stream_t FILE) :
  get st = fgetc -> source_ok file_view st.
Proof.
  intros Hg d c r Hv Hc. rewrite Hg. unfold fgetc, file_view in *.
  rewrite Hv. rewrite (to_uchar_ascii Hc). eexists. split; reflexivity.
Qed.

Lemma skipn_cons_nth {A} (l : list A) : forall n c r,
  skipn n l = c :: r -> nth_error l n = Some c /\ skipn (S n) l = r.
Proof.
  induction l as [|a l IH]; intros n c r H.
  - destruct n; discriminate.
  - destruct n as [|n]; simpl in *.
    + inversion H. now split.
    + now apply IH.
Qed.

Lemma string_get_source_ok (st : @stream_t string_data_t) :
  get st = string_get -> source_ok string_view st.
Proof.
  intros Hg d c r Hv Hc. rewrite Hg. unfold string_get, str_read, string_view in *.
  destruct (str_pos d <? 0) eqn:Hpos; [discriminate|].
  apply Z.ltb_ge in Hpos.
  apply skipn_cons_nth in Hv. destruct Hv as (Hn & Hs).
  rewrite Hn. simpl. rewrite (to_char_ascii Hc).
  replace (c =? 0) with false
    by (symmetry; apply Z.eqb_neq; unfold ascii in Hc; lia).
  eexists. split; [reflexivity|]. simpl.
  replace (str_pos d + 1 <? 0) with false by (symmetry; apply Z.ltb_ge; lia).
  now replace (Z.to_nat (str_pos d + 1)) with (S (Z.to_nat (str_pos d))) by lia.
Qed.

(** After [lex_init] on a file the lexer is about to read the file. *)
Lemma lexing_reading (input : list Z) :
  reading file_view (lexing input) input.
Proof.
  split.
  - now apply fgetc_source_ok.
  - apply (pending_source file_view). split; reflexivity.
Qed.

(** ** Numbers *)

Lemma parse_value_integer {P : Platform} {D} budget depth (s : @parst D) i :
  token (lex (ls s)) = TOKEN_INTEGER -> value (lex (ls s)) = VInteger i ->
  parse_value budget (S depth) s = heap (json_integer i) s.
Proof.
  intros Ht Hv. destruct s as [[lx m] e]. simpl in Ht, Hv.
  simpl. unfold parse_value_body, bind, cur_token, lexer, on_lex, gets.
  simpl. rewrite Ht, Hv. reflexivity.
Qed.

Lemma to_int_range (v : Z) : - 2 ^ 31 <= to_int v < 2 ^ 31.
Proof.
  unfold to_int, INT_BITS. change (32 - 1) with 31.
  pose proof (Z.mod_pos_bound (v + 2 ^ 31) (2 ^ 32) ltac:(lia)). lia.
Qed.

Lemma to_int_clamp_long_exact {P : Platform} (v : Z) :
  32 <= LONG_BITS -> - 2 ^ 31 <= v < 2 ^ 31 -> to_int (clamp_long v) = v.
Proof.
  intros HL Hv.
  assert (Hp : 2 ^ 31 <= 2 ^ (LONG_BITS - 1))
    by (apply Z.pow_le_mono_r; lia).
  unfold clamp_long, LONG_MIN, LONG_MAX.
  replace (v <? - 2 ^ (LONG_BITS - 1)) with false
    by (symmetry; apply Z.ltb_ge; lia).
  replace (2 ^ (LONG_BITS - 1) - 1 <? v) with false
    by (symmetry; apply Z.ltb_ge; lia).
  unfold to_int, INT_BITS. change (32 - 1) with 31.
  rewrite Z.mod_small by lia. lia.
Qed.

(** C5.  The digit after the minus sign.  [lex_scan_number] takes any
    character other than 0 that follows the minus sign for the first digit
    (line 295).  (1) So a minus sign, a point, 5, e, 3 is scanned as one
    REAL token, which [strtod] converts in full, and the array holding it
    parses, in every build.  (2) On a minus sign followed by a letter, by
    the closing bracket or by a point and a digit the token is INTEGER and
    [strtol] converts nothing: with assertions the program is aborted at
    line 307, with [NDEBUG] the array parses with the integer 0.  What
    holds: (3) on every literal of the number grammar followed by a
    character that cannot continue a number, [lex_scan] returns INTEGER
    when the literal has neither fraction nor exponent and REAL otherwise,
    with the literal as saved text and the following character read again
    next, for every source that hands out its characters, in every build,
    whenever the budget exceeds the length of the literal; (4) on a zero
    followed by a digit it returns INVALID, the saved text ending with the
    zero and the digit pushed back; (5) on a file 0 is INTEGER with
    payload 0, -0 is INTEGER with payload 0, 1.5e10 is REAL, 01 is
    INVALID; (6) the byte sources of [json_loadf] and [json_loads] hand
    out their characters as (3) and (4) suppose. *)
Theorem number_scanner_minus_sign {P : Platform} {D} (view : D -> list Z) :
  (forall B : Platform, In B [debug_build; release_build; debug_build32] ->
     json_loadf (P := B) 100 (file_with (json_text "[-.5e3]"))
                (Some blank_error) empty_memory =
     Ok (Some 0%nat, Some blank_error,
         {| nodes := [Some {| refcount := 1; body := JArray [1%nat] |};
                      Some {| refcount := 1;
                              body := JReal (strtod_of (json_text "-.5e3")) |}];
            blocks := 0; allocs := [] |})) /\
  (forall doc, In doc ["[-a]"; "[-]"; "[-.5]"]%string ->
     json_loadf (P := debug_build) 100 (file_with (json_text doc))
                (Some blank_error) empty_memory = Abort) /\
  (forall doc, In doc ["[-a]"; "[-.5]"]%string ->
     json_loadf (P := release_build) 100 (file_with (json_text doc))
                (Some blank_error) empty_memory =
     Ok (Some 0%nat, Some blank_error,
         {| nodes := [Some {| refcount := 1; body := JArray [1%nat] |};
                      integer_node 0];
            blocks := 0; allocs := [] |})) /\
  (forall (n : number_literal) x cs fuel (s : @lexst D),
     number_ok n = true -> ends_number x = true ->
     (List.length (number_text n) < fuel)%nat ->
     reading view s (number_text n ++ x :: cs) ->
     token (lex s) <> TOKEN_STRING ->
     exists s',
       lex_scan fuel s
       = Ok ((if is_integer n then TOKEN_INTEGER else TOKEN_REAL), s') /\
       saved_text (lex s') = number_text n /\
       reading view s' (x :: cs)) /\
  (forall (negative : bool) d cs fuel (s : @lexst D),
     isdigit d = true -> (0 < fuel)%nat ->
     reading view s ((if negative then [ch "-"] else [])
                     ++ ch "0" :: d :: cs) ->
     token (lex s) <> TOKEN_STRING ->
     exists s',
       lex_scan fuel s = Ok (TOKEN_INVALID, s') /\
       saved_text (lex s') = (if negative then [ch "-"] else []) ++ [ch "0"] /\
       reading view s' (d :: cs)) /\
  (forall B : Platform, In B [debug_build; release_build; debug_build32] ->
     scanned (P := B) "0]" = (Some TOKEN_INTEGER, VInteger 0) /\
     scanned (P := B) "-0]" = (Some TOKEN_INTEGER, VInteger 0) /\
     scanned (P := B) "1.5e10]"
     = (Some TOKEN_REAL, VReal (strtod_of (json_text "1.5e10"))) /\
     fst (scanned (P := B) "01]") = Some TOKEN_INVALID) /\
  (forall st : @stream_t FILE, get st = fgetc -> source_ok file_view st) /\
  (forall st : @stream_t string_data_t,
     get st = string_get -> source_ok string_view st).
Proof.
  split; [|split; [|split; [|split; [|split; [|split; [|split]]]]]];
    [| | | | | |apply fgetc_source_ok|apply string_get_source_ok].
  - intros B HB.
    destruct HB as [<-|[<-|[<-|[]]]]; vm_compute; reflexivity.
  - intros doc H.
    destruct H as [<-|[<-|[<-|[]]]]; vm_compute; reflexivity.
  - intros doc H.
    destruct H as [<-|[<-|[]]]; vm_compute; reflexivity.
  - intros n x cs fuel s Hok Hx Hf Hr Ht.
    destruct (@lex_scan_number_token P D view n x cs fuel s Hok Hx Hf Hr Ht)
      as (s' & H1 & H2 & H3 & _).
    exists s'. split; [exact H1|]. split; [exact H3|exact H2].
  - intros negative d cs fuel s Hd Hf Hr Ht.
    destruct (@lex_scan_leading_zero P D view negative d cs fuel s Hd Hf Hr Ht)
      as (s' & H1 & H2 & H3 & _).
    exists s'. split; [exact H1|]. split; [exact H3|exact H2].
  - intros B HB.
    destruct HB as [<-|[<-|[<-|[]]]]; repeat split; vm_compute; reflexivity.
Qed.

Lemma number_scanner_minus_sign_witness :
  let n := {| minus := false; integer := [ch "1"]; fraction := [ch "5"];
              exponent := Some (ch "e", [], [ch "1"; ch "0"]) |} in
  exists s',
    lex_scan (P := debug_build) 100 (lexing (json_text "1.5e10]"))
    = Ok (TOKEN_REAL, s') /\
    saved_text (lex s') = number_text n /\
    reading file_view s' [ch "]"].
Proof.
  intros n.
  apply (proj1 (proj2 (proj2 (proj2
           (@number_scanner_minus_sign debug_build FILE file_view))))
           n (ch "]") [] 100%nat (lexing (json_text "1.5e10]"))).
  - reflexivity.
  - reflexivity.
  - simpl. lia.
  - apply lexing_reading.
  - discriminate.
Defined.

(** C10.  The integer payload.  (1) On every literal of the grammar
    without fraction and exponent, however many digits it has, [lex_scan]
    returns INTEGER and the payload is the [long] that [strtol] gives,
    the value clamped to the range of [long], converted to [int]: there is
    no failure for a value out of range.  (2) The payload lies in the
    range of [int], and equals the value of the literal when that lies in
    the range of [int] and [long] is no narrower.  (3) [parse_value] makes
    the integer node from the payload as it is.  (4) With a 64-bit [long]
    the literals 4294967296, 2147483648 and 99999999999999999999 parse as
    0, -2147483648 and -1; with a 32-bit [long] 4294967296 and
    -99999999999 parse as 2147483647 and -2147483648; the error record is
    left as it was. *)
Theorem integer_payload_unchecked {P : Platform} {D} (view : D -> list Z) :
  (forall (n : number_literal) x cs fuel (s : @lexst D),
     number_ok n = true -> is_integer n = true -> ends_number x = true ->
     (List.length (number_text n) < fuel)%nat ->
     reading view s (number_text n ++ x :: cs) ->
     token (lex s) <> TOKEN_STRING ->
     exists s',
       lex_scan fuel s = Ok (TOKEN_INTEGER, s') /\
       value (lex s') = VInteger (to_int (clamp_long (integer_value n))) /\
       mem s' = mem s) /\
  (forall v, - 2 ^ 31 <= to_int (clamp_long v) < 2 ^ 31) /\
  (forall v, 32 <= LONG_BITS -> - 2 ^ 31 <= v < 2 ^ 31 ->
             to_int (clamp_long v) = v) /\
  (forall budget depth (s : @parst D) i,
     token (lex (ls s)) = TOKEN_INTEGER -> value (lex (ls s)) = VInteger i ->
     parse_value budget (S depth) s = heap (json_integer i) s) /\
  (forall error,
     json_loadf (P := debug_build) 100
       (file_with (json_text "[4294967296,2147483648,99999999999999999999]"))
       error empty_memory =
     Ok (Some 0%nat, error,
         {| nodes := [Some {| refcount := 1;
                              body := JArray [1%nat; 2%nat; 3%nat] |};
                      integer_node 0; integer_node (-2147483648);
                      integer_node (-1)];
            blocks := 0; allocs := [] |})) /\
  (forall error,
     json_loadf (P := debug_build32) 100
       (file_with (json_text "[4294967296,-99999999999]"))
       error empty_memory =
     Ok (Some 0%nat, error,
         {| nodes := [Some {| refcount := 1; body := JArray [1%nat; 2%nat] |};
                      integer_node 2147483647; integer_node (-2147483648)];
            blocks := 0; allocs := [] |})).
Proof.
  split; [|split; [|split; [|split; [|split]]]].
  - intros n x cs fuel s Hok Hint Hx Hf Hr Ht.
    destruct (@lex_scan_number_token P D view n x cs fuel s Hok Hx Hf Hr Ht)
      as (s' & H1 & _ & _ & _ & H2 & _ & H3).
    rewrite Hint in H1, H2. exists s'.
    split; [exact H1|]. split; [exact H2|exact H3].
  - intros v. apply to_int_range.
  - intros v HL Hv. now apply to_int_clamp_long_exact.
  - intros. now apply parse_value_integer.
  - intros error. vm_compute. reflexivity.
  - intros error. vm_compute. reflexivity.
Qed.

Lemma integer_payload_unchecked_witness :
  let n := {| minus := false;
              integer := json_text "99999999999999999999";
              fraction := []; exponent := None |} in
  exists s',
    lex_scan (P := debug_build) 100
             (lexing (json_text "99999999999999999999]"))
    = Ok (TOKEN_INTEGER, s') /\
    value (lex s')
    = VInteger (to_int (@clamp_long debug_build (integer_value n))) /\
    mem s' = mem (lexing (json_text "99999999999999999999]")).
Proof.
  intros n.
  apply (proj1 (@integer_payload_unchecked debug_build FILE file_view)
           n (ch "]") [] 100%nat
           (lexing (json_text "99999999999999999999]"))).
  - reflexivity.
  - reflexivity.
  - reflexivity.
  - simpl. lia.
  - apply lexing_reading.
  - discriminate.
Defined.

(** ** A document that is a bare scalar *)

(** C3.  A scalar or an identifier that is the whole document.  The
    scanners of numbers and identifiers read one character too many and
    unget it; at the end of the input [stream_get] has returned EOF
    without advancing [buffer_pos] (line 114), and [stream_unget] fails
    its [assert(stream->buffer_pos > 0)]: (1) with assertions the program
    is aborted before [parse_json] sees the token, from a file and from a
    string.  (2) With [NDEBUG] the same documents give NULL and the error
    "'[' or '{' expected".  (3) A bare string, and a scalar followed by
    white space, give NULL and that error with assertions too.  (4) The
    check of [parse_json] itself: when the first token [lex_scan] returns
    is neither an opening bracket nor an opening brace, [parse_json]
    returns NULL and reports "'[' or '{' expected" at that token; when it
    is one of the two, [parse_json] goes on with [parse_value], which
    calls [parse_object], respectively [parse_array]. *)
Theorem bare_scalar_document_aborts :
  (forall doc, In doc ["true"; "null"; "trailing"; "1"; "-1.5"]%string ->
     json_loadf (P := debug_build) 100 (file_with (json_text doc))
                (Some blank_error) empty_memory = Abort /\
     json_loads (P := debug_build) 100 (c_string (json_text doc) [0])
                (Some blank_error) empty_memory = Abort) /\
  (forall doc, In doc ["true"; "null"; "trailing"; "1"; "-1.5"]%string ->
     json_loadf (P := release_build) 100 (file_with (json_text doc))
                (Some blank_error) empty_memory =
     Ok (None,
         Some {| error_line := 1;
                 error_text := ("'[' or '{' expected near '" ++ doc ++ "'")%string |},
         empty_memory)) /\
  (forall B : Platform, In B [debug_build; release_build] ->
     json_loadf (P := B) 100 (file_with (json_text "`abc`"))
                (Some blank_error) empty_memory =
     Ok (None,
         Some {| error_line := 1;
                 error_text :=
                   string_of_bytes
                     (json_text "'[' or '{' expected near '`abc`'") |},
         empty_memory) /\
     json_loadf (P := B) 100 (file_with (json_text "true "))
                (Some blank_error) empty_memory =
     Ok (None,
         Some {| error_line := 1;
                 error_text := "'[' or '{' expected near 'true'" |},
         empty_memory)) /\
  (forall (P : Platform) (D : Type) (budget : nat) (s s1 : @parst D) (tok : Z),
     lexer (lex_scan budget) s = Ok (tok, s1) ->
     (tok <> ch "[" -> tok <> ch "{" ->
      parse_json budget s =
      Ok (None, set_err (error_set (err s1) (Some (lex (ls s1)))
                                   "'[' or '{' expected") s1)) /\
     (tok = ch "{" ->
      parse_json budget s = parse_value budget budget s1 /\
      forall depth, parse_value budget (S depth) s1 =
                    parse_object budget (parse_value budget depth) s1) /\
     (tok = ch "[" ->
      parse_json budget s = parse_value budget budget s1 /\
      forall depth, parse_value budget (S depth) s1 =
                    parse_array budget (parse_value budget depth) s1)).
Proof.
  split; [|split; [|split]].
  - intros doc H.
    destruct H as [<-|[<-|[<-|[<-|[<-|[]]]]]]; split; vm_compute; reflexivity.
  - intros doc H.
    destruct H as [<-|[<-|[<-|[<-|[<-|[]]]]]]; vm_compute; reflexivity.
  - intros B HB.
    destruct HB as [<-|[<-|[]]]; split; vm_compute; reflexivity.
  - intros P D budget s s1 tok. apply parse_json_container_check.
Qed.

Lemma bare_scalar_document_aborts_witness :
  let s := parsing (json_text "`abc` ") (Some blank_error) in
  let s1 := state_after (lexer (lex_scan (P := debug_build) 100)) s in
  parse_json (P := debug_build) 100 s =
  Ok (None, set_err (error_set (P := debug_build) (err s1) (Some (lex (ls s1)))
                               "'[' or '{' expected") s1).
Proof.
  intros s s1.
  apply (proj1 (proj2 (proj2 (proj2 bare_scalar_document_aborts))
                  debug_build FILE 100%nat s s1 TOKEN_STRING
                  ltac:(vm_compute; reflexivity)));
    discriminate.
Defined.

(** * The lexer on well-formed input *)

Lemma bind_run_under {S A B C E} (m : M S A) (f : A -> M S B)
  (g : B -> M S C) (k : C -> M S E) s b s1 :
  bind m f s = Ok (b, s1) ->
  bind (bind m (fun a => bind (f a) g)) k s = bind (g b) k s1.
Proof.
  unfold bind. destruct (m s) as [[a x]| | |]; try discriminate.
  intros H. now rewrite H.
Qed.

Section Scanning.

Context {P : Platform} {D : Type}.
Variable view : D -> list Z.

Implicit Types s : @lexst D.

Lemma reading_stream s s' cs :
  stream (lex s') = stream (lex s) -> reading view s cs -> reading view s' cs.
Proof. unfold reading. intros H. now rewrite H. Qed.

Local Abbreviation reading := (reading view).
Local Abbreviation read_last := (read_last view).

Lemma is_blank_ascii (c : Z) : is_blank c = true -> ascii c.
Proof.
  unfold is_blank, ascii. norm_ch. intros H.
  repeat (apply orb_true_iff in H; destruct H as [H|H]);
    apply Z.eqb_eq in H; lia.
Qed.

Lemma skip_blanks_run ws : forall fuel s c rest,
  forallb is_blank ws = true -> is_blank c = false -> ascii c ->
  (List.length ws < fuel)%nat ->
  reading s (ws ++ c :: rest) ->
  exists s',
    bind lex_get (skip_blanks fuel) s = Ok (c, s') /\
    read_last s' c rest /\
    saved_text (lex s') = saved_text (lex s) /\
    token (lex s') = token (lex s) /\ value (lex s') = value (lex s) /\
    mem s' = mem s /\
    line (lex s') = line (lex s) + newlines ws.
Proof.
  induction ws as [|w ws IH]; intros fuel s c rest Hws Hc Hac Hf Hr.
  - destruct (lex_get_reading Hr Hac) as (s1 & Hg & Hl & Hsv & T & L & V & M).
    exists s1. rewrite (bind_ok _ _ _ Hg).
    destruct fuel as [|f]; [simpl in Hf; lia|]. simpl. rewrite Hc.
    split; [reflexivity|]. split; [exact Hl|]. simpl.
    repeat split; try assumption. lia.
  - simpl in Hws. apply andb_true_iff in Hws. destruct Hws as (Hw & Hws).
    simpl in Hr.
    destruct (lex_get_reading Hr (is_blank_ascii _ Hw))
      as (s1 & Hg & Hl & Hsv & T & L & V & M).
    destruct fuel as [|f]; [simpl in Hf; lia|]. simpl in Hf.
    rewrite (bind_ok _ _ _ Hg). cbn [skip_blanks]. rewrite Hw.
    set (s2 := {| lex := set_line (line (lex s1) + 1)
                                    (lex s1);
                  mem := mem s1 |}).
    assert (E : (if w =? 10
                 then on_lex (modify (fun l => set_line (line l + 1) l))
                 else ret tt) s1 = Ok (tt, if w =? 10 then s2 else s1)).
    { destruct (w =? 10); reflexivity. }
    rewrite (bind_ok _ _ _ E).
    assert (Hr2 : reading (if w =? 10 then s2 else s1) (ws ++ c :: rest)).
    { destruct (w =? 10); [|exact (read_last_reading Hl)].
      eapply reading_stream; [|exact (read_last_reading Hl)]. reflexivity. }
    destruct (IH f _ c rest Hws Hc Hac ltac:(lia) Hr2)
      as (s3 & Hrun & Hl3 & Hsv3 & T3 & V3 & M3 & L3).
    exists s3. split; [exact Hrun|]. split; [exact Hl3|].
    cbn [newlines].
    destruct (w =? 10); subst s2; cbn [lex mem line saved_text token value set_line] in *;
      (split; [congruence|]); (split; [congruence|]); (split; [congruence|]);
      (split; [congruence|]); rewrite L3, L; lia.
Qed.


(** The branches of [lex_scan] on the first character of a token. *)
Local Abbreviation dispatch fuel c :=
  (if is_punctuation c then lex_set_token c
   else if c =? QUOTE then lex_scan_string fuel
   else if isdigit c || (c =? ch "-") then lex_scan_number fuel c
   else if isupper c || islower c then
     c0 <- lex_get_save ;;
     c1 <- scan_letters fuel c0 ;;
     lex_unget_unsave c1 ;;
     saved <- on_lex (gets saved_text) ;;
     if strcmp_eq saved "true" then lex_set_token TOKEN_TRUE
     else if strcmp_eq saved "false" then lex_set_token TOKEN_FALSE
     else if strcmp_eq saved "null" then lex_set_token TOKEN_NULL
     else lex_set_token TOKEN_INVALID
   else lex_set_token TOKEN_INVALID).

Lemma lex_scan_released fuel s :
  payload_ok s ->
  lex_scan fuel s =
  bind (c <- lex_get ;;
        c <- skip_blanks fuel c ;;
        e <- (if c =? EOF then lex_eof else ret false) ;;
        if e then lex_set_token TOKEN_EOF
        else (lex_save c ;; dispatch fuel c))
       (fun _ => on_lex (gets token)) (released s).
Proof.
  intros Hp. unfold lex_scan, lex_scan_token, released, payload_ok in *.
  unfold bind at 1. unfold bind at 1. unfold on_lex at 1, modify at 1.
  unfold bind at 1. unfold on_lex at 1, gets at 1.
  cbn [lex mem token set_saved_text].
  destruct (token (lex s) =? TOKEN_STRING) eqn:Ht.
  - apply Z.eqb_eq in Ht. destruct (Hp Ht) as (o & Hv).
    unfold bind at 1. unfold bind at 1. unfold on_lex at 1, gets at 1.
    cbn [lex mem value].
    change (value (set_saved_text [] (lex s))) with (value (lex s)).
    rewrite Hv. destruct o as [t|]; reflexivity.
  - reflexivity.
Qed.

(** [lex_scan] up to its branches: the blanks [ws] are skipped and counted, the
    first character [c] of the token is read and saved. *)
Lemma lex_scan_enters ws c rest fuel s :
  forallb is_blank ws = true -> is_blank c = false -> ascii c ->
  (List.length ws < fuel)%nat -> payload_ok s ->
  reading s (ws ++ c :: rest) ->
  exists s2,
    read_last s2 c rest /\ saved_text (lex s2) = [c] /\
    token (lex s2) = token (lex s) /\
    value (lex s2) = value (lex (released s)) /\
    line (lex s2) = line (lex s) + newlines ws /\
    mem s2 = mem (released s) /\
    lex_scan fuel s =
    bind (dispatch fuel c) (fun _ => on_lex (gets token)) s2.
Proof.
  intros Hws Hbl Hc Hfuel Hp Hr.
  assert (Heof : (c =? EOF) = false).
  { apply Z.eqb_neq. unfold ascii, EOF in *. lia. }
  rewrite (lex_scan_released fuel Hp).
  assert (Hr0 : reading (released s) (ws ++ c :: rest)).
  { eapply reading_stream; [|exact Hr].
    unfold released. now destruct (token (lex s) =? TOKEN_STRING). }
  destruct (@skip_blanks_run ws fuel (released s) c rest Hws Hbl Hc Hfuel Hr0)
    as (s1 & Hrun & Hl1 & Hs1 & T1 & V1 & M1 & L1).
  exists {| lex := set_saved_text [c] (lex s1); mem := mem s1 |}.
  split; [exact Hl1|]. cbn [lex mem saved_text token value line set_saved_text].
  split; [reflexivity|].
  split; [rewrite T1; unfold released;
          now destruct (token (lex s) =? TOKEN_STRING)|].
  split; [exact V1|].
  split; [rewrite L1; unfold released;
          now destruct (token (lex s) =? TOKEN_STRING)|].
  split; [exact M1|].
  rewrite (bind_run_under _ _ _ _ _ Hrun).
  rewrite Heof. repeat rewrite <- bind_assoc_at.
  unfold bind at 1, ret at 1.
  cbv iota. rewrite <- bind_assoc_at. rewrite (bind_ok _ _ _ (lex_save_eq _ _)).
  rewrite Hs1.
  replace (saved_text (lex (released s))) with (@nil Z)
    by (unfold released; now destruct (token (lex s) =? TOKEN_STRING)).
  reflexivity.
Qed.


Lemma is_punctuation_ascii (c : Z) :
  is_punctuation c = true -> ascii c /\ is_blank c = false.
Proof.
  unfold is_punctuation, is_blank, ascii. norm_ch. intros H.
  repeat (apply orb_true_iff in H; destruct H as [H|H]);
    apply Z.eqb_eq in H; subst c; split; (lia || reflexivity).
Qed.

Lemma lex_scan_punctuation ws c rest fuel s :
  forallb is_blank ws = true -> is_punctuation c = true ->
  (List.length ws < fuel)%nat -> payload_ok s ->
  reading s (ws ++ c :: rest) ->
  exists s',
    lex_scan fuel s = Ok (c, s') /\ reading s' rest /\
    saved_text (lex s') = [c] /\ token (lex s') = c /\
    value (lex s') = value (lex (released s)) /\
    line (lex s') = line (lex s) + newlines ws /\
    mem s' = mem (released s).
Proof.
  intros Hws Hpu Hfuel Hp Hr.
  destruct (is_punctuation_ascii _ Hpu) as (Hc & Hbl).
  destruct (@lex_scan_enters ws c rest fuel s Hws Hbl Hc Hfuel Hp Hr)
    as (s2 & Hl2 & Hs2 & T2 & V2 & L2 & M2 & Hscan).
  rewrite Hscan, Hpu.
  exists {| lex := set_token c (lex s2); mem := mem s2 |}.
  split; [reflexivity|].
  split; [eapply reading_stream; [|exact (read_last_reading Hl2)]; reflexivity|].
  cbn [lex mem saved_text token value line set_token].
  repeat split; assumption.
Qed.

Lemma is_letter_ascii (c : Z) :
  is_letter c = true ->
  ascii c /\ is_blank c = false /\ is_punctuation c = false /\
  (c =? QUOTE) = false /\ isdigit c || (c =? ch "-") = false /\
  (c =? 0) = false.
Proof.
  unfold is_letter, isupper, islower, is_blank, is_punctuation, isdigit,
    ascii, QUOTE. norm_ch. intros H.
  assert (R : 65 <= c <= 90 \/ 97 <= c <= 122).
  { apply orb_true_iff in H. destruct H as [H|H]; bool_to_prop; lia. }
  rewrite !eqb_false by lia.
  replace (48 <=? c) with true by (symmetry; apply Z.leb_le; lia).
  replace (c <=? 57) with false by (symmetry; apply Z.leb_gt; lia).
  repeat split; lia.
Qed.

(** Reading a run of letters [ls] that ends before [x]. *)
Lemma read_letters ls : forall fuel s x cs,
  (List.length ls < fuel)%nat -> forallb is_letter ls = true ->
  is_letter x = false -> ascii x ->
  reading s (ls ++ x :: cs) ->
  exists s',
    bind lex_get_save (scan_letters fuel) s = Ok (x, s') /\
    read_last s' x cs /\
    saved_text (lex s') = saved_text (lex s) ++ ls ++ [x] /\ frame s s'.
Proof.
  induction ls as [|d ds IH]; intros fuel s x cs Hf Hd Hx Hax Hr.
  - destruct (lex_get_save_reading Hr Hax) as (s1 & Hg & Hl & Hsv & Hfr).
    exists s1. rewrite (bind_ok _ _ _ Hg).
    destruct fuel as [|f]; [simpl in Hf; lia|]. simpl.
    unfold is_letter in Hx. rewrite Hx.
    split; [reflexivity|]. split; [exact Hl|]. split; assumption.
  - simpl in Hd. apply andb_true_iff in Hd. destruct Hd as (Hd & Hds).
    simpl in Hr.
    destruct (is_letter_ascii _ Hd) as (Hda & _).
    destruct (lex_get_save_reading Hr Hda) as (s1 & Hg & Hl & Hsv & Hfr).
    destruct fuel as [|f]; [simpl in Hf; lia|]. simpl in Hf.
    destruct (IH f s1 x cs ltac:(lia) Hds Hx Hax (read_last_reading Hl))
      as (s2 & Hrun & Hl2 & Hsv2 & Hfr2).
    exists s2. rewrite (bind_ok _ _ _ Hg). simpl.
    unfold is_letter in Hd. rewrite Hd.
    split; [exact Hrun|]. split; [exact Hl2|].
    split; [rewrite Hsv2, Hsv; now rewrite <- app_assoc|].
    eapply frame_trans; eassumption.
Qed.

Lemma letters_nonzero (l : list Z) :
  forallb is_letter l = true -> forallb (fun c => negb (c =? 0)) l = true.
Proof.
  induction l as [|c l IH]; [reflexivity|]. simpl. intros H.
  apply andb_true_iff in H. destruct H as (Hc & Hl).
  destruct (is_letter_ascii _ Hc) as (_ & _ & _ & _ & _ & Hz).
  rewrite Hz. simpl. now apply IH.
Qed.

Lemma lex_scan_word ws l ls x rest fuel s :
  forallb is_blank ws = true -> forallb is_letter (l :: ls) = true ->
  is_letter x = false -> ascii x ->
  (List.length ws + List.length ls < fuel)%nat -> payload_ok s ->
  reading s (ws ++ (l :: ls) ++ x :: rest) ->
  exists s',
    lex_scan fuel s = Ok (word_token (l :: ls), s') /\
    reading s' (x :: rest) /\
    saved_text (lex s') = l :: ls /\ token (lex s') = word_token (l :: ls) /\
    value (lex s') = value (lex (released s)) /\
    line (lex s') = line (lex s) + newlines ws /\
    mem s' = mem (released s).
Proof.
  intros Hws Hw Hx Hax Hfuel Hp Hr.
  pose proof Hw as Hw'. simpl in Hw'. apply andb_true_iff in Hw'.
  destruct Hw' as (Hl & Hls).
  destruct (is_letter_ascii _ Hl) as (Hla & Hbl & Hpu & Hq & Hnum & _).
  cbn [app] in Hr.
  destruct (@lex_scan_enters ws l (ls ++ x :: rest) fuel s Hws Hbl Hla
              ltac:(lia) Hp Hr)
    as (s2 & Hl2 & Hs2 & T2 & V2 & L2 & M2 & Hscan).
  rewrite Hscan, Hpu, Hq, Hnum. unfold is_letter in Hl. rewrite Hl.
  destruct (@read_letters ls fuel s2 x rest ltac:(lia) Hls Hx Hax
              (read_last_reading Hl2))
    as (s3 & Hrun & Hl3 & Hs3 & T3 & L3 & V3 & M3).
  rewrite Hs2 in Hs3. cbn [app] in Hs3.
  destruct (@lex_unget_unsave_read_last P D view s3 x rest (l :: ls)
              Hl3 Hax Hs3)
    as (s4 & Hun & Hr4 & Hs4 & T4 & L4 & V4 & M4).
  assert (Hrun' : bind (c0 <- lex_get_save ;; c1 <- scan_letters fuel c0 ;;
                        lex_unget_unsave c1 ;; on_lex (gets saved_text))
                       (fun saved : list Z =>
                          lex_set_token (word_token saved)) s2
                  = Ok (tt, {| lex := set_token (word_token (l :: ls)) (lex s4);
                               mem := mem s4 |})).
  { rewrite (bind_run_under _ _ _ _ _ Hrun).
    repeat rewrite <- bind_assoc_at.
    rewrite (bind_ok _ _ _ Hun). unfold bind, on_lex, gets.
    rewrite Hs4. reflexivity. }
  exists {| lex := set_token (word_token (l :: ls)) (lex s4); mem := mem s4 |}.
  split.
  { transitivity
      (bind (bind (c0 <- lex_get_save ;; c1 <- scan_letters fuel c0 ;;
                   lex_unget_unsave c1 ;; on_lex (gets saved_text))
                  (fun saved : list Z => lex_set_token (word_token saved)))
            (fun _ => on_lex (gets token)) s2).
    - unfold word_token. unfold bind.
      destruct (lex_get_save s2) as [[a0 x0]| | |]; try reflexivity.
      destruct (scan_letters fuel a0 x0) as [[a1 x1]| | |]; try reflexivity.
      destruct (lex_unget_unsave a1 x1) as [[a2 x2]| | |]; try reflexivity.
      destruct (on_lex (gets saved_text) x2) as [[a3 x3]| | |]; try reflexivity.
      destruct (strcmp_eq a3 "true"); [reflexivity|].
      destruct (strcmp_eq a3 "false"); [reflexivity|].
      destruct (strcmp_eq a3 "null"); reflexivity.
    - rewrite (bind_ok _ _ _ Hrun'). reflexivity. }
  split; [eapply reading_stream; [|exact Hr4]; reflexivity|].
  cbn [lex mem saved_text token value line set_token].
  repeat split; congruence.
Qed.


Lemma shortcut_ok_inv (e : Z) :
  piece_ok (Shortcut e) = true ->
  is_shortcut_escape e = true /\ (e =? ch "u") = false /\ ascii e.
Proof.
  unfold piece_ok, escape_table, table_find, is_shortcut_escape, ascii, QUOTE.
  norm_ch. intros H.
  repeat match type of H with
         | context [?a =? e] =>
             let E := fresh "E" in
             destruct (a =? e) eqn:E;
             [apply Z.eqb_eq in E; subst e; now repeat split|clear E]
         end.
  discriminate.
Qed.

Lemma malloc_allocated (m : memory) :
  can_allocate m -> malloc m = Ok (true, allocated m).
Proof.
  unfold can_allocate, malloc, alloc_ok, allocated, bind, modify, ret.
  destruct m as [h b [|a r]]; simpl; intros H; [reflexivity|].
  subst a. reflexivity.
Qed.

(** The first loop of [lex_scan_string] on well-formed pieces of ASCII
    characters without [\u]. *)
Lemma read_pieces ps : forall fuel s rest,
  (List.length ps < fuel)%nat -> forallb piece_ok ps = true ->
  forallb piece_ascii ps = true -> existsb is_unicode ps = false ->
  reading s (body_text ps ++ QUOTE :: rest) ->
  exists s',
    bind lex_get_save (scan_string_raw fuel) s = Ok (true, s') /\
    read_last s' QUOTE rest /\
    saved_text (lex s') = saved_text (lex s) ++ body_text ps ++ [QUOTE] /\
    frame s s'.
Proof.
  assert (Hq : ascii QUOTE) by (unfold ascii, QUOTE; lia).
  induction ps as [|p ps IH]; intros fuel s rest Hf Hok Has Hun Hr.
  - cbn [body_text flat_map app] in *.
    destruct (lex_get_save_reading Hr Hq) as (s1 & Hg & Hl & Hsv & Hfr).
    exists s1. rewrite (bind_ok _ _ _ Hg).
    destruct fuel as [|f]; [simpl in Hf; lia|]. simpl.
    split; [reflexivity|]. split; [exact Hl|]. split; assumption.
  - cbn [forallb existsb] in Hok, Has, Hun.
    apply andb_true_iff in Hok. destruct Hok as (Hp & Hok).
    apply andb_true_iff in Has. destruct Has as (Hpa & Has).
    apply orb_false_iff in Hun. destruct Hun as (Hpu & Hun).
    destruct fuel as [|f]; [simpl in Hf; lia|]. simpl in Hf.
    change (body_text (p :: ps)) with (piece_text p ++ body_text ps) in *.
    destruct p as [c|e|h1 h2 h3 h4]; [| |discriminate].
    + cbn [piece_text app] in *.
      unfold piece_ok in Hp. unfold piece_ascii in Hpa. bool_to_prop.
      assert (Hc : ascii c) by (unfold ascii; lia).
      destruct (lex_get_save_reading Hr Hc) as (s1 & Hg & Hl & Hsv & Hfr).
      destruct (IH f s1 rest ltac:(lia) Hok Has Hun (read_last_reading Hl))
        as (s2 & Hrun & Hl2 & Hsv2 & Hfr2).
      exists s2. rewrite (bind_ok _ _ _ Hg). cbn [scan_string_raw].
      rewrite (eqb_false H1), (eqb_false H3).
      replace (c =? EOF) with false
        by (symmetry; apply Z.eqb_neq; unfold EOF; lia).
      unfold bind at 1, ret at 1. rewrite H2.
      split; [exact Hrun|]. split; [exact Hl2|].
      split; [rewrite Hsv2, Hsv; now list_norm|].
      eapply frame_trans; eassumption.
    + cbn [piece_text app] in *.
      destruct (shortcut_ok_inv _ Hp) as (Hsc & Hnu & He).
      assert (Hb : ascii (ch "\")) by (unfold ascii; norm_ch; lia).
      destruct (lex_get_save_reading Hr Hb) as (s1 & Hg & Hl & Hsv & Hfr).
      destruct (lex_get_save_reading (read_last_reading Hl) He)
        as (s2 & Hg2 & Hl2 & Hsv2 & Hfr2).
      destruct (IH f s2 rest ltac:(lia) Hok Has Hun (read_last_reading Hl2))
        as (s3 & Hrun & Hl3 & Hsv3 & Hfr3).
      exists s3. rewrite (bind_ok _ _ _ Hg). cbn [scan_string_raw].
      change (ch "\" =? QUOTE) with false.
      change (ch "\" =? EOF) with false.
      change ((0 <=? ch "\") && (ch "\" <=? 31)) with false.
      change (ch "\" =? ch "\") with true. cbv iota.
      unfold bind at 1, ret at 1. cbv iota.
      rewrite (bind_ok _ _ _ Hg2). rewrite Hnu, Hsc.
      split; [exact Hrun|]. split; [exact Hl3|].
      split; [rewrite Hsv3, Hsv2, Hsv; now list_norm|].
      eapply frame_trans; [|exact Hfr3]. eapply frame_trans; eassumption.
Qed.

(** [lex_scan] on a string literal of ASCII characters without [\u]. *)
Lemma lex_scan_string_token ws ps rest fuel s :
  forallb is_blank ws = true -> forallb piece_ok ps = true ->
  forallb piece_ascii ps = true -> existsb is_unicode ps = false ->
  (List.length ws + List.length ps < fuel)%nat -> payload_ok s ->
  can_allocate (mem s) ->
  reading s (ws ++ literal_text ps ++ rest) ->
  exists s',
    lex_scan fuel s = Ok (TOKEN_STRING, s') /\ reading s' rest /\
    saved_text (lex s') = literal_text ps /\ token (lex s') = TOKEN_STRING /\
    value (lex s') = VString (Some (map piece_byte ps)) /\
    line (lex s') = line (lex s) + newlines ws /\
    mem s' = allocated (mem (released s)).
Proof.
  intros Hws Hok Has Hun Hfuel Hp Hal Hr.
  assert (Hq : ascii QUOTE) by (unfold ascii, QUOTE; lia).
  unfold literal_text in Hr. cbn [app] in Hr. rewrite <- app_assoc in Hr.
  cbn [app] in Hr.
  destruct (@lex_scan_enters ws QUOTE (body_text ps ++ QUOTE :: rest) fuel s
              Hws eq_refl Hq ltac:(lia) Hp Hr)
    as (s2 & Hl2 & Hs2 & T2 & V2 & L2 & M2 & Hscan).
  rewrite Hscan.
  change (is_punctuation QUOTE) with false.
  change (QUOTE =? QUOTE) with true. cbv iota.
  unfold lex_scan_string.
  repeat rewrite <- bind_assoc_at.
  rewrite (bind_ok _ _ _ (lex_set_token_eq _ _)).
  set (s3 := {| lex := set_token TOKEN_INVALID (lex s2); mem := mem s2 |}).
  assert (Hr3 : reading s3 (body_text ps ++ QUOTE :: rest))
    by exact (read_last_reading Hl2).
  destruct (@read_pieces ps fuel s3 rest ltac:(lia) Hok Has Hun Hr3)
    as (s4 & Hrun & Hl4 & Hs4 & T4 & L4 & V4 & M4).
  rewrite (bind_run_under _ _ _ _ _ Hrun). cbv iota.
  cbn [negb].
  assert (Hal4 : can_allocate (mem s4)).
  { rewrite M4. unfold s3. cbn [mem]. rewrite M2. unfold released.
    destruct (token (lex s) =? TOKEN_STRING); cbn [mem]; [|exact Hal].
    destruct (value (lex s)) as [|[t|]| |]; exact Hal. }
  assert (Hm : on_mem malloc s4 =
               Ok (true, {| lex := lex s4; mem := allocated (mem s4) |})).
  { unfold on_mem. now rewrite (malloc_allocated Hal4). }
  repeat rewrite <- bind_assoc_at.
  rewrite (bind_ok _ _ _ Hm). cbn [negb].
  unfold bind, on_lex, gets. cbn [lex mem].
  rewrite Hs4. unfold s3 at 1. cbn [lex saved_text set_token]. rewrite Hs2.
  cbn [app tl]. rewrite (decode_escapes_pieces ps [] Hok). rewrite Hun.
  rewrite lex_set_value_eq, lex_set_token_eq. cbn [lex mem].
  eexists. split; [reflexivity|].
  split; [eapply reading_stream; [|exact (read_last_reading Hl4)]; reflexivity|].
  cbn [lex mem saved_text token value line set_token set_value].
  split; [rewrite Hs4; unfold s3; cbn [lex saved_text set_token];
          rewrite Hs2; reflexivity|].
  split; [reflexivity|]. split; [reflexivity|].
  split; [rewrite L4; unfold s3; cbn [lex line set_token]; exact L2|].
  rewrite M4. unfold s3. cbn [mem]. now rewrite M2.
Qed.


(** [lex_scan] on a number literal after blanks. *)
Lemma lex_scan_number_blanks ws (n : number_literal) x rest fuel s :
  forallb is_blank ws = true -> number_ok n = true -> ends_number x = true ->
  (List.length ws + List.length (number_text n) < fuel)%nat ->
  payload_ok s ->
  reading s (ws ++ number_text n ++ x :: rest) ->
  exists s',
    lex_scan fuel s
    = Ok ((if is_integer n then TOKEN_INTEGER else TOKEN_REAL), s') /\
    reading s' (x :: rest) /\
    saved_text (lex s') = number_text n /\
    token (lex s') = (if is_integer n then TOKEN_INTEGER else TOKEN_REAL) /\
    value (lex s') =
      (if is_integer n
       then VInteger (to_int (clamp_long (integer_value n)))
       else VReal (strtod_of (number_text n))) /\
    line (lex s') = line (lex s) + newlines ws /\
    mem s' = mem (released s).
Proof.
  intros Hws Hok Hx Hfuel Hp Hr.
  destruct (number_first_char n Hok)
    as (c & t & Ht & Hc & Hbl & Heof & Hpu & Hq & Hnum).
  rewrite Ht in Hr. cbn [app] in Hr.
  destruct (@lex_scan_enters ws c (t ++ x :: rest) fuel s Hws Hbl Hc
              ltac:(lia) Hp Hr)
    as (s2 & Hl2 & Hs2 & T2 & V2 & L2 & M2 & Hscan).
  rewrite Hscan, Hpu, Hq, Hnum.
  assert (Hhd : hd 0 (number_text n) = c) by now rewrite Ht.
  edestruct (@lex_scan_number_literal P D view n x rest fuel s2)
    as (s3 & HN & Hr3 & Hs3 & Ht3 & Hv3 & Hl3 & Hm3);
    [exact Hok|exact Hx|lia| | |].
  { rewrite Hhd, Ht. exact Hl2. }
  { now rewrite Hhd. }
  rewrite Hhd in HN. rewrite (bind_ok _ _ _ HN).
  unfold on_lex, gets. rewrite Ht3.
  eexists. split; [reflexivity|]. cbn [lex mem].
  split; [exact Hr3|]. split; [exact Hs3|]. split; [exact Ht3|].
  split; [exact Hv3|]. split; congruence.
Qed.

Lemma lex_get_reading_source s c cs :
  reading s (c :: cs) -> ascii c ->
  exists s',
    lex_get s = Ok (c, s') /\ read_last s' c cs /\
    saved_text (lex s') = saved_text (lex s) /\ frame s s' /\
    get (stream (lex s')) = get (stream (lex s)) /\
    eof (stream (lex s')) = eof (stream (lex s)).
Proof.
  intros (Hs & Hp) Hc.
  destruct (stream_get_pending Hs Hp Hc) as (st' & Hg & Hh & Hv & Hget & Heof).
  exists {| lex := set_stream st' (lex s); mem := mem s |}.
  split.
  { unfold lex_get, on_lex, on_stream. now rewrite Hg. }
  split.
  { split; [|split]; simpl; try assumption.
    eapply source_ok_get; eassumption. }
  split; [reflexivity|]. split; [now repeat split|]. now split.
Qed.

Lemma source_end_same tail (st st' : @stream_t D) :
  get st' = get st -> eof st' = eof st ->
  source_end view tail st -> source_end view tail st'.
Proof. intros Hg He H d Hv. rewrite Hg, He. now apply H. Qed.

(** At the end of the source, after blanks, [lex_scan] gives TOKEN_EOF. *)
Lemma skip_blanks_end tail ws : forall fuel s,
  forallb is_blank ws = true -> (List.length ws < fuel)%nat ->
  no_token tail ->
  source_end view tail (stream (lex s)) -> reading s (ws ++ tail) ->
  exists s',
    bind lex_get (skip_blanks fuel) s = Ok (EOF, s') /\
    lex_eof s' = Ok (true, s') /\
    saved_text (lex s') = saved_text (lex s) /\
    token (lex s') = token (lex s) /\ value (lex s') = value (lex s) /\
    mem s' = mem s /\
    line (lex s') = line (lex s) + newlines ws.
Proof.
  induction ws as [|w ws IH]; intros fuel s Hws Hf Htail Hend Hr.
  - destruct Hr as (Hsrc & Hp). cbn [app] in Hp.
    assert (Hd : drained (stream (lex s)) /\
                 view (data (stream (lex s))) = tail).
    { remember tail as l eqn:El. destruct Hp as [Hd|c Hc _]; [now split|].
      subst tail. now destruct Htail. }
    destruct Hd as ((Hlen & Hrd) & Hv).
    destruct (Hend _ Hv) as (d' & Hget & Heof).
    destruct s as [[st sv tk ln vl] m]. cbn [lex stream] in *.
    destruct st as [g e d buf pos]. cbn [get eof data buffer buffer_pos] in *.
    destruct buf as [|b0 [|b1 [|b2 [|b3 [|b4 [|]]]]]]; try discriminate.
    destruct fuel as [|f]; [simpl in Hf; lia|].
    unfold lex_get, on_lex, on_stream, bind. cbn [lex stream mem].
    unfold stream_get, bind, gets. cbn [buffer_pos].
    rewrite Hrd. cbn [Z.eqb].
    unfold stream_fill, bind, call_get. cbn [get data]. rewrite Hget.
    change (to_char EOF) with EOF.
    unfold buffer_write, modify, call_eof. cbn.
    rewrite Heof. cbn.
    eexists. split; [reflexivity|].
    unfold lex_eof, on_lex, on_stream, call_eof. cbn. rewrite Heof.
    split; [reflexivity|]. cbn. repeat split. lia.
  - simpl in Hws. apply andb_true_iff in Hws. destruct Hws as (Hw & Hws).
    destruct (lex_get_reading_source Hr (is_blank_ascii _ Hw))
      as (s1 & Hg & Hl & Hsv & (T & L & V & M) & Hget1 & Heof1).
    destruct fuel as [|f]; [simpl in Hf; lia|]. simpl in Hf.
    rewrite (bind_ok _ _ _ Hg). cbn [skip_blanks]. rewrite Hw.
    set (s2 := {| lex := set_line (line (lex s1) + 1) (lex s1);
                  mem := mem s1 |}).
    assert (E : (if w =? 10
                 then on_lex (modify (fun l => set_line (line l + 1) l))
                 else ret tt) s1 = Ok (tt, if w =? 10 then s2 else s1)).
    { destruct (w =? 10); reflexivity. }
    rewrite (bind_ok _ _ _ E).
    assert (Hst : stream (lex (if w =? 10 then s2 else s1)) = stream (lex s1))
      by now destruct (w =? 10).
    assert (Hr2 : reading (if w =? 10 then s2 else s1) (ws ++ tail)).
    { eapply reading_stream; [exact Hst|exact (read_last_reading Hl)]. }
    assert (Hend2 : source_end view tail
                      (stream (lex (if w =? 10 then s2 else s1)))).
    { rewrite Hst. eapply source_end_same; eassumption. }
    destruct (IH f _ Hws ltac:(lia) Htail Hend2 Hr2)
      as (s3 & Hrun & He3 & Hsv3 & T3 & V3 & M3 & L3).
    exists s3. split; [exact Hrun|]. split; [exact He3|].
    cbn [newlines].
    destruct (w =? 10); subst s2; cbn [lex mem line saved_text token value set_line] in *;
      (split; [congruence|]); (split; [congruence|]); (split; [congruence|]);
      (split; [congruence|]); rewrite L3, L; lia.
Qed.

(** At the end of the source, after blanks, [lex_scan] returns
    TOKEN_EOF. *)
Lemma lex_scan_end tail ws fuel s :
  forallb is_blank ws = true -> (List.length ws < fuel)%nat ->
  no_token tail -> payload_ok s ->
  source_end view tail (stream (lex s)) -> reading s (ws ++ tail) ->
  exists s',
    lex_scan fuel s = Ok (TOKEN_EOF, s') /\
    saved_text (lex s') = [] /\ token (lex s') = TOKEN_EOF /\
    value (lex s') = value (lex (released s)) /\
    line (lex s') = line (lex s) + newlines ws /\
    mem s' = mem (released s).
Proof.
  intros Hws Hfuel Htail Hp Hend Hr.
  rewrite (lex_scan_released fuel Hp).
  assert (Hst : stream (lex (released s)) = stream (lex s)).
  { unfold released. now destruct (token (lex s) =? TOKEN_STRING). }
  assert (Hr0 : reading (released s) (ws ++ tail)).
  { eapply reading_stream; [exact Hst|exact Hr]. }
  assert (Hend0 : source_end view tail (stream (lex (released s))))
    by now rewrite Hst.
  destruct (@skip_blanks_end tail ws fuel (released s) Hws Hfuel Htail
              Hend0 Hr0)
    as (s1 & Hrun & Heof & Hs1 & T1 & V1 & M1 & L1).
  rewrite (bind_run_under _ _ _ _ _ Hrun).
  change (EOF =? EOF) with true. cbv iota.
  repeat rewrite <- bind_assoc_at. rewrite (bind_ok _ _ _ Heof).
  cbv iota. rewrite (bind_ok _ _ _ (lex_set_token_eq _ _)).
  eexists. split; [reflexivity|].
  cbn [lex mem saved_text token value line set_token].
  split; [rewrite Hs1; unfold released;
          now destruct (token (lex s) =? TOKEN_STRING)|].
  split; [reflexivity|]. split; [exact V1|].
  split; [rewrite L1; unfold released;
          now destruct (token (lex s) =? TOKEN_STRING)|].
  exact M1.
Qed.

End Scanning.

(** * The parser on the documents of the grammar *)

Lemma doc_text_array sp i (e : doc) (r : list doc) :
  doc_text sp i (DArray (e :: r)) =
  sp i ++ ch "[" :: doc_text sp (S i) e ++ array_tail sp (S i + tokens e) r.
Proof. reflexivity. Qed.

Lemma doc_text_object sp i (m : list piece * doc)
  (r : list (list piece * doc)) :
  doc_text sp i (DObject (m :: r)) =
  sp i ++ ch "{" :: member_text sp (S i) m ++
  object_tail sp (S (S (S i)) + tokens (snd m)) r.
Proof.
  destruct m as [k x]. cbn [doc_text]. unfold member_text. cbn [fst snd].
  f_equal. f_equal. list_norm. do 5 f_equal.
  generalize (S (S (S i)) + tokens x)%nat.
  induction r as [|[k' x'] r IH]; intros j; [reflexivity|].
  cbn [object_tail]. unfold member_text. cbn [fst snd]. list_norm.
  now rewrite IH.
Qed.

Lemma doc_cells_array {P : Platform} base (es : list doc) :
  doc_cells base (DArray es) =
  Some {| refcount := 1; body := JArray (addresses (S base) es) |} ::
  array_cells (S base) es.
Proof. reflexivity. Qed.

Lemma doc_cells_object {P : Platform} base (ms : list (list piece * doc)) :
  doc_cells base (DObject ms) =
  Some {| refcount := 1; body := JObject (member_addresses (S base) ms) |} ::
  object_cells [] (S base) ms.
Proof.
  cbn [doc_cells doc_body]. f_equal. generalize (S base).
  induction ms as [|[k x] r IH]; [reflexivity|]. intros b.
  cbn [object_cells fst snd]. rewrite app_nil_r. now rewrite IH.
Qed.

Lemma doc_size_members (ms : list (list piece * doc)) :
  doc_size (DObject ms) = S (members_size ms).
Proof.
  cbn [doc_size]. f_equal.
  induction ms as [|[k x] r IH]; [reflexivity|].
  cbn [members_size snd]. now rewrite IH.
Qed.

Lemma object_cells_length_if {P : Platform} (l : list (list piece * doc)) :
  Forall (fun m => forall b,
            List.length (doc_cells b (snd m)) = doc_size (snd m)) l ->
  forall later b, List.length (object_cells later b l) = members_size l.
Proof.
  induction 1 as [|m r Hm _ IH]; intros later b; [reflexivity|].
  cbn [object_cells members_size]. rewrite length_app, IH. f_equal.
  destruct (has_key _ _); [apply repeat_length|apply Hm].
Qed.

(** Induction on a document, with the property for the values inside. *)
Lemma doc_induction (Q : doc -> Prop) :
  (forall ms, Forall (fun m => Q (snd m)) ms -> Q (DObject ms)) ->
  (forall es, Forall Q es -> Q (DArray es)) ->
  (forall ps, Q (DString ps)) ->
  (forall n, Q (DNumber n)) ->
  Q DTrue -> Q DFalse -> Q DNull ->
  forall v, Q v.
Proof.
  intros HO HA HS HN HT HF HU.
  fix IH 1. intros [ms|es|ps|n| | | ];
    [| |exact (HS ps)|exact (HN n)|exact HT|exact HF|exact HU].
  - apply HO. induction ms as [|[k x] r IHr]; constructor; [apply IH|exact IHr].
  - apply HA. induction es as [|e r IHr]; constructor; [apply IH|exact IHr].
Qed.

Lemma doc_cells_length {P : Platform} (v : doc) :
  forall base, List.length (doc_cells base v) = doc_size v.
Proof.
  induction v as [ms IH|es IH|ps|n| | | ] using doc_induction;
    intros base; try reflexivity.
  - rewrite doc_cells_object, doc_size_members. cbn [List.length]. f_equal.
    now apply object_cells_length_if.
  - rewrite doc_cells_array. cbn [List.length doc_size]. f_equal.
    generalize (S base). induction IH as [|e r He _ IHr]; intros b;
      [reflexivity|].
    cbn [array_cells]. rewrite length_app, He, IHr. reflexivity.
Qed.

(** ** The store *)

Lemma nth_error_mid {A} (h : list A) (x : A) (t : list A) :
  nth_error (h ++ x :: t) (List.length h) = Some x.
Proof. induction h as [|a h IH]; [reflexivity|exact IH]. Qed.

Lemma list_set_mid {A} (h : list A) (x y : A) (t : list A) :
  list_set (List.length h) y (h ++ x :: t) = h ++ y :: t.
Proof. induction h as [|a h IH]; [reflexivity|]. simpl. now rewrite IH. Qed.

Lemma json_new_fresh (b : json_body) (m : memory) :
  allocs m = [] ->
  json_new b m =
  Ok (Some (List.length (nodes m)),
      set_nodes (nodes m ++ [Some {| refcount := 1; body := b |}]) m).
Proof.
  intros H. destruct m as [h bl al]. simpl in H. subst al. reflexivity.
Qed.

Lemma json_incref_at h1 rc bd more (m : memory) :
  nodes m = h1 ++ Some {| refcount := rc; body := bd |} :: more ->
  json_incref (List.length h1) m =
  Ok (tt, set_nodes (h1 ++ Some {| refcount := rc + 1; body := bd |} :: more) m).
Proof.
  intros H. unfold json_incref. rewrite H, nth_error_mid, list_set_mid.
  reflexivity.
Qed.

Lemma json_decref_shared h1 bd more (m : memory) :
  nodes m = h1 ++ Some {| refcount := 2; body := bd |} :: more ->
  json_decref (List.length h1) m =
  Ok (tt, set_nodes (h1 ++ Some {| refcount := 1; body := bd |} :: more) m).
Proof.
  intros H. unfold json_decref. rewrite H. cbn [decref].
  rewrite nth_error_mid. cbn [refcount body Z.sub Z.eqb Z.add Z.opp Z.pos_sub].
  rewrite list_set_mid. reflexivity.
Qed.

Lemma json_array_append_child h0 rc es mid bd more (m : memory) :
  nodes m = h0 ++ Some {| refcount := rc; body := JArray es |} :: mid ++
            Some {| refcount := 1; body := bd |} :: more ->
  allocs m = [] ->
  json_array_append (List.length h0) (List.length h0 + 1 + List.length mid) m =
  Ok (0, set_nodes
           (h0 ++ Some {| refcount := rc;
                          body := JArray (es ++ [(List.length h0 + 1 +
                                                  List.length mid)%nat]) |}
               :: mid ++ Some {| refcount := 2; body := bd |} :: more) m).
Proof.
  intros H Hal. destruct m as [h bl al]. cbn [nodes allocs] in *. subst al h.
  unfold json_array_append, bind, alloc_ok, gets, modify, ret.
  cbn [allocs nodes blocks]. rewrite nth_error_mid.
  set (h1 := h0 ++ Some {| refcount := rc; body := JArray es |} :: mid).
  assert (E1 : (List.length h0 + 1 + List.length mid)%nat = List.length h1).
  { unfold h1. rewrite length_app. simpl. lia. }
  rewrite E1.
  assert (E2 : h0 ++ Some {| refcount := rc; body := JArray es |} :: mid ++
               Some {| refcount := 1; body := bd |} :: more =
               h1 ++ Some {| refcount := 1; body := bd |} :: more).
  { unfold h1. now rewrite <- app_assoc. }
  rewrite E2.
  rewrite (@json_incref_at h1 1 bd more
             {| nodes := h1 ++ Some {| refcount := 1; body := bd |} :: more;
                blocks := bl; allocs := [] |} eq_refl).
  unfold set_nodes. cbn [nodes blocks allocs]. unfold h1.
  rewrite <- app_assoc. cbn [app]. rewrite list_set_mid. reflexivity.
Qed.

(** ** Texts without a newline *)

Lemma newlines_app (a b : list Z) : newlines (a ++ b) = newlines a + newlines b.
Proof. induction a as [|c a IH]; simpl; [reflexivity|]. rewrite IH. lia. Qed.

Lemma newlines_none (l : list Z) :
  forallb (fun c => negb (c =? 10)) l = true -> newlines l = 0.
Proof.
  induction l as [|c l IH]; simpl; [reflexivity|]. intros H.
  apply andb_true_iff in H. destruct H as (Hc & Hl).
  apply negb_true_iff in Hc. rewrite Hc, (IH Hl). reflexivity.
Qed.

Lemma digits_no_newline (l : list Z) :
  forallb isdigit l = true -> forallb (fun c => negb (c =? 10)) l = true.
Proof.
  induction l as [|a l IH]; simpl; [reflexivity|]. intros H.
  apply andb_true_iff in H. destruct H as (Ha & Hl). rewrite (IH Hl).
  apply isdigit_range in Ha. rewrite eqb_false by lia. reflexivity.
Qed.

Lemma number_text_no_newline (n : number_literal) :
  number_ok n = true ->
  forallb (fun c => negb (c =? 10)) (number_text n) = true.
Proof.
  unfold number_ok. intros H.
  apply andb_true_iff in H. destruct H as (H & He).
  apply andb_true_iff in H. destruct H as (Hi & Hf).
  apply integer_ok_digits in Hi. destruct Hi as (Hi & _).
  assert (H1 : forallb (fun c => negb (c =? 10)) (sign_text n) = true).
  { unfold sign_text. now destruct (minus n). }
  assert (H2 : forallb (fun c => negb (c =? 10)) (fraction_text n) = true).
  { unfold fraction_text. pose proof (digits_no_newline _ Hf) as Hf'.
    destruct (fraction n); [reflexivity|]. exact Hf'. }
  assert (H3 : forallb (fun c => negb (c =? 10)) (exponent_text n) = true).
  { unfold exponent_text.
    destruct (exponent n) as [[[e sg] ds]|]; [|reflexivity].
    simpl in He. apply andb_true_iff in He. destruct He as (He & _).
    apply andb_true_iff in He. destruct He as (He & Hds).
    apply andb_true_iff in He. destruct He as (He & Hsg).
    simpl. rewrite forallb_app, (digits_no_newline _ Hds).
    assert (e <> 10).
    { apply orb_true_iff in He. destruct He as [He|He];
        apply Z.eqb_eq in He; subst e; discriminate. }
    replace (e =? 10) with false by (symmetry; now apply Z.eqb_neq).
    simpl. destruct sg as [|c [|]]; try discriminate; [reflexivity|].
    simpl. apply orb_true_iff in Hsg. destruct Hsg as [Hc|Hc];
      apply Z.eqb_eq in Hc; subst c; reflexivity. }
  unfold number_text. rewrite !forallb_app.
  now rewrite H1, (digits_no_newline _ Hi), H2, H3.
Qed.

Lemma body_text_no_newline (ps : list piece) :
  forallb piece_ok ps = true -> existsb is_unicode ps = false ->
  forallb (fun c => negb (c =? 10)) (body_text ps) = true.
Proof.
  induction ps as [|p ps IH]; [reflexivity|]. intros Hok Hun.
  cbn [forallb existsb] in Hok, Hun.
  apply andb_true_iff in Hok. destruct Hok as (Hp & Hok).
  apply orb_false_iff in Hun. destruct Hun as (Hpu & Hun).
  change (body_text (p :: ps)) with (piece_text p ++ body_text ps).
  rewrite forallb_app, (IH Hok Hun), andb_true_r.
  destruct p as [c|e|h1 h2 h3 h4]; [| |discriminate].
  - unfold piece_ok in Hp. bool_to_prop. cbn [piece_text forallb].
    rewrite andb_true_r. apply negb_true_iff. apply Z.eqb_neq. intros ->.
    discriminate.
  - destruct (shortcut_ok_inv _ Hp) as (Hsc & _ & _).
    cbn [piece_text forallb]. rewrite andb_true_r.
    change (negb (ch "\" =? 10)) with true. cbn [andb].
    apply negb_true_iff. apply Z.eqb_neq. intros ->. discriminate.
Qed.

Lemma literal_text_no_newline (ps : list piece) :
  string_ok ps = true -> newlines (literal_text ps) = 0.
Proof.
  unfold string_ok. intros H. bool_to_prop.
  apply newlines_none. unfold literal_text. cbn [forallb].
  rewrite forallb_app, (body_text_no_newline ps H H0). reflexivity.
Qed.

(** ** What [lex_scan] releases *)

Section Released.

Context {D : Type}.
Implicit Types s : @lexst D.

Lemma released_nodes s : nodes (mem (released s)) = nodes (mem s).
Proof.
  unfold released. destruct (token (lex s) =? TOKEN_STRING); [|reflexivity].
  cbn [mem]. now destruct (value (lex s)) as [|[t|]| |].
Qed.

Lemma released_allocs s : allocs (mem (released s)) = allocs (mem s).
Proof.
  unfold released. destruct (token (lex s) =? TOKEN_STRING); [|reflexivity].
  cbn [mem]. now destruct (value (lex s)) as [|[t|]| |].
Qed.

Lemma released_blocks s :
  blocks (mem (released s)) = blocks (mem s) - held s.
Proof.
  unfold released, held.
  destruct (token (lex s) =? TOKEN_STRING); cbn [mem]; [|lia].
  destruct (value (lex s)) as [|[t|]| |]; cbn [blocks set_blocks]; lia.
Qed.

Lemma held_other s : token (lex s) <> TOKEN_STRING -> held s = 0.
Proof. intros H. unfold held. now rewrite (eqb_false H). Qed.

Lemma payload_ok_other s : token (lex s) <> TOKEN_STRING -> payload_ok s.
Proof. intros H H'. contradiction. Qed.

End Released.

(** ** Characters between values *)

Lemma delimiter_inv (x : Z) :
  delimiter x = true ->
  ends_number x = true /\ ascii x /\ is_letter x = false.
Proof.
  unfold delimiter, is_blank, ends_number, is_letter, isupper, islower,
    isdigit, ascii. norm_ch. intros H.
  repeat (apply orb_true_iff in H; destruct H as [H|H]);
    apply Z.eqb_eq in H; subst x; (split; [reflexivity|split; [lia|reflexivity]]).
Qed.

Lemma blanks_delimited (sp : list Z) (c : Z) (rest : list Z) :
  forallb is_blank sp = true -> delimiter c = true ->
  delimited (sp ++ c :: rest).
Proof.
  intros Hsp Hc. destruct sp as [|w sp]; simpl; [exact Hc|].
  simpl in Hsp. apply andb_true_iff in Hsp. destruct Hsp as (Hw & _).
  unfold delimiter. now rewrite Hw.
Qed.

Lemma array_tail_delimited sp j (r : list doc) (rest : list Z) :
  (forall i, forallb is_blank (sp i) = true) ->
  delimited (array_tail sp j r ++ rest).
Proof.
  intros Hsp. destruct r as [|e r]; cbn [array_tail]; list_norm;
    now apply blanks_delimited.
Qed.

Lemma object_tail_delimited sp j (r : list (list piece * doc))
  (rest : list Z) :
  (forall i, forallb is_blank (sp i) = true) ->
  delimited (object_tail sp j r ++ rest).
Proof.
  intros Hsp. destruct r as [|e r]; cbn [object_tail]; list_norm;
    now apply blanks_delimited.
Qed.

(** ** Steps of the parser *)

Section ParserSteps.

Context {P : Platform} {D : Type}.
Implicit Types s : @parst D.

Lemma lexer_ok {A} (m : @L D A) s a l :
  m (ls s) = Ok (a, l) -> lexer m s = Ok (a, {| ls := l; err := err s |}).
Proof. intros H. unfold lexer. now rewrite H. Qed.

Lemma heap_ok {A} (m : M memory A) s a m' :
  m (mem (ls s)) = Ok (a, m') -> heap m s = Ok (a, with_mem m' s).
Proof. intros H. unfold heap, lexer, on_mem. now rewrite H. Qed.

Lemma heap_malloc_ok s :
  allocs (mem (ls s)) = [] ->
  heap malloc s = Ok (true, with_mem (allocated (mem (ls s))) s).
Proof.
  intros H. apply heap_ok. apply malloc_allocated. unfold can_allocate.
  now rewrite H.
Qed.

Lemma cur_token_eq (l : @lexst D) e :
  cur_token {| ls := l; err := e |} =
  Ok (token (lex l), {| ls := {| lex := lex l; mem := mem l |}; err := e |}).
Proof. reflexivity. Qed.

End ParserSteps.

Lemma first_token_positive (v : doc) : 0 < first_token v.
Proof.
  destruct v as [ms|es|ps|n| | | ]; cbn [first_token]; try reflexivity.
  now destruct (is_integer n).
Qed.

Lemma doc_ok_object (ms : list (list piece * doc)) :
  doc_ok (DObject ms) =
  forallb (fun m => string_ok (fst m) && doc_ok (snd m)) ms.
Proof.
  cbn [doc_ok].
  induction ms as [|[k x] r IH]; [reflexivity|].
  cbn [forallb fst snd]. now rewrite IH.
Qed.

Lemma doc_ok_array (es : list doc) :
  doc_ok (DArray es) = forallb doc_ok es.
Proof.
  cbn [doc_ok]. induction es as [|e r IH]; [reflexivity|].
  cbn [forallb]. now rewrite IH.
Qed.

Lemma array_tail_length sp (r : list doc) : forall j,
  (List.length r < List.length (array_tail sp j r))%nat.
Proof.
  induction r as [|e r IH]; intros j; cbn [array_tail List.length].
  - rewrite length_app. simpl. lia.
  - rewrite length_app. cbn [List.length]. rewrite length_app.
    specialize (IH (S j + tokens e)%nat). lia.
Qed.

Lemma object_tail_length sp (r : list (list piece * doc)) : forall j,
  (List.length r < List.length (object_tail sp j r))%nat.
Proof.
  induction r as [|e r IH]; intros j; cbn [object_tail List.length].
  - rewrite length_app. simpl. lia.
  - rewrite length_app. cbn [List.length]. rewrite length_app.
    specialize (IH (S (S (S j)) + tokens (snd e))%nat). lia.
Qed.

Lemma first_token_not_close (v : doc) :
  first_token v <> ch "]" /\ first_token v <> ch "}".
Proof.
  destruct v as [ms|es|ps|n| | | ]; cbn [first_token];
    try (split; discriminate).
  destruct (is_integer n); split; discriminate.
Qed.


(** ** The text of a value and its tokens *)

Lemma layout_app sp (a b : list (list Z)) : forall i,
  layout sp i (a ++ b) = layout sp i a ++ layout sp (i + List.length a) b.
Proof.
  induction a as [|t a IH]; intros i.
  - cbn [app layout List.length]. now rewrite Nat.add_0_r.
  - cbn [app layout List.length]. rewrite IH, <- !app_assoc.
    now rewrite Nat.add_succ_r.
Qed.

Lemma separated_cons (a : list (list Z)) (l : list (list (list Z))) :
  separated (a :: l) = a ++ flat_map (fun b => [ch ","] :: b) l.
Proof.
  revert a. induction l as [|b l IH]; intros a.
  - cbn [separated flat_map]. now rewrite app_nil_r.
  - change (separated (a :: b :: l)) with (a ++ [ch ","] :: separated (b :: l)).
    now rewrite IH.
Qed.

Lemma array_tail_layout sp (r : list doc) :
  Forall (fun e => forall i, doc_text sp i e = layout sp i (token_texts e)) r ->
  forall j,
    array_tail sp j r =
    layout sp j (flat_map (fun b => [ch ","] :: b) (map token_texts r) ++
                 [[ch "]"]]).
Proof.
  induction 1 as [|e r He _ IH]; intros j.
  - reflexivity.
  - cbn [array_tail map flat_map]. rewrite He, IH. unfold tokens.
    cbn [app layout]. rewrite <- !app_assoc. cbn [app].
    rewrite (layout_app sp (token_texts e)). reflexivity.
Qed.

Lemma object_tail_layout sp (r : list (list piece * doc)) :
  Forall (fun m => forall i,
            doc_text sp i (snd m) = layout sp i (token_texts (snd m))) r ->
  forall j,
    object_tail sp j r =
    layout sp j
      (flat_map (fun b => [ch ","] :: b)
         (map (fun m : list piece * doc =>
                 let (k, x) := m in
                 literal_text k :: [ch ":"] :: token_texts x) r) ++
       [[ch "}"]]).
Proof.
  induction 1 as [|[k x] r Hx _ IH]; intros j.
  - reflexivity.
  - cbn [object_tail map flat_map]. unfold member_text.
    cbn [fst snd] in *. rewrite Hx, IH. unfold tokens.
    cbn [app layout]. rewrite <- !app_assoc. cbn [app].
    rewrite (layout_app sp (token_texts x)). reflexivity.
Qed.

(** The text of a value is its tokens, each after its white space. *)
Lemma doc_text_layout sp (v : doc) : forall i,
  doc_text sp i v = layout sp i (token_texts v).
Proof.
  induction v as [ms IH|es IH|ps|n| | | ] using doc_induction; intros i;
    try (cbn [doc_text token_texts layout]; now rewrite app_nil_r).
  - destruct ms as [|[k x] r].
    + reflexivity.
    + inversion IH as [|? ? Hx Hr]; subst. cbn [snd] in Hx.
      rewrite doc_text_object. cbn [token_texts map].
      rewrite separated_cons. unfold member_text. cbn [fst snd].
      rewrite (@object_tail_layout sp r Hr), Hx. unfold tokens.
      cbn [app layout]. rewrite <- !app_assoc. cbn [app].
      rewrite (layout_app sp (token_texts x)). reflexivity.
  - destruct es as [|e r].
    + reflexivity.
    + inversion IH as [|? ? He Hr]; subst.
      rewrite doc_text_array. cbn [token_texts map].
      rewrite separated_cons, (@array_tail_layout sp r Hr), He. unfold tokens.
      cbn [app layout]. rewrite <- !app_assoc. cbn [app].
      rewrite (layout_app sp (token_texts e)). reflexivity.
Qed.

(** ** The members of an object *)

Lemma list_eqb_true (a b : list Z) : list_eqb a b = true <-> a = b.
Proof.
  unfold list_eqb. destruct (list_eq_dec Z.eq_dec a b); split;
    intros H; try reflexivity; try assumption; try discriminate.
  contradiction.
Qed.

Lemma list_eqb_refl (a : list Z) : list_eqb a a = true.
Proof. now apply list_eqb_true. Qed.

Lemma list_eqb_sym (a b : list Z) : list_eqb a b = list_eqb b a.
Proof.
  destruct (list_eqb a b) eqn:E; symmetry.
  - apply list_eqb_true. symmetry. now apply list_eqb_true.
  - destruct (list_eqb b a) eqn:E'; [|reflexivity].
    apply list_eqb_true in E'. subst b. now rewrite list_eqb_refl in E.
Qed.

Lemma has_key_in (k : list Z) (l : list (list Z)) :
  has_key k l = true <-> In k l.
Proof.
  unfold has_key. rewrite existsb_exists. split.
  - intros (x & Hx & E). apply list_eqb_true in E. now subst x.
  - intros H. exists k. split; [exact H|apply list_eqb_refl].
Qed.

Lemma has_key_not_in (k : list Z) (l : list (list Z)) :
  has_key k l = false <-> ~ In k l.
Proof.
  rewrite <- has_key_in. destruct (has_key k l); split; intros H;
    first [discriminate|reflexivity|now exfalso; apply H|idtac].
Qed.

Lemma has_key_app (k : list Z) (l1 l2 : list (list Z)) :
  has_key k (l1 ++ l2) = has_key k l1 || has_key k l2.
Proof. apply existsb_app. Qed.

Lemma keys_app (p1 p2 : list (list piece * doc)) :
  keys (p1 ++ p2) = keys p1 ++ keys p2.
Proof. apply map_app. Qed.

Lemma members_size_app (p1 p2 : list (list piece * doc)) :
  members_size (p1 ++ p2) = (members_size p1 + members_size p2)%nat.
Proof.
  induction p1 as [|m r IH]; [reflexivity|]. cbn [app members_size].
  rewrite IH. lia.
Qed.

Lemma object_cells_length {P : Platform} (l : list (list piece * doc)) :
  forall later b, List.length (object_cells later b l) = members_size l.
Proof.
  apply object_cells_length_if. apply Forall_forall. intros m _ b.
  apply doc_cells_length.
Qed.

(** The cells of a list of members depend on the keys that come later
    only through the keys they hold. *)
Lemma object_cells_ext {P : Platform} (l1 l2 : list (list Z))
  (ms : list (list piece * doc)) :
  (forall k, has_key k l1 = has_key k l2) ->
  forall b, object_cells l1 b ms = object_cells l2 b ms.
Proof.
  intros H. induction ms as [|m r IH]; intros b; [reflexivity|].
  cbn [object_cells]. rewrite !has_key_app, H, IH. reflexivity.
Qed.

Lemma object_cells_fresh {P : Platform} (k : list Z) (later : list (list Z))
  (ms : list (list piece * doc)) :
  has_key k (keys ms) = false ->
  forall b, object_cells (k :: later) b ms = object_cells later b ms.
Proof.
  induction ms as [|m r IH]; intros Hk b; [reflexivity|].
  cbn [keys map] in Hk. fold (keys r) in Hk.
  unfold has_key in Hk. cbn [existsb] in Hk. fold (has_key k (keys r)) in Hk.
  apply orb_false_iff in Hk. destruct Hk as (Hm & Hr).
  cbn [object_cells]. rewrite (IH Hr). f_equal.
  rewrite !has_key_app. unfold has_key at 2. cbn [existsb].
  fold (has_key (string_bytes (fst m)) later).
  now rewrite list_eqb_sym, Hm.
Qed.

Lemma object_cells_app {P : Platform} (p1 p2 : list (list piece * doc)) :
  forall later b,
    object_cells later b (p1 ++ p2) =
    object_cells (keys p2 ++ later) b p1 ++
    object_cells later (b + members_size p1) p2.
Proof.
  induction p1 as [|m r IH]; intros later b.
  - cbn [app object_cells members_size]. now rewrite Nat.add_0_r.
  - cbn [app object_cells members_size]. rewrite IH, keys_app.
    rewrite <- !app_assoc. do 3 f_equal. lia.
Qed.

(** When every key comes again, every value has been released. *)
Lemma object_cells_dead {P : Platform} (later : list (list Z))
  (ms : list (list piece * doc)) :
  (forall k, In k (keys ms) -> has_key k later = true) ->
  forall b, object_cells later b ms = repeat None (members_size ms).
Proof.
  induction ms as [|m r IH]; intros H b; [reflexivity|].
  cbn [object_cells members_size]. rewrite repeat_app.
  rewrite IH by (intros k Hk; apply H; now right).
  rewrite has_key_app, (H (string_bytes (fst m))) by now left.
  now rewrite orb_true_r.
Qed.

(** *** Looking a key up *)

Lemma assoc_find_none (k : list Z) (done : list (list Z * nat)) :
  assoc_find k done = None <-> ~ In k (map fst done).
Proof.
  induction done as [|[k' a] r IH]; cbn [assoc_find map fst In]; [tauto|].
  destruct (list_eqb k' k) eqn:E.
  - apply list_eqb_true in E. subst k'. split; [discriminate|tauto].
  - rewrite IH. split; [|tauto]. intros H [H'|H']; [|tauto].
    subst k'. now rewrite list_eqb_refl in E.
Qed.

Lemma assoc_find_in (k : list Z) (a : nat) (done : list (list Z * nat)) :
  NoDup (map fst done) -> In (k, a) done -> assoc_find k done = Some a.
Proof.
  induction done as [|[k' a'] r IH]; intros Hnd Hin; [contradiction|].
  cbn [map fst] in Hnd. inversion Hnd as [|? ? Hk' Hr]; subst.
  cbn [assoc_find]. destruct Hin as [E|Hin].
  - inversion E; subst. now rewrite list_eqb_refl.
  - destruct (list_eqb k' k) eqn:E; [|now apply IH].
    apply list_eqb_true in E. subst k'. exfalso. apply Hk'.
    change k with (fst (k, a)). now apply in_map.
Qed.

Lemma assoc_find_app (k : list Z) (l1 l2 : list (list Z * nat)) :
  assoc_find k (l1 ++ l2) =
  match assoc_find k l1 with
  | Some a => Some a
  | None => assoc_find k l2
  end.
Proof.
  induction l1 as [|[k' a] r IH]; [reflexivity|]. cbn [app assoc_find].
  now destruct (list_eqb k' k).
Qed.

Lemma assoc_replace_keys (k : list Z) (a : nat) (done : list (list Z * nat)) :
  map fst (assoc_replace k a done) = map fst done.
Proof.
  induction done as [|[k' w] r IH]; [reflexivity|]. cbn [assoc_replace].
  destruct (list_eqb k' k); cbn [map fst]; [reflexivity|now rewrite IH].
Qed.

Lemma assoc_find_replace (k1 k : list Z) (a : nat) (done : list (list Z * nat)) :
  assoc_find k1 done <> None ->
  assoc_find k (assoc_replace k1 a done) =
  if list_eqb k1 k then Some a else assoc_find k done.
Proof.
  induction done as [|[k' w] r IH]; intros H; [now contradiction H|].
  cbn [assoc_find assoc_replace] in *.
  destruct (list_eqb k' k1) eqn:E1.
  - apply list_eqb_true in E1. subst k'. cbn [assoc_find].
    now destruct (list_eqb k1 k).
  - cbn [assoc_find]. rewrite (IH H).
    destruct (list_eqb k' k) eqn:E; [|reflexivity].
    apply list_eqb_true in E. subst k'.
    now rewrite list_eqb_sym, E1.
Qed.

Lemma assoc_find_set (k1 k : list Z) (a : nat) (done : list (list Z * nat)) :
  assoc_find k (assoc_set k1 a done) =
  if list_eqb k1 k then Some a else assoc_find k done.
Proof.
  unfold assoc_set. destruct (assoc_find k1 done) as [old|] eqn:E.
  - apply assoc_find_replace. now rewrite E.
  - rewrite assoc_find_app. cbn [assoc_find].
    destruct (list_eqb k1 k) eqn:E1.
    + apply list_eqb_true in E1. subst k1. now rewrite E.
    + now destruct (assoc_find k done).
Qed.

Lemma assoc_set_nodup (k : list Z) (a : nat) (done : list (list Z * nat)) :
  NoDup (map fst done) -> NoDup (map fst (assoc_set k a done)).
Proof.
  intros H. unfold assoc_set. destruct (assoc_find k done) as [old|] eqn:E.
  - now rewrite assoc_replace_keys.
  - rewrite map_app. cbn [map fst]. apply NoDup_app; [exact H| |].
    + constructor; [intros []|constructor].
    + intros x Hx [<-|[]]. now apply assoc_find_none in E.
Qed.

Lemma members_after_app (p1 p2 : list (list piece * doc)) :
  forall done b,
    members_after done b (p1 ++ p2) =
    members_after (members_after done b p1) (b + members_size p1) p2.
Proof.
  induction p1 as [|[k x] r IH]; intros done b.
  - cbn [app members_after members_size]. now rewrite Nat.add_0_r.
  - cbn [app members_after members_size snd]. rewrite IH. f_equal. lia.
Qed.

Lemma members_after_nodup (l : list (list piece * doc)) :
  forall done b,
    NoDup (map fst done) -> NoDup (map fst (members_after done b l)).
Proof.
  induction l as [|[k x] r IH]; intros done b H; [exact H|].
  cbn [members_after]. apply IH. now apply assoc_set_nodup.
Qed.

(** The object holds, for every key, the value of the last member with
    that key. *)
Lemma members_after_find (k : list Z) (l : list (list piece * doc)) :
  forall done b,
    assoc_find k (members_after done b l) =
    match last_address k b l with
    | Some a => Some a
    | None => assoc_find k done
    end.
Proof.
  induction l as [|[k1 x] r IH]; intros done b; [reflexivity|].
  cbn [members_after last_address]. rewrite IH, assoc_find_set.
  destruct (last_address k (b + doc_size x) r); [reflexivity|].
  now destruct (list_eqb (string_bytes k1) k).
Qed.

Lemma last_address_none (k : list Z) (l : list (list piece * doc)) :
  forall b, last_address k b l = None <-> has_key k (keys l) = false.
Proof.
  induction l as [|[k1 x] r IH]; intros b; [now split|].
  cbn [last_address keys map fst]. fold (keys r).
  unfold has_key. cbn [existsb]. fold (has_key k (keys r)).
  rewrite orb_false_iff, <- (IH (b + doc_size x)%nat), (list_eqb_sym k).
  destruct (last_address k (b + doc_size x) r);
    destruct (list_eqb (string_bytes k1) k); split; intros H;
    try discriminate; try tauto; destruct H; discriminate.
Qed.

Lemma member_addresses_find (k : list Z) (b : nat)
  (l : list (list piece * doc)) :
  assoc_find k (member_addresses b l) = last_address k b l.
Proof.
  unfold member_addresses. rewrite members_after_find.
  now destruct (last_address k b l).
Qed.

Lemma member_addresses_nodup (b : nat) (l : list (list piece * doc)) :
  NoDup (map fst (member_addresses b l)).
Proof. apply members_after_nodup. constructor. Qed.

Lemma member_addresses_keys (b : nat) (l : list (list piece * doc)) (k : list Z) :
  In k (map fst (member_addresses b l)) <-> In k (keys l).
Proof.
  split; intros H.
  - apply has_key_in. destruct (has_key k (keys l)) eqn:E; [reflexivity|].
    exfalso. apply (last_address_none k l b) in E.
    rewrite <- member_addresses_find in E. apply assoc_find_none in E.
    contradiction.
  - apply has_key_in in H.
    destruct (in_dec (list_eq_dec Z.eq_dec) k (map fst (member_addresses b l)))
      as [H'|H']; [exact H'|].
    exfalso. apply assoc_find_none in H'.
    rewrite member_addresses_find in H'.
    apply (last_address_none k l b) in H'. congruence.
Qed.

Lemma member_addresses_app (b : nat) (pre : list (list piece * doc))
  (k : list piece) (x : doc) :
  member_addresses b (pre ++ [(k, x)]) =
  assoc_set (string_bytes k) (b + members_size pre) (member_addresses b pre).
Proof. unfold member_addresses. now rewrite members_after_app. Qed.

(** ** Releasing a tree *)

Lemma doc_size_array (e : doc) (r : list doc) :
  doc_size (DArray (e :: r)) = (doc_size e + doc_size (DArray r))%nat.
Proof. cbn [doc_size]. lia. Qed.

Lemma doc_size_positive (v : doc) : (0 < doc_size v)%nat.
Proof. destruct v; cbn [doc_size]; lia. Qed.

(** Dropping the references of the elements one after the other, when
    dropping the only reference to each releases its cells. *)
Lemma decref_elements {P : Platform} (f : nat) (es : list doc) :
  Forall (fun e => forall h0 more,
            (doc_size e < f)%nat ->
            decref f (List.length h0)
                   (h0 ++ doc_cells (List.length h0) e ++ more)
            = Ok (h0 ++ repeat None (doc_size e) ++ more)) es ->
  forall h1 more,
    (doc_size (DArray es) <= f)%nat ->
    fold_left (fun acc k => obind acc (decref f k))
              (addresses (List.length h1) es)
              (Ok (h1 ++ array_cells (List.length h1) es ++ more))
    = Ok (h1 ++ repeat None (doc_size (DArray es) - 1) ++ more).
Proof.
  induction 1 as [|e r He _ IH]; intros h1 more Hf; [reflexivity|].
  rewrite doc_size_array in Hf. pose proof (doc_size_positive (DArray r)).
  cbn [addresses array_cells fold_left obind].
  rewrite <- app_assoc. rewrite He by lia.
  assert (El : (List.length h1 + doc_size e)%nat
               = List.length (h1 ++ repeat None (doc_size e)))
    by now rewrite length_app, repeat_length.
  rewrite El.
  replace (h1 ++ repeat None (doc_size e) ++
           array_cells (List.length (h1 ++ repeat None (doc_size e))) r ++ more)
    with ((h1 ++ repeat None (doc_size e)) ++
          array_cells (List.length (h1 ++ repeat None (doc_size e))) r ++ more)
    by now rewrite <- app_assoc.
  rewrite IH by lia.
  rewrite doc_size_array.
  replace (doc_size e + doc_size (DArray r) - 1)%nat
    with (doc_size e + (doc_size (DArray r) - 1))%nat by lia.
  rewrite repeat_app, <- !app_assoc. reflexivity.
Qed.

(** Dropping the object's reference to the value of the last member with
    the key [k]: the cells are those of the members with [k] coming
    later. *)
Lemma release_member {P : Platform} (f : nat) (k : list Z) :
  forall (pre : list (list piece * doc)) later h more a,
    Forall (fun m => forall h0 more,
              (doc_size (snd m) < f)%nat ->
              decref f (List.length h0)
                     (h0 ++ doc_cells (List.length h0) (snd m) ++ more)
              = Ok (h0 ++ repeat None (doc_size (snd m)) ++ more)) pre ->
    (members_size pre < f)%nat ->
    has_key k later = false ->
    last_address k (List.length h) pre = Some a ->
    decref f a (h ++ object_cells later (List.length h) pre ++ more) =
    Ok (h ++ object_cells (k :: later) (List.length h) pre ++ more).
Proof.
  induction pre as [|[k1 x1] r IH]; intros later h more a HF Hf Hk Ha;
    [discriminate|].
  inversion HF as [|? ? Hx Hr]; subst. cbn [snd] in Hx.
  cbn [members_size snd] in Hf.
  cbn [last_address] in Ha. cbn [object_cells fst snd].
  destruct (last_address k (List.length h + doc_size x1) r) as [a'|] eqn:E.
  - injection Ha as ->.
    assert (Hin : has_key k (keys r) = true).
    { destruct (has_key k (keys r)) eqn:E'; [reflexivity|].
      apply (last_address_none k r (List.length h + doc_size x1)) in E'.
      congruence. }
    assert (Hseg : has_key (string_bytes k1) (keys r ++ k :: later) =
                   has_key (string_bytes k1) (keys r ++ later)).
    { rewrite !has_key_app. unfold has_key at 2. cbn [existsb].
      fold (has_key (string_bytes k1) later).
      destruct (list_eqb (string_bytes k1) k) eqn:E1; [|reflexivity].
      apply list_eqb_true in E1. rewrite E1, Hin. reflexivity. }
    rewrite Hseg.
    set (seg := if has_key (string_bytes k1) (keys r ++ later)
                then repeat None (doc_size x1)
                else doc_cells (List.length h) x1).
    assert (Hl : List.length (h ++ seg) = (List.length h + doc_size x1)%nat).
    { rewrite length_app. f_equal. unfold seg.
      destruct (has_key (string_bytes k1) (keys r ++ later));
        [apply repeat_length|apply doc_cells_length]. }
    rewrite <- Hl in E |- *.
    rewrite <- !app_assoc, !(app_assoc h seg).
    apply IH; [exact Hr|lia|exact Hk|exact E].
  - destruct (list_eqb (string_bytes k1) k) eqn:E1; [|discriminate].
    injection Ha as <-. apply list_eqb_true in E1. rewrite E1.
    apply (last_address_none k r) in E.
    rewrite (object_cells_fresh k later r E).
    assert (H1 : has_key k (keys r ++ later) = false)
      by (rewrite has_key_app, E, Hk; reflexivity).
    assert (H2 : has_key k (keys r ++ k :: later) = true)
      by (apply has_key_in, in_or_app; right; now left).
    rewrite H1, H2, <- !app_assoc. apply Hx. lia.
Qed.

(** Dropping the references an object holds, one after the other. *)
Lemma release_members {P : Platform} (f : nat) (ms : list (list piece * doc))
  h more :
  Forall (fun m => forall h0 more,
            (doc_size (snd m) < f)%nat ->
            decref f (List.length h0)
                   (h0 ++ doc_cells (List.length h0) (snd m) ++ more)
            = Ok (h0 ++ repeat None (doc_size (snd m)) ++ more)) ms ->
  (members_size ms < f)%nat ->
  forall (done : list (list Z * nat)) later,
    NoDup (map fst done) ->
    (forall k a, In (k, a) done ->
                 last_address k (List.length h) ms = Some a /\
                 has_key k later = false) ->
    fold_left (fun acc k => obind acc (decref f k)) (map snd done)
              (Ok (h ++ object_cells later (List.length h) ms ++ more))
    = Ok (h ++ object_cells (rev (map fst done) ++ later) (List.length h) ms
            ++ more).
Proof.
  intros HF Hf. induction done as [|[k a] r IH]; intros later Hnd Hall;
    [reflexivity|].
  cbn [map fst snd fold_left obind] in *.
  inversion Hnd as [|? ? Hk Hr]; subst.
  destruct (Hall k a (or_introl eq_refl)) as (Ha & Hl).
  rewrite (release_member k later h more HF Hf Hl Ha).
  rewrite IH; [|exact Hr|].
  - cbn [rev]. now rewrite <- app_assoc.
  - intros k' a' Hin. destruct (Hall k' a' (or_intror Hin)) as (Ha' & Hl').
    split; [exact Ha'|]. unfold has_key. cbn [existsb].
    fold (has_key k' later). rewrite Hl', orb_false_r.
    destruct (list_eqb k' k) eqn:E; [|reflexivity].
    apply list_eqb_true in E. subst k'. exfalso. apply Hk.
    change k with (fst (k, a')). now apply in_map.
Qed.

(** Dropping the only reference to a tree releases all its cells. *)
Lemma decref_doc {P : Platform} (v : doc) : forall fuel h0 more,
  (doc_size v < fuel)%nat ->
  decref fuel (List.length h0) (h0 ++ doc_cells (List.length h0) v ++ more)
  = Ok (h0 ++ repeat None (doc_size v) ++ more).
Proof.
  induction v as [ms IH|es IH|ps|n| | | ] using doc_induction;
    intros [|f] h0 more Hf; try (exfalso; lia);
    try (cbn [doc_cells app decref]; rewrite nth_error_mid;
         cbn [refcount body doc_body children fold_left Z.sub Z.eqb Z.add
              Z.opp Z.pos_sub];
         rewrite list_set_mid; reflexivity).
  - rewrite doc_cells_object. cbn [app decref].
    rewrite nth_error_mid.
    cbn [refcount body children Z.sub Z.eqb Z.add Z.opp Z.pos_sub].
    rewrite list_set_mid.
    rewrite doc_size_members in Hf |- *.
    assert (El : S (List.length h0) = List.length (h0 ++ [None]))
      by (rewrite length_app; simpl; lia).
    rewrite El.
    replace (h0 ++ None :: object_cells [] (List.length (h0 ++ [None])) ms
                ++ more)
      with ((h0 ++ [None]) ++
            object_cells [] (List.length (h0 ++ [None])) ms ++ more)
      by now rewrite <- app_assoc.
    rewrite (@release_members P f ms (h0 ++ [None]) more); [|
      eapply Forall_impl; [|exact IH]; intros m Hm h1 more1 Hs; now apply Hm
      |lia|apply member_addresses_nodup|].
    + rewrite object_cells_dead.
      * rewrite <- app_assoc. reflexivity.
      * intros k Hk. apply has_key_in. rewrite app_nil_r, <- in_rev.
        now apply member_addresses_keys.
    + intros k a Hin. split; [|reflexivity].
      rewrite <- member_addresses_find.
      apply assoc_find_in; [apply member_addresses_nodup|exact Hin].
  - rewrite doc_cells_array. cbn [app decref].
    rewrite nth_error_mid.
    cbn [refcount body children Z.sub Z.eqb Z.add Z.opp Z.pos_sub].
    rewrite list_set_mid.
    assert (El : S (List.length h0) = List.length (h0 ++ [None]))
      by (rewrite length_app; simpl; lia).
    rewrite El.
    replace (h0 ++ None :: array_cells (List.length (h0 ++ [None])) es ++ more)
      with ((h0 ++ [None]) ++
            array_cells (List.length (h0 ++ [None])) es ++ more)
      by now rewrite <- app_assoc.
    rewrite decref_elements; [| |lia].
    + pose proof (doc_size_positive (DArray es)).
      rewrite <- app_assoc. cbn [app].
      replace (doc_size (DArray es))
        with (S (doc_size (DArray es) - 1)) at 2 by lia.
      reflexivity.
    + eapply Forall_impl; [|exact IH].
      intros m Hm h1 more1 Hs. now apply Hm.
  - cbn [doc_cells app decref doc_body]. rewrite nth_error_mid.
    unfold number_body. destruct (is_integer n);
      cbn [refcount body children fold_left Z.sub Z.eqb Z.add Z.opp Z.pos_sub];
      rewrite list_set_mid; reflexivity.
Qed.

Lemma json_decref_doc {P : Platform} (v : doc) (m : memory) h0 :
  nodes m = h0 ++ doc_cells (List.length h0) v ->
  json_decref (List.length h0) m =
  Ok (tt, set_nodes (h0 ++ repeat None (doc_size v)) m).
Proof.
  intros H. unfold json_decref. rewrite H.
  pose proof (@decref_doc P v (S (List.length (h0 ++ doc_cells (List.length h0) v)))
                h0 []) as E.
  rewrite !app_nil_r in E. rewrite E; [reflexivity|].
  rewrite length_app, doc_cells_length. lia.
Qed.

(** [json_object_set_nocheck] with the value of the member that comes
    after the members [pre]: the object takes a reference to the value,
    and the value that the key held before is released. *)
Lemma json_object_set_member {P : Platform} h0 (pre : list (list piece * doc))
  (k : list piece) (x : doc) bd more (m : memory) :
  nodes m =
    h0 ++ Some {| refcount := 1;
                  body := JObject (member_addresses (List.length h0 + 1) pre) |}
       :: object_cells [] (List.length h0 + 1) pre ++
          Some {| refcount := 1; body := bd |} :: more ->
  allocs m = [] ->
  json_object_set_nocheck (List.length h0) (string_bytes k)
    (List.length h0 + 1 + members_size pre) m =
  Ok (0, set_nodes
           (h0 ++ Some {| refcount := 1;
                          body := JObject (member_addresses
                                             (List.length h0 + 1)
                                             (pre ++ [(k, x)])) |}
               :: object_cells [string_bytes k] (List.length h0 + 1) pre ++
                  Some {| refcount := 2; body := bd |} :: more) m).
Proof.
  intros H Hal. destruct m as [h bl al]. cbn [nodes allocs] in *.
  subst al h.
  set (b := (List.length h0 + 1)%nat).
  set (ms := member_addresses b pre).
  set (mid := object_cells [] b pre).
  unfold json_object_set_nocheck, bind, alloc_ok, gets, modify, ret.
  cbn [allocs nodes blocks]. rewrite nth_error_mid.
  set (h1 := h0 ++ Some {| refcount := 1; body := JObject ms |} :: mid).
  assert (E1 : (b + members_size pre)%nat = List.length h1).
  { unfold h1, mid, b. rewrite length_app. cbn [List.length].
    rewrite object_cells_length. lia. }
  rewrite E1.
  assert (E2 : h0 ++ Some {| refcount := 1; body := JObject ms |} :: mid ++
               Some {| refcount := 1; body := bd |} :: more =
               h1 ++ Some {| refcount := 1; body := bd |} :: more).
  { unfold h1. now rewrite <- app_assoc. }
  rewrite E2.
  rewrite (@json_incref_at h1 1 bd more
             {| nodes := h1 ++ Some {| refcount := 1; body := bd |} :: more;
                blocks := bl; allocs := [] |} eq_refl).
  rewrite member_addresses_app. fold b ms. rewrite E1.
  unfold assoc_set.
  destruct (assoc_find (string_bytes k) ms) as [old|] eqn:Hfind.
  - set (root := Some {| refcount := 1;
                         body := JObject (assoc_replace (string_bytes k)
                                            (List.length h1) ms) |}).
    unfold set_nodes. cbn [nodes blocks allocs]. unfold h1.
    rewrite <- app_assoc. cbn [app]. rewrite list_set_mid.
    unfold json_decref. cbn [nodes blocks allocs].
    change (1 + 1) with 2.
    assert (Eb : b = List.length (h0 ++ [root]))
      by (rewrite length_app; reflexivity).
    replace (h0 ++ root :: mid ++ Some {| refcount := 2; body := bd |}
                :: more)
      with ((h0 ++ [root]) ++ object_cells [] (List.length (h0 ++ [root])) pre
            ++ Some {| refcount := 2; body := bd |} :: more)
      by (rewrite <- Eb, <- app_assoc; reflexivity).
    rewrite (@release_member P _ (string_bytes k) pre [] (h0 ++ [root]) _ old).
    + rewrite <- Eb, <- app_assoc. reflexivity.
    + apply Forall_forall. intros m _ h2 more2 Hs. now apply decref_doc.
    + rewrite !length_app, object_cells_length. lia.
    + reflexivity.
    + rewrite <- Eb, <- member_addresses_find. exact Hfind.
  - unfold set_nodes. cbn [nodes blocks allocs]. unfold h1.
    rewrite <- app_assoc. cbn [app]. rewrite list_set_mid.
    rewrite object_cells_fresh; [reflexivity|].
    apply (last_address_none (string_bytes k) pre b).
    rewrite <- member_addresses_find. exact Hfind.
Qed.

Lemma object_cells_snoc {P : Platform} (b : nat)
  (pre : list (list piece * doc)) (k : list piece) (x : doc) :
  object_cells [] b (pre ++ [(k, x)]) =
  object_cells [string_bytes k] b pre ++ doc_cells (b + members_size pre) x.
Proof.
  rewrite object_cells_app. cbn [keys map fst app object_cells snd].
  now rewrite app_nil_r.
Qed.

(** ** The productions on their texts *)

Ltac line_arith :=
  repeat (rewrite ?newlines_app; cbn [newlines]; norm_ch;
          cbn [Z.eqb Pos.eqb]);
  lia.

Section Parsing.

Context {P : Platform} {D : Type}.
Variable view : D -> list Z.
Variable sp : nat -> list Z.
Hypothesis Hsp : forall i, forallb is_blank (sp i) = true.
Variable budget : nat.

Implicit Types s : @parst D.

Local Abbreviation parsed :=
  (fun v : doc => forall depth i, parses view sp budget depth i v).

(** One turn of the loop of [parse_array]: the element is parsed and
    appended. *)
Lemma parse_array_element d e i tail fuel s h0 done cs :
  parsed e -> doc_ok e = true ->
  (List.length (doc_text sp i e) < budget)%nat ->
  (List.length (doc_text sp i e) <= d)%nat ->
  delimited tail ->
  reading view (ls s) (doc_text sp i e ++ tail) ->
  payload_ok (ls s) -> allocs (mem (ls s)) = [] ->
  nodes (mem (ls s)) =
    h0 ++ Some {| refcount := 1; body := JArray done |} :: cs ->
  exists s1 s3,
    lexer (lex_scan budget) s = Ok (first_token e, s1) /\
    parse_array_loop budget (parse_value budget d) (S fuel) (List.length h0) s1 =
    (lexer (lex_scan budget) ;;
     tok <- cur_token ;;
     if negb (tok =? ch ",") then
       tok <- cur_token ;;
       if negb (tok =? ch "]") then
         parse_error "']' expected" ;;
         release_and_fail (List.length h0)
       else ret (Some (List.length h0))
     else
       lexer (lex_scan budget) ;;
       parse_array_loop budget (parse_value budget d) fuel (List.length h0)) s3 /\
    reading view (ls s3) tail /\
    nodes (mem (ls s3)) =
      h0 ++ Some {| refcount := 1;
                    body := JArray (done ++ [(List.length h0 + 1 +
                                              List.length cs)%nat]) |}
         :: cs ++ doc_cells (List.length h0 + 1 + List.length cs) e /\
    blocks (mem (ls s3)) - held (ls s3) = blocks (mem (ls s)) - held (ls s) /\
    allocs (mem (ls s3)) = [] /\ err s3 = err s /\ payload_ok (ls s3) /\
    line (lex (ls s3)) = line (lex (ls s)) + newlines (doc_text sp i e).
Proof.
  intros HQ Hok Hb Hd Htl Hr Hp Hal Hn.
  destruct (HQ d i s tail Hok Hb Hd (or_intror Htl) Hr Hp Hal)
    as (s1 & s2 & Hscan & Hpv & Hr2 & Hn2 & Hb2 & Hal2 & He2 & Hp2 & Ht2 & Hl2).
  assert (Ha : List.length (nodes (mem (ls s))) =
               (List.length h0 + 1 + List.length cs)%nat).
  { rewrite Hn, length_app. simpl. lia. }
  rewrite Ha in *.
  exists s1.
  destruct s2 as [[lx2 m2] e2]. cbn [ls lex mem err] in *.
  set (a := (List.length h0 + 1 + List.length cs)%nat) in *.
  assert (Hcells : doc_cells a e =
                   Some {| refcount := 1; body := doc_body (S a) e |} ::
                   tl (doc_cells a e)).
  { now destruct e. }
  assert (Hn2' : nodes m2 =
                 h0 ++ Some {| refcount := 1; body := JArray done |} :: cs ++
                 Some {| refcount := 1; body := doc_body (S a) e |} ::
                 tl (doc_cells a e)).
  { rewrite Hn2, Hn, <- Hcells. now list_norm. }
  pose proof (json_array_append_child _ _ _ _ _ _ m2 Hn2' Hal2) as Happ.
  fold a in Happ.
  set (n3 := h0 ++ _ :: cs ++ _ :: tl (doc_cells a e)) in Happ.
  assert (Hdec : json_decref a (set_nodes n3 m2) =
                 Ok (tt, set_nodes
                           (h0 ++ Some {| refcount := 1;
                                          body := JArray (done ++ [a]) |}
                               :: cs ++ doc_cells a e) (set_nodes n3 m2))).
  { rewrite Hcells.
    assert (E : a = List.length
                      (h0 ++ Some {| refcount := 1;
                                     body := JArray (done ++ [a]) |} :: cs)).
    { rewrite length_app. simpl. unfold a. lia. }
    rewrite E at 1.
    rewrite (@json_decref_shared _ (doc_body (S a) e) (tl (doc_cells a e))).
    - f_equal. f_equal. f_equal. now list_norm.
    - unfold n3. cbn [nodes set_nodes]. now list_norm. }
  eexists. split; [exact Hscan|]. split.
  { cbn [parse_array_loop].
    rewrite (bind_ok _ _ _ (cur_token_after_scan _ _ Hscan)).
    rewrite (eqb_false (not_eq_sym (Z.lt_neq _ _ (first_token_positive e)))).
    rewrite (bind_ok _ _ _ Hpv).
    rewrite (bind_ok _ _ _
               (heap_ok _ {| ls := {| lex := lx2; mem := m2 |};
                             err := e2 |} Happ)).
    change (negb (0 =? 0)) with false. cbv iota.
    rewrite (bind_ok _ _ _ (heap_ok _ (with_mem _ _) Hdec)).
    reflexivity. }
  unfold with_mem. cbn [ls lex mem err nodes blocks allocs set_nodes].
  split; [exact Hr2|]. split; [reflexivity|].
  split; [exact Hb2|]. split; [exact Hal2|]. split; [exact He2|].
  split; [exact Hp2|]. exact Hl2.
Qed.


Lemma punctuation_step ws c rest s :
  forallb is_blank ws = true ->
  is_punctuation c = true -> (List.length ws < budget)%nat ->
  payload_ok (ls s) -> reading view (ls s) (ws ++ c :: rest) ->
  exists l,
    lexer (lex_scan budget) s = Ok (c, {| ls := l; err := err s |}) /\
    reading view l rest /\ token (lex l) = c /\
    line (lex l) = line (lex (ls s)) + newlines ws /\
    nodes (mem l) = nodes (mem (ls s)) /\
    allocs (mem l) = allocs (mem (ls s)) /\
    blocks (mem l) = blocks (mem (ls s)) - held (ls s).
Proof.
  intros Hws Hc Hb Hp Hr.
  destruct (@lex_scan_punctuation P D view ws c rest budget (ls s)
              Hws Hc Hb Hp Hr)
    as (l & Hscan & Hr' & _ & Ht & _ & Hl & Hm).
  exists l. split; [now apply lexer_ok|]. split; [exact Hr'|].
  split; [exact Ht|]. split; [exact Hl|]. rewrite Hm.
  split; [apply released_nodes|]. split; [apply released_allocs|].
  apply released_blocks.
Qed.

Lemma parse_array_loop_doc d : forall r e i fuel s rest h0 done cs,
  Forall parsed (e :: r) -> doc_ok (DArray (e :: r)) = true ->
  (List.length (doc_text sp i e ++ array_tail sp (i + tokens e) r)
   < budget)%nat ->
  (List.length (doc_text sp i e ++ array_tail sp (i + tokens e) r) <= d)%nat ->
  (List.length r < fuel)%nat ->
  reading view (ls s)
    (doc_text sp i e ++ array_tail sp (i + tokens e) r ++ rest) ->
  payload_ok (ls s) -> allocs (mem (ls s)) = [] ->
  nodes (mem (ls s)) =
    h0 ++ Some {| refcount := 1; body := JArray done |} :: cs ->
  exists s1 s2,
    lexer (lex_scan budget) s = Ok (first_token e, s1) /\
    parse_array_loop budget (parse_value budget d) fuel (List.length h0) s1
    = Ok (Some (List.length h0), s2) /\
    reading view (ls s2) rest /\
    nodes (mem (ls s2)) =
      h0 ++ Some {| refcount := 1;
                    body := JArray (done ++ addresses (List.length h0 + 1 +
                                                       List.length cs)
                                                      (e :: r)) |}
         :: cs ++ array_cells (List.length h0 + 1 + List.length cs) (e :: r) /\
    blocks (mem (ls s2)) = blocks (mem (ls s)) - held (ls s) /\
    allocs (mem (ls s2)) = [] /\ err s2 = err s /\
    token (lex (ls s2)) = ch "]" /\
    line (lex (ls s2)) =
      line (lex (ls s)) +
      newlines (doc_text sp i e ++ array_tail sp (i + tokens e) r).
Proof.
  induction r as [|e' r IH];
    intros e i fuel s rest h0 done cs HQ Hok Hb Hd Hf Hr Hp Hal Hn.
  - inversion HQ as [|? ? HQe _]; subst.
    change (doc_ok (DArray [e])) with (doc_ok e && true) in Hok.
    rewrite andb_true_r in Hok.
    destruct fuel as [|f]; [simpl in Hf; lia|].
    cbn [array_tail] in *. rewrite length_app in Hb, Hd.
    rewrite length_app in Hb. cbn [List.length] in Hb.
    destruct (@parse_array_element d e i
                ((sp (i + tokens e)%nat ++ [ch "]"]) ++ rest) f s h0 done cs
                HQe Hok ltac:(lia) ltac:(lia)
                ltac:(list_norm; now apply blanks_delimited) Hr Hp Hal Hn)
      as (s1 & s3 & Hscan & Hloop & Hr3 & Hn3 & Hb3 & Hal3 & He3 & Hp3 & Hl3).
    rewrite <- app_assoc in Hr3. cbn [app] in Hr3.
    destruct (@punctuation_step (sp (i + tokens e)%nat) (ch "]") rest s3
                (Hsp _) eq_refl ltac:(lia) Hp3 Hr3)
      as (l4 & Hscan4 & Hr4 & Ht4 & Hl4 & Hn4 & Hal4 & Hb4).
    exists s1. eexists. split; [exact Hscan|]. split.
    { rewrite Hloop. rewrite (bind_ok _ _ _ Hscan4).
      rewrite (bind_ok _ _ _ (cur_token_eq _ _)). rewrite Ht4.
      change (negb (ch "]" =? ch ",")) with true. cbv iota.
      rewrite (bind_ok _ _ _ (cur_token_eq _ _)). cbn [lex token]. rewrite Ht4.
      change (negb (ch "]" =? ch "]")) with false. cbv iota.
      reflexivity. }
    cbn [ls lex mem err token line].
    split; [exact Hr4|].
    split; [rewrite Hn4, Hn3; cbn [addresses array_cells]; now list_norm|].
    split; [lia|]. split; [congruence|]. split; [exact He3|].
    split; [exact Ht4|].
    rewrite Hl4, Hl3, !newlines_app. cbn [newlines].
    change (ch "]" =? 10) with false. cbv iota. lia.
  - inversion HQ as [|? ? HQe HQr]; subst.
    change (doc_ok (DArray (e :: e' :: r)))
      with (doc_ok e && doc_ok (DArray (e' :: r))) in Hok.
    apply andb_true_iff in Hok. destruct Hok as (Hoke & Hokr).
    destruct fuel as [|f]; [simpl in Hf; lia|].
    cbn [array_tail] in *. rewrite length_app in Hb, Hd.
    rewrite length_app in Hb, Hd. cbn [List.length] in Hb, Hd, Hf.
    destruct (@parse_array_element d e i
                ((sp (i + tokens e)%nat ++ ch "," ::
                  doc_text sp (S (i + tokens e)) e' ++
                  array_tail sp (S (i + tokens e) + tokens e') r) ++ rest)
                f s h0 done cs
                HQe Hoke ltac:(lia) ltac:(lia)
                ltac:(list_norm; now apply blanks_delimited) Hr Hp Hal Hn)
      as (s1 & s3 & Hscan & Hloop & Hr3 & Hn3 & Hb3 & Hal3 & He3 & Hp3 & Hl3).
    rewrite <- app_assoc in Hr3. cbn [app] in Hr3.
    destruct (@punctuation_step (sp (i + tokens e)%nat) (ch ",") _ s3 (Hsp _)
                eq_refl ltac:(lia) Hp3 Hr3)
      as (l4 & Hscan4 & Hr4 & Ht4 & Hl4 & Hn4 & Hal4 & Hb4).
    set (s4 := {| ls := {| lex := lex l4; mem := mem l4 |}; err := err s3 |}).
    set (a := (List.length h0 + 1 + List.length cs)%nat) in *.
    assert (Hcomma : token (lex (ls s4)) <> TOKEN_STRING)
      by (cbn; rewrite Ht4; discriminate).
    rewrite <- app_assoc in Hr4.
    edestruct (IH e' (S (i + tokens e)) f s4 rest h0 (done ++ [a])
                 (cs ++ doc_cells a e))
      as (s5 & s6 & Hscan5 & Hloop5 & Hr6 & Hn6 & Hb6 & Hal6 & He6 & Ht6 & Hl6);
      [exact HQr|exact Hokr|lia|lia|lia
      |exact Hr4|exact (@payload_ok_other _ _ Hcomma)|cbn; congruence
      |cbn; rewrite Hn4, Hn3; reflexivity|].
    exists s1, s6. split; [exact Hscan|]. split.
    { rewrite Hloop. rewrite (bind_ok _ _ _ Hscan4).
      rewrite (bind_ok _ _ _ (cur_token_eq _ _)). rewrite Ht4.
      change (negb (ch "," =? ch ",")) with false. cbv iota.
      fold s4. rewrite (bind_ok _ _ _ Hscan5). exact Hloop5. }
    split; [exact Hr6|].
    split.
    { rewrite Hn6. cbn [addresses array_cells].
      rewrite length_app, doc_cells_length.
      replace (List.length h0 + 1 + (List.length cs + doc_size e))%nat
        with (a + doc_size e)%nat by (unfold a; lia).
      now list_norm. }
    rewrite (@held_other _ _ Hcomma) in Hb6. cbn [ls lex mem err line] in *.
    unfold s4 in *. cbn [ls lex mem err line] in *.
    split; [lia|]. split; [exact Hal6|]. split; [congruence|].
    split; [exact Ht6|].
    rewrite Hl6, Hl4, Hl3, !newlines_app. cbn [newlines].
    change (ch "," =? 10) with false. cbv iota. rewrite !newlines_app. lia.
Qed.


Lemma string_step ws ps rest s :
  forallb is_blank ws = true ->
  string_ok ps = true ->
  (List.length ws + List.length ps < budget)%nat ->
  payload_ok (ls s) -> allocs (mem (ls s)) = [] ->
  reading view (ls s) (ws ++ literal_text ps ++ rest) ->
  exists l,
    lexer (lex_scan budget) s = Ok (TOKEN_STRING, {| ls := l; err := err s |}) /\
    reading view l rest /\ token (lex l) = TOKEN_STRING /\
    value (lex l) = VString (Some (string_bytes ps)) /\
    line (lex l) = line (lex (ls s)) + newlines ws /\
    nodes (mem l) = nodes (mem (ls s)) /\
    allocs (mem l) = [] /\
    blocks (mem l) = blocks (mem (ls s)) - held (ls s) + 1.
Proof.
  intros Hws Hok Hb Hp Hal Hr. unfold string_ok in Hok. bool_to_prop.
  assert (Hca : can_allocate (mem (ls s)))
    by (unfold can_allocate; now rewrite Hal).
  destruct (@lex_scan_string_token P D view ws ps rest budget (ls s)
              Hws H H1 H0 Hb Hp Hca Hr)
    as (l & Hscan & Hr' & _ & Ht & Hv & Hl & Hm).
  exists l. split; [now apply lexer_ok|]. split; [exact Hr'|].
  split; [exact Ht|]. split; [exact Hv|]. split; [exact Hl|]. rewrite Hm.
  unfold allocated. cbn [nodes allocs blocks].
  rewrite released_nodes, released_allocs, released_blocks, Hal.
  now repeat split.
Qed.

(** One turn of the loop of [parse_object]: the key, the colon, the
    value and the insertion. *)
Lemma parse_object_member d k x j tail fuel s h0 pre :
  parsed x -> string_ok k = true -> doc_ok x = true ->
  (List.length (member_text sp j (k, x)) < budget)%nat ->
  (List.length (member_text sp j (k, x)) <= d)%nat ->
  delimited tail ->
  reading view (ls s) (member_text sp j (k, x) ++ tail) ->
  payload_ok (ls s) -> allocs (mem (ls s)) = [] ->
  nodes (mem (ls s)) =
    h0 ++ Some {| refcount := 1;
                  body := JObject (member_addresses (List.length h0 + 1)
                                                    pre) |}
       :: object_cells [] (List.length h0 + 1) pre ->
  exists s1 s3,
    lexer (lex_scan budget) s = Ok (TOKEN_STRING, s1) /\
    parse_object_loop budget (parse_value budget d) (S fuel) (List.length h0) s1 =
    (lexer (lex_scan budget) ;;
     tok <- cur_token ;;
     if negb (tok =? ch ",") then
       if negb (tok =? ch "}") then
         parse_error "'}' expected" ;;
         release_and_fail (List.length h0)
       else ret (Some (List.length h0))
     else
       lexer (lex_scan budget) ;;
       parse_object_loop budget (parse_value budget d) fuel (List.length h0)) s3 /\
    reading view (ls s3) tail /\
    nodes (mem (ls s3)) =
      h0 ++ Some {| refcount := 1;
                    body := JObject (member_addresses (List.length h0 + 1)
                                                      (pre ++ [(k, x)])) |}
         :: object_cells [] (List.length h0 + 1) (pre ++ [(k, x)]) /\
    blocks (mem (ls s3)) - held (ls s3) = blocks (mem (ls s)) - held (ls s) /\
    allocs (mem (ls s3)) = [] /\ err s3 = err s /\ payload_ok (ls s3) /\
    line (lex (ls s3)) =
      line (lex (ls s)) + newlines (member_text sp j (k, x)).
Proof.
  intros HQ Hk Hok Hb Hd Htl Hr Hp Hal Hn.
  set (b := (List.length h0 + 1)%nat) in *.
  unfold member_text in Hb, Hd, Hr. cbn [fst snd] in Hb, Hd, Hr.
  repeat (rewrite length_app in Hb, Hd; cbn [List.length] in Hb, Hd).
  assert (Hkl : (List.length k <= List.length (literal_text k))%nat).
  { unfold literal_text. cbn [List.length]. rewrite length_app.
    unfold body_text. clear. induction k as [|p k IH]; [simpl; lia|].
    cbn [flat_map]. rewrite length_app. cbn [List.length] in *.
    destruct p; cbn [piece_text List.length]; lia. }
  repeat rewrite <- app_assoc in Hr. cbn [app] in Hr.
  (* the key *)
  destruct (@string_step (sp j) k _ s (Hsp _) Hk ltac:(lia) Hp Hal Hr)
    as ([lx1 m1] & Hscan1 & Hr1 & Ht1 & Hv1 & Hl1 & Hn1 & Hal1 & Hb1).
  cbn [lex mem] in *.
  set (s1 := {| ls := {| lex := lx1; mem := m1 |}; err := err s |}).
  (* strdup *)
  pose proof (heap_malloc_ok s1 Hal1) as Hdup.
  set (s2 := with_mem (allocated (mem (ls s1))) s1) in Hdup.
  (* the colon *)
  assert (Hp2 : payload_ok (ls s2)).
  { intros _. cbn. rewrite Hv1. now eexists. }
  assert (Hheld2 : held (ls s2) = 1).
  { unfold held. cbn. now rewrite Ht1, Hv1. }
  destruct (@punctuation_step (sp (S j)) (ch ":")
              (doc_text sp (S (S j)) x ++ tail) s2 (Hsp _) eq_refl
              ltac:(lia) Hp2 Hr1)
    as ([lx3 m3] & Hscan3 & Hr3 & Ht3 & Hl3 & Hn3 & Hal3 & Hb3).
  cbn [lex mem] in *.
  set (s3 := {| ls := {| lex := lx3; mem := m3 |}; err := err s2 |}) in *.
  assert (Hcolon : token (lex (ls s3)) <> TOKEN_STRING)
    by (cbn; rewrite Ht3; discriminate).
  assert (Hheld3 : held (ls s3) = 0) by exact (@held_other _ _ Hcolon).
  assert (Hb3' : blocks m3 = blocks m1).
  { rewrite Hb3, Hheld2. unfold s2, s1, with_mem, allocated. cbn. lia. }
  assert (Hal3' : allocs m3 = []).
  { rewrite Hal3. unfold s2, s1, with_mem, allocated. cbn. now rewrite Hal1. }
  (* the value *)
  destruct (HQ d (S (S j)) s3 tail Hok ltac:(lia) ltac:(lia)
              (or_intror Htl) Hr3
              (@payload_ok_other _ _ Hcolon) Hal3')
    as (s4 & [[lx5 m5] e5] & Hscan4 & Hpv & Hr5 & Hn5 & Hb5 & Hal5 & He5
        & Hp5 & Ht5 & Hl5).
  cbn [s3 s2 s1 with_mem allocated ls lex mem err nodes blocks allocs] in *.
  assert (Ha : List.length (nodes m3) = (b + members_size pre)%nat).
  { rewrite Hn3, Hn1, Hn, length_app. cbn [List.length].
    rewrite object_cells_length. unfold b. lia. }
  rewrite Ha in *.
  set (a := (b + members_size pre)%nat) in *.
  assert (Hcells : doc_cells a x =
                   Some {| refcount := 1; body := doc_body (S a) x |} ::
                   tl (doc_cells a x)).
  { now destruct x. }
  assert (Hn5' : nodes m5 =
                 h0 ++ Some {| refcount := 1;
                               body := JObject (member_addresses b pre) |}
                    :: object_cells [] b pre ++
                 Some {| refcount := 1; body := doc_body (S a) x |} ::
                 tl (doc_cells a x)).
  { rewrite Hn5, Hn3, Hn1, Hn, <- Hcells. now list_norm. }
  pose proof (@json_object_set_member P h0 pre k x _ _ m5 Hn5' Hal5) as Hset.
  fold b a in Hset.
  set (n6 := h0 ++ _ :: object_cells [string_bytes k] b pre ++
             _ :: tl (doc_cells a x)) in Hset.
  assert (Hdec : json_decref a (set_nodes n6 m5) =
                 Ok (tt, set_nodes
                           (h0 ++ Some {| refcount := 1;
                                          body := JObject
                                            (member_addresses b
                                               (pre ++ [(k, x)])) |}
                               :: object_cells [] b (pre ++ [(k, x)]))
                           (set_nodes n6 m5))).
  { rewrite object_cells_snoc. fold a. rewrite Hcells.
    assert (E : a = List.length
                      (h0 ++ Some {| refcount := 1;
                                     body := JObject
                                       (member_addresses b
                                          (pre ++ [(k, x)])) |}
                          :: object_cells [string_bytes k] b pre)).
    { rewrite length_app. cbn [List.length]. rewrite object_cells_length.
      unfold a, b. lia. }
    rewrite E at 1.
    rewrite (@json_decref_shared _ (doc_body (S a) x) (tl (doc_cells a x))).
    - f_equal. f_equal. f_equal. now list_norm.
    - unfold n6. cbn [nodes set_nodes]. now list_norm. }
  exists s1. eexists. split; [exact Hscan1|]. split.
  { cbn [parse_object_loop]. unfold s1.
    rewrite (bind_ok _ _ _ (cur_token_eq _ _)). cbn [lex token]. rewrite Ht1.
    change (negb (TOKEN_STRING =? TOKEN_STRING)) with false. cbv iota.
    unfold bind at 1, lexer at 1, on_lex at 1, gets at 1.
    cbn [ls lex mem err value]. rewrite Hv1.
    rewrite (bind_ok _ _ _ Hdup).
    cbn [negb]. cbv iota.
    rewrite (bind_ok _ _ _ Hscan3).
    rewrite (bind_ok _ _ _ (cur_token_after_scan _ _ Hscan3)).
    change (negb (ch ":" =? ch ":")) with false. cbv iota.
    rewrite (bind_ok _ _ _ Hscan4).
    rewrite (bind_ok _ _ _ Hpv).
    rewrite (bind_ok _ _ _
               (heap_ok _ {| ls := {| lex := lx5; mem := m5 |};
                             err := e5 |} Hset)).
    change (negb (0 =? 0)) with false. cbv iota.
    rewrite (bind_ok _ _ _ (heap_ok _ (with_mem _ _) Hdec)).
    unfold bind at 1, heap at 1, lexer at 1, on_mem at 1, free at 1,
      modify at 1.
    reflexivity. }
  unfold with_mem.
  cbn [ls lex mem err nodes blocks allocs set_nodes set_blocks].
  split; [exact Hr5|]. split; [reflexivity|].
  split; [rewrite Hheld3 in Hb5; unfold held in *; cbn [lex] in *; lia|].
  split; [exact Hal5|]. split; [exact He5|].
  split; [exact Hp5|].
  rewrite Hl5. cbn [ls lex]. rewrite Hl3. cbn [ls lex]. rewrite Hl1.
  unfold member_text. cbn [fst snd]. rewrite !newlines_app.
  cbn [newlines]. rewrite (literal_text_no_newline k Hk).
  change (ch ":" =? 10) with false. cbv iota. lia.
Qed.


Lemma parse_object_loop_doc d : forall r m j fuel s rest h0 pre,
  Forall (fun m => parsed (snd m)) (m :: r) ->
  forallb (fun m => string_ok (fst m) && doc_ok (snd m)) (m :: r) = true ->
  (List.length (member_text sp j m ++
                object_tail sp (S (S j) + tokens (snd m)) r) < budget)%nat ->
  (List.length (member_text sp j m ++
                object_tail sp (S (S j) + tokens (snd m)) r) <= d)%nat ->
  (List.length r < fuel)%nat ->
  reading view (ls s)
    (member_text sp j m ++ object_tail sp (S (S j) + tokens (snd m)) r ++
     rest) ->
  payload_ok (ls s) -> allocs (mem (ls s)) = [] ->
  nodes (mem (ls s)) =
    h0 ++ Some {| refcount := 1;
                  body := JObject (member_addresses (List.length h0 + 1)
                                                    pre) |}
       :: object_cells [] (List.length h0 + 1) pre ->
  exists s1 s2,
    lexer (lex_scan budget) s = Ok (TOKEN_STRING, s1) /\
    parse_object_loop budget (parse_value budget d) fuel (List.length h0) s1
    = Ok (Some (List.length h0), s2) /\
    reading view (ls s2) rest /\
    nodes (mem (ls s2)) =
      h0 ++ Some {| refcount := 1;
                    body := JObject (member_addresses (List.length h0 + 1)
                                                      (pre ++ m :: r)) |}
         :: object_cells [] (List.length h0 + 1) (pre ++ m :: r) /\
    blocks (mem (ls s2)) = blocks (mem (ls s)) - held (ls s) /\
    allocs (mem (ls s2)) = [] /\ err s2 = err s /\
    token (lex (ls s2)) = ch "}" /\
    line (lex (ls s2)) =
      line (lex (ls s)) +
      newlines (member_text sp j m ++
                object_tail sp (S (S j) + tokens (snd m)) r).
Proof.
  induction r as [|m' r IH];
    intros [k x] j fuel s rest h0 pre HQ Hok Hb Hd Hf Hr Hp Hal Hn;
    cbn [snd] in Hb, Hd, Hr |- *.
  - inversion HQ as [|? ? HQx _]; subst. cbn [snd] in HQx.
    cbn [forallb fst snd] in Hok. rewrite andb_true_r in Hok.
    apply andb_true_iff in Hok. destruct Hok as (Hk & Hokx).
    destruct fuel as [|f]; [simpl in Hf; lia|].
    cbn [object_tail] in *. rewrite length_app in Hb, Hd.
    rewrite length_app in Hb. cbn [List.length] in Hb.
    destruct (@parse_object_member d k x j
                ((sp (S (S j) + tokens x)%nat ++ [ch "}"]) ++ rest) f s h0
                pre HQx Hk Hokx ltac:(lia) ltac:(lia)
                ltac:(list_norm; now apply blanks_delimited) Hr Hp Hal Hn)
      as (s1 & s3 & Hscan & Hloop & Hr3 & Hn3 & Hb3 & Hal3 & He3 & Hp3 & Hl3).
    rewrite <- app_assoc in Hr3. cbn [app] in Hr3.
    destruct (@punctuation_step (sp (S (S j) + tokens x)%nat) (ch "}") rest s3
                (Hsp _) eq_refl ltac:(lia) Hp3 Hr3)
      as (l4 & Hscan4 & Hr4 & Ht4 & Hl4 & Hn4 & Hal4 & Hb4).
    exists s1. eexists. split; [exact Hscan|]. split.
    { rewrite Hloop. rewrite (bind_ok _ _ _ Hscan4).
      rewrite (bind_ok _ _ _ (cur_token_eq _ _)). rewrite Ht4.
      change (negb (ch "}" =? ch ",")) with true. cbv iota.
      change (negb (ch "}" =? ch "}")) with false. cbv iota.
      reflexivity. }
    cbn [ls lex mem err token line].
    split; [exact Hr4|].
    split; [rewrite Hn4, Hn3; reflexivity|].
    split; [lia|]. split; [congruence|]. split; [exact He3|].
    split; [exact Ht4|].
    rewrite Hl4, Hl3, !newlines_app. cbn [newlines].
    change (ch "}" =? 10) with false. cbv iota. lia.
  - inversion HQ as [|? ? HQx HQr]; subst. cbn [snd] in HQx.
    cbn [forallb] in Hok. apply andb_true_iff in Hok.
    destruct Hok as (Hok & Hokr). cbn [fst snd] in Hok.
    apply andb_true_iff in Hok. destruct Hok as (Hk & Hokx).
    destruct fuel as [|f]; [simpl in Hf; lia|].
    cbn [object_tail] in *. rewrite length_app in Hb, Hd.
    rewrite length_app in Hb, Hd. cbn [List.length] in Hb, Hd, Hf.
    destruct (@parse_object_member d k x j
                ((sp (S (S j) + tokens x)%nat ++ ch "," ::
                  member_text sp (S (S (S j) + tokens x)) m' ++
                  object_tail sp (S (S (S (S (S j) + tokens x))) +
                                  tokens (snd m')) r) ++ rest)
                f s h0 pre HQx Hk Hokx ltac:(lia) ltac:(lia)
                ltac:(list_norm; now apply blanks_delimited) Hr Hp Hal Hn)
      as (s1 & s3 & Hscan & Hloop & Hr3 & Hn3 & Hb3 & Hal3 & He3 & Hp3 & Hl3).
    rewrite <- app_assoc in Hr3. cbn [app] in Hr3.
    destruct (@punctuation_step (sp (S (S j) + tokens x)%nat) (ch ",") _ s3
                (Hsp _) eq_refl ltac:(lia) Hp3 Hr3)
      as (l4 & Hscan4 & Hr4 & Ht4 & Hl4 & Hn4 & Hal4 & Hb4).
    set (s4 := {| ls := {| lex := lex l4; mem := mem l4 |}; err := err s3 |}).
    assert (Hcomma : token (lex (ls s4)) <> TOKEN_STRING)
      by (cbn; rewrite Ht4; discriminate).
    rewrite <- app_assoc in Hr4.
    edestruct (IH m' (S (S (S j) + tokens x)) f s4 rest h0
                 (pre ++ [(k, x)]))
      as (s5 & s6 & Hscan5 & Hloop5 & Hr6 & Hn6 & Hb6 & Hal6 & He6 & Ht6 & Hl6);
      [exact HQr|exact Hokr|lia|lia|lia
      |exact Hr4|exact (@payload_ok_other _ _ Hcomma)|cbn; congruence
      |cbn; rewrite Hn4, Hn3; reflexivity|].
    exists s1, s6. split; [exact Hscan|]. split.
    { rewrite Hloop. rewrite (bind_ok _ _ _ Hscan4).
      rewrite (bind_ok _ _ _ (cur_token_eq _ _)). rewrite Ht4.
      change (negb (ch "," =? ch ",")) with false. cbv iota.
      fold s4. rewrite (bind_ok _ _ _ Hscan5). exact Hloop5. }
    split; [exact Hr6|].
    split; [rewrite Hn6, <- app_assoc; reflexivity|].
    rewrite (@held_other _ _ Hcomma) in Hb6. cbn [ls lex mem err line] in *.
    unfold s4 in *. cbn [ls lex mem err line] in *.
    split; [lia|]. split; [exact Hal6|]. split; [congruence|].
    split; [exact Ht6|].
    rewrite Hl6, Hl4, Hl3, !newlines_app. cbn [newlines].
    change (ch "," =? 10) with false. cbv iota. rewrite !newlines_app. lia.
Qed.


Lemma heap_new_ok (b : json_body) s :
  allocs (mem (ls s)) = [] ->
  heap (json_new b) s =
  Ok (Some (List.length (nodes (mem (ls s)))),
      with_mem (set_nodes (nodes (mem (ls s)) ++
                           [Some {| refcount := 1; body := b |}])
                          (mem (ls s))) s).
Proof. intros H. apply heap_ok. now apply json_new_fresh. Qed.

(** [parse_value] on the token of a scalar. *)
Lemma parse_value_scalar d (l : @lexst D) e (b : json_body) :
  match value (lex l) with
  | VString (Some t) => token (lex l) = TOKEN_STRING /\ b = JString t
  | VInteger i => token (lex l) = TOKEN_INTEGER /\ b = JInteger i
  | VReal r => token (lex l) = TOKEN_REAL /\ b = JReal r
  | _ => False
  end \/
  (token (lex l) = TOKEN_TRUE /\ b = JTrue) \/
  (token (lex l) = TOKEN_FALSE /\ b = JFalse) \/
  (token (lex l) = TOKEN_NULL /\ b = JNull) ->
  parse_value budget (S d) {| ls := l; err := e |} =
  heap (json_new b) {| ls := {| lex := lex l; mem := mem l |}; err := e |}.
Proof.
  intros H. cbn [parse_value]. unfold parse_value_body.
  rewrite (bind_ok _ _ _ (cur_token_eq _ _)).
  unfold bind at 1, lexer at 1, on_lex at 1, gets at 1. cbn [ls lex mem err].
  destruct H as [H|[(Ht & ->)|[(Ht & ->)|(Ht & ->)]]];
    [|rewrite Ht; reflexivity..].
  destruct (value (lex l)) as [|[t|]|i|r]; try contradiction;
    destruct H as (Ht & ->); rewrite Ht; reflexivity.
Qed.

Lemma parse_string_doc ps : parsed (DString ps).
Proof.
  intros depth i s rest Hok Hb Hd _ Hr Hp Hal.
  cbn [doc_text doc_ok] in *. rewrite length_app in Hb, Hd.
  destruct depth as [|d].
  { unfold literal_text in Hd. cbn [List.length] in Hd. lia. }
  assert (Hkl : (List.length ps <= List.length (literal_text ps))%nat).
  { unfold literal_text. cbn [List.length]. rewrite length_app.
    unfold body_text. clear. induction ps as [|p k IH]; [simpl; lia|].
    cbn [flat_map]. rewrite length_app. cbn [List.length] in *.
    destruct p; cbn [piece_text List.length]; lia. }
  rewrite <- app_assoc in Hr.
  destruct (@string_step (sp i) ps rest s (Hsp _) Hok ltac:(lia) Hp Hal Hr)
    as (l & Hscan & Hr1 & Ht1 & Hv1 & Hl1 & Hn1 & Hal1 & Hb1).
  eexists. eexists. split; [exact Hscan|]. split.
  { rewrite (@parse_value_scalar d l (err s) (JString (string_bytes ps))).
    - rewrite heap_new_ok by exact Hal1. cbn [ls mem]. rewrite Hn1.
      reflexivity.
    - left. rewrite Hv1. now split. }
  unfold with_mem. cbn [ls lex mem err nodes blocks allocs set_nodes].
  split; [eapply reading_stream; [|exact Hr1]; reflexivity|].
  split; [reflexivity|].
  split; [unfold held at 1; cbn [lex]; rewrite Ht1, Hv1; cbn; lia|].
  split; [exact Hal1|]. split; [reflexivity|].
  split; [intros _; cbn; rewrite Hv1; now eexists|].
  split; [exact Ht1|].
  rewrite Hl1, newlines_app, (literal_text_no_newline ps Hok). lia.
Qed.

Lemma parse_number_doc n : parsed (DNumber n).
Proof.
  intros depth i s rest Hok Hb Hd Hdel Hr Hp Hal.
  destruct Hdel as [Hc|Hdel]; [discriminate|].
  destruct rest as [|x rest]; [contradiction|]. cbn [delimited] in Hdel.
  destruct (delimiter_inv _ Hdel) as (Hx & _).
  cbn [doc_text doc_ok] in *. rewrite length_app in Hb, Hd.
  destruct depth as [|d].
  { destruct (number_first_char n Hok) as (c & t & Ht & _).
    rewrite Ht in Hd. cbn [List.length] in Hd. lia. }
  rewrite <- app_assoc in Hr.
  destruct (@lex_scan_number_blanks P D view (sp i) n x rest budget (ls s)
              (Hsp _) Hok Hx ltac:(lia) Hp Hr)
    as (l & Hscan & Hr1 & _ & Ht1 & Hv1 & Hl1 & Hm1).
  assert (Hal1 : allocs (mem l) = [])
    by (rewrite Hm1, released_allocs; exact Hal).
  assert (Hn1 : nodes (mem l) = nodes (mem (ls s)))
    by (rewrite Hm1; apply released_nodes).
  assert (Hnot : token (lex l) <> TOKEN_STRING)
    by (rewrite Ht1; destruct (is_integer n); discriminate).
  eexists. eexists. split; [exact (lexer_ok _ _ Hscan)|]. split.
  { rewrite (@parse_value_scalar d l (err s) (number_body n)).
    - rewrite heap_new_ok by exact Hal1. cbn [ls mem]. rewrite Hn1.
      reflexivity.
    - left. rewrite Hv1, Ht1. unfold number_body.
      destruct (is_integer n); now split. }
  unfold with_mem. cbn [ls lex mem err nodes blocks allocs set_nodes].
  split; [eapply reading_stream; [|exact Hr1]; reflexivity|].
  split; [reflexivity|].
  split; [unfold held at 1; cbn [lex]; rewrite (eqb_false Hnot);
          rewrite Hm1, released_blocks; lia|].
  split; [exact Hal1|]. split; [reflexivity|].
  split; [intros Ht; cbn in Ht; contradiction|].
  split; [exact Ht1|].
  rewrite Hl1, newlines_app,
    (newlines_none _ (number_text_no_newline n Hok)). lia.
Qed.

Lemma parse_word_doc (v : doc) (b : json_body) (w : string) :
  (v = DTrue /\ b = JTrue /\ w = "true"%string) \/
  (v = DFalse /\ b = JFalse /\ w = "false"%string) \/
  (v = DNull /\ b = JNull /\ w = "null"%string) ->
  parsed v.
Proof.
  intros Hv depth i s rest Hok Hb Hd Hdel Hr Hp Hal.
  assert (Hw : doc_text sp i v = sp i ++ bytes_of_string w /\
               doc_cells (List.length (nodes (mem (ls s)))) v =
               [Some {| refcount := 1; body := b |}] /\
               is_container v = false /\
               exists c cs, bytes_of_string w = c :: cs /\
                            forallb is_letter (c :: cs) = true /\
                            word_token (c :: cs) = first_token v /\
                            last_token v = first_token v /\
                            newlines (c :: cs) = 0 /\
                            (List.length cs < 5)%nat /\
                            ((first_token v = TOKEN_TRUE /\ b = JTrue) \/
                             (first_token v = TOKEN_FALSE /\ b = JFalse) \/
                             (first_token v = TOKEN_NULL /\ b = JNull))).
  { destruct Hv as [(-> & -> & ->)|[(-> & -> & ->)|(-> & -> & ->)]];
      (split; [reflexivity|]); (split; [reflexivity|]);
      (split; [reflexivity|]); eexists; eexists;
      (split; [reflexivity|]); (split; [reflexivity|]);
      (split; [reflexivity|]); (split; [reflexivity|]);
      (split; [reflexivity|]); (split; [simpl; lia|]); tauto. }
  destruct Hw as (Htext & Hcells & Hnc & c & cs & Hbytes & Hlet & Htok & Hlast
                  & Hnl & Hlen & Hbody).
  rewrite Hnc in Hdel. destruct Hdel as [Hc|Hdel]; [discriminate|].
  destruct rest as [|x rest]; [contradiction|]. cbn [delimited] in Hdel.
  destruct (delimiter_inv _ Hdel) as (_ & Hax & Hx).
  rewrite Htext, Hbytes in *. rewrite length_app in Hb, Hd.
  cbn [List.length] in Hb, Hd.
  destruct depth as [|d]; [lia|].
  rewrite <- app_assoc in Hr.
  destruct (@lex_scan_word P D view (sp i) c cs x rest budget (ls s)
              (Hsp _) Hlet Hx Hax ltac:(lia) Hp Hr)
    as (l & Hscan & Hr1 & _ & Ht1 & _ & Hl1 & Hm1).
  rewrite Htok in Hscan, Ht1.
  assert (Hal1 : allocs (mem l) = [])
    by (rewrite Hm1, released_allocs; exact Hal).
  assert (Hn1 : nodes (mem l) = nodes (mem (ls s)))
    by (rewrite Hm1; apply released_nodes).
  assert (Hnot : token (lex l) <> TOKEN_STRING).
  { rewrite Ht1. destruct Hbody as [(-> & _)|[(-> & _)|(-> & _)]];
      discriminate. }
  eexists. eexists. split; [exact (lexer_ok _ _ Hscan)|]. split.
  { rewrite (@parse_value_scalar d l (err s) b).
    - rewrite heap_new_ok by exact Hal1. cbn [ls mem]. rewrite Hn1.
      reflexivity.
    - right. rewrite Ht1. exact Hbody. }
  unfold with_mem. cbn [ls lex mem err nodes blocks allocs set_nodes].
  split; [eapply reading_stream; [|exact Hr1]; reflexivity|].
  split; [now rewrite Hcells|].
  split; [unfold held at 1; cbn [lex]; rewrite (eqb_false Hnot);
          rewrite Hm1, released_blocks; lia|].
  split; [exact Hal1|]. split; [reflexivity|].
  split; [intros Ht; cbn in Ht; contradiction|].
  split; [now rewrite Hlast|].
  rewrite Hl1, newlines_app, Hnl. lia.
Qed.


Lemma parse_array_doc es : Forall parsed es -> parsed (DArray es).
Proof.
  intros HQ depth i s rest Hok Hb Hd _ Hr Hp Hal.
  destruct depth as [|d].
  { cbn [doc_text] in Hd. rewrite length_app in Hd. cbn [List.length] in Hd.
    lia. }
  assert (Hbsp : (List.length (sp i) < budget)%nat).
  { cbn [doc_text] in Hb. rewrite length_app in Hb. lia. }
  assert (Hr0 : exists body,
             doc_text sp i (DArray es) = sp i ++ ch "[" :: body /\
             body = match es with
                    | [] => sp (S i) ++ [ch "]"]
                    | e :: r =>
                        doc_text sp (S i) e ++
                        array_tail sp (S i + tokens e) r
                    end).
  { eexists. split; [|reflexivity].
    destruct es as [|e r]; [reflexivity|]. apply doc_text_array. }
  destruct Hr0 as (body & Htext & Hbody).
  rewrite Htext in Hr, Hb, Hd |- *. rewrite <- app_assoc in Hr.
  cbn [app] in Hr. rewrite length_app in Hb, Hd. cbn [List.length] in Hb, Hd.
  destruct (@punctuation_step (sp i) (ch "[") (body ++ rest) s (Hsp _)
              eq_refl Hbsp Hp Hr)
    as (l1 & Hscan1 & Hr1 & Ht1 & Hl1 & Hn1 & Hal1 & Hb1).
  rewrite Hal in Hal1.
  pose proof (proj2 (proj2 (proj2 (parse_json_container_check _ _ Hscan1))
                           eq_refl) d) as Hpv.
  set (s1 := {| ls := l1; err := err s |}) in *.
  pose proof (heap_new_ok (JArray []) s1 Hal1) as Hnew.
  cbn [s1 ls] in Hnew. rewrite Hn1 in Hnew.
  set (s2 := with_mem _ s1) in Hnew.
  assert (Hnot2 : token (lex (ls s2)) <> TOKEN_STRING)
    by (cbn; rewrite Ht1; discriminate).
  assert (Hrs : forall cs, reading view l1 cs -> reading view (ls s2) cs).
  { intros cs H. eapply reading_stream; [|exact H]. reflexivity. }
  exists s1.
  destruct es as [|e r]; subst body.
  - rewrite <- app_assoc in Hr1. cbn [app] in Hr1.
    rewrite length_app in Hb.
    destruct (@punctuation_step (sp (S i)) (ch "]") rest s2 (Hsp _) eq_refl
                ltac:(lia) (@payload_ok_other _ _ Hnot2) (Hrs _ Hr1))
      as (l3 & Hscan3 & Hr3 & Ht3 & Hl3 & Hn3 & Hal3 & Hb3).
    eexists. split; [exact Hscan1|]. split.
    { rewrite Hpv. unfold parse_array. rewrite (bind_ok _ _ _ Hnew).
      rewrite (bind_ok _ _ _ Hscan3).
      rewrite (bind_ok _ _ _ (cur_token_eq _ _)). rewrite Ht3.
      change (ch "]" =? ch "]") with true. cbv iota. reflexivity. }
    cbn [ls lex mem err].
    assert (Hnot3 : token (lex l3) <> TOKEN_STRING)
      by (rewrite Ht3; discriminate).
    split; [eapply reading_stream; [|exact Hr3]; reflexivity|].
    split; [rewrite Hn3; reflexivity|].
    split.
    { unfold held at 1. cbn [lex]. rewrite (eqb_false Hnot3).
      rewrite Hb3, (@held_other _ _ Hnot2). cbn. rewrite Hb1. lia. }
    split; [rewrite Hal3; exact Hal1|]. split; [reflexivity|].
    split; [intros Ht; cbn in Ht; contradiction|].
    split; [exact Ht3|].
    rewrite Hl3. cbn [s2 s1 with_mem ls lex]. rewrite Hl1. line_arith.
  - rewrite <- app_assoc in Hr1.
    rewrite doc_ok_array in Hok.
    destruct (@parse_array_loop_doc d r e (S i) budget s2 rest
                (nodes (mem (ls s))) [] [] HQ
                ltac:(now rewrite doc_ok_array) ltac:(lia) ltac:(lia)
                ltac:(pose proof (array_tail_length sp r (S i + tokens e));
                      rewrite length_app in Hb; lia)
                (Hrs _ Hr1) (@payload_ok_other _ _ Hnot2) Hal1 eq_refl)
      as (s3 & s4 & Hscan3 & Hloop & Hr4 & Hn4 & Hb4 & Hal4 & He4 & Ht4 & Hl4).
    exists s4. split; [exact Hscan1|]. split.
    { rewrite Hpv. unfold parse_array. rewrite (bind_ok _ _ _ Hnew).
      rewrite (bind_ok _ _ _ Hscan3).
      rewrite (bind_ok _ _ _ (cur_token_after_scan _ _ Hscan3)).
      rewrite (eqb_false (proj1 (first_token_not_close e))).
      exact Hloop. }
    assert (Hnot4 : token (lex (ls s4)) <> TOKEN_STRING)
      by (rewrite Ht4; discriminate).
    split; [exact Hr4|].
    split.
    { rewrite Hn4, doc_cells_array. cbn [app List.length].
      now replace (List.length (nodes (mem (ls s))) + 1 + 0)%nat
        with (S (List.length (nodes (mem (ls s))))) by lia. }
    split.
    { rewrite (@held_other _ _ Hnot4), Hb4, (@held_other _ _ Hnot2).
      cbn. rewrite Hb1. lia. }
    split; [exact Hal4|]. split; [rewrite He4; reflexivity|].
    split; [exact (@payload_ok_other _ _ Hnot4)|].
    split; [exact Ht4|].
    rewrite Hl4. cbn [s2 s1 with_mem ls lex]. rewrite Hl1. line_arith.
Qed.

Lemma parse_object_doc ms :
  Forall (fun m => parsed (snd m)) ms -> parsed (DObject ms).
Proof.
  intros HQ depth i s rest Hok Hb Hd _ Hr Hp Hal.
  destruct depth as [|d].
  { cbn [doc_text] in Hd. rewrite length_app in Hd. cbn [List.length] in Hd.
    lia. }
  assert (Hbsp : (List.length (sp i) < budget)%nat).
  { cbn [doc_text] in Hb. rewrite length_app in Hb. lia. }
  assert (Hr0 : exists body,
             doc_text sp i (DObject ms) = sp i ++ ch "{" :: body /\
             body = match ms with
                    | [] => sp (S i) ++ [ch "}"]
                    | m :: r =>
                        member_text sp (S i) m ++
                        object_tail sp (S (S (S i)) + tokens (snd m)) r
                    end).
  { eexists. split; [|reflexivity].
    destruct ms as [|m r]; [reflexivity|]. apply doc_text_object. }
  destruct Hr0 as (body & Htext & Hbody).
  rewrite Htext in Hr, Hb, Hd |- *. rewrite <- app_assoc in Hr.
  cbn [app] in Hr. rewrite length_app in Hb, Hd. cbn [List.length] in Hb, Hd.
  destruct (@punctuation_step (sp i) (ch "{") (body ++ rest) s (Hsp _)
              eq_refl Hbsp Hp Hr)
    as (l1 & Hscan1 & Hr1 & Ht1 & Hl1 & Hn1 & Hal1 & Hb1).
  rewrite Hal in Hal1.
  pose proof (proj2 (proj1 (proj2 (parse_json_container_check _ _ Hscan1))
                           eq_refl) d) as Hpv.
  set (s1 := {| ls := l1; err := err s |}) in *.
  pose proof (heap_new_ok (JObject []) s1 Hal1) as Hnew.
  cbn [s1 ls] in Hnew. rewrite Hn1 in Hnew.
  set (s2 := with_mem _ s1) in Hnew.
  assert (Hnot2 : token (lex (ls s2)) <> TOKEN_STRING)
    by (cbn; rewrite Ht1; discriminate).
  assert (Hrs : forall cs, reading view l1 cs -> reading view (ls s2) cs).
  { intros cs H. eapply reading_stream; [|exact H]. reflexivity. }
  exists s1.
  destruct ms as [|m r]; subst body.
  - rewrite <- app_assoc in Hr1. cbn [app] in Hr1.
    rewrite length_app in Hb.
    destruct (@punctuation_step (sp (S i)) (ch "}") rest s2 (Hsp _) eq_refl
                ltac:(lia) (@payload_ok_other _ _ Hnot2) (Hrs _ Hr1))
      as (l3 & Hscan3 & Hr3 & Ht3 & Hl3 & Hn3 & Hal3 & Hb3).
    eexists. split; [exact Hscan1|]. split.
    { rewrite Hpv. unfold parse_object. rewrite (bind_ok _ _ _ Hnew).
      rewrite (bind_ok _ _ _ Hscan3).
      rewrite (bind_ok _ _ _ (cur_token_eq _ _)). rewrite Ht3.
      change (ch "}" =? ch "}") with true. cbv iota. reflexivity. }
    cbn [ls lex mem err].
    assert (Hnot3 : token (lex l3) <> TOKEN_STRING)
      by (rewrite Ht3; discriminate).
    split; [eapply reading_stream; [|exact Hr3]; reflexivity|].
    split; [rewrite Hn3; reflexivity|].
    split.
    { unfold held at 1. cbn [lex]. rewrite (eqb_false Hnot3).
      rewrite Hb3, (@held_other _ _ Hnot2). cbn. rewrite Hb1. lia. }
    split; [rewrite Hal3; exact Hal1|]. split; [reflexivity|].
    split; [intros Ht; cbn in Ht; contradiction|].
    split; [exact Ht3|].
    rewrite Hl3. cbn [s2 s1 with_mem ls lex]. rewrite Hl1. line_arith.
  - rewrite <- app_assoc in Hr1.
    rewrite doc_ok_object in Hok.
    destruct (@parse_object_loop_doc d r m (S i) budget s2 rest
                (nodes (mem (ls s))) [] HQ Hok ltac:(lia) ltac:(lia)
                ltac:(pose proof (object_tail_length sp r
                                    (S (S (S i)) + tokens (snd m)));
                      rewrite length_app in Hb; lia)
                (Hrs _ Hr1) (@payload_ok_other _ _ Hnot2) Hal1 eq_refl)
      as (s3 & s4 & Hscan3 & Hloop & Hr4 & Hn4 & Hb4 & Hal4 & He4 & Ht4 & Hl4).
    exists s4. split; [exact Hscan1|]. split.
    { rewrite Hpv. unfold parse_object. rewrite (bind_ok _ _ _ Hnew).
      rewrite (bind_ok _ _ _ Hscan3).
      rewrite (bind_ok _ _ _ (cur_token_after_scan _ _ Hscan3)).
      change (TOKEN_STRING =? ch "}") with false. cbv iota.
      exact Hloop. }
    assert (Hnot4 : token (lex (ls s4)) <> TOKEN_STRING)
      by (rewrite Ht4; discriminate).
    split; [exact Hr4|].
    split.
    { rewrite Hn4, doc_cells_object. cbn [app].
      now replace (List.length (nodes (mem (ls s))) + 1)%nat
        with (S (List.length (nodes (mem (ls s))))) by lia. }
    split.
    { rewrite (@held_other _ _ Hnot4), Hb4, (@held_other _ _ Hnot2).
      cbn. rewrite Hb1. lia. }
    split; [exact Hal4|]. split; [rewrite He4; reflexivity|].
    split; [exact (@payload_ok_other _ _ Hnot4)|].
    split; [exact Ht4|].
    rewrite Hl4. cbn [s2 s1 with_mem ls lex]. rewrite Hl1. line_arith.
Qed.

(** Every document of the grammar is parsed into its tree. *)
Lemma parse_value_doc (v : doc) : parsed v.
Proof.
  induction v as [ms IH|es IH|ps|n| | | ] using doc_induction.
  - now apply parse_object_doc.
  - now apply parse_array_doc.
  - apply parse_string_doc.
  - apply parse_number_doc.
  - apply (@parse_word_doc DTrue JTrue "true"). tauto.
  - apply (@parse_word_doc DFalse JFalse "false"). tauto.
  - apply (@parse_word_doc DNull JNull "null"). tauto.
Qed.

End Parsing.

Section Documents.

Context {P : Platform}.
Variable sp : nat -> list Z.
Hypothesis Hsp : forall i, forallb is_blank (sp i) = true.
Variable budget : nat.

Lemma parse_json_doc {D} (view : D -> list Z) (v : doc) (s : @parst D) rest :
  doc_ok v = true -> is_container v = true ->
  (List.length (doc_text sp 0 v) < budget)%nat ->
  reading view (ls s) (doc_text sp 0 v ++ rest) ->
  payload_ok (ls s) -> allocs (mem (ls s)) = [] ->
  exists s2,
    parse_json budget s = Ok (Some (List.length (nodes (mem (ls s)))), s2) /\
    reading view (ls s2) rest /\
    nodes (mem (ls s2)) =
      nodes (mem (ls s)) ++ doc_cells (List.length (nodes (mem (ls s)))) v /\
    blocks (mem (ls s2)) = blocks (mem (ls s)) - held (ls s) /\
    allocs (mem (ls s2)) = [] /\ err s2 = err s /\
    token (lex (ls s2)) = last_token v /\
    line (lex (ls s2)) = line (lex (ls s)) + newlines (doc_text sp 0 v).
Proof.
  intros Hok Hc Hb Hr Hp Hal.
  destruct (@parse_value_doc P D view sp Hsp budget v budget 0%nat s rest
              Hok Hb ltac:(lia) (or_introl Hc) Hr Hp Hal)
    as (s1 & s2 & Hscan & Hpv & Hr2 & Hn2 & Hb2 & Hal2 & He2 & Hp2 & Ht2 & Hl2).
  exists s2. split.
  { unfold parse_json. rewrite (bind_ok _ _ _ Hscan).
    rewrite (bind_ok _ _ _ (cur_token_after_scan _ _ Hscan)).
    replace (negb (first_token v =? ch "[") && negb (first_token v =? ch "{"))
      with false by (destruct v; try discriminate; reflexivity).
    exact Hpv. }
  assert (Hnot : token (lex (ls s2)) <> TOKEN_STRING).
  { rewrite Ht2. destruct v; try discriminate. }
  rewrite (@held_other _ _ Hnot) in Hb2.
  split; [exact Hr2|]. split; [exact Hn2|]. split; [lia|].
  split; [exact Hal2|]. split; [exact He2|]. split; [exact Ht2|]. exact Hl2.
Qed.

Lemma lex_init_ok {D} g e (d : D) (m : memory) :
  allocs m = [] ->
  lex_init g e d m =
  Ok (0, {| lex := {| stream := stream_init g e d; saved_text := [];
                      token := TOKEN_INVALID; line := 1;
                      value := VIndeterminate |};
            mem := m |}).
Proof.
  intros H. destruct m as [h b al]. simpl in H. subst al. reflexivity.
Qed.

End Documents.

(** * What every run keeps *)

Lemma preserved_ret {S A} (I : S -> Prop) (a : A) : preserved I (ret a).
Proof. intros s a' s' H E. inversion E. now subst. Qed.

Lemma preserved_gets {S A} (I : S -> Prop) (f : S -> A) : preserved I (gets f).
Proof. intros s a' s' H E. inversion E. now subst. Qed.

Lemma preserved_fail_fuel {S A} (I : S -> Prop) :
  preserved I (fail_fuel (S := S) (A := A)).
Proof. intros s a s' _ E. discriminate. Qed.

Lemma preserved_fail_undef {S A} (I : S -> Prop) :
  preserved I (fail_undef (S := S) (A := A)).
Proof. intros s a s' _ E. discriminate. Qed.

Lemma preserved_bind {S A B} (I : S -> Prop) (m : M S A) (k : A -> M S B) :
  preserved I m -> (forall a, preserved I (k a)) -> preserved I (bind m k).
Proof.
  intros Hm Hk s b s' HI E. apply bind_inv in E.
  destruct E as (a & s1 & E1 & E2). eapply Hk; [|exact E2].
  eapply Hm; eassumption.
Qed.

Lemma preserved_assert {P : Platform} {S} (I : S -> Prop) (cond : M S bool) :
  preserved I (assert cond).
Proof.
  intros s a s' HI E. apply assert_inv in E. now subst.
Qed.

Ltac preserved_step :=
  first
    [ apply preserved_ret
    | apply preserved_gets
    | apply preserved_fail_fuel
    | apply preserved_fail_undef
    | apply preserved_assert
    | assumption
    | solve [auto]
    | apply preserved_bind; [ | intros ? ]
    | match goal with
      | |- preserved _ (if ?b then _ else _) => destruct b
      | |- preserved _ (match ?x with _ => _ end) => destruct x
      | |- preserved _ (let '(_, _) := ?x in _) => destruct x
      end ].

Ltac preserved_auto := cbv zeta; repeat preserved_step.

(** ** The stream keeps its source *)

Section StreamSource.

Context {P : Platform} {D : Type}.

Implicit Types st : @stream_t D.

Lemma same_source_refl st : same_source st st.
Proof. now split. Qed.

Lemma same_source_trans st1 st2 st3 :
  same_source st1 st2 -> same_source st2 st3 -> same_source st1 st3.
Proof. intros (A1 & B1) (A2 & B2). split; congruence. Qed.

Variable st0 : @stream_t D.

Lemma call_get_source : preserved (same_source st0) call_get.
Proof.
  intros st c st' H E. unfold call_get in E.
  destruct (get st (data st)) as [[r d]| | |]; try discriminate.
  inversion E; subst. exact H.
Qed.

Lemma call_eof_source : preserved (same_source st0) call_eof.
Proof.
  intros st c st' H E. unfold call_eof in E.
  destruct (eof st (data st)) as [b| | |]; try discriminate.
  inversion E; subst. exact H.
Qed.

Lemma buffer_read_source i : preserved (same_source st0) (buffer_read i).
Proof.
  intros st c st' H E. unfold buffer_read in E.
  destruct ((i <? 0) || (5 <=? i)); [discriminate|].
  destruct (nth_error (buffer st) (Z.to_nat i)) as [[v|]|]; try discriminate.
  inversion E; subst. exact H.
Qed.

Lemma buffer_write_source i v : preserved (same_source st0) (buffer_write i v).
Proof.
  intros st c st' H E. unfold buffer_write in E.
  destruct ((i <? 0) || (5 <=? i)); [discriminate|].
  inversion E; subst. exact H.
Qed.

Lemma set_buffer_pos_source (f : @stream_t D -> Z) :
  preserved (same_source st0) (modify (fun s => set_buffer_pos (f s) s)).
Proof. intros st c st' H E. inversion E; subst. exact H. Qed.

Hint Resolve call_get_source call_eof_source buffer_read_source
  buffer_write_source set_buffer_pos_source : core.

Lemma read_continuation_source n : forall i,
  preserved (same_source st0) (read_continuation n i).
Proof. induction n as [|n IH]; intros i; cbn [read_continuation]; preserved_auto. Qed.

Lemma buffer_prefix_source n : forall i,
  preserved (same_source st0) (buffer_prefix n i).
Proof. induction n as [|n IH]; intros i; cbn [buffer_prefix]; preserved_auto. Qed.

Hint Resolve read_continuation_source buffer_prefix_source : core.

Lemma stream_fill_source : preserved (same_source st0) stream_fill.
Proof.
  unfold stream_fill. preserved_auto.
Qed.

Lemma stream_get_source : preserved (same_source st0) stream_get.
Proof.
  pose proof stream_fill_source.
  unfold stream_get. preserved_auto.
Qed.

Lemma stream_unget_source c : preserved (same_source st0) (stream_unget c).
Proof. unfold stream_unget. preserved_auto. Qed.

End StreamSource.

(** ** What the lexer and the parser keep *)

Lemma alloc_ok_plan : plan_kept alloc_ok.
Proof.
  intros [h b al] a m' E Hal. simpl in Hal. subst al. inversion E. reflexivity.
Qed.

Lemma malloc_plan : plan_kept malloc.
Proof.
  intros [h b al] a m' E Hal. simpl in Hal. subst al. inversion E. reflexivity.
Qed.

Lemma free_plan : plan_kept free.
Proof. intros m a m' E Hal. inversion E. exact Hal. Qed.

Lemma json_new_plan (b : json_body) : plan_kept (json_new b).
Proof.
  intros [h bl al] a m' E Hal. simpl in Hal. subst al. inversion E. reflexivity.
Qed.

Lemma json_decref_plan (a : nat) : plan_kept (json_decref a).
Proof.
  intros m u m' E Hal. unfold json_decref in E.
  destruct (decref _ a (nodes m)) as [h| | |]; try discriminate.
  inversion E. exact Hal.
Qed.

Lemma json_incref_plan (a : nat) : plan_kept (json_incref a).
Proof.
  intros m u m' E Hal. unfold json_incref in E.
  destruct (nth_error (nodes m) a) as [[c|]|]; try discriminate.
  inversion E. exact Hal.
Qed.

Lemma plan_kept_preserved {A} (op : M memory A) :
  plan_kept op -> preserved (fun m => allocs m = []) op.
Proof. intros H m a m' Hal E. eapply H; eassumption. Qed.

Lemma preserved_plan_kept {A} (op : M memory A) :
  preserved (fun m => allocs m = []) op -> plan_kept op.
Proof. intros H m a m' E Hal. eapply H; eassumption. Qed.

Lemma modify_nodes_plan (f : memory -> list (option json_t)) :
  preserved (fun m => allocs m = []) (modify (fun m => set_nodes (f m) m)).
Proof. intros m a m' Hal E. inversion E. exact Hal. Qed.

Lemma json_object_set_nocheck_plan object key value :
  plan_kept (json_object_set_nocheck object key value).
Proof.
  apply preserved_plan_kept. unfold json_object_set_nocheck.
  pose proof (plan_kept_preserved alloc_ok_plan).
  pose proof (plan_kept_preserved (json_incref_plan value)).
  pose proof (fun a => plan_kept_preserved (json_decref_plan a)).
  preserved_auto; apply modify_nodes_plan.
Qed.

Lemma json_array_append_plan array value :
  plan_kept (json_array_append array value).
Proof.
  apply preserved_plan_kept. unfold json_array_append.
  pose proof (plan_kept_preserved alloc_ok_plan).
  pose proof (plan_kept_preserved (json_incref_plan value)).
  preserved_auto; apply modify_nodes_plan.
Qed.

Section LexerKeeps.

Context {P : Platform} {D : Type}.

Implicit Types s : @lexst D.

Variable J : @lexst D -> Prop.

Hypothesis J_stream : forall s st',
  same_source (stream (lex s)) st' -> J s ->
  J {| lex := set_stream st' (lex s); mem := mem s |}.

Hypothesis J_line : forall s n,
  J s -> J {| lex := set_line n (lex s); mem := mem s |}.

Lemma on_stream_keeps {A} (m : M (@stream_t D) A) :
  (forall st0, preserved (same_source st0) m) ->
  preserved J (on_lex (on_stream m)).
Proof.
  intros Hm s a s' HJ E. apply on_stream_inv in E.
  destruct E as (st & E & ->). apply J_stream; [|exact HJ].
  eapply Hm; [apply same_source_refl|exact E].
Qed.

Lemma lex_get_keeps : preserved J lex_get.
Proof. apply on_stream_keeps. intros st0. apply stream_get_source. Qed.

Lemma lex_eof_keeps : preserved J lex_eof.
Proof. apply on_stream_keeps. intros st0. apply call_eof_source. Qed.

Lemma next_line_keeps :
  preserved J (on_lex (modify (fun l => set_line (line l + 1) l))).
Proof. intros s a s' HJ E. inversion E; subst. now apply J_line. Qed.

Hint Resolve lex_get_keeps lex_eof_keeps next_line_keeps : core.

Lemma skip_blanks_keeps fuel : forall c, preserved J (skip_blanks fuel c).
Proof. induction fuel as [|f IH]; intros c; cbn [skip_blanks]; preserved_auto. Qed.

Hypothesis J_saved : forall s b,
  J s -> J {| lex := set_saved_text b (lex s); mem := mem s |}.

Lemma lex_save_keeps c : preserved J (lex_save c).
Proof. intros s a s' HJ E. inversion E; subst. now apply J_saved. Qed.

Lemma set_saved_text_keeps b :
  preserved J (on_lex (modify (set_saved_text b))).
Proof. intros s a s' HJ E. inversion E; subst. now apply J_saved. Qed.

Lemma saved_text_keeps : preserved J (on_lex (gets saved_text)).
Proof.
  intros s a s' HJ E. inversion E; subst.
  apply (J_saved (saved_text (lex s))) in HJ.
  destruct s as [[st sv tk ln vl] m]. exact HJ.
Qed.

Hint Resolve lex_save_keeps set_saved_text_keeps saved_text_keeps : core.

Lemma lex_get_save_keeps : preserved J lex_get_save.
Proof. unfold lex_get_save. preserved_auto. Qed.

Lemma lex_unget_unsave_keeps c : preserved J (lex_unget_unsave c).
Proof.
  unfold lex_unget_unsave. preserved_auto.
  apply on_stream_keeps. intros st0. apply stream_unget_source.
Qed.

Hint Resolve lex_get_save_keeps lex_unget_unsave_keeps : core.

Lemma scan_hex_keeps n : forall c, preserved J (scan_hex n c).
Proof. induction n as [|n IH]; intros c; cbn [scan_hex]; preserved_auto. Qed.

Hint Resolve scan_hex_keeps : core.

Lemma scan_string_raw_keeps fuel : forall c,
  preserved J (scan_string_raw fuel c).
Proof.
  induction fuel as [|f IH]; intros c; cbn [scan_string_raw]; preserved_auto.
Qed.

Lemma scan_digits_keeps fuel : forall c, preserved J (scan_digits fuel c).
Proof. induction fuel as [|f IH]; intros c; cbn [scan_digits]; preserved_auto. Qed.

Lemma scan_letters_keeps fuel : forall c, preserved J (scan_letters fuel c).
Proof. induction fuel as [|f IH]; intros c; cbn [scan_letters]; preserved_auto. Qed.

Hint Resolve scan_string_raw_keeps scan_digits_keeps scan_letters_keeps : core.

Lemma scan_integer_part_keeps fuel c : preserved J (scan_integer_part fuel c).
Proof. unfold scan_integer_part. preserved_auto. Qed.

Lemma scan_fraction_keeps fuel c : preserved J (scan_fraction fuel c).
Proof. unfold scan_fraction. preserved_auto. Qed.

Lemma scan_exponent_keeps fuel c : preserved J (scan_exponent fuel c).
Proof. unfold scan_exponent. preserved_auto. Qed.

Hint Resolve scan_integer_part_keeps scan_fraction_keeps
  scan_exponent_keeps : core.

Hypothesis J_token : forall s t,
  J s -> J {| lex := set_token t (lex s); mem := mem s |}.

Hypothesis J_value : forall s v,
  J s -> J {| lex := set_value v (lex s); mem := mem s |}.

Hypothesis J_mem : forall s m',
  (allocs (mem s) = [] -> allocs m' = []) -> J s ->
  J {| lex := lex s; mem := m' |}.

Lemma lex_set_token_keeps t : preserved J (lex_set_token t).
Proof. intros s a s' HJ E. inversion E; subst. now apply J_token. Qed.

Lemma lex_set_value_keeps v : preserved J (lex_set_value v).
Proof. intros s a s' HJ E. inversion E; subst. now apply J_value. Qed.

Lemma on_mem_keeps {A} (op : M memory A) :
  plan_kept op -> preserved J (on_mem op).
Proof.
  intros Hop s a s' HJ E. unfold on_mem in E.
  destruct (op (mem s)) as [[a' m']| | |] eqn:Eop; try discriminate.
  inversion E; subst. apply J_mem; [|exact HJ]. now apply (Hop _ _ _ Eop).
Qed.

Lemma on_lex_gets_keeps {A} (f : @lex_t D -> A) : preserved J (on_lex (gets f)).
Proof.
  intros s a s' HJ E. inversion E; subst.
  apply (@J_mem s (mem s)); [tauto|exact HJ].
Qed.

Hint Resolve lex_set_token_keeps lex_set_value_keeps on_lex_gets_keeps : core.

Lemma finish_integer_keeps c : preserved J (finish_integer c).
Proof. unfold finish_integer. preserved_auto. Qed.

Lemma finish_real_keeps c : preserved J (finish_real c).
Proof. unfold finish_real. preserved_auto. Qed.

Hint Resolve finish_integer_keeps finish_real_keeps : core.

Lemma lex_scan_number_keeps fuel c : preserved J (lex_scan_number fuel c).
Proof. unfold lex_scan_number. preserved_auto. Qed.

Lemma lex_scan_string_keeps fuel : preserved J (lex_scan_string fuel).
Proof.
  pose proof (on_mem_keeps malloc_plan).
  pose proof (on_mem_keeps free_plan).
  unfold lex_scan_string. preserved_auto.
  match goal with
  | |- preserved _ (fun _ => match decode_escapes ?x with _ => _ end) =>
      destruct (decode_escapes x) as [[t|]| | |]
  end; preserved_auto; intros s u s' _ E; discriminate.
Qed.

Hint Resolve lex_scan_number_keeps lex_scan_string_keeps : core.

Lemma lex_scan_token_keeps fuel : preserved J (lex_scan_token fuel).
Proof.
  pose proof (on_mem_keeps free_plan).
  pose proof (skip_blanks_keeps fuel).
  unfold lex_scan_token. preserved_auto.
Qed.

Lemma lex_scan_keeps fuel : preserved J (lex_scan fuel).
Proof.
  pose proof (lex_scan_token_keeps fuel). unfold lex_scan. preserved_auto.
Qed.

Lemma lex_close_keeps : preserved J lex_close.
Proof.
  pose proof (on_mem_keeps free_plan). unfold lex_close. preserved_auto.
Qed.

End LexerKeeps.

Section ParserKeeps.

Context {P : Platform} {D : Type}.

Variable J : @lexst D -> Prop.

Hypothesis J_stream : forall s st',
  same_source (stream (lex s)) st' -> J s ->
  J {| lex := set_stream st' (lex s); mem := mem s |}.
Hypothesis J_line : forall s n,
  J s -> J {| lex := set_line n (lex s); mem := mem s |}.
Hypothesis J_saved : forall s b,
  J s -> J {| lex := set_saved_text b (lex s); mem := mem s |}.
Hypothesis J_token : forall s t,
  J s -> J {| lex := set_token t (lex s); mem := mem s |}.
Hypothesis J_value : forall s v,
  J s -> J {| lex := set_value v (lex s); mem := mem s |}.
Hypothesis J_mem : forall s m',
  (allocs (mem s) = [] -> allocs m' = []) -> J s ->
  J {| lex := lex s; mem := m' |}.

Local Abbreviation K := (fun s : @parst D => J (ls s)).

Lemma lexer_keeps {A} (m : @L D A) : preserved J m -> preserved K (lexer m).
Proof.
  intros Hm s a s' HK E. apply lexer_inv in E. destruct E as (l & E & ->).
  cbn [ls]. eapply Hm; eassumption.
Qed.

Lemma heap_keeps {A} (op : M memory A) : plan_kept op -> preserved K (heap op).
Proof.
  intros Hop. apply lexer_keeps. now apply on_mem_keeps.
Qed.

Lemma parse_error_keeps msg : preserved K (parse_error (D := D) msg).
Proof. intros s a s' HK E. inversion E; subst. exact HK. Qed.

Lemma scan_keeps fuel : preserved K (lexer (lex_scan fuel)).
Proof. apply lexer_keeps. now apply lex_scan_keeps. Qed.

Lemma cur_token_keeps : preserved K cur_token.
Proof. apply lexer_keeps. now apply on_lex_gets_keeps. Qed.

Lemma value_keeps : preserved K (lexer (on_lex (gets value))).
Proof. apply lexer_keeps. now apply on_lex_gets_keeps. Qed.

Variable budget : nat.

Hint Resolve parse_error_keeps scan_keeps cur_token_keeps value_keeps : core.

Ltac heap_keeps :=
  repeat match goal with
         | |- preserved _ (heap _) => apply heap_keeps
         | |- plan_kept malloc => apply malloc_plan
         | |- plan_kept free => apply free_plan
         | |- plan_kept (json_decref _) => apply json_decref_plan
         | |- plan_kept (json_object_set_nocheck _ _ _) =>
             apply json_object_set_nocheck_plan
         | |- plan_kept (json_array_append _ _) => apply json_array_append_plan
         | |- plan_kept _ => apply json_new_plan
         end.

Lemma parse_object_loop_keeps (pv : @PM D (option nat)) :
  preserved K pv ->
  forall fuel object, preserved K (parse_object_loop budget pv fuel object).
Proof.
  intros Hpv. induction fuel as [|f IH]; intros object;
    cbn [parse_object_loop]; unfold release_and_fail;
    preserved_auto; heap_keeps.
Qed.

Lemma parse_array_loop_keeps (pv : @PM D (option nat)) :
  preserved K pv ->
  forall fuel array, preserved K (parse_array_loop budget pv fuel array).
Proof.
  intros Hpv. induction fuel as [|f IH]; intros array;
    cbn [parse_array_loop]; unfold release_and_fail;
    preserved_auto; heap_keeps.
Qed.

Lemma parse_value_keeps depth : preserved K (parse_value budget depth).
Proof.
  induction depth as [|d IH]; cbn [parse_value]; [apply preserved_fail_fuel|].
  pose proof (parse_object_loop_keeps IH).
  pose proof (parse_array_loop_keeps IH).
  unfold parse_value_body, parse_object, parse_array, json_object, json_array,
    json_string_nocheck, json_integer, json_real, json_true, json_false,
    json_null.
  preserved_auto; heap_keeps.
Qed.

Lemma parse_json_keeps : preserved K (parse_json budget).
Proof.
  pose proof (parse_value_keeps budget).
  unfold parse_json. preserved_auto.
Qed.

End ParserKeeps.

(** ** The blocks of the lexer *)

Section LexerBlocks.

Context {P : Platform} {D : Type}.

Implicit Types s : @lexst D.

(** The token, the payload and the memory stay as they are. *)
Local Abbreviation fixed s0 :=
  (fun s => token (lex s) = token (lex s0) /\ value (lex s) = value (lex s0) /\
            mem s = mem s0).

Lemma fixed_stream s0 s st' :
  same_source (stream (lex s)) st' -> fixed s0 s ->
  fixed s0 {| lex := set_stream st' (lex s); mem := mem s |}.
Proof. intros _ H. exact H. Qed.

Lemma fixed_line s0 s n :
  fixed s0 s -> fixed s0 {| lex := set_line n (lex s); mem := mem s |}.
Proof. intros H. exact H. Qed.

Lemma fixed_saved s0 s b :
  fixed s0 s -> fixed s0 {| lex := set_saved_text b (lex s); mem := mem s |}.
Proof. intros H. exact H. Qed.

Lemma fixed_refl s0 : fixed s0 s0.
Proof. now repeat split. Qed.

Lemma finish_integer_blocks c s s' :
  finish_integer c s = Ok (tt, s') ->
  mem s' = mem s /\ token (lex s') = TOKEN_INTEGER.
Proof.
  intros E. unfold finish_integer in E.
  inv_bind E.
  apply (lex_unget_unsave_keeps (fixed s) (@fixed_stream s) (@fixed_saved s)) in H;
    [|apply fixed_refl].
  destruct H as (_ & _ & Hm).
  rewrite (bind_ok _ _ _ (lex_set_token_eq _ _)) in E.
  unfold bind at 1, on_lex at 1, gets at 1 in E. cbn [lex mem] in E.
  destruct (strtol _) as [v e].
  rewrite (bind_ok _ _ _ (lex_set_value_eq _ _)) in E.
  apply assert_inv in E. subst. cbn. now split.
Qed.

Lemma finish_real_blocks c s s' :
  finish_real c s = Ok (tt, s') ->
  mem s' = mem s /\ token (lex s') = TOKEN_REAL.
Proof.
  intros E. unfold finish_real in E.
  inv_bind E.
  apply (lex_unget_unsave_keeps (fixed s) (@fixed_stream s) (@fixed_saved s)) in H;
    [|apply fixed_refl].
  destruct H as (_ & _ & Hm).
  rewrite (bind_ok _ _ _ (lex_set_token_eq _ _)) in E.
  unfold bind at 1, on_lex at 1, gets at 1 in E. cbn [lex mem] in E.
  destruct (strtod _) as [v e].
  rewrite (bind_ok _ _ _ (lex_set_value_eq _ _)) in E.
  apply assert_inv in E. subst. cbn. now split.
Qed.

Lemma lex_scan_number_blocks fuel c s s' :
  lex_scan_number fuel c s = Ok (tt, s') ->
  mem s' = mem s /\ token (lex s') <> TOKEN_STRING.
Proof.
  intros E. unfold lex_scan_number in E.
  rewrite (bind_ok _ _ _ (lex_set_token_eq _ _)) in E.
  set (s1 := {| lex := _; mem := mem s |}) in E.
  assert (F1 : fixed s1 s1) by apply fixed_refl.
  inv_bind E.
  apply (scan_integer_part_keeps (fixed s1) (@fixed_stream s1) (@fixed_saved s1)) in H;
    [|exact F1].
  destruct a as [c1|].
  2:{ inversion E; subst. destruct H as (Ht & _ & Hm).
      rewrite Hm, Ht. split; [reflexivity|discriminate]. }
  destruct (negb (c1 =? ch ".") && negb (c1 =? ch "E") && negb (c1 =? ch "e")).
  { apply finish_integer_blocks in E. destruct E as (Hm & Ht).
    destruct H as (_ & _ & Hm0). rewrite Hm, Hm0, Ht.
    split; [reflexivity|discriminate]. }
  inv_bind E.
  apply (scan_fraction_keeps (fixed s1) (@fixed_stream s1) (@fixed_saved s1)) in H0;
    [|exact H].
  destruct a as [c2|].
  2:{ inversion E; subst. destruct H0 as (Ht & _ & Hm).
      rewrite Hm, Ht. split; [reflexivity|discriminate]. }
  inv_bind E.
  apply (scan_exponent_keeps (fixed s1) (@fixed_stream s1) (@fixed_saved s1)) in H1;
    [|exact H0].
  destruct a as [c3|].
  2:{ inversion E; subst. destruct H1 as (Ht & _ & Hm).
      rewrite Hm, Ht. split; [reflexivity|discriminate]. }
  apply finish_real_blocks in E. destruct E as (Hm & Ht).
  destruct H1 as (_ & _ & Hm0). rewrite Hm, Hm0, Ht.
  split; [reflexivity|discriminate].
Qed.

Lemma lex_scan_string_blocks fuel s s' :
  lex_scan_string fuel s = Ok (tt, s') ->
  blocks (mem s') - held s' = blocks (mem s).
Proof.
  intros E. unfold lex_scan_string in E.
  rewrite (bind_ok _ _ _ (lex_set_token_eq _ _)) in E.
  set (s1 := {| lex := _; mem := mem s |}) in E.
  assert (F1 : fixed s1 s1) by apply fixed_refl.
  inv_bind E.
  apply (lex_get_save_keeps (fixed s1) (@fixed_stream s1) (@fixed_saved s1)) in H;
    [|exact F1].
  inv_bind E.
  apply (scan_string_raw_keeps (fixed s1) (@fixed_stream s1) (@fixed_saved s1)) in H0;
    [|exact H].
  destruct H0 as (Ht & Hv & Hm). cbn [s1 lex mem token set_token] in Ht, Hm.
  destruct a0; cbn [negb] in E.
  2:{ inversion E; subst. unfold held. rewrite Ht. cbn. rewrite Hm. lia. }
  inv_bind E. apply on_mem_malloc_inv in H0. destruct H0 as (Hl & _ & Hb).
  destruct a0; cbn [negb] in E.
  2:{ rewrite lex_set_value_eq in E. inversion E; subst.
      unfold held. cbn. rewrite Hl, Ht. cbn. rewrite Hb, Hm. lia. }
  inv_bind E. inversion H0; subst; clear H0. cbn [lex mem] in E.
  destruct (decode_escapes _) as [[t|]| | |]; try discriminate.
  - rewrite (bind_ok _ _ _ (lex_set_value_eq _ _)) in E.
    rewrite lex_set_token_eq in E. inversion E; subst.
    unfold held. cbn. rewrite Hb, Hm. lia.
  - inv_bind E. inversion H0; subst; clear H0.
    rewrite lex_set_value_eq in E. inversion E; subst.
    unfold held. cbn. rewrite Hl, Ht. cbn. rewrite Hb, Hm. lia.
Qed.

Lemma lex_scan_payload_ok fuel s t s' :
  lex_scan fuel s = Ok (t, s') -> payload_ok s.
Proof.
  intros E Ht. unfold lex_scan, lex_scan_token in E.
  inv_bind E. inv_bind H. inversion H0; subst; clear H0.
  inv_bind H. inversion H0; subst; clear H0. cbn [lex token set_saved_text] in H.
  inv_bind H. rewrite Ht in H0. cbn [Z.eqb Pos.eqb] in H0.
  change (TOKEN_STRING =? TOKEN_STRING) with true in H0. cbv iota in H0.
  inv_bind H0. inversion H1; subst; clear H1.
  cbn [lex value set_saved_text] in H0.
  destruct (value (lex s)) as [|o| |]; try (inv_bind H0; discriminate).
  now exists o.
Qed.

Lemma is_punctuation_not_string c :
  is_punctuation c = true -> c <> TOKEN_STRING.
Proof.
  intros H. destruct (is_punctuation_ascii _ H) as (Ha & _).
  unfold ascii in Ha. unfold TOKEN_STRING. lia.
Qed.

(** [lex_scan] neither leaks nor frees twice: the blocks it leaves are
    those it found, but for the payload of the token. *)
Lemma lex_scan_blocks fuel s t s' :
  lex_scan fuel s = Ok (t, s') ->
  blocks (mem s') - held s' = blocks (mem s) - held s.
Proof.
  intros E. pose proof (lex_scan_payload_ok _ _ E) as Hp.
  rewrite (lex_scan_released fuel Hp) in E.
  rewrite <- (released_blocks s).
  set (s0 := released s) in *.
  assert (F0 : fixed s0 s0) by apply fixed_refl.
  inv_bind E. destruct a. inversion E; subst; clear E.
  assert (Hgoal : blocks (mem s1) - held s1 = blocks (mem s0)).
  2:{ unfold held in *. exact Hgoal. }
  inv_bind H.
  apply (lex_get_keeps (fixed s0) (@fixed_stream s0)) in H0; [|exact F0].
  inv_bind H.
  apply (skip_blanks_keeps (fixed s0) (@fixed_stream s0) (@fixed_line s0)) in H1;
    [|exact H0].
  inv_bind H.
  assert (F3 : fixed s0 s4).
  { destruct (a0 =? EOF).
    - apply (lex_eof_keeps (fixed s0) (@fixed_stream s0)) in H2; [exact H2|exact H1].
    - inversion H2; subst. exact H1. }
  destruct a1.
  { rewrite lex_set_token_eq in H. inversion H; subst.
    destruct F3 as (_ & _ & Hm). unfold held. cbn. rewrite Hm. lia. }
  rewrite (bind_ok _ _ _ (lex_save_eq _ _)) in H.
  set (s5 := {| lex := _; mem := mem s4 |}) in H.
  assert (F5 : fixed s0 s5) by exact F3.
  assert (Hm5 : mem s5 = mem s0) by (now destruct F5 as (_ & _ & Hm)).
  assert (Hm4 : mem s4 = mem s0) by exact Hm5.
  assert (Hother : forall tk,
             tk <> TOKEN_STRING ->
             lex_set_token tk s5 = Ok (tt, s1) ->
             blocks (mem s1) - held s1 = blocks (mem s0)).
  { intros tk Htk E. rewrite lex_set_token_eq in E. inversion E; subst.
    unfold held. cbn. rewrite (eqb_false Htk), Hm4. lia. }
  destruct (is_punctuation a0) eqn:Hpu.
  { exact (Hother _ (is_punctuation_not_string Hpu) H). }
  destruct (a0 =? QUOTE).
  { apply lex_scan_string_blocks in H. rewrite H, Hm5. reflexivity. }
  destruct (isdigit a0 || (a0 =? ch "-")).
  { apply lex_scan_number_blocks in H. destruct H as (Hm & Ht).
    unfold held. rewrite (eqb_false Ht), Hm, Hm5. lia. }
  destruct (isupper a0 || islower a0);
    [|exact (Hother TOKEN_INVALID ltac:(discriminate) H)].
  inv_bind H.
  apply (lex_get_save_keeps (fixed s0) (@fixed_stream s0) (@fixed_saved s0)) in H3;
    [|exact F5].
  inv_bind H.
  apply (scan_letters_keeps (fixed s0) (@fixed_stream s0) (@fixed_saved s0)) in H4;
    [|exact H3].
  inv_bind H.
  apply (lex_unget_unsave_keeps (fixed s0) (@fixed_stream s0) (@fixed_saved s0)) in H5;
    [|exact H4].
  inv_bind H. inversion H6; subst; clear H6.
  assert (Hm9 : mem s8 = mem s0) by (now destruct H5 as (_ & _ & Hm)).
  assert (Hfin : forall tk,
             tk <> TOKEN_STRING ->
             lex_set_token tk {| lex := lex s8; mem := mem s8 |} = Ok (tt, s1) ->
             blocks (mem s1) - held s1 = blocks (mem s0)).
  { intros tk Htk E. rewrite lex_set_token_eq in E. inversion E; subst.
    unfold held. cbn. rewrite (eqb_false Htk), Hm9. lia. }
  destruct (strcmp_eq _ "true");
    [exact (Hfin TOKEN_TRUE ltac:(discriminate) H)|].
  destruct (strcmp_eq _ "false");
    [exact (Hfin TOKEN_FALSE ltac:(discriminate) H)|].
  destruct (strcmp_eq _ "null");
    [exact (Hfin TOKEN_NULL ltac:(discriminate) H)
    |exact (Hfin TOKEN_INVALID ltac:(discriminate) H)].
Qed.

End LexerBlocks.

Section Discipline.

Context {P : Platform} {D : Type}.

Implicit Types s : @parst D.

Lemma step_refl s : step 0 s s.
Proof. unfold step. repeat split; [lia|tauto]. Qed.

Lemma step_trans d1 d2 s1 s2 s3 :
  step d1 s1 s2 -> step d2 s2 s3 -> step (d1 + d2) s1 s3.
Proof.
  intros (B1 & E1 & A1) (B2 & E2 & A2). unfold step.
  split; [lia|]. split; [congruence|tauto].
Qed.

Lemma step_fails d1 d2 s1 s2 s3 :
  step d1 s1 s2 -> fails d2 s2 s3 -> fails (d1 + d2) s1 s3.
Proof.
  intros (B1 & E1 & A1) (B2 & A2). unfold fails.
  split; [lia|]. intros Hal. destruct (A2 (A1 Hal)) as (Hal3 & R).
  split; [exact Hal3|]. now rewrite <- E1.
Qed.

Lemma fails_step d1 d2 s1 s2 s3 :
  fails d1 s1 s2 -> step d2 s2 s3 -> lex (ls s3) = lex (ls s2) ->
  fails (d1 + d2) s1 s3.
Proof.
  intros (B1 & A1) (B2 & E2 & A2) L. unfold fails.
  split; [lia|]. intros Hal. destruct (A1 Hal) as (Hal2 & R).
  split; [exact (A2 Hal2)|]. now rewrite E2, L.
Qed.

Lemma scan_step fuel s t s' :
  lexer (lex_scan fuel) s = Ok (t, s') -> step 0 s s'.
Proof.
  intros E. apply lexer_inv in E. destruct E as (l & E & ->).
  unfold step, balance. cbn [ls err].
  split; [rewrite (lex_scan_blocks _ _ E); lia|]. split; [reflexivity|].
  intros Hal.
  refine (@lex_scan_keeps P D (fun l => allocs (mem l) = []) _ _ _ _ _ _
            fuel (ls s) t l Hal E); intros; cbn; auto.
Qed.

Lemma heap_inv {A} (op : M memory A) s a s' :
  heap op s = Ok (a, s') ->
  exists m', op (mem (ls s)) = Ok (a, m') /\
             s' = {| ls := {| lex := lex (ls s); mem := m' |}; err := err s |}.
Proof.
  intros E. unfold heap, lexer, on_mem in E.
  destruct (op (mem (ls s))) as [[a' m']| | |]; try discriminate.
  inversion E; subst. now exists m'.
Qed.

(** An operation on the nodes alone. *)
Lemma heap_nodes_step {A} (op : M memory A) s a s' :
  plan_kept op ->
  (forall m a m', op m = Ok (a, m') -> blocks m' = blocks m) ->
  heap op s = Ok (a, s') -> step 0 s s' /\ lex (ls s') = lex (ls s).
Proof.
  intros Hplan Hblocks E. apply heap_inv in E. destruct E as (m' & E & ->).
  unfold step, balance, held. cbn [ls lex mem err].
  rewrite (Hblocks _ _ _ E). split; [|reflexivity].
  split; [lia|]. split; [reflexivity|].
  now apply (Hplan _ _ _ E).
Qed.

Lemma json_new_blocks b (m : memory) a m' :
  json_new b m = Ok (a, m') ->
  blocks m' = blocks m /\ (allocs m = [] -> a <> None).
Proof.
  intros E. unfold json_new, bind, alloc_ok in E.
  destruct m as [h bl [|ok al]]; cbn in E.
  - inversion E; subst. split; [reflexivity|discriminate].
  - destruct ok; inversion E; subst; (split; [reflexivity|discriminate]).
Qed.

Lemma heap_new_step b s a s' :
  heap (json_new b) s = Ok (a, s') ->
  (step 0 s s' /\ lex (ls s') = lex (ls s)) /\
  (allocs (mem (ls s)) = [] -> a <> None).
Proof.
  intros E. split.
  - eapply heap_nodes_step; [apply json_new_plan| |exact E].
    intros m a0 m' E0. now apply json_new_blocks in E0.
  - apply heap_inv in E. destruct E as (m' & E & _).
    now apply json_new_blocks in E.
Qed.

Lemma json_decref_blocks a (m : memory) u m' :
  json_decref a m = Ok (u, m') -> blocks m' = blocks m.
Proof.
  intros E. unfold json_decref in E.
  destruct (decref _ a (nodes m)) as [h| | |]; try discriminate.
  now inversion E.
Qed.

Lemma heap_decref_step a s u s' :
  heap (json_decref a) s = Ok (u, s') ->
  step 0 s s' /\ lex (ls s') = lex (ls s).
Proof.
  intros E. eapply heap_nodes_step; [apply json_decref_plan| |exact E].
  intros m a0 m'. apply json_decref_blocks.
Qed.

Lemma json_incref_blocks a (m : memory) u m' :
  json_incref a m = Ok (u, m') -> blocks m' = blocks m.
Proof.
  intros E. unfold json_incref in E.
  destruct (nth_error (nodes m) a) as [[c|]|]; try discriminate.
  now inversion E.
Qed.

Lemma json_object_set_nocheck_blocks object key value (m : memory) r m' :
  json_object_set_nocheck object key value m = Ok (r, m') ->
  blocks m' = blocks m /\ (allocs m = [] -> r = 0).
Proof.
  intros E. unfold json_object_set_nocheck in E.
  inv_bind E.
  assert (Hs : blocks s = blocks m /\ (allocs m = [] -> a = true)).
  { destruct m as [h bl [|ok al]]; inversion H; subst; now split. }
  destruct Hs as (Hb & Ha). clear H.
  destruct a.
  2:{ inversion E; subst. split; [exact Hb|]. intros Hal.
      now specialize (Ha Hal). }
  inv_bind E. inversion H; subst; clear H.
  destruct (nth_error (nodes s0) object) as [[[rc [ms| | | | | | |]]|]|];
    try discriminate.
  inv_bind E. apply json_incref_blocks in H.
  destruct (assoc_find key ms) as [old|].
  - inv_bind E. inversion H0; subst; clear H0.
    inv_bind E. apply json_decref_blocks in H0. inversion E; subst.
    cbn in H0. split; [congruence|reflexivity].
  - inv_bind E. inversion H0; subst; clear H0. inversion E; subst.
    cbn. split; [congruence|reflexivity].
Qed.

Lemma json_array_append_blocks array value (m : memory) r m' :
  json_array_append array value m = Ok (r, m') ->
  blocks m' = blocks m /\ (allocs m = [] -> r = 0).
Proof.
  intros E. unfold json_array_append in E.
  inv_bind E.
  assert (Hs : blocks s = blocks m /\ (allocs m = [] -> a = true)).
  { destruct m as [h bl [|ok al]]; inversion H; subst; now split. }
  destruct Hs as (Hb & Ha). clear H.
  destruct a.
  2:{ inversion E; subst. split; [exact Hb|]. intros Hal.
      now specialize (Ha Hal). }
  inv_bind E. inversion H; subst; clear H.
  destruct (nth_error (nodes s0) array) as [[[rc [| es | | | | | |]]|]|];
    try discriminate.
  inv_bind E. apply json_incref_blocks in H.
  inv_bind E. inversion H0; subst; clear H0. inversion E; subst.
  cbn. split; [congruence|reflexivity].
Qed.

Lemma heap_set_step object key value s r s' :
  heap (json_object_set_nocheck object key value) s = Ok (r, s') ->
  (step 0 s s' /\ lex (ls s') = lex (ls s)) /\
  (allocs (mem (ls s)) = [] -> r = 0).
Proof.
  intros E. split.
  - eapply heap_nodes_step; [apply json_object_set_nocheck_plan| |exact E].
    intros m a0 m' E0. now apply json_object_set_nocheck_blocks in E0.
  - apply heap_inv in E. destruct E as (m' & E & _).
    now apply json_object_set_nocheck_blocks in E.
Qed.

Lemma heap_append_step array value s r s' :
  heap (json_array_append array value) s = Ok (r, s') ->
  (step 0 s s' /\ lex (ls s') = lex (ls s)) /\
  (allocs (mem (ls s)) = [] -> r = 0).
Proof.
  intros E. split.
  - eapply heap_nodes_step; [apply json_array_append_plan| |exact E].
    intros m a0 m' E0. now apply json_array_append_blocks in E0.
  - apply heap_inv in E. destruct E as (m' & E & _).
    now apply json_array_append_blocks in E.
Qed.

Lemma heap_malloc_step s got s' :
  heap malloc s = Ok (got, s') ->
  (step (if got then 1 else 0) s s' /\ lex (ls s') = lex (ls s)) /\
  (allocs (mem (ls s)) = [] -> got = true).
Proof.
  intros E. apply heap_inv in E. destruct E as (m' & E & ->).
  unfold step, balance, held. cbn [ls lex mem err].
  destruct (mem (ls s)) as [h bl [|ok al]] eqn:Em; cbn in E.
  - inversion E; subst. cbn. repeat split; try tauto. lia.
  - destruct ok; inversion E; subst; cbn;
      (split; [split; [split; [lia|split; [reflexivity|discriminate]]
                      |reflexivity]|discriminate]).
Qed.

Lemma heap_free_step s u s' :
  heap free s = Ok (u, s') -> step (-1) s s' /\ lex (ls s') = lex (ls s).
Proof.
  intros E. apply heap_inv in E. destruct E as (m' & E & ->).
  inversion E; subst.
  unfold step, balance, held. cbn [ls lex mem err blocks allocs set_blocks].
  split; [|reflexivity]. split; [lia|]. split; [reflexivity|tauto].
Qed.

Lemma cur_token_step s t s' : cur_token s = Ok (t, s') -> step 0 s s'.
Proof.
  intros E. inversion E; subst. unfold step, balance, held.
  cbn [ls lex mem err]. split; [lia|]. split; [reflexivity|tauto].
Qed.

Lemma value_step s v s' :
  lexer (on_lex (gets value)) s = Ok (v, s') -> step 0 s s'.
Proof.
  intros E. inversion E; subst. unfold step, balance, held.
  cbn [ls lex mem err]. split; [lia|]. split; [reflexivity|tauto].
Qed.

Lemma parse_error_fails msg s u s' :
  In msg parse_messages ->
  parse_error msg s = Ok (u, s') -> fails 0 s s'.
Proof.
  intros Hin E. inversion E; subst. unfold fails, balance.
  cbn [ls err set_err]. split; [lia|]. intros Hal. split; [exact Hal|].
  exists msg. now split.
Qed.

Lemma release_and_fail_step node s r s' :
  release_and_fail node s = Ok (r, s') ->
  r = None /\ step 0 s s' /\ lex (ls s') = lex (ls s).
Proof.
  intros E. unfold release_and_fail in E. inv_bind E.
  apply heap_decref_step in H. inversion E; subst. now split.
Qed.

End Discipline.

Ltac known_message :=
  unfold parse_messages; cbn [In];
  repeat first [ left; reflexivity | right ].

(** Turning the steps of a run into facts about its ends. *)
Ltac run_facts :=
  repeat match goal with
         | H : cur_token _ = Ok _ |- _ => apply cur_token_step in H
         | H : lexer (on_lex (gets value)) _ = Ok _ |- _ =>
             apply value_step in H
         | H : lexer (lex_scan _) _ = Ok _ |- _ => apply scan_step in H
         | H : heap malloc _ = Ok _ |- _ =>
             apply heap_malloc_step in H; destruct H
         | H : heap free _ = Ok _ |- _ => apply heap_free_step in H
         | H : heap (json_decref _) _ = Ok _ |- _ =>
             apply heap_decref_step in H
         | H : heap (json_object_set_nocheck _ _ _) _ = Ok _ |- _ =>
             apply heap_set_step in H; destruct H
         | H : heap (json_array_append _ _) _ = Ok _ |- _ =>
             apply heap_append_step in H; destruct H
         | H : heap (json_new _) _ = Ok _ |- _ =>
             apply heap_new_step in H; destruct H
         | H : release_and_fail _ _ = Ok _ |- _ =>
             apply release_and_fail_step in H; destruct H
         | H : parse_error _ _ = Ok _ |- _ =>
             apply parse_error_fails in H; [|known_message]
         | H : ret _ _ = Ok _ |- _ => inversion H; subst; clear H
         end.

Ltac run_ends :=
  run_facts; subst;
  unfold step, fails in *;
  repeat match goal with
         | H : _ /\ _ |- _ => destruct H
         end;
  try match goal with
      | |- match ?r with Some _ => _ | None => _ end => destruct r
      end;
  cbv beta iota;
  repeat split; try lia; try congruence;
  intuition (try congruence; try lia).

Section ParserDiscipline.

Context {P : Platform} {D : Type}.
Variable budget : nat.

Implicit Types s : @parst D.

Lemma parse_object_loop_disciplined (pv : @PM D (option nat)) :
  disciplined pv ->
  forall fuel object, disciplined (parse_object_loop budget pv fuel object).
Proof.
  intros Hpv. induction fuel as [|f IH]; intros object s r s' E;
    cbn [parse_object_loop] in E; [discriminate|].
  inv_bind E.
  destruct (negb (a =? TOKEN_STRING)).
  { inv_bind E. run_ends. }
  inv_bind E.
  destruct a0 as [|[key|]| |]; try discriminate.
  inv_bind E. destruct a0; cbn [negb] in E.
  2:{ run_ends. }
  inv_bind E. inv_bind E.
  destruct (negb (a1 =? ch ":")).
  { inv_bind E. inv_bind E. run_ends. }
  inv_bind E. inv_bind E.
  pose proof (Hpv _ _ _ H5) as Hv. clear H5.
  destruct a3 as [value|].
  2:{ inv_bind E. run_ends. }
  inv_bind E.
  destruct (negb (a3 =? 0)) eqn:Hr.
  { inv_bind E. inv_bind E. run_ends. }
  inv_bind E. inv_bind E. inv_bind E. inv_bind E.
  destruct (negb (a7 =? ch ",")).
  { destruct (negb (a7 =? ch "}")).
    - inv_bind E. run_ends.
    - run_ends. }
  inv_bind E. apply IH in E. run_ends.
Qed.


Lemma parse_array_loop_disciplined (pv : @PM D (option nat)) :
  disciplined pv ->
  forall fuel array, disciplined (parse_array_loop budget pv fuel array).
Proof.
  intros Hpv. induction fuel as [|f IH]; intros array s r s' E;
    cbn [parse_array_loop] in E; [discriminate|].
  inv_bind E.
  assert (Hafter : forall s1,
             step 0 s s1 ->
             (tok <- cur_token ;;
              if negb (tok =? ch "]") then
                parse_error "']' expected" ;;
                release_and_fail array
              else ret (Some array)) s1 = Ok (r, s') ->
             match r with
             | Some _ => step 0 s s'
             | None => fails 0 s s'
             end).
  { intros s1 Hs1 E1. inv_bind E1.
    destruct (negb (a0 =? ch "]")).
    - inv_bind E1. run_ends.
    - run_ends. }
  destruct (a =? 0).
  { eapply Hafter; [|exact E]. now apply cur_token_step in H. }
  inv_bind E.
  pose proof (Hpv _ _ _ H0) as Hv. clear H0.
  destruct a0 as [elem|].
  2:{ run_ends. }
  inv_bind E.
  destruct (negb (a0 =? 0)) eqn:Hr.
  { inv_bind E. run_ends. }
  inv_bind E. inv_bind E. inv_bind E.
  destruct (negb (a3 =? ch ",")).
  { eapply Hafter; [|exact E]. clear E Hafter. run_ends. }
  inv_bind E. apply IH in E. clear Hafter. run_ends.
Qed.

Lemma parse_object_disciplined (pv : @PM D (option nat)) :
  disciplined pv -> disciplined (parse_object budget pv).
Proof.
  intros Hpv s r s' E. unfold parse_object, json_object in E.
  inv_bind E. destruct a as [object|].
  2:{ run_ends. }
  inv_bind E. inv_bind E.
  destruct (a0 =? ch "}").
  { run_ends. }
  apply (parse_object_loop_disciplined Hpv) in E. run_ends.
Qed.

Lemma parse_array_disciplined (pv : @PM D (option nat)) :
  disciplined pv -> disciplined (parse_array budget pv).
Proof.
  intros Hpv s r s' E. unfold parse_array, json_array in E.
  inv_bind E. destruct a as [array|].
  2:{ run_ends. }
  inv_bind E. inv_bind E.
  destruct (a0 =? ch "]").
  { run_ends. }
  apply (parse_array_loop_disciplined Hpv) in E. run_ends.
Qed.

Lemma parse_value_disciplined depth :
  disciplined (parse_value (D := D) budget depth).
Proof.
  induction depth as [|d IH]; intros s r s' E; cbn [parse_value] in E;
    [discriminate|].
  unfold parse_value_body in E. inv_bind E. inv_bind E.
  unfold json_string_nocheck, json_integer, json_real, json_true, json_false,
    json_null in E.
  destruct (a =? TOKEN_STRING).
  { destruct a0 as [|[t|]| |]; try discriminate. run_ends. }
  destruct (a =? TOKEN_INTEGER).
  { destruct a0 as [|[t|]| |]; try discriminate. run_ends. }
  destruct (a =? TOKEN_REAL).
  { destruct a0 as [|[t|]| |]; try discriminate. run_ends. }
  destruct (a =? TOKEN_TRUE); [run_ends|].
  destruct (a =? TOKEN_FALSE); [run_ends|].
  destruct (a =? TOKEN_NULL); [run_ends|].
  destruct (a =? ch "{").
  { apply (parse_object_disciplined IH) in E. run_ends. }
  destruct (a =? ch "[").
  { apply (parse_array_disciplined IH) in E. run_ends. }
  destruct (a =? TOKEN_INVALID); inv_bind E; run_ends.
Qed.

Lemma parse_json_disciplined : disciplined (parse_json (D := D) budget).
Proof.
  intros s r s' E. unfold parse_json in E. inv_bind E. inv_bind E.
  destruct (negb (a0 =? ch "[") && negb (a0 =? ch "{")).
  { inv_bind E. run_ends. }
  apply parse_value_disciplined in E. run_ends.
Qed.

End ParserDiscipline.

(** * The entry points *)

Section EntryDiscipline.

Context {P : Platform}.
Variable budget : nat.

Lemma lex_close_step {D} (s : @parst D) u s' :
  lexer lex_close s = Ok (u, s') ->
  blocks (mem (ls s')) = balance s /\ err s' = err s /\
  (allocs (mem (ls s)) = [] -> allocs (mem (ls s')) = []).
Proof.
  intros E. apply lexer_inv in E. destruct E as (l & E & ->).
  unfold lex_close in E. inv_bind E. inversion H; subst; clear H.
  cbn [lex mem] in E. unfold balance, held. cbn [ls err].
  destruct (token (lex (ls s)) =? TOKEN_STRING).
  - inv_bind E. inversion H; subst; clear H. cbn [lex mem] in E.
    destruct (value (lex (ls s))) as [|[t|]| |]; try discriminate;
      inversion E; subst; cbn; (split; [lia|split; [reflexivity|tauto]]).
  - inversion E; subst. cbn. split; [lia|split; [reflexivity|tauto]].
Qed.

Lemma lex_init_inv {D} g e (d : D) (m : memory) r l :
  lex_init g e d m = Ok (r, l) ->
  blocks (mem l) = blocks m /\ nodes (mem l) = nodes m /\
  (allocs m = [] -> allocs (mem l) = [] /\ r = 0) /\
  (r = 0 -> token (lex l) = TOKEN_INVALID /\ line (lex l) = 1 /\
            stream (lex l) = stream_init g e d).
Proof.
  intros E. unfold lex_init, alloc_ok in E.
  destruct m as [h b [|ok al]]; cbn in E.
  - inversion E; subst. cbn. repeat split; reflexivity.
  - destruct ok; inversion E; subst; cbn; repeat split; try reflexivity;
      discriminate.
Qed.

Lemma json_loadf_discipline (input : FILE) (error : option json_error_t)
  (m : memory) r e m' :
  json_loadf budget input error m = Ok (r, e, m') ->
  blocks m' = blocks m /\
  (allocs m = [] ->
   allocs m' = [] /\
   exists s',
     parse_json budget (started fgetc feof input m error) = Ok (r, s') /\
     match r with
     | Some _ => e = error
     | None => reported (lex (ls s')) error e
     end).
Proof.
  intros E. unfold json_loadf in E.
  destruct (lex_init fgetc feof input m) as [[r0 l]| | |] eqn:Einit;
    try discriminate.
  pose proof Einit as Einit0.
  apply lex_init_inv in Einit. destruct Einit as (Hb & _ & Hal & Ht).
  cbn [obind] in E.
  destruct (negb (r0 =? 0)) eqn:Hr0.
  { inversion E; subst. split; [exact Hb|]. intros Hm.
    destruct (Hal Hm) as (_ & ->). discriminate. }
  assert (Hzero : r0 = 0)
    by (apply negb_false_iff in Hr0; now apply Z.eqb_eq).
  destruct (Ht Hzero) as (Htok & _). clear Ht Hzero Hr0.
  unfold finish in E.
  destruct (bind _ _ _) as [[a s2]| | |] eqn:Erun; try discriminate.
  cbn [obind] in E. inversion E; subst; clear E.
  inv_bind Erun. pose proof H as Hrun. apply parse_json_disciplined in H.
  inv_bind Erun. apply lex_close_step in H0. inversion Erun; subst.
  set (s0 := {| ls := l; err := error |}) in *.
  assert (Hbal0 : balance s0 = blocks m).
  { unfold balance, held. cbn. rewrite Htok. cbn. lia. }
  assert (Hal0 : allocs m = [] -> allocs (mem (ls s0)) = [])
    by (intros Hm; now destruct (Hal Hm)).
  assert (Hs0 : allocs m = [] -> s0 = started fgetc feof input m error).
  { intros Hm. rewrite (lex_init_ok fgetc feof input m Hm) in Einit0.
    inversion Einit0; subst. reflexivity. }
  destruct H0 as (B1 & E1 & A1).
  destruct r as [node|]; [destruct H as (B0 & E0 & A0)|destruct H as (B0 & A0)].
  - split; [lia|]. intros Hm. split; [tauto|].
    exists s. rewrite <- (Hs0 Hm). split; [exact Hrun|]. now rewrite E1, E0.
  - split; [lia|]. intros Hm. destruct (A0 (Hal0 Hm)) as (A2 & R).
    split; [tauto|].
    exists s. rewrite <- (Hs0 Hm). split; [exact Hrun|]. now rewrite E1.
Qed.

Lemma end_check_disciplined {D} (s0 s s' : @parst D) a r :
  match a with
  | Some _ => step 0 s0 s
  | None => fails 0 s0 s
  end ->
  end_check budget a s = Ok (r, s') ->
  match r with
  | Some _ => step 0 s0 s'
  | None => fails 0 s0 s'
  end.
Proof.
  intros H E. unfold end_check in E. destruct a as [node|].
  - inv_bind E. inv_bind E.
    destruct (negb (a0 =? TOKEN_EOF)).
    + inv_bind E. inv_bind E. run_ends.
    + run_ends.
  - run_ends.
Qed.

Lemma json_loads_discipline (text : list Z) (error : option json_error_t)
  (m : memory) r e m' :
  json_loads budget text error m = Ok (r, e, m') ->
  blocks m' = blocks m /\
  (allocs m = [] ->
   allocs m' = [] /\
   exists s',
     loads_parse budget
       (started string_get string_eof {| str_data := text; str_pos := 0 |}
                m error) = Ok (r, s') /\
     match r with
     | Some _ => e = error
     | None => reported (lex (ls s')) error e
     end).
Proof.
  intros E. unfold json_loads in E.
  destruct (lex_init string_get string_eof _ m) as [[r0 l]| | |] eqn:Einit;
    try discriminate.
  pose proof Einit as Einit0.
  apply lex_init_inv in Einit. destruct Einit as (Hb & _ & Hal & Ht).
  cbn [obind] in E.
  destruct (negb (r0 =? 0)) eqn:Hr0.
  { inversion E; subst. split; [exact Hb|]. intros Hm.
    destruct (Hal Hm) as (_ & ->). discriminate. }
  assert (Hzero : r0 = 0)
    by (apply negb_false_iff in Hr0; now apply Z.eqb_eq).
  destruct (Ht Hzero) as (Htok & _). clear Ht Hzero Hr0.
  unfold finish in E.
  destruct (bind _ _ _) as [[a s2]| | |] eqn:Erun; try discriminate.
  cbn [obind] in E. inversion E; subst; clear E.
  set (s0 := {| ls := l; err := error |}) in *.
  assert (Hbal0 : balance s0 = blocks m).
  { unfold balance, held. cbn. rewrite Htok. cbn. lia. }
  assert (Hal0 : allocs m = [] -> allocs (mem (ls s0)) = [])
    by (intros Hm; now destruct (Hal Hm)).
  assert (Hs0 : allocs m = [] ->
                s0 = started string_get string_eof
                             {| str_data := text; str_pos := 0 |} m error).
  { intros Hm. rewrite (lex_init_ok string_get string_eof _ m Hm) in Einit0.
    inversion Einit0; subst. reflexivity. }
  inv_bind Erun. pose proof H as Hrun. apply parse_json_disciplined in H.
  inv_bind Erun.
  change (end_check budget a s = Ok (a0, s1)) in H0.
  pose proof (@end_check_disciplined string_data_t s0 s s1 a a0 H H0) as Hmid.
  assert (Hparse : loads_parse budget s0 = Ok (a0, s1)).
  { unfold loads_parse. now rewrite (bind_ok _ _ _ Hrun). }
  inv_bind Erun. apply lex_close_step in H1. inversion Erun; subst.
  destruct H1 as (B1 & E1 & A1).
  destruct r as [node|];
    [destruct Hmid as (B0 & E0 & A0)|destruct Hmid as (B0 & A0)].
  - split; [lia|]. intros Hm. split; [tauto|].
    exists s1. rewrite <- (Hs0 Hm). split; [exact Hparse|]. now rewrite E1, E0.
  - split; [lia|]. intros Hm. destruct (A0 (Hal0 Hm)) as (A2 & R).
    split; [tauto|].
    exists s1. rewrite <- (Hs0 Hm). split; [exact Hparse|]. now rewrite E1.
Qed.

End EntryDiscipline.

Lemma bind_undef {S A B} (m : M S A) (k : A -> M S B) s :
  m s = Undef -> bind m k s = Undef.
Proof. intros H. unfold bind. now rewrite H. Qed.

Lemma bind_undef_under {S A B C E} (m : M S A) (f : A -> M S B)
  (g : B -> M S C) (k : C -> M S E) s :
  bind m f s = Undef ->
  bind (bind m (fun a => bind (f a) g)) k s = Undef.
Proof.
  unfold bind. destruct (m s) as [[a x]| | |]; try discriminate;
    [|reflexivity].
  intros H. now rewrite H.
Qed.

(** ** The ends of the two byte sources *)


Lemma string_view_nth (d : string_data_t) c r :
  string_view d = c :: r ->
  0 <= str_pos d /\
  nth_error (str_data d) (Z.to_nat (str_pos d)) = Some c /\
  skipn (S (Z.to_nat (str_pos d))) (str_data d) = r.
Proof.
  unfold string_view. destruct (str_pos d <? 0) eqn:Hpos; [discriminate|].
  apply Z.ltb_ge in Hpos. intros H. apply skipn_cons_nth in H. tauto.
Qed.

Lemma string_source_end (st : @stream_t string_data_t) (after : list Z) :
  get st = string_get -> eof st = string_eof ->
  source_end string_view (0 :: 0 :: after) st.
Proof.
  intros Hg He d Hv. rewrite Hg, He.
  apply string_view_nth in Hv. destruct Hv as (Hpos & Hn & Hs).
  apply skipn_cons_nth in Hs. destruct Hs as (Hn2 & _).
  unfold string_get, string_eof, str_read.
  replace (str_pos d <? 0) with false by (symmetry; apply Z.ltb_ge; lia).
  rewrite Hn. cbn. eexists. split; [reflexivity|]. cbn.
  replace (str_pos d + 1 <? 0) with false by (symmetry; apply Z.ltb_ge; lia).
  replace (Z.to_nat (str_pos d + 1)) with (S (Z.to_nat (str_pos d))) by lia.
  now rewrite Hn2.
Qed.

Lemma string_source_breaks (st : @stream_t string_data_t) :
  get st = string_get -> eof st = string_eof ->
  source_breaks string_view [0] st.
Proof.
  intros Hg He d Hv. rewrite Hg, He.
  apply string_view_nth in Hv. destruct Hv as (Hpos & Hn & Hs).
  unfold string_get, string_eof, str_read.
  replace (str_pos d <? 0) with false by (symmetry; apply Z.ltb_ge; lia).
  rewrite Hn. cbn. eexists. split; [reflexivity|]. cbn.
  replace (str_pos d + 1 <? 0) with false by (symmetry; apply Z.ltb_ge; lia).
  replace (Z.to_nat (str_pos d + 1)) with (S (Z.to_nat (str_pos d))) by lia.
  assert (Hnone : nth_error (str_data d) (S (Z.to_nat (str_pos d))) = None).
  { apply nth_error_None.
    assert (L : List.length (skipn (S (Z.to_nat (str_pos d))) (str_data d))
                = 0%nat) by now rewrite Hs.
    rewrite length_skipn in L. lia. }
  now rewrite Hnone.
Qed.

(** ** The parser keeps the byte source *)

Section KeepsSource.

Context {P : Platform} {D : Type}.

Lemma parse_json_source budget (s : @parst D) r s' :
  parse_json budget s = Ok (r, s') ->
  same_source (stream (lex (ls s))) (stream (lex (ls s'))).
Proof.
  intros E.
  refine (@parse_json_keeps P D
            (fun l => same_source (stream (lex (ls s))) (stream (lex l)))
            _ _ _ _ _ _ budget s r s' (same_source_refl _) E);
    intros; cbn; auto.
  eapply same_source_trans; eassumption.
Qed.

Lemma lex_scan_source fuel (s : @lexst D) t s' :
  lex_scan fuel s = Ok (t, s') ->
  same_source (stream (lex s)) (stream (lex s')).
Proof.
  intros E.
  refine (@lex_scan_keeps P D
            (fun l => same_source (stream (lex s)) (stream (lex l)))
            _ _ _ _ _ _ fuel s t s' (same_source_refl _) E);
    intros; cbn; auto.
  eapply same_source_trans; eassumption.
Qed.

Variable view : D -> list Z.

(** Where the source breaks at its end, after blanks, [lex_scan] is
    undefined. *)
Lemma skip_blanks_breaks tail ws : forall fuel (s : @lexst D),
  forallb is_blank ws = true -> (List.length ws < fuel)%nat ->
  no_token tail ->
  source_breaks view tail (stream (lex s)) -> reading view s (ws ++ tail) ->
  bind lex_get (skip_blanks fuel) s = Undef.
Proof.
  induction ws as [|w ws IH]; intros fuel s Hws Hf Htail Hend Hr.
  - destruct Hr as (Hsrc & Hp). cbn [app] in Hp.
    assert (Hd : drained (stream (lex s)) /\
                 view (data (stream (lex s))) = tail).
    { remember tail as l eqn:El. destruct Hp as [Hd|c Hc _]; [now split|].
      subst tail. now destruct Htail. }
    destruct Hd as ((Hlen & Hrd) & Hv).
    destruct (Hend _ Hv) as (d' & Hget & Heof).
    destruct s as [[st sv tk ln vl] m]. cbn [lex stream] in *.
    destruct st as [g e d buf pos]. cbn [get eof data buffer buffer_pos] in *.
    destruct buf as [|b0 [|b1 [|b2 [|b3 [|b4 [|]]]]]]; try discriminate.
    unfold lex_get, on_lex, on_stream, bind. cbn [lex stream mem].
    unfold stream_get, bind, gets. cbn [buffer_pos].
    rewrite Hrd. cbn [Z.eqb].
    unfold stream_fill, bind, call_get. cbn [get data]. rewrite Hget.
    change (to_char EOF) with EOF.
    unfold buffer_write, modify, call_eof. cbn.
    rewrite Heof. reflexivity.
  - simpl in Hws. apply andb_true_iff in Hws. destruct Hws as (Hw & Hws).
    destruct (lex_get_reading_source Hr (is_blank_ascii _ Hw))
      as (s1 & Hg & Hl & Hsv & (T & L & V & M) & Hget1 & Heof1).
    destruct fuel as [|f]; [simpl in Hf; lia|]. simpl in Hf.
    rewrite (bind_ok _ _ _ Hg). cbn [skip_blanks]. rewrite Hw.
    set (s2 := {| lex := set_line (line (lex s1) + 1) (lex s1);
                  mem := mem s1 |}).
    assert (E : (if w =? 10
                 then on_lex (modify (fun l => set_line (line l + 1) l))
                 else ret tt) s1 = Ok (tt, if w =? 10 then s2 else s1)).
    { destruct (w =? 10); reflexivity. }
    rewrite (bind_ok _ _ _ E).
    assert (Hst : stream (lex (if w =? 10 then s2 else s1)) = stream (lex s1))
      by now destruct (w =? 10).
    apply IH; try assumption; [lia| |].
    + rewrite Hst. intros d Hv. rewrite Hget1, Heof1. now apply Hend.
    + eapply reading_stream; [exact Hst|exact (read_last_reading Hl)].
Qed.

Lemma lex_scan_breaks tail ws fuel (s : @lexst D) :
  forallb is_blank ws = true -> (List.length ws < fuel)%nat ->
  no_token tail -> payload_ok s ->
  source_breaks view tail (stream (lex s)) -> reading view s (ws ++ tail) ->
  lex_scan fuel s = Undef.
Proof.
  intros Hws Hfuel Htail Hp Hend Hr.
  rewrite (lex_scan_released fuel Hp).
  assert (Hst : stream (lex (released s)) = stream (lex s)).
  { unfold released. now destruct (token (lex s) =? TOKEN_STRING). }
  apply bind_undef_under. apply (@skip_blanks_breaks tail ws);
    try assumption.
  - now rewrite Hst.
  - eapply reading_stream; [exact Hst|exact Hr].
Qed.

End KeepsSource.

Section StringDocuments.

Context {P : Platform}.
Variable sp : nat -> list Z.
Hypothesis Hsp : forall i, forallb is_blank (sp i) = true.
Variable budget : nat.

(** [json_loads] up to the token after the document. *)
Lemma json_loads_parses (v : doc) (ws after : list Z)
  (error : option json_error_t) (m : memory) :
  doc_ok v = true -> is_container v = true ->
  (List.length (doc_text sp 0 v) < budget)%nat ->
  allocs m = [] ->
  exists s2 : @parst string_data_t,
    json_loads budget (c_string (doc_text sp 0 v ++ ws) after) error m =
    finish
      ((result <- (lexer (lex_scan budget) ;;
                   tok <- cur_token ;;
                   if negb (tok =? TOKEN_EOF) then
                     parse_error "end of file expected" ;;
                     heap (json_decref (List.length (nodes m))) ;;
                     ret None
                   else ret (Some (List.length (nodes m)))) ;;
        lexer lex_close ;;
        ret result) s2) /\
    reading string_view (ls s2) (ws ++ 0 :: after) /\
    get (stream (lex (ls s2))) = string_get /\
    eof (stream (lex (ls s2))) = string_eof /\
    token (lex (ls s2)) <> TOKEN_STRING /\
    mem (ls s2) = {| nodes := nodes m ++ doc_cells (List.length (nodes m)) v;
                     blocks := blocks m; allocs := [] |} /\
    err s2 = error /\
    line (lex (ls s2)) = 1 + newlines (doc_text sp 0 v).
Proof.
  intros Hok Hc Hb Hal. unfold json_loads.
  rewrite (lex_init_ok string_get string_eof _ m Hal).
  cbn [obind Z.eqb negb].
  set (s := {| ls := _; err := error |}).
  assert (Hr : reading string_view (ls s) (doc_text sp 0 v ++ ws ++ 0 :: after)).
  { split; [now apply string_get_source_ok|].
    rewrite app_assoc. apply (pending_source string_view).
    split; reflexivity. }
  assert (Hnot : token (lex (ls s)) <> TOKEN_STRING) by discriminate.
  destruct (@parse_json_doc P sp Hsp budget string_data_t string_view v s _
              Hok Hc Hb Hr (@payload_ok_other _ _ Hnot) Hal)
    as (s2 & Hpj & Hr2 & Hn2 & Hb2 & Hal2 & He2 & Ht2 & Hl2).
  pose proof (parse_json_source _ _ Hpj) as (Hget & Heof).
  exists s2. split.
  { f_equal. unfold bind at 1. rewrite Hpj. reflexivity. }
  split; [exact Hr2|]. split; [exact Hget|]. split; [exact Heof|].
  split; [rewrite Ht2; destruct v; try discriminate|].
  split; [|split; [exact He2|exact Hl2]].
  rewrite (@held_other _ _ Hnot) in Hb2. cbn [s ls lex mem] in *.
  destruct (mem (ls s2)) as [h2 b2 a2]. cbn [nodes blocks allocs] in *.
  subst. f_equal. lia.
Qed.

End StringDocuments.

(** * Failures and the end of the input *)


Section ScanningFailures.

Context {P : Platform} {D : Type}.
Variable view : D -> list Z.

(** [lex_scan] on a string literal when the buffer of the value cannot be
    allocated (lines 232-236). *)
Lemma lex_scan_string_no_memory ws ps rest fuel s plan :
  forallb is_blank ws = true -> forallb piece_ok ps = true ->
  forallb piece_ascii ps = true -> existsb is_unicode ps = false ->
  (List.length ws + List.length ps < fuel)%nat -> payload_ok s ->
  allocs (mem s) = false :: plan ->
  reading view s (ws ++ literal_text ps ++ rest) ->
  exists s',
    lex_scan fuel s = Ok (TOKEN_INVALID, s') /\ reading view s' rest /\
    saved_text (lex s') = literal_text ps /\ token (lex s') = TOKEN_INVALID /\
    value (lex s') = VString None /\
    line (lex s') = line (lex s) + newlines ws /\
    mem s' = {| nodes := nodes (mem (released s));
                blocks := blocks (mem (released s)); allocs := plan |}.
Proof.
  intros Hws Hok Has Hun Hfuel Hp Hal Hr.
  assert (Hq : ascii QUOTE) by (unfold ascii, QUOTE; lia).
  unfold literal_text in Hr. cbn [app] in Hr. rewrite <- app_assoc in Hr.
  cbn [app] in Hr.
  destruct (@lex_scan_enters P D view ws QUOTE (body_text ps ++ QUOTE :: rest)
              fuel s Hws eq_refl Hq ltac:(lia) Hp Hr)
    as (s2 & Hl2 & Hs2 & T2 & V2 & L2 & M2 & Hscan).
  rewrite Hscan.
  change (is_punctuation QUOTE) with false.
  change (QUOTE =? QUOTE) with true. cbv iota.
  unfold lex_scan_string.
  repeat rewrite <- bind_assoc_at.
  rewrite (bind_ok _ _ _ (lex_set_token_eq _ _)).
  set (s3 := {| lex := set_token TOKEN_INVALID (lex s2); mem := mem s2 |}).
  assert (Hr3 : reading view s3 (body_text ps ++ QUOTE :: rest))
    by exact (read_last_reading Hl2).
  destruct (@read_pieces P D view ps fuel s3 rest ltac:(lia) Hok Has Hun Hr3)
    as (s4 & Hrun & Hl4 & Hs4 & T4 & L4 & V4 & M4).
  rewrite (bind_run_under _ _ _ _ _ Hrun). cbv iota.
  cbn [negb].
  assert (Hal4 : allocs (mem s4) = false :: plan).
  { rewrite M4. unfold s3. cbn [mem]. rewrite M2. unfold released.
    destruct (token (lex s) =? TOKEN_STRING); cbn [mem]; [|exact Hal].
    destruct (value (lex s)) as [|[t|]| |]; exact Hal. }
  assert (Hm : on_mem malloc s4 =
               Ok (false, {| lex := lex s4;
                             mem := {| nodes := nodes (mem s4);
                                       blocks := blocks (mem s4);
                                       allocs := plan |} |})).
  { unfold on_mem, malloc, bind, alloc_ok. rewrite Hal4. reflexivity. }
  repeat rewrite <- bind_assoc_at.
  rewrite (bind_ok _ _ _ Hm). cbn [negb].
  rewrite (bind_ok _ _ _ (lex_set_value_eq _ _)).
  unfold on_lex, gets. cbn [lex mem set_value token].
  eexists. split; [rewrite T4; reflexivity|].
  split; [eapply reading_stream; [|exact (read_last_reading Hl4)]; reflexivity|].
  cbn [lex mem saved_text token value line set_token set_value].
  split; [rewrite Hs4; unfold s3; cbn [lex saved_text set_token];
          rewrite Hs2; reflexivity|].
  split; [rewrite T4; reflexivity|]. split; [reflexivity|].
  split; [rewrite L4; unfold s3; cbn [lex line set_token]; exact L2|].
  rewrite M4. unfold s3. cbn [mem]. now rewrite M2.
Qed.

End ScanningFailures.

(** ** Where the stream stands after a character *)

Section StreamPosition.

Context {P : Platform} {D : Type}.

Implicit Types st : @stream_t D.

Lemma call_get_start : preserved at_start (call_get (D := D)).
Proof.
  intros st c st' H E. unfold call_get in E.
  destruct (get st (data st)) as [[r d]| | |]; try discriminate.
  inversion E; subst. exact H.
Qed.

Lemma call_eof_start : preserved at_start (call_eof (D := D)).
Proof.
  intros st c st' H E. unfold call_eof in E.
  destruct (eof st (data st)) as [b| | |]; try discriminate.
  inversion E; subst. exact H.
Qed.

Lemma buffer_read_start i : preserved at_start (buffer_read (D := D) i).
Proof.
  intros st c st' H E. unfold buffer_read in E.
  destruct ((i <? 0) || (5 <=? i)); [discriminate|].
  destruct (nth_error (buffer st) (Z.to_nat i)) as [[v|]|]; try discriminate.
  inversion E; subst. exact H.
Qed.

Lemma buffer_write_start i v : preserved at_start (buffer_write (D := D) i v).
Proof.
  intros st c st' H E. unfold buffer_write in E.
  destruct ((i <? 0) || (5 <=? i)); [discriminate|].
  inversion E; subst. exact H.
Qed.

Hint Resolve call_get_start call_eof_start buffer_read_start
  buffer_write_start : core.

Lemma read_continuation_start n : forall i,
  preserved at_start (read_continuation (D := D) n i).
Proof. induction n as [|n IH]; intros i; cbn [read_continuation]; preserved_auto. Qed.

Lemma buffer_prefix_start n : forall i,
  preserved at_start (buffer_prefix (D := D) n i).
Proof. induction n as [|n IH]; intros i; cbn [buffer_prefix]; preserved_auto. Qed.

Hint Resolve read_continuation_start buffer_prefix_start : core.

(** After a refill the position is that of the first character. *)
Lemma stream_fill_start st r st' :
  stream_fill st = Ok (r, st') -> buffer_pos st' = 0.
Proof.
  unfold stream_fill. intros E.
  inv_bind E. inv_bind E. inv_bind E.
  inversion H1; subst. clear H1.
  revert E.
  match goal with
  | |- ?m ?s = _ -> _ =>
      assert (Hk : preserved at_start m) by preserved_auto;
      intros E; exact (Hk s r st' eq_refl E)
  end.
Qed.

(** [stream_get] returns early, with the position at the first character,
    or returns the character before the position. *)
Lemma stream_get_position st c st1 :
  stream_get st = Ok (c, st1) ->
  buffer_pos st1 = 0 \/
  exists p, buffer_pos st1 = p + 1 /\
            buffer_read p st1 = Ok (c, st1).
Proof.
  unfold stream_get. intros E.
  inv_bind E. inv_bind E. inv_bind E.
  assert (Hr : a1 = None \/ buffer_pos s1 = 0).
  { destruct (a0 =? 0).
    - right. eapply stream_fill_start; eassumption.
    - left. now inversion H1. }
  destruct a1 as [c'|].
  - left. inversion E; subst. destruct Hr as [Hr|Hr]; [discriminate|exact Hr].
  - right. clear Hr. inv_bind E. inv_bind E. inv_bind E.
    inversion H2; subst. inversion H4; subst. inversion E; subst. clear H2 H4 E.
    exists (buffer_pos s2). split; [reflexivity|].
    unfold buffer_read in *.
    destruct ((buffer_pos s2 <? 0) || (5 <=? buffer_pos s2)); [discriminate|].
    destruct (nth_error (buffer s2) (Z.to_nat (buffer_pos s2)))
      as [[v|]|] eqn:Hn; try discriminate.
    inversion H3; subst. cbn [buffer set_buffer_pos]. rewrite Hn.
    reflexivity.
Qed.

End StreamPosition.

(** ** Past the end of a string *)

Lemma string_source_passes (st : @stream_t string_data_t) b (after : list Z) :
  get st = string_get -> eof st = string_eof -> to_char b <> 0 ->
  source_passes string_view (0 :: b :: after) st.
Proof.
  intros Hg He Hb d Hv. rewrite Hg, He.
  apply string_view_nth in Hv. destruct Hv as (Hpos & Hn & Hs).
  apply skipn_cons_nth in Hs. destruct Hs as (Hn2 & _).
  unfold string_get, string_eof, str_read.
  replace (str_pos d <? 0) with false by (symmetry; apply Z.ltb_ge; lia).
  rewrite Hn. cbn. eexists. split; [reflexivity|]. cbn.
  replace (str_pos d + 1 <? 0) with false by (symmetry; apply Z.ltb_ge; lia).
  replace (Z.to_nat (str_pos d + 1)) with (S (Z.to_nat (str_pos d))) by lia.
  rewrite Hn2. cbn. now rewrite (eqb_false Hb).
Qed.

Section PastTheEnd.

Context {P : Platform} {D : Type}.
Variable view : D -> list Z.

Hypothesis Hfirst : utf8_check_first EOF = 0.

(** Where the source returns EOF without having ended, [stream_get]
    takes it for the first byte of a sequence that is not UTF-8 and
    returns 0 (lines 113-123). *)
Lemma skip_blanks_passes tail ws : forall fuel (s : @lexst D),
  forallb is_blank ws = true -> (List.length ws < fuel)%nat ->
  no_token tail ->
  source_passes view tail (stream (lex s)) -> reading view s (ws ++ tail) ->
  exists s',
    bind lex_get (skip_blanks fuel) s = Ok (0, s') /\
    saved_text (lex s') = saved_text (lex s) /\
    token (lex s') = token (lex s) /\ value (lex s') = value (lex s) /\
    mem s' = mem s /\
    line (lex s') = line (lex s) + newlines ws.
Proof.
  induction ws as [|w ws IH]; intros fuel s Hws Hf Htail Hend Hr.
  - destruct Hr as (Hsrc & Hp). cbn [app] in Hp.
    assert (Hd : drained (stream (lex s)) /\
                 view (data (stream (lex s))) = tail).
    { remember tail as l eqn:El. destruct Hp as [Hd|c Hc _]; [now split|].
      subst tail. now destruct Htail. }
    destruct Hd as ((Hlen & Hrd) & Hv).
    destruct (Hend _ Hv) as (d' & Hget & Heof).
    destruct s as [[st sv tk ln vl] m]. cbn [lex stream] in *.
    destruct st as [g e d buf pos]. cbn [get eof data buffer buffer_pos] in *.
    destruct buf as [|b0 [|b1 [|b2 [|b3 [|b4 [|]]]]]]; try discriminate.
    destruct fuel as [|f]; [simpl in Hf; lia|].
    unfold lex_get, on_lex, on_stream, bind. cbn [lex stream mem].
    unfold stream_get, bind, gets. cbn [buffer_pos].
    rewrite Hrd. cbn [Z.eqb].
    unfold stream_fill, bind, call_get. cbn [get data]. rewrite Hget.
    change (to_char EOF) with EOF.
    unfold buffer_write, modify, call_eof. cbn.
    rewrite Heof. cbn. rewrite Hfirst. cbn.
    eexists. split; [reflexivity|]. cbn. repeat split. lia.
  - simpl in Hws. apply andb_true_iff in Hws. destruct Hws as (Hw & Hws).
    destruct (lex_get_reading_source Hr (is_blank_ascii _ Hw))
      as (s1 & Hg & Hl & Hsv & (T & L & V & M) & Hget1 & Heof1).
    destruct fuel as [|f]; [simpl in Hf; lia|]. simpl in Hf.
    rewrite (bind_ok _ _ _ Hg). cbn [skip_blanks]. rewrite Hw.
    set (s2 := {| lex := set_line (line (lex s1) + 1) (lex s1);
                  mem := mem s1 |}).
    assert (E : (if w =? 10
                 then on_lex (modify (fun l => set_line (line l + 1) l))
                 else ret tt) s1 = Ok (tt, if w =? 10 then s2 else s1)).
    { destruct (w =? 10); reflexivity. }
    rewrite (bind_ok _ _ _ E).
    assert (Hst : stream (lex (if w =? 10 then s2 else s1)) = stream (lex s1))
      by now destruct (w =? 10).
    assert (Hr2 : reading view (if w =? 10 then s2 else s1) (ws ++ tail)).
    { eapply reading_stream; [exact Hst|exact (read_last_reading Hl)]. }
    assert (Hend2 : source_passes view tail
                      (stream (lex (if w =? 10 then s2 else s1)))).
    { rewrite Hst. intros d Hv. rewrite Hget1, Heof1. now apply Hend. }
    destruct (IH f _ Hws ltac:(lia) Htail Hend2 Hr2)
      as (s3 & Hrun & Hsv3 & T3 & V3 & M3 & L3).
    exists s3. split; [exact Hrun|].
    cbn [newlines].
    destruct (w =? 10); subst s2; cbn [lex mem line saved_text token value set_line] in *;
      (split; [congruence|]); (split; [congruence|]); (split; [congruence|]);
      (split; [congruence|]); rewrite L3, L; lia.
Qed.

(** [lex_scan] then saves the 0 and gives TOKEN_INVALID. *)
Lemma lex_scan_passes tail ws fuel (s : @lexst D) :
  forallb is_blank ws = true -> (List.length ws < fuel)%nat ->
  no_token tail -> payload_ok s ->
  source_passes view tail (stream (lex s)) -> reading view s (ws ++ tail) ->
  exists s',
    lex_scan fuel s = Ok (TOKEN_INVALID, s') /\
    saved_text (lex s') = [0] /\ token (lex s') = TOKEN_INVALID /\
    value (lex s') = value (lex (released s)) /\
    line (lex s') = line (lex s) + newlines ws /\
    mem s' = mem (released s).
Proof.
  intros Hws Hfuel Htail Hp Hend Hr.
  rewrite (lex_scan_released fuel Hp).
  assert (Hst : stream (lex (released s)) = stream (lex s)).
  { unfold released. now destruct (token (lex s) =? TOKEN_STRING). }
  assert (Hr0 : reading view (released s) (ws ++ tail)).
  { eapply reading_stream; [exact Hst|exact Hr]. }
  assert (Hend0 : source_passes view tail (stream (lex (released s))))
    by now rewrite Hst.
  destruct (@skip_blanks_passes tail ws fuel (released s) Hws Hfuel Htail
              Hend0 Hr0)
    as (s1 & Hrun & Hs1 & T1 & V1 & M1 & L1).
  rewrite (bind_run_under _ _ _ _ _ Hrun).
  change (0 =? EOF) with false. cbv iota.
  repeat rewrite <- bind_assoc_at. unfold bind at 1, ret at 1. cbv iota.
  change (is_punctuation 0) with false. change (0 =? QUOTE) with false.
  change (isdigit 0 || (0 =? ch "-")) with false.
  change (isupper 0 || islower 0) with false. cbv iota.
  unfold bind, lex_save, lex_set_token, on_lex, modify, gets.
  cbn [lex mem saved_text token value line set_token set_saved_text].
  eexists. split; [reflexivity|].
  cbn [lex mem saved_text token value line set_token set_saved_text].
  split; [rewrite Hs1; unfold released;
          now destruct (token (lex s) =? TOKEN_STRING)|].
  split; [reflexivity|]. split; [exact V1|].
  split; [rewrite L1; unfold released;
          now destruct (token (lex s) =? TOKEN_STRING)|].
  exact M1.
Qed.

End PastTheEnd.

(** ** Sequences of more than one byte *)

Lemma to_char_to_uchar (b : Z) : to_char (to_uchar b) = to_char b.
Proof.
  unfold to_char, to_uchar. f_equal.
  rewrite Zplus_mod_idemp_l. reflexivity.
Qed.

Ltac norm_pos :=
  repeat match goal with
         | |- context [Pos.to_nat ?p] =>
             let n := eval vm_compute in (Pos.to_nat p) in
             change (Pos.to_nat p) with n
         end.

Ltac walk_buffer :=
  repeat (progress (norm_pos; cbn;
                    repeat match goal with
                           | H : ?c <> 0 |- context [?c =? 0] =>
                               rewrite (eqb_false H)
                           end)).

(** ** Strings with a Unicode escape *)

Lemma isxdigit_ascii (h : Z) : isxdigit h = true -> ascii h.
Proof.
  unfold isxdigit, isdigit, ascii. intros H. bool_to_prop. 
  repeat match goal with
         | H : _ \/ _ |- _ => destruct H
         | H : _ /\ _ |- _ => destruct H
         end; lia.
Qed.

Section UnicodePieces.

Context {P : Platform} {D : Type}.
Variable view : D -> list Z.

(** The first loop of [lex_scan_string] on well-formed pieces of ASCII
    characters, with or without [\u]. *)
Lemma read_pieces_unicode ps : forall fuel (s : @lexst D) rest,
  (List.length ps < fuel)%nat -> forallb piece_ok ps = true ->
  forallb piece_ascii ps = true ->
  reading view s (body_text ps ++ QUOTE :: rest) ->
  exists s',
    bind lex_get_save (scan_string_raw fuel) s = Ok (true, s') /\
    read_last view s' QUOTE rest /\
    saved_text (lex s') = saved_text (lex s) ++ body_text ps ++ [QUOTE] /\
    frame s s'.
Proof.
  assert (Hq : ascii QUOTE) by (unfold ascii, QUOTE; lia).
  induction ps as [|p ps IH]; intros fuel s rest Hf Hok Has Hr.
  - cbn [body_text flat_map app] in *.
    destruct (lex_get_save_reading Hr Hq) as (s1 & Hg & Hl & Hsv & Hfr).
    exists s1. rewrite (bind_ok _ _ _ Hg).
    destruct fuel as [|f]; [simpl in Hf; lia|]. simpl.
    split; [reflexivity|]. split; [exact Hl|]. split; assumption.
  - cbn [forallb] in Hok, Has.
    apply andb_true_iff in Hok. destruct Hok as (Hp & Hok).
    apply andb_true_iff in Has. destruct Has as (Hpa & Has).
    destruct fuel as [|f]; [simpl in Hf; lia|]. simpl in Hf.
    change (body_text (p :: ps)) with (piece_text p ++ body_text ps) in *.
    destruct p as [c|e|h1 h2 h3 h4].
    + cbn [piece_text app] in *.
      unfold piece_ok in Hp. unfold piece_ascii in Hpa. bool_to_prop.
      assert (Hc : ascii c) by (unfold ascii; lia).
      destruct (lex_get_save_reading Hr Hc) as (s1 & Hg & Hl & Hsv & Hfr).
      destruct (IH f s1 rest ltac:(lia) Hok Has (read_last_reading Hl))
        as (s2 & Hrun & Hl2 & Hsv2 & Hfr2).
      exists s2. rewrite (bind_ok _ _ _ Hg). cbn [scan_string_raw].
      rewrite (eqb_false H1), (eqb_false H3).
      replace (c =? EOF) with false
        by (symmetry; apply Z.eqb_neq; unfold EOF; lia).
      unfold bind at 1, ret at 1. rewrite H2.
      split; [exact Hrun|]. split; [exact Hl2|].
      split; [rewrite Hsv2, Hsv; now list_norm|].
      eapply frame_trans; eassumption.
    + cbn [piece_text app] in *.
      destruct (shortcut_ok_inv _ Hp) as (Hsc & Hnu & He).
      assert (Hb : ascii (ch "\")) by (unfold ascii; norm_ch; lia).
      destruct (lex_get_save_reading Hr Hb) as (s1 & Hg & Hl & Hsv & Hfr).
      destruct (lex_get_save_reading (read_last_reading Hl) He)
        as (s2 & Hg2 & Hl2 & Hsv2 & Hfr2).
      destruct (IH f s2 rest ltac:(lia) Hok Has (read_last_reading Hl2))
        as (s3 & Hrun & Hl3 & Hsv3 & Hfr3).
      exists s3. rewrite (bind_ok _ _ _ Hg). cbn [scan_string_raw].
      change (ch "\" =? QUOTE) with false.
      change (ch "\" =? EOF) with false.
      change ((0 <=? ch "\") && (ch "\" <=? 31)) with false.
      change (ch "\" =? ch "\") with true. cbv iota.
      unfold bind at 1, ret at 1. cbv iota.
      rewrite (bind_ok _ _ _ Hg2). rewrite Hnu, Hsc.
      split; [exact Hrun|]. split; [exact Hl3|].
      split; [rewrite Hsv3, Hsv2, Hsv; now list_norm|].
      eapply frame_trans; [|exact Hfr3]. eapply frame_trans; eassumption.
    + cbn [piece_text app] in *.
      unfold piece_ok in Hp.
      apply andb_true_iff in Hp. destruct Hp as (Hp & X4).
      apply andb_true_iff in Hp. destruct Hp as (Hp & X3).
      apply andb_true_iff in Hp. destruct Hp as (X1 & X2).
      assert (Hb : ascii (ch "\")) by (unfold ascii; norm_ch; lia).
      assert (Hu : ascii (ch "u")) by (unfold ascii; norm_ch; lia).
      destruct (lex_get_save_reading Hr Hb) as (s1 & Hg & Hl & Hsv & Hfr).
      destruct (lex_get_save_reading (read_last_reading Hl) Hu)
        as (s2 & Hg2 & Hl2 & Hsv2 & Hfr2).
      destruct (lex_get_save_reading (read_last_reading Hl2) (isxdigit_ascii _ X1))
        as (s3 & Hg3 & Hl3 & Hsv3 & Hfr3).
      destruct (lex_get_save_reading (read_last_reading Hl3) (isxdigit_ascii _ X2))
        as (s4 & Hg4 & Hl4 & Hsv4 & Hfr4).
      destruct (lex_get_save_reading (read_last_reading Hl4) (isxdigit_ascii _ X3))
        as (s5 & Hg5 & Hl5 & Hsv5 & Hfr5).
      destruct (lex_get_save_reading (read_last_reading Hl5) (isxdigit_ascii _ X4))
        as (s6 & Hg6 & Hl6 & Hsv6 & Hfr6).
      destruct (IH f s6 rest ltac:(lia) Hok Has (read_last_reading Hl6))
        as (s7 & Hrun & Hl7 & Hsv7 & Hfr7).
      exists s7. rewrite (bind_ok _ _ _ Hg). cbn [scan_string_raw].
      change (ch "\" =? QUOTE) with false.
      change (ch "\" =? EOF) with false.
      change ((0 <=? ch "\") && (ch "\" <=? 31)) with false.
      change (ch "\" =? ch "\") with true. cbv iota.
      unfold bind at 1, ret at 1. cbv iota.
      rewrite (bind_ok _ _ _ Hg2).
      change (ch "u" =? ch "u") with true. cbv iota.
      rewrite (bind_ok _ _ _ Hg3).
      cbn [scan_hex]. rewrite X1. cbn [negb].
      repeat rewrite <- bind_assoc_at. rewrite (bind_ok _ _ _ Hg4).
      cbn [scan_hex]. rewrite X2. cbn [negb].
      repeat rewrite <- bind_assoc_at. rewrite (bind_ok _ _ _ Hg5).
      cbn [scan_hex]. rewrite X3. cbn [negb].
      repeat rewrite <- bind_assoc_at. rewrite (bind_ok _ _ _ Hg6).
      cbn [scan_hex]. rewrite X4. cbn [negb].
      repeat rewrite <- bind_assoc_at.
      split; [etransitivity; [|exact Hrun]; reflexivity|].
      split; [exact Hl7|].
      split; [rewrite Hsv7, Hsv6, Hsv5, Hsv4, Hsv3, Hsv2, Hsv; now list_norm|].
      eapply frame_trans; [exact Hfr|]. eapply frame_trans; [exact Hfr2|].
      eapply frame_trans; [exact Hfr3|]. eapply frame_trans; [exact Hfr4|].
      eapply frame_trans; [exact Hfr5|]. eapply frame_trans; [exact Hfr6|].
      exact Hfr7.
Qed.

(** [lex_scan] on a string literal with [\u]: the first pass accepts
    it, the second frees the buffer and leaves the token INVALID. *)
Lemma lex_scan_unicode_literal ws ps rest fuel (s : @lexst D) :
  forallb is_blank ws = true -> forallb piece_ok ps = true ->
  forallb piece_ascii ps = true -> existsb is_unicode ps = true ->
  (List.length ws + List.length ps < fuel)%nat -> payload_ok s ->
  can_allocate (mem s) ->
  reading view s (ws ++ literal_text ps ++ rest) ->
  exists s',
    lex_scan fuel s = Ok (TOKEN_INVALID, s') /\ reading view s' rest /\
    saved_text (lex s') = literal_text ps /\ token (lex s') = TOKEN_INVALID /\
    value (lex s') = VString None /\
    line (lex s') = line (lex s) + newlines ws /\
    nodes (mem s') = nodes (mem s) /\
    blocks (mem s') = blocks (mem (released s)) /\
    allocs (mem s') = tl (allocs (mem s)).
Proof.
  intros Hws Hok Has Hun Hfuel Hp Hal Hr.
  assert (Hq : ascii QUOTE) by (unfold ascii, QUOTE; lia).
  unfold literal_text in Hr. cbn [app] in Hr. rewrite <- app_assoc in Hr.
  cbn [app] in Hr.
  destruct (@lex_scan_enters P D view ws QUOTE (body_text ps ++ QUOTE :: rest)
              fuel s Hws eq_refl Hq ltac:(lia) Hp Hr)
    as (s2 & Hl2 & Hs2 & T2 & V2 & L2 & M2 & Hscan).
  rewrite Hscan.
  change (is_punctuation QUOTE) with false.
  change (QUOTE =? QUOTE) with true. cbv iota.
  unfold lex_scan_string.
  repeat rewrite <- bind_assoc_at.
  rewrite (bind_ok _ _ _ (lex_set_token_eq _ _)).
  set (s3 := {| lex := set_token TOKEN_INVALID (lex s2); mem := mem s2 |}).
  assert (Hr3 : reading view s3 (body_text ps ++ QUOTE :: rest))
    by exact (read_last_reading Hl2).
  destruct (@read_pieces_unicode ps fuel s3 rest ltac:(lia) Hok Has Hr3)
    as (s4 & Hrun & Hl4 & Hs4 & T4 & L4 & V4 & M4).
  rewrite (bind_run_under _ _ _ _ _ Hrun). cbv iota.
  cbn [negb].
  assert (Hal4 : can_allocate (mem s4)).
  { rewrite M4. unfold s3. cbn [mem]. rewrite M2. unfold released.
    destruct (token (lex s) =? TOKEN_STRING); cbn [mem]; [|exact Hal].
    destruct (value (lex s)) as [|[t|]| |]; exact Hal. }
  assert (Hm : on_mem malloc s4 =
               Ok (true, {| lex := lex s4; mem := allocated (mem s4) |})).
  { unfold on_mem. now rewrite (malloc_allocated Hal4). }
  repeat rewrite <- bind_assoc_at.
  rewrite (bind_ok _ _ _ Hm). cbn [negb].
  unfold bind, on_lex, gets. cbn [lex mem].
  rewrite Hs4. unfold s3 at 1. cbn [lex saved_text set_token]. rewrite Hs2.
  cbn [app tl]. rewrite (decode_escapes_pieces ps [] Hok). rewrite Hun.
  unfold on_mem, free, modify, lex_set_value, on_lex.
  cbn [lex mem set_value token allocated nodes blocks allocs set_blocks].
  unfold modify. cbn [lex mem set_value token].
  eexists. split; [rewrite T4; reflexivity|].
  split; [eapply reading_stream; [|exact (read_last_reading Hl4)]; reflexivity|].
  cbn [lex mem saved_text token value line set_token set_value nodes blocks
       allocs].
  split; [rewrite Hs4; unfold s3; cbn [lex saved_text set_token];
          rewrite Hs2; reflexivity|].
  split; [rewrite T4; reflexivity|]. split; [reflexivity|].
  split; [rewrite L4; unfold s3; cbn [lex line set_token]; exact L2|].
  rewrite M4. unfold s3. cbn [mem]. rewrite M2.
  unfold set_blocks, allocated. cbn [nodes blocks allocs].
  rewrite released_nodes, released_allocs.
  split; [reflexivity|]. split; [lia|reflexivity].
Qed.

End UnicodePieces.

(** * The loaders on the documents of the grammar *)

Section LoadersOnDocuments.

Context {P : Platform}.
Variable sp : nat -> list Z.
Hypothesis Hsp : forall i, forallb is_blank (sp i) = true.
Variable budget : nat.

Lemma json_loadf_doc (v : doc) (rest : list Z) (error : option json_error_t)
  (m : memory) :
  doc_ok v = true -> is_container v = true ->
  (List.length (doc_text sp 0 v) < budget)%nat ->
  allocs m = [] ->
  json_loadf budget (file_with (doc_text sp 0 v ++ rest)) error m =
  Ok (Some (List.length (nodes m)), error,
      {| nodes := nodes m ++ doc_cells (List.length (nodes m)) v;
         blocks := blocks m; allocs := [] |}).
Proof.
  intros Hok Hc Hb Hal. unfold json_loadf.
  rewrite (lex_init_ok fgetc feof _ m Hal). cbn [obind Z.eqb negb].
  set (s := {| ls := _; err := error |}).
  assert (Hr : reading file_view (ls s) (doc_text sp 0 v ++ rest)).
  { split; [now apply fgetc_source_ok|].
    apply (pending_source file_view). split; reflexivity. }
  assert (Hnot : token (lex (ls s)) <> TOKEN_STRING) by discriminate.
  destruct (@parse_json_doc P sp Hsp budget FILE file_view v s rest
              Hok Hc Hb Hr (@payload_ok_other _ _ Hnot) Hal)
    as ([[lx2 m2] e2] & Hpj & Hr2 & Hn2 & Hb2 & Hal2 & He2 & Ht2 & Hl2).
  cbn [ls lex mem err] in *.
  rewrite (bind_ok _ _ _ Hpj).
  unfold bind at 1, lexer at 1, lex_close. unfold bind at 1, on_lex at 1, gets at 1.
  cbn [ls lex mem err]. rewrite Ht2.
  replace (last_token v =? TOKEN_STRING) with false
    by (destruct v; try discriminate; reflexivity).
  cbn [ret finish obind ls lex mem err]. subst e2.
  rewrite (@held_other _ _ Hnot) in Hb2. cbn [s ls lex mem err] in *.
  destruct m2 as [h2 b2 a2]. cbn [nodes blocks allocs] in *. subst.
  do 3 f_equal. lia.
Qed.

Lemma json_loads_doc (v : doc) (ws after : list Z)
  (error : option json_error_t) (m : memory) :
  doc_ok v = true -> is_container v = true ->
  forallb is_blank ws = true ->
  (List.length (doc_text sp 0 v) < budget)%nat ->
  (List.length ws < budget)%nat ->
  allocs m = [] ->
  json_loads budget (c_string (doc_text sp 0 v ++ ws) (0 :: after)) error m =
  Ok (Some (List.length (nodes m)), error,
      {| nodes := nodes m ++ doc_cells (List.length (nodes m)) v;
         blocks := blocks m; allocs := [] |}).
Proof.
  intros Hok Hc Hws Hb Hbw Hal.
  destruct (@json_loads_parses P sp Hsp budget v ws (0 :: after) error m
              Hok Hc Hb Hal)
    as (s2 & -> & Hr2 & Hget & Heof & Hnot & Hm2 & He2 & _).
  destruct (@lex_scan_end P string_data_t string_view (0 :: 0 :: after) ws
              budget (ls s2) Hws Hbw
              ltac:(unfold no_token, ascii; lia)
              (@payload_ok_other _ _ Hnot)
              (string_source_end _ Hget Heof) Hr2)
    as (l3 & Hscan & _ & Ht3 & _ & _ & Hm3).
  repeat rewrite <- bind_assoc_at.
  rewrite (bind_ok _ _ _ (lexer_ok _ _ Hscan)).
  repeat rewrite <- bind_assoc_at.
  rewrite (bind_ok _ _ _ (cur_token_eq _ _)). rewrite Ht3.
  change (negb (TOKEN_EOF =? TOKEN_EOF)) with false. cbv iota.
  unfold bind at 1, ret at 1.
  unfold bind at 1, lexer at 1, lex_close.
  unfold bind at 1, on_lex at 1, gets at 1. cbn [ls lex mem err token].
  rewrite Ht3. change (TOKEN_EOF =? TOKEN_STRING) with false.
  cbn [ret finish obind ls lex mem err].
  rewrite Hm3, He2. unfold released. rewrite (eqb_false Hnot).
  cbn [mem]. now rewrite Hm2.
Qed.

End LoadersOnDocuments.

(** ** The members of the object that was parsed *)

Lemma has_key_eq (k : list Z) (l1 l2 : list (list Z)) :
  (In k l1 <-> In k l2) -> has_key k l1 = has_key k l2.
Proof.
  intros H. destruct (has_key k l2) eqn:E.
  - apply has_key_in, H, has_key_in, E.
  - apply has_key_not_in. intros H'. apply H in H'.
    apply has_key_in in H'. congruence.
Qed.

Lemma count_key_nodup (k : list Z) (l : list (list Z * nat)) :
  NoDup (map fst l) ->
  count_key k l = if has_key k (map fst l) then 1%nat else 0%nat.
Proof.
  unfold count_key. induction l as [|[k' a] r IH]; intros H; [reflexivity|].
  cbn [map fst] in H. inversion H as [|? ? Hk' Hr]; subst.
  cbn [filter fst map]. unfold has_key. cbn [existsb].
  fold (has_key k (map fst r)). rewrite (list_eqb_sym k k').
  destruct (list_eqb k' k) eqn:E.
  - apply list_eqb_true in E. subst k'. cbn [List.length orb].
    rewrite (IH Hr). apply has_key_not_in in Hk'. now rewrite Hk'.
  - cbn [orb]. now apply IH.
Qed.

Lemma last_value_none (k : list Z) (l : list (list piece * doc)) :
  last_value k l = None <-> has_key k (keys l) = false.
Proof.
  induction l as [|[k1 x] r IH]; [now split|].
  cbn [last_value keys map fst]. fold (keys r).
  unfold has_key. cbn [existsb]. fold (has_key k (keys r)).
  rewrite orb_false_iff, <- IH, (list_eqb_sym k).
  destruct (last_value k r);
    destruct (list_eqb (string_bytes k1) k); split; intros H;
    try discriminate; try tauto; destruct H; discriminate.
Qed.

(** The last member with a key: the members before it, the member and
    the members after it, which do not have the key. *)
Lemma last_member_split (k : list Z) (l : list (list piece * doc)) :
  forall b x,
    last_value k l = Some x ->
    exists pre kk post,
      l = pre ++ (kk, x) :: post /\ string_bytes kk = k /\
      has_key k (keys post) = false /\
      last_address k b l = Some (b + members_size pre)%nat.
Proof.
  induction l as [|[k1 x1] r IH]; intros b x H; [discriminate|].
  cbn [last_value last_address] in *.
  destruct (last_value k r) as [y|] eqn:E.
  - injection H as ->.
    destruct (IH (b + doc_size x1)%nat x eq_refl)
      as (pre & kk & post & -> & Hkk & Hpost & Ha).
    exists ((k1, x1) :: pre), kk, post. split; [reflexivity|].
    split; [exact Hkk|]. split; [exact Hpost|].
    rewrite Ha. cbn [members_size snd]. f_equal. lia.
  - destruct (list_eqb (string_bytes k1) k) eqn:E1; [|discriminate].
    injection H as <-. apply list_eqb_true in E1.
    apply last_value_none in E.
    exists [], k1, r. split; [reflexivity|]. split; [exact E1|].
    split; [exact E|].
    apply (last_address_none k r (b + doc_size x1)) in E. rewrite E.
    cbn [members_size]. f_equal. lia.
Qed.

Lemma firstn_skipn_mid {A} (h c t : list A) (a n : nat) :
  a = List.length h -> n = List.length c ->
  firstn n (skipn a (h ++ c ++ t)) = c.
Proof.
  intros -> ->.
  rewrite skipn_app, skipn_all, Nat.sub_diag. cbn [app skipn].
  rewrite firstn_app, firstn_all, Nat.sub_diag. cbn [firstn].
  apply app_nil_r.
Qed.

(** In the tree of an object the value of the last member with a key is
    stored, and the value of a member whose key comes again is
    released. *)
Lemma object_cells_stored {P : Platform} (h : list (option json_t))
  (pre post : list (list piece * doc)) (k : list piece) (x : doc) t :
  let b := List.length h in
  let cells := h ++ object_cells [] b (pre ++ (k, x) :: post) ++ t in
  if has_key (string_bytes k) (keys post)
  then released_cells cells (b + members_size pre) (doc_size x)
  else stored cells (b + members_size pre) x.
Proof.
  intros b cells. unfold cells.
  rewrite object_cells_app. cbn [object_cells fst snd].
  rewrite !app_nil_r.
  set (c0 := object_cells _ b pre).
  set (c2 := object_cells [] _ post).
  assert (El : (b + members_size pre)%nat = List.length (h ++ c0)).
  { unfold c0, b. now rewrite length_app, object_cells_length. }
  destruct (has_key (string_bytes k) (keys post)).
  - unfold released_cells.
    replace (h ++ (c0 ++ repeat None (doc_size x) ++ c2) ++ t)
      with ((h ++ c0) ++ repeat None (doc_size x) ++ (c2 ++ t))
      by now rewrite <- !app_assoc.
    apply firstn_skipn_mid; [exact El|now rewrite repeat_length].
  - unfold stored.
    replace (h ++ (c0 ++ doc_cells (b + members_size pre) x ++ c2) ++ t)
      with ((h ++ c0) ++ doc_cells (b + members_size pre) x ++ (c2 ++ t))
      by now rewrite <- !app_assoc.
    apply firstn_skipn_mid; [exact El|now rewrite doc_cells_length].
Qed.

(** * Documents with a Unicode escape *)

Lemma pieces_no_newline (ps : list piece) :
  forallb piece_ok ps = true -> newlines (literal_text ps) = 0.
Proof.
  intros Hok. apply newlines_none. unfold literal_text. cbn [forallb].
  rewrite forallb_app. cbn [forallb]. rewrite andb_true_r.
  change (negb (QUOTE =? 10)) with true. cbn [andb].
  induction ps as [|p ps IH]; [reflexivity|].
  cbn [forallb] in Hok. apply andb_true_iff in Hok. destruct Hok as (Hp & Hok).
  change (body_text (p :: ps)) with (piece_text p ++ body_text ps).
  rewrite forallb_app, (IH Hok), andb_true_r.
  destruct p as [c|e|h1 h2 h3 h4].
  - unfold piece_ok in Hp. bool_to_prop. cbn [piece_text forallb].
    rewrite andb_true_r. apply negb_true_iff. apply Z.eqb_neq. intros ->.
    discriminate.
  - destruct (shortcut_ok_inv _ Hp) as (Hsc & _ & _).
    cbn [piece_text forallb]. rewrite andb_true_r.
    change (negb (ch "\" =? 10)) with true. cbn [andb].
    apply negb_true_iff. apply Z.eqb_neq. intros ->. discriminate.
  - cbn [piece_ok] in Hp.
    apply andb_true_iff in Hp. destruct Hp as (Hp & X4).
    apply andb_true_iff in Hp. destruct Hp as (Hp & X3).
    apply andb_true_iff in Hp. destruct Hp as (X1 & X2).
    assert (Hx : forall h, isxdigit h = true -> negb (h =? 10) = true).
    { intros h Hh. apply negb_true_iff. apply Z.eqb_neq. intros ->.
      discriminate. }
    cbn [piece_text forallb].
    rewrite (Hx h1 X1), (Hx h2 X2), (Hx h3 X3), (Hx h4 X4). reflexivity.
Qed.

Lemma doc_size_elements (l : list doc) :
  doc_size (DArray l) = S (elements_size l).
Proof.
  induction l as [|e r IH]; [reflexivity|].
  cbn [doc_size elements_size] in *. lia.
Qed.

Lemma array_cells_length {P : Platform} (l : list doc) : forall b,
  List.length (array_cells b l) = elements_size l.
Proof.
  induction l as [|e r IH]; intros b; [reflexivity|].
  cbn [array_cells elements_size].
  now rewrite length_app, doc_cells_length, IH.
Qed.

Lemma addresses_snoc (l : list doc) (e : doc) : forall b,
  addresses b (l ++ [e]) = addresses b l ++ [(b + elements_size l)%nat].
Proof.
  induction l as [|x r IH]; intros b.
  - cbn [app addresses elements_size]. now rewrite Nat.add_0_r.
  - cbn [app addresses elements_size]. rewrite IH. do 3 f_equal. lia.
Qed.

Lemma array_cells_snoc {P : Platform} (l : list doc) (e : doc) : forall b,
  array_cells b (l ++ [e]) =
  array_cells b l ++ doc_cells (b + elements_size l) e.
Proof.
  induction l as [|x r IH]; intros b.
  - cbn [app array_cells elements_size].
    now rewrite Nat.add_0_r, app_nil_r.
  - cbn [app array_cells elements_size]. rewrite IH, <- app_assoc.
    do 3 f_equal. lia.
Qed.

(** Dropping the only reference to a tree that lies before other
    cells. *)
Lemma json_decref_tree {P : Platform} (v : doc) (m : memory) h0 more :
  nodes m = h0 ++ doc_cells (List.length h0) v ++ more ->
  json_decref (List.length h0) m =
  Ok (tt, set_nodes (h0 ++ repeat None (doc_size v) ++ more) m).
Proof.
  intros H. unfold json_decref. rewrite H.
  rewrite (@decref_doc P v _ h0 more); [reflexivity|].
  rewrite !length_app, doc_cells_length. lia.
Qed.

Lemma literal_text_length (ps : list piece) :
  (List.length ps + 2 <= List.length (literal_text ps))%nat.
Proof.
  unfold literal_text. cbn [List.length]. rewrite length_app.
  cbn [List.length]. unfold body_text.
  induction ps as [|p k IH]; [simpl; lia|].
  cbn [flat_map]. rewrite length_app. cbn [List.length] in *.
  destruct p; cbn [piece_text List.length]; lia.
Qed.

Lemma prefix_length {A} sp (f : A -> list (list Z)) (before : list A) :
  forall i more,
    (List.length before <=
     List.length (layout sp i (flat_map (fun e => f e ++ [[ch ","]]) before
                               ++ more)))%nat.
Proof.
  induction before as [|e r IH]; intros i more; [simpl; lia|].
  cbn [flat_map List.length]. rewrite <- !app_assoc, layout_app.
  cbn [app layout]. rewrite !length_app. cbn [List.length].
  specialize (IH (S (i + List.length (f e))) more). lia.
Qed.

Lemma member_text_layout sp j (m : list piece * doc) :
  member_text sp j m = layout sp j (member_tokens m).
Proof.
  unfold member_text, member_tokens. cbn [layout app].
  now rewrite doc_text_layout.
Qed.

Section Refused.

Context {P : Platform} {D : Type}.
Variable view : D -> list Z.
Variable sp : nat -> list Z.
Hypothesis Hsp : forall i, forallb is_blank (sp i) = true.
Variable budget : nat.

Implicit Types st : @parst D.

Local Abbreviation refused :=
  (fun s : spoiled => forall depth i, refuses view sp budget depth i s).

Lemma refuses_string ps : refused (SString ps).
Proof.
  intros depth i st rest Hok Hb Hd Hr Hp Hal.
  cbn [spoiled_tokens layout spoiled_ok spoiled_first spoiled_size
       spoiled_literal spoiled_message repeat] in *.
  rewrite app_nil_r in *. unfold escaped_ok in Hok.
  apply andb_true_iff in Hok. destruct Hok as (Hok & Hun).
  apply andb_true_iff in Hok. destruct Hok as (Hok & Has).
  pose proof (literal_text_length ps) as Hkl.
  rewrite length_app in Hb, Hd.
  destruct depth as [|d]; [lia|].
  rewrite <- app_assoc in Hr.
  assert (Hca : can_allocate (mem (ls st)))
    by (unfold can_allocate; now rewrite Hal).
  destruct (@lex_scan_unicode_literal P D view (sp i) ps rest budget (ls st)
              (Hsp i) Hok Has Hun ltac:(lia) Hp Hca Hr)
    as (l & Hscan & Hr1 & Hsv & Ht & Hv & Hl & Hn & Hbk & Hal1).
  set (s1 := {| ls := l; err := err st |}).
  exists s1, (set_err (error_set (err s1) (Some (lex (ls s1))) "invalid token")
                      s1).
  split; [exact (lexer_ok _ _ Hscan)|].
  split; [now apply parse_value_invalid|].
  unfold set_err, s1. cbn [ls lex mem err].
  split; [exact Hr1|].
  split; [first [exact Hn|now rewrite Hn, app_nil_r]|].
  split; [rewrite Hbk; apply released_blocks|].
  split; [now rewrite Hal1, Hal|]. split; [exact Ht|].
  split; [exact Hsv|]. split; [|reflexivity].
  rewrite Hl, !newlines_app, (pieces_no_newline ps Hok). cbn [newlines].
  lia.
Qed.

(** The loop of [parse_array] on the elements before the one that holds
    the string, and on that element. *)
Lemma parse_array_loop_refused d (s0 : spoiled) :
  (forall i, refuses view sp budget d i s0) ->
  forall before pre i fuel st rest h0,
    forallb doc_ok before = true -> spoiled_ok s0 = true ->
    (List.length
       (layout sp i (flat_map (fun e => token_texts e ++ [[ch ","]]) before
                     ++ spoiled_tokens s0)) < budget)%nat ->
    (List.length
       (layout sp i (flat_map (fun e => token_texts e ++ [[ch ","]]) before
                     ++ spoiled_tokens s0)) <= d)%nat ->
    (List.length before < fuel)%nat ->
    reading view (ls st)
      (layout sp i (flat_map (fun e => token_texts e ++ [[ch ","]]) before
                    ++ spoiled_tokens s0) ++ rest) ->
    payload_ok (ls st) -> allocs (mem (ls st)) = [] ->
    nodes (mem (ls st)) =
      h0 ++ Some {| refcount := 1;
                    body := JArray (addresses (List.length h0 + 1) pre) |}
         :: array_cells (List.length h0 + 1) pre ->
    exists tok s1 s2,
      lexer (lex_scan budget) st = Ok (tok, s1) /\
      tok <> ch "]" /\
      parse_array_loop budget (parse_value budget d) fuel (List.length h0) s1
      = Ok (None, s2) /\
      reading view (ls s2) rest /\
      nodes (mem (ls s2)) =
        h0 ++ repeat None (S (elements_size (pre ++ before) +
                              spoiled_size s0)) /\
      blocks (mem (ls s2)) = blocks (mem (ls st)) - held (ls st) /\
      allocs (mem (ls s2)) = [] /\
      token (lex (ls s2)) = TOKEN_INVALID /\
      saved_text (lex (ls s2)) = literal_text (spoiled_literal s0) /\
      line (lex (ls s2)) =
        line (lex (ls st)) +
        newlines
          (layout sp i (flat_map (fun e => token_texts e ++ [[ch ","]]) before
                        ++ spoiled_tokens s0)) /\
      err s2 = error_set (err st) (Some (lex (ls s2))) (spoiled_message s0).
Proof.
  intros H0. induction before as [|e r IH];
    intros pre i fuel st rest h0 Hok Hok0 Hb Hd Hf Hr Hp Hal Hn.
  - cbn [flat_map app] in *. rewrite app_nil_r.
    destruct (H0 i st rest Hok0 Hb Hd Hr Hp Hal)
      as (s1 & s2 & Hscan & Hpv & Hr2 & Hn2 & Hb2 & Hal2 & Ht2 & Hsv2 & Hl2
          & He2).
    destruct fuel as [|f]; [simpl in Hf; lia|].
    assert (Hdec : json_decref (List.length h0) (mem (ls s2)) =
                   Ok (tt, set_nodes
                             (h0 ++ repeat None (doc_size (DArray pre)) ++
                              repeat None (spoiled_size s0))
                             (mem (ls s2)))).
    { apply json_decref_tree. rewrite Hn2, Hn, doc_cells_array.
      rewrite <- app_assoc. cbn [app].
      now replace (S (List.length h0)) with (List.length h0 + 1)%nat by lia. }
    exists (spoiled_first s0), s1. eexists.
    split; [exact Hscan|].
    split; [destruct s0; discriminate|].
    split.
    { cbn [parse_array_loop].
      rewrite (bind_ok _ _ _ (cur_token_after_scan _ _ Hscan)).
      replace (spoiled_first s0 =? 0) with false
        by (destruct s0; reflexivity).
      rewrite (bind_ok _ _ _ Hpv). unfold release_and_fail.
      rewrite (bind_ok _ _ _ (heap_ok _ s2 Hdec)). reflexivity. }
    unfold with_mem. cbn [ls lex mem err nodes blocks allocs set_nodes].
    split; [eapply reading_stream; [|exact Hr2]; reflexivity|].
    split.
    { rewrite doc_size_elements, <- repeat_app. reflexivity. }
    split; [exact Hb2|]. split; [exact Hal2|]. split; [exact Ht2|].
    split; [exact Hsv2|]. split; [exact Hl2|]. exact He2.
  - cbn [forallb] in Hok. apply andb_true_iff in Hok.
    destruct Hok as (Hoke & Hokr).
    cbn [flat_map] in Hb, Hd, Hr |- *.
    rewrite <- !app_assoc in Hb, Hd, Hr |- *.
    rewrite layout_app in Hb, Hd, Hr |- *.
    rewrite <- doc_text_layout in Hb, Hd, Hr |- *.
    fold (tokens e) in Hb, Hd, Hr |- *.
    cbn [app layout] in Hb, Hd, Hr |- *.
    set (more := layout sp (S (i + tokens e)) _) in *.
    rewrite !length_app in Hb, Hd. cbn [List.length] in Hb, Hd, Hf.
    destruct fuel as [|f]; [lia|].
    rewrite <- app_assoc in Hr.
    destruct (@parse_array_element P D view sp budget d e i
                ((sp (i + tokens e)%nat ++ ch "," :: more) ++ rest)
                f st h0 (addresses (List.length h0 + 1) pre)
                (array_cells (List.length h0 + 1) pre)
                (@parse_value_doc P D view sp Hsp budget e) Hoke
                ltac:(lia) ltac:(lia)
                ltac:(list_norm; now apply blanks_delimited) Hr Hp Hal Hn)
      as (s1 & s3 & Hscan & Hloop & Hr3 & Hn3 & Hb3 & Hal3 & He3 & Hp3 & Hl3).
    rewrite <- app_assoc in Hr3. cbn [app] in Hr3.
    destruct (@punctuation_step P D view budget (sp (i + tokens e)%nat)
                (ch ",") _ s3 (Hsp _) eq_refl ltac:(lia) Hp3 Hr3)
      as (l4 & Hscan4 & Hr4 & Ht4 & Hl4 & Hn4 & Hal4 & Hb4).
    set (s4 := {| ls := {| lex := lex l4; mem := mem l4 |}; err := err s3 |}).
    assert (Hcomma : token (lex (ls s4)) <> TOKEN_STRING)
      by (cbn; rewrite Ht4; discriminate).
    assert (Hn4' : nodes (mem (ls s4)) =
                   h0 ++ Some {| refcount := 1;
                                 body := JArray (addresses (List.length h0 + 1)
                                                           (pre ++ [e])) |}
                      :: array_cells (List.length h0 + 1) (pre ++ [e])).
    { cbn [s4 ls mem]. rewrite Hn4, Hn3, addresses_snoc, array_cells_snoc.
      now rewrite array_cells_length. }
    unfold more in Hr4.
    edestruct (IH (pre ++ [e]) (S (i + tokens e)) f s4 rest h0)
      as (tok & s5 & s6 & Hscan5 & Htok5 & Hloop5 & Hr6 & Hn6 & Hb6 & Hal6
          & Ht6 & Hsv6 & Hl6 & He6);
      [exact Hokr|exact Hok0|unfold more in Hb; lia|unfold more in Hd; lia|lia
      |exact Hr4|exact (@payload_ok_other _ _ Hcomma)|cbn; congruence
      |exact Hn4'|].
    exists (first_token e), s1, s6. split; [exact Hscan|].
    split; [exact (proj1 (first_token_not_close e))|].
    split.
    { rewrite Hloop. rewrite (bind_ok _ _ _ Hscan4).
      rewrite (bind_ok _ _ _ (cur_token_eq _ _)). rewrite Ht4.
      change (negb (ch "," =? ch ",")) with false. cbv iota.
      fold s4. rewrite (bind_ok _ _ _ Hscan5). exact Hloop5. }
    split; [exact Hr6|].
    split; [rewrite Hn6, <- app_assoc; reflexivity|].
    rewrite (@held_other _ _ Hcomma) in Hb6.
    unfold s4 in *. cbn [ls lex mem err line] in *.
    split; [lia|]. split; [exact Hal6|]. split; [exact Ht6|].
    split; [exact Hsv6|].
    split; [|rewrite He6; congruence].
    rewrite Hl6, Hl4, Hl3. unfold more. rewrite !newlines_app.
    cbn [newlines]. change (ch "," =? 10) with false. cbv iota. lia.
Qed.


(** The loop of [parse_object] on the members before the string, when
    the turn that meets the string fails as [Hfin] says. *)
Section ObjectPrefix.

Variable d : nat.
Variable fin : list (list Z).
Variable fin_size : nat.
Variable lit : list piece.
Variable msg : string.

Hypothesis Hfin : forall pre j f st rest h0,
  (List.length (layout sp j fin) < budget)%nat ->
  (List.length (layout sp j fin) <= d)%nat ->
  reading view (ls st) (layout sp j fin ++ rest) ->
  payload_ok (ls st) -> allocs (mem (ls st)) = [] ->
  nodes (mem (ls st)) =
    h0 ++ Some {| refcount := 1;
                  body := JObject (member_addresses (List.length h0 + 1)
                                                    pre) |}
       :: object_cells [] (List.length h0 + 1) pre ->
  exists tok s1 s2,
    lexer (lex_scan budget) st = Ok (tok, s1) /\
    tok <> ch "}" /\
    parse_object_loop budget (parse_value budget d) (S f) (List.length h0) s1
    = Ok (None, s2) /\
    reading view (ls s2) rest /\
    nodes (mem (ls s2)) =
      h0 ++ repeat None (S (members_size pre + fin_size)) /\
    blocks (mem (ls s2)) = blocks (mem (ls st)) - held (ls st) /\
    allocs (mem (ls s2)) = [] /\
    token (lex (ls s2)) = TOKEN_INVALID /\
    saved_text (lex (ls s2)) = literal_text lit /\
    line (lex (ls s2)) = line (lex (ls st)) + newlines (layout sp j fin) /\
    err s2 = error_set (err st) (Some (lex (ls s2))) msg.

Lemma parse_object_loop_refused :
  forall before pre i fuel st rest h0,
    forallb (fun m => string_ok (fst m) && doc_ok (snd m)) before = true ->
    (List.length
       (layout sp i (flat_map (fun m => member_tokens m ++ [[ch ","]]) before
                     ++ fin)) < budget)%nat ->
    (List.length
       (layout sp i (flat_map (fun m => member_tokens m ++ [[ch ","]]) before
                     ++ fin)) <= d)%nat ->
    (List.length before < fuel)%nat ->
    reading view (ls st)
      (layout sp i (flat_map (fun m => member_tokens m ++ [[ch ","]]) before
                    ++ fin) ++ rest) ->
    payload_ok (ls st) -> allocs (mem (ls st)) = [] ->
    nodes (mem (ls st)) =
      h0 ++ Some {| refcount := 1;
                    body := JObject (member_addresses (List.length h0 + 1)
                                                      pre) |}
         :: object_cells [] (List.length h0 + 1) pre ->
    exists tok s1 s2,
      lexer (lex_scan budget) st = Ok (tok, s1) /\
      tok <> ch "}" /\
      parse_object_loop budget (parse_value budget d) fuel (List.length h0) s1
      = Ok (None, s2) /\
      reading view (ls s2) rest /\
      nodes (mem (ls s2)) =
        h0 ++ repeat None (S (members_size (pre ++ before) + fin_size)) /\
      blocks (mem (ls s2)) = blocks (mem (ls st)) - held (ls st) /\
      allocs (mem (ls s2)) = [] /\
      token (lex (ls s2)) = TOKEN_INVALID /\
      saved_text (lex (ls s2)) = literal_text lit /\
      line (lex (ls s2)) =
        line (lex (ls st)) +
        newlines
          (layout sp i (flat_map (fun m => member_tokens m ++ [[ch ","]])
                                 before ++ fin)) /\
      err s2 = error_set (err st) (Some (lex (ls s2))) msg.
Proof.
  induction before as [|[k x] r IH];
    intros pre i fuel st rest h0 Hok Hb Hd Hf Hr Hp Hal Hn.
  - cbn [flat_map app] in *. rewrite app_nil_r.
    destruct fuel as [|f]; [simpl in Hf; lia|].
    exact (Hfin pre i f st rest h0 Hb Hd Hr Hp Hal Hn).
  - cbn [forallb fst snd] in Hok. apply andb_true_iff in Hok.
    destruct Hok as (Hok & Hokr).
    apply andb_true_iff in Hok. destruct Hok as (Hk & Hokx).
    cbn [flat_map] in Hb, Hd, Hr |- *.
    rewrite <- !app_assoc in Hb, Hd, Hr |- *.
    rewrite layout_app in Hb, Hd, Hr |- *.
    rewrite <- member_text_layout in Hb, Hd, Hr |- *.
    replace (List.length (member_tokens (k, x))) with (S (S (tokens x)))
      in Hb, Hd, Hr |- * by reflexivity.
    cbn [app layout] in Hb, Hd, Hr |- *.
    set (j := (i + S (S (tokens x)))%nat) in *.
    set (more := layout sp (S j) _) in *.
    rewrite !length_app in Hb, Hd. cbn [List.length] in Hb, Hd, Hf.
    destruct fuel as [|f]; [lia|].
    rewrite <- app_assoc in Hr.
    destruct (@parse_object_member P D view sp Hsp budget d k x i
                ((sp j ++ ch "," :: more) ++ rest) f st h0 pre
                (@parse_value_doc P D view sp Hsp budget x) Hk Hokx
                ltac:(lia) ltac:(lia)
                ltac:(list_norm; now apply blanks_delimited) Hr Hp Hal Hn)
      as (s1 & s3 & Hscan & Hloop & Hr3 & Hn3 & Hb3 & Hal3 & He3 & Hp3 & Hl3).
    rewrite <- app_assoc in Hr3. cbn [app] in Hr3.
    destruct (@punctuation_step P D view budget (sp j) (ch ",") _ s3 (Hsp _)
                eq_refl ltac:(lia) Hp3 Hr3)
      as (l4 & Hscan4 & Hr4 & Ht4 & Hl4 & Hn4 & Hal4 & Hb4).
    set (s4 := {| ls := {| lex := lex l4; mem := mem l4 |}; err := err s3 |}).
    assert (Hcomma : token (lex (ls s4)) <> TOKEN_STRING)
      by (cbn; rewrite Ht4; discriminate).
    unfold more in Hr4.
    edestruct (IH (pre ++ [(k, x)]) (S j) f s4 rest h0)
      as (tok & s5 & s6 & Hscan5 & Htok5 & Hloop5 & Hr6 & Hn6 & Hb6 & Hal6
          & Ht6 & Hsv6 & Hl6 & He6);
      [exact Hokr|unfold more in Hb; lia|unfold more in Hd; lia|lia
      |exact Hr4|exact (@payload_ok_other _ _ Hcomma)|cbn; congruence
      |cbn; rewrite Hn4, Hn3; reflexivity|].
    exists TOKEN_STRING, s1, s6. split; [exact Hscan|].
    split; [discriminate|].
    split.
    { rewrite Hloop. rewrite (bind_ok _ _ _ Hscan4).
      rewrite (bind_ok _ _ _ (cur_token_eq _ _)). rewrite Ht4.
      change (negb (ch "," =? ch ",")) with false. cbv iota.
      fold s4. rewrite (bind_ok _ _ _ Hscan5). exact Hloop5. }
    split; [exact Hr6|].
    split; [rewrite Hn6, <- app_assoc; reflexivity|].
    rewrite (@held_other _ _ Hcomma) in Hb6.
    unfold s4 in *. cbn [ls lex mem err line] in *.
    split; [lia|]. split; [exact Hal6|]. split; [exact Ht6|].
    split; [exact Hsv6|].
    split; [|rewrite He6; congruence].
    rewrite Hl6, Hl4, Hl3. unfold more. rewrite !newlines_app.
    cbn [newlines]. change (ch "," =? 10) with false. cbv iota. lia.
Qed.

End ObjectPrefix.


(** The turn of the loop of [parse_object] that meets a key with a
    [\u] escape. *)
Lemma object_key_refused d ps :
  escaped_ok ps = true ->
  forall pre j f st rest h0,
    (List.length (layout sp j [literal_text ps]) < budget)%nat ->
    (List.length (layout sp j [literal_text ps]) <= d)%nat ->
    reading view (ls st) (layout sp j [literal_text ps] ++ rest) ->
    payload_ok (ls st) -> allocs (mem (ls st)) = [] ->
    nodes (mem (ls st)) =
      h0 ++ Some {| refcount := 1;
                    body := JObject (member_addresses (List.length h0 + 1)
                                                      pre) |}
         :: object_cells [] (List.length h0 + 1) pre ->
    exists tok s1 s2,
      lexer (lex_scan budget) st = Ok (tok, s1) /\
      tok <> ch "}" /\
      parse_object_loop budget (parse_value budget d) (S f) (List.length h0) s1
      = Ok (None, s2) /\
      reading view (ls s2) rest /\
      nodes (mem (ls s2)) = h0 ++ repeat None (S (members_size pre + 0)) /\
      blocks (mem (ls s2)) = blocks (mem (ls st)) - held (ls st) /\
      allocs (mem (ls s2)) = [] /\
      token (lex (ls s2)) = TOKEN_INVALID /\
      saved_text (lex (ls s2)) = literal_text ps /\
      line (lex (ls s2)) =
        line (lex (ls st)) + newlines (layout sp j [literal_text ps]) /\
      err s2 =
        error_set (err st) (Some (lex (ls s2))) "string or '}' expected".
Proof.
  intros Hok pre j f st rest h0 Hb Hd Hr Hp Hal Hn.
  cbn [layout] in *. rewrite app_nil_r in Hb, Hd, Hr |- *.
  unfold escaped_ok in Hok.
  apply andb_true_iff in Hok. destruct Hok as (Hok & Hun).
  apply andb_true_iff in Hok. destruct Hok as (Hok & Has).
  pose proof (literal_text_length ps) as Hkl.
  rewrite length_app in Hb, Hd. rewrite <- app_assoc in Hr.
  assert (Hca : can_allocate (mem (ls st)))
    by (unfold can_allocate; now rewrite Hal).
  destruct (@lex_scan_unicode_literal P D view (sp j) ps rest budget (ls st)
              (Hsp j) Hok Has Hun ltac:(lia) Hp Hca Hr)
    as (l & Hscan & Hr1 & Hsv & Ht & Hv & Hl & Hn1 & Hbk & Hal1).
  set (s1 := {| ls := l; err := err st |}).
  assert (Hdec : json_decref (List.length h0) (mem l) =
                 Ok (tt, set_nodes
                           (h0 ++ repeat None (doc_size (DObject pre)) ++ [])
                           (mem l))).
  { apply json_decref_tree.
    rewrite Hn1, Hn, doc_cells_object, app_nil_r. cbn [app].
    now replace (S (List.length h0)) with (List.length h0 + 1)%nat by lia. }
  exists TOKEN_INVALID, s1. eexists.
  split; [exact (lexer_ok _ _ Hscan)|].
  split; [discriminate|].
  split.
  { cbn [parse_object_loop]. unfold s1.
    rewrite (bind_ok _ _ _ (cur_token_eq _ _)). cbn [lex token]. rewrite Ht.
    change (negb (TOKEN_INVALID =? TOKEN_STRING)) with true. cbv iota.
    unfold bind at 1, parse_error at 1, modify at 1.
    unfold release_and_fail, set_err. cbn [ls err lex mem].
    rewrite (bind_ok _ _ _
               (heap_ok _ {| ls := {| lex := lex l; mem := mem l |};
                             err := _ |} Hdec)).
    reflexivity. }
  unfold with_mem.
  cbn [ls lex mem err nodes blocks allocs set_nodes].
  split; [eapply reading_stream; [|exact Hr1]; reflexivity|].
  split.
  { rewrite app_nil_r, doc_size_members, Nat.add_0_r. reflexivity. }
  split; [rewrite Hbk; apply released_blocks|].
  split; [now rewrite Hal1, Hal|]. split; [exact Ht|].
  split; [exact Hsv|]. split; [|reflexivity].
  rewrite Hl, !newlines_app, (pieces_no_newline ps Hok). cbn [newlines]. lia.
Qed.

(** The turn that meets a member whose value holds the string. *)
Lemma object_member_refused d k (s0 : spoiled) :
  (forall i, refuses view sp budget d i s0) ->
  string_ok k = true -> spoiled_ok s0 = true ->
  forall pre j f st rest h0,
    (List.length
       (layout sp j (literal_text k :: [ch ":"] :: spoiled_tokens s0))
     < budget)%nat ->
    (List.length
       (layout sp j (literal_text k :: [ch ":"] :: spoiled_tokens s0))
     <= d)%nat ->
    reading view (ls st)
      (layout sp j (literal_text k :: [ch ":"] :: spoiled_tokens s0) ++ rest) ->
    payload_ok (ls st) -> allocs (mem (ls st)) = [] ->
    nodes (mem (ls st)) =
      h0 ++ Some {| refcount := 1;
                    body := JObject (member_addresses (List.length h0 + 1)
                                                      pre) |}
         :: object_cells [] (List.length h0 + 1) pre ->
    exists tok s1 s2,
      lexer (lex_scan budget) st = Ok (tok, s1) /\
      tok <> ch "}" /\
      parse_object_loop budget (parse_value budget d) (S f) (List.length h0) s1
      = Ok (None, s2) /\
      reading view (ls s2) rest /\
      nodes (mem (ls s2)) =
        h0 ++ repeat None (S (members_size pre + spoiled_size s0)) /\
      blocks (mem (ls s2)) = blocks (mem (ls st)) - held (ls st) /\
      allocs (mem (ls s2)) = [] /\
      token (lex (ls s2)) = TOKEN_INVALID /\
      saved_text (lex (ls s2)) = literal_text (spoiled_literal s0) /\
      line (lex (ls s2)) =
        line (lex (ls st)) +
        newlines
          (layout sp j (literal_text k :: [ch ":"] :: spoiled_tokens s0)) /\
      err s2 = error_set (err st) (Some (lex (ls s2))) (spoiled_message s0).
Proof.
  intros H0 Hk Hok0 pre j f st rest h0 Hb Hd Hr Hp Hal Hn.
  cbn [layout app] in Hb, Hd, Hr |- *.
  set (text0 := layout sp (S (S j)) (spoiled_tokens s0)) in *.
  repeat (rewrite length_app in Hb, Hd; cbn [List.length] in Hb, Hd).
  pose proof (literal_text_length k) as Hkl.
  repeat rewrite <- app_assoc in Hr. cbn [app] in Hr.
  (* the key *)
  destruct (@string_step P D view budget (sp j) k _ st (Hsp _) Hk
              ltac:(lia) Hp Hal Hr)
    as ([lx1 m1] & Hscan1 & Hr1 & Ht1 & Hv1 & Hl1 & Hn1 & Hal1 & Hb1).
  cbn [lex mem] in *.
  set (s1 := {| ls := {| lex := lx1; mem := m1 |}; err := err st |}).
  (* strdup *)
  pose proof (heap_malloc_ok s1 Hal1) as Hdup.
  set (s2 := with_mem (allocated (mem (ls s1))) s1) in Hdup.
  (* the colon *)
  assert (Hp2 : payload_ok (ls s2)).
  { intros _. cbn. rewrite Hv1. now eexists. }
  assert (Hheld2 : held (ls s2) = 1).
  { unfold held. cbn. now rewrite Ht1, Hv1. }
  destruct (@punctuation_step P D view budget (sp (S j)) (ch ":")
              (text0 ++ rest) s2 (Hsp _) eq_refl ltac:(lia) Hp2 Hr1)
    as ([lx3 m3] & Hscan3 & Hr3 & Ht3 & Hl3 & Hn3 & Hal3 & Hb3).
  cbn [lex mem] in *.
  set (s3 := {| ls := {| lex := lx3; mem := m3 |}; err := err s2 |}) in *.
  assert (Hcolon : token (lex (ls s3)) <> TOKEN_STRING)
    by (cbn; rewrite Ht3; discriminate).
  assert (Hheld3 : held (ls s3) = 0) by exact (@held_other _ _ Hcolon).
  assert (Hb3' : blocks m3 = blocks m1).
  { rewrite Hb3, Hheld2. unfold s2, s1, with_mem, allocated. cbn. lia. }
  assert (Hal3' : allocs m3 = []).
  { rewrite Hal3. unfold s2, s1, with_mem, allocated. cbn. now rewrite Hal1. }
  (* the value *)
  unfold text0 in Hr3, Hb, Hd.
  destruct (H0 (S (S j)) s3 rest Hok0 ltac:(lia) ltac:(lia) Hr3
              (@payload_ok_other _ _ Hcolon) Hal3')
    as (s4 & s5 & Hscan4 & Hpv & Hr5 & Hn5 & Hb5 & Hal5 & Ht5 & Hsv5 & Hl5
        & He5).
  assert (Hfree : heap free s5 =
                  Ok (tt, with_mem (set_blocks (blocks (mem (ls s5)) - 1)
                                               (mem (ls s5))) s5))
    by (apply heap_ok; reflexivity).
  set (s6 := with_mem _ s5) in Hfree.
  assert (Hdec : json_decref (List.length h0) (mem (ls s6)) =
                 Ok (tt, set_nodes
                           (h0 ++ repeat None (doc_size (DObject pre)) ++
                            repeat None (spoiled_size s0))
                           (mem (ls s6)))).
  { apply json_decref_tree. cbn [s6 with_mem ls mem set_blocks nodes].
    rewrite Hn5. cbn [s3 ls mem]. rewrite Hn3. cbn [s2 s1 with_mem ls mem
      allocated nodes]. rewrite Hn1, Hn, doc_cells_object.
    rewrite <- app_assoc. cbn [app].
    now replace (S (List.length h0)) with (List.length h0 + 1)%nat by lia. }
  exists TOKEN_STRING, s1. eexists. split; [exact Hscan1|].
  split; [discriminate|].
  split.
  { cbn [parse_object_loop]. unfold s1.
    rewrite (bind_ok _ _ _ (cur_token_eq _ _)). cbn [lex token]. rewrite Ht1.
    change (negb (TOKEN_STRING =? TOKEN_STRING)) with false. cbv iota.
    unfold bind at 1, lexer at 1, on_lex at 1, gets at 1.
    cbn [ls lex mem err value]. rewrite Hv1.
    rewrite (bind_ok _ _ _ Hdup).
    cbn [negb]. cbv iota.
    rewrite (bind_ok _ _ _ Hscan3).
    rewrite (bind_ok _ _ _ (cur_token_after_scan _ _ Hscan3)).
    change (negb (ch ":" =? ch ":")) with false. cbv iota.
    rewrite (bind_ok _ _ _ Hscan4).
    rewrite (bind_ok _ _ _ Hpv).
    rewrite (bind_ok _ _ _ Hfree). unfold release_and_fail.
    rewrite (bind_ok _ _ _ (heap_ok _ s6 Hdec)). reflexivity. }
  unfold with_mem, s6, with_mem.
  cbn [ls lex mem err nodes blocks allocs set_nodes set_blocks].
  split; [eapply reading_stream; [|exact Hr5]; reflexivity|].
  split.
  { rewrite doc_size_members, <- repeat_app. reflexivity. }
  split.
  { rewrite Hb5, Hheld3. cbn [s3 ls mem]. rewrite Hb3'. lia. }
  split; [exact Hal5|]. split; [exact Ht5|]. split; [exact Hsv5|].
  split; [|exact He5].
  rewrite Hl5. cbn [s3 ls lex]. rewrite Hl3. cbn [s2 s1 with_mem ls lex].
  rewrite Hl1. fold text0. rewrite !newlines_app. cbn [newlines].
  rewrite (literal_text_no_newline k Hk).
  change (ch ":" =? 10) with false. cbv iota. lia.
Qed.


Lemma array_refused (before : list doc) (s0 : spoiled) :
  refused s0 -> refused (SElement before s0).
Proof.
  intros IH depth i st rest Hok Hb Hd Hr Hp Hal.
  cbn [spoiled_tokens layout spoiled_ok spoiled_first spoiled_size
       spoiled_literal spoiled_message app] in *.
  apply andb_true_iff in Hok. destruct Hok as (Hokb & Hok0).
  set (toks := flat_map (fun e => token_texts e ++ [[ch ","]]) before ++
               spoiled_tokens s0) in *.
  rewrite length_app in Hb, Hd. cbn [List.length] in Hb, Hd.
  destruct depth as [|d]; [lia|].
  rewrite <- app_assoc in Hr. cbn [app] in Hr.
  destruct (@punctuation_step P D view budget (sp i) (ch "[")
              (layout sp (S i) toks ++ rest) st (Hsp _) eq_refl ltac:(lia)
              Hp Hr)
    as (l1 & Hscan1 & Hr1 & Ht1 & Hl1 & Hn1 & Hal1 & Hb1).
  rewrite Hal in Hal1.
  pose proof (proj2 (proj2 (proj2 (parse_json_container_check _ _ Hscan1))
                           eq_refl) d) as Hpv.
  set (s1 := {| ls := l1; err := err st |}) in *.
  pose proof (heap_new_ok (JArray []) s1 Hal1) as Hnew.
  cbn [s1 ls] in Hnew. rewrite Hn1 in Hnew.
  set (s2 := with_mem _ s1) in Hnew.
  assert (Hnot2 : token (lex (ls s2)) <> TOKEN_STRING)
    by (cbn; rewrite Ht1; discriminate).
  assert (Hrs : forall cs, reading view l1 cs -> reading view (ls s2) cs).
  { intros cs H. eapply reading_stream; [|exact H]. reflexivity. }
  pose proof (@prefix_length doc sp token_texts before (S i)
                (spoiled_tokens s0)) as Hlen.
  fold toks in Hlen.
  destruct (@parse_array_loop_refused d s0 (fun j => IH d j) before [] (S i)
              budget s2 rest (nodes (mem (ls st))) Hokb Hok0
              ltac:(unfold toks in *; lia) ltac:(unfold toks in *; lia)
              ltac:(lia) (Hrs _ Hr1) (@payload_ok_other _ _ Hnot2) Hal1
              eq_refl)
    as (tok & s3 & s4 & Hscan3 & Htok & Hloop & Hr4 & Hn4 & Hb4 & Hal4 & Ht4
        & Hsv4 & Hl4 & He4).
  exists s1, s4. split; [exact Hscan1|].
  split.
  { rewrite Hpv. unfold parse_array. rewrite (bind_ok _ _ _ Hnew).
    rewrite (bind_ok _ _ _ Hscan3).
    rewrite (bind_ok _ _ _ (cur_token_after_scan _ _ Hscan3)).
    rewrite (eqb_false Htok). exact Hloop. }
  split; [exact Hr4|].
  split; [rewrite Hn4; reflexivity|].
  split.
  { rewrite Hb4, (@held_other _ _ Hnot2). cbn. rewrite Hb1. lia. }
  split; [exact Hal4|]. split; [exact Ht4|]. split; [exact Hsv4|].
  split; [|rewrite He4; reflexivity].
  rewrite Hl4. cbn [s2 s1 with_mem ls lex]. rewrite Hl1. fold toks.
  rewrite !newlines_app. cbn [newlines].
  change (ch "[" =? 10) with false. cbv iota. lia.
Qed.

(** An object whose loop fails at the string as [Hfin] says. *)
Lemma object_refused (before : list (list piece * doc))
  (fin : list (list Z)) (fin_size : nat) (lit : list piece) (msg : string) :
  (forall d pre j f st rest h0,
     (List.length (layout sp j fin) < budget)%nat ->
     (List.length (layout sp j fin) <= d)%nat ->
     reading view (ls st) (layout sp j fin ++ rest) ->
     payload_ok (ls st) -> allocs (mem (ls st)) = [] ->
     nodes (mem (ls st)) =
       h0 ++ Some {| refcount := 1;
                     body := JObject (member_addresses (List.length h0 + 1)
                                                       pre) |}
          :: object_cells [] (List.length h0 + 1) pre ->
     exists tok s1 s2,
       lexer (lex_scan budget) st = Ok (tok, s1) /\
       tok <> ch "}" /\
       parse_object_loop budget (parse_value budget d) (S f) (List.length h0) s1
       = Ok (None, s2) /\
       reading view (ls s2) rest /\
       nodes (mem (ls s2)) =
         h0 ++ repeat None (S (members_size pre + fin_size)) /\
       blocks (mem (ls s2)) = blocks (mem (ls st)) - held (ls st) /\
       allocs (mem (ls s2)) = [] /\
       token (lex (ls s2)) = TOKEN_INVALID /\
       saved_text (lex (ls s2)) = literal_text lit /\
       line (lex (ls s2)) = line (lex (ls st)) + newlines (layout sp j fin) /\
       err s2 = error_set (err st) (Some (lex (ls s2))) msg) ->
  forallb (fun m => string_ok (fst m) && doc_ok (snd m)) before = true ->
  forall depth i st rest,
    let toks := flat_map (fun m => member_tokens m ++ [[ch ","]]) before ++
                fin in
    (List.length (layout sp i ([ch "{"] :: toks)) < budget)%nat ->
    (List.length (layout sp i ([ch "{"] :: toks)) <= depth)%nat ->
    reading view (ls st) (layout sp i ([ch "{"] :: toks) ++ rest) ->
    payload_ok (ls st) -> allocs (mem (ls st)) = [] ->
    exists s1 s2,
      lexer (lex_scan budget) st = Ok (ch "{", s1) /\
      parse_value budget depth s1 = Ok (None, s2) /\
      reading view (ls s2) rest /\
      nodes (mem (ls s2)) =
        nodes (mem (ls st)) ++
        repeat None (S (members_size before + fin_size)) /\
      blocks (mem (ls s2)) = blocks (mem (ls st)) - held (ls st) /\
      allocs (mem (ls s2)) = [] /\
      token (lex (ls s2)) = TOKEN_INVALID /\
      saved_text (lex (ls s2)) = literal_text lit /\
      line (lex (ls s2)) =
        line (lex (ls st)) + newlines (layout sp i ([ch "{"] :: toks)) /\
      err s2 = error_set (err st) (Some (lex (ls s2))) msg.
Proof.
  intros Hfin Hokb depth i st rest toks Hb Hd Hr Hp Hal.
  cbn [layout app] in *.
  rewrite length_app in Hb, Hd. cbn [List.length] in Hb, Hd.
  destruct depth as [|d]; [lia|].
  rewrite <- app_assoc in Hr. cbn [app] in Hr.
  destruct (@punctuation_step P D view budget (sp i) (ch "{")
              (layout sp (S i) toks ++ rest) st (Hsp _) eq_refl ltac:(lia)
              Hp Hr)
    as (l1 & Hscan1 & Hr1 & Ht1 & Hl1 & Hn1 & Hal1 & Hb1).
  rewrite Hal in Hal1.
  pose proof (proj2 (proj1 (proj2 (parse_json_container_check _ _ Hscan1))
                           eq_refl) d) as Hpv.
  set (s1 := {| ls := l1; err := err st |}) in *.
  pose proof (heap_new_ok (JObject []) s1 Hal1) as Hnew.
  cbn [s1 ls] in Hnew. rewrite Hn1 in Hnew.
  set (s2 := with_mem _ s1) in Hnew.
  assert (Hnot2 : token (lex (ls s2)) <> TOKEN_STRING)
    by (cbn; rewrite Ht1; discriminate).
  assert (Hrs : forall cs, reading view l1 cs -> reading view (ls s2) cs).
  { intros cs H. eapply reading_stream; [|exact H]. reflexivity. }
  pose proof (@prefix_length (list piece * doc) sp member_tokens before (S i)
                fin) as Hlen.
  fold toks in Hlen.
  destruct (@parse_object_loop_refused d fin fin_size lit msg (Hfin d)
              before [] (S i) budget s2 rest (nodes (mem (ls st))) Hokb
              ltac:(unfold toks in *; lia) ltac:(unfold toks in *; lia)
              ltac:(lia) (Hrs _ Hr1) (@payload_ok_other _ _ Hnot2) Hal1
              eq_refl)
    as (tok & s3 & s4 & Hscan3 & Htok & Hloop & Hr4 & Hn4 & Hb4 & Hal4 & Ht4
        & Hsv4 & Hl4 & He4).
  exists s1, s4. split; [exact Hscan1|].
  split.
  { rewrite Hpv. unfold parse_object. rewrite (bind_ok _ _ _ Hnew).
    rewrite (bind_ok _ _ _ Hscan3).
    rewrite (bind_ok _ _ _ (cur_token_after_scan _ _ Hscan3)).
    rewrite (eqb_false Htok). exact Hloop. }
  split; [exact Hr4|].
  split; [rewrite Hn4; reflexivity|].
  split.
  { rewrite Hb4, (@held_other _ _ Hnot2). cbn. rewrite Hb1. lia. }
  split; [exact Hal4|]. split; [exact Ht4|]. split; [exact Hsv4|].
  split; [|rewrite He4; reflexivity].
  rewrite Hl4. cbn [s2 s1 with_mem ls lex]. rewrite Hl1. fold toks.
  rewrite !newlines_app. cbn [newlines].
  change (ch "{" =? 10) with false. cbv iota. lia.
Qed.

(** A text cut at a string with a [\u] escape is refused. *)
Lemma parse_value_refuses (s : spoiled) : refused s.
Proof.
  induction s as [ps|before s0 IH|before ps|before k s0 IH].
  - apply refuses_string.
  - now apply array_refused.
  - intros depth i st rest Hok Hb Hd Hr Hp Hal.
    cbn [spoiled_ok] in Hok. apply andb_true_iff in Hok.
    destruct Hok as (Hokb & Hokp).
    pose proof (@object_refused before [literal_text ps] 0 ps
                  "string or '}' expected"
                  (fun d => @object_key_refused d ps Hokp) Hokb
                  depth i st rest Hb Hd Hr Hp Hal) as H.
    rewrite Nat.add_0_r in H. exact H.
  - intros depth i st rest Hok Hb Hd Hr Hp Hal.
    cbn [spoiled_ok] in Hok. apply andb_true_iff in Hok.
    destruct Hok as (Hok & Hok0). apply andb_true_iff in Hok.
    destruct Hok as (Hokb & Hk).
    exact (@object_refused before
             (literal_text k :: [ch ":"] :: spoiled_tokens s0)
             (spoiled_size s0) (spoiled_literal s0) (spoiled_message s0)
             (fun d => @object_member_refused d k s0 (fun j => IH d j) Hk Hok0)
             Hokb depth i st rest Hb Hd Hr Hp Hal).
Qed.

End Refused.

Section RefusedDocuments.

Context {P : Platform}.
Variable sp : nat -> list Z.
Hypothesis Hsp : forall i, forallb is_blank (sp i) = true.
Variable budget : nat.

Lemma parse_json_refuses {D} (view : D -> list Z) (s : spoiled)
  (st : @parst D) (rest : list Z) :
  spoiled_ok s = true -> spoiled_container s = true ->
  (List.length (layout sp 0 (spoiled_tokens s)) < budget)%nat ->
  reading view (ls st) (layout sp 0 (spoiled_tokens s) ++ rest) ->
  payload_ok (ls st) -> allocs (mem (ls st)) = [] ->
  exists s2,
    parse_json budget st = Ok (None, s2) /\
    reading view (ls s2) rest /\
    nodes (mem (ls s2)) =
      nodes (mem (ls st)) ++ repeat None (spoiled_size s) /\
    blocks (mem (ls s2)) = blocks (mem (ls st)) - held (ls st) /\
    allocs (mem (ls s2)) = [] /\
    token (lex (ls s2)) = TOKEN_INVALID /\
    saved_text (lex (ls s2)) = literal_text (spoiled_literal s) /\
    line (lex (ls s2)) =
      line (lex (ls st)) + newlines (layout sp 0 (spoiled_tokens s)) /\
    err s2 = error_set (err st) (Some (lex (ls s2))) (spoiled_message s).
Proof.
  intros Hok Hc Hb Hr Hp Hal.
  destruct (@parse_value_refuses P D view sp Hsp budget s budget 0%nat st rest
              Hok Hb ltac:(lia) Hr Hp Hal)
    as (s1 & s2 & Hscan & Hpv & H).
  exists s2. split; [|exact H].
  destruct s as [ps|before s0|before ps|before k s0]; [discriminate| | |];
    cbn [spoiled_first] in Hscan.
  - rewrite (proj1 (proj2 (proj2 (parse_json_container_check _ _ Hscan))
                          eq_refl)). exact Hpv.
  - rewrite (proj1 (proj1 (proj2 (parse_json_container_check _ _ Hscan))
                          eq_refl)). exact Hpv.
  - rewrite (proj1 (proj1 (proj2 (parse_json_container_check _ _ Hscan))
                          eq_refl)). exact Hpv.
Qed.

(** [json_loadf] on a file whose text holds a string with a [\u] escape
    inside the top-level value. *)
Lemma json_loadf_refuses (s : spoiled) (rest : list Z)
  (error : option json_error_t) (m : memory) :
  spoiled_ok s = true -> spoiled_container s = true ->
  (List.length (layout sp 0 (spoiled_tokens s)) < budget)%nat ->
  allocs m = [] ->
  exists lx : @lex_t FILE,
    json_loadf budget (file_with (layout sp 0 (spoiled_tokens s) ++ rest))
               error m =
    Ok (None, error_set error (Some lx) (spoiled_message s),
        {| nodes := nodes m ++ repeat None (spoiled_size s);
           blocks := blocks m; allocs := [] |}) /\
    token lx = TOKEN_INVALID /\
    saved_text lx = literal_text (spoiled_literal s) /\
    line lx = 1 + newlines (layout sp 0 (spoiled_tokens s)).
Proof.
  intros Hok Hc Hb Hal. unfold json_loadf.
  rewrite (lex_init_ok fgetc feof _ m Hal). cbn [obind Z.eqb negb].
  set (st := {| ls := _; err := error |}).
  assert (Hr : reading file_view (ls st)
                 (layout sp 0 (spoiled_tokens s) ++ rest)).
  { split; [now apply fgetc_source_ok|].
    apply (pending_source file_view). split; reflexivity. }
  assert (Hnot : token (lex (ls st)) <> TOKEN_STRING) by discriminate.
  destruct (@parse_json_refuses FILE file_view s st rest Hok Hc Hb Hr
              (@payload_ok_other _ _ Hnot) Hal)
    as ([[lx2 m2] e2] & Hpj & Hr2 & Hn2 & Hb2 & Hal2 & Ht2 & Hsv2 & Hl2 & He2).
  cbn [ls lex mem err] in *.
  exists lx2. split; [|split; [exact Ht2|split; [exact Hsv2|exact Hl2]]].
  rewrite (bind_ok _ _ _ Hpj).
  unfold bind at 1, lexer at 1, lex_close.
  unfold bind at 1, on_lex at 1, gets at 1.
  cbn [ls lex mem err]. rewrite Ht2.
  change (TOKEN_INVALID =? TOKEN_STRING) with false.
  cbn [ret finish obind ls lex mem err]. rewrite He2.
  rewrite (@held_other _ _ Hnot) in Hb2. cbn [st ls lex mem err] in *.
  destruct m2 as [h2 b2 a2]. cbn [nodes blocks allocs] in *. subst.
  do 3 f_equal. lia.
Qed.

(** [json_loads] on a string whose text holds a string with a [\u]
    escape inside the top-level value; the bytes [rest] after that
    string are not read. *)
Lemma json_loads_refuses (s : spoiled) (rest : list Z)
  (error : option json_error_t) (m : memory) :
  spoiled_ok s = true -> spoiled_container s = true ->
  (List.length (layout sp 0 (spoiled_tokens s)) < budget)%nat ->
  allocs m = [] ->
  exists lx : @lex_t string_data_t,
    json_loads budget (layout sp 0 (spoiled_tokens s) ++ rest) error m =
    Ok (None, error_set error (Some lx) (spoiled_message s),
        {| nodes := nodes m ++ repeat None (spoiled_size s);
           blocks := blocks m; allocs := [] |}) /\
    token lx = TOKEN_INVALID /\
    saved_text lx = literal_text (spoiled_literal s) /\
    line lx = 1 + newlines (layout sp 0 (spoiled_tokens s)).
Proof.
  intros Hok Hc Hb Hal. unfold json_loads.
  rewrite (lex_init_ok string_get string_eof _ m Hal).
  cbn [obind Z.eqb negb].
  set (st := {| ls := _; err := error |}).
  assert (Hr : reading string_view (ls st)
                 (layout sp 0 (spoiled_tokens s) ++ rest)).
  { split; [now apply string_get_source_ok|].
    apply (pending_source string_view). split; reflexivity. }
  assert (Hnot : token (lex (ls st)) <> TOKEN_STRING) by discriminate.
  destruct (@parse_json_refuses string_data_t string_view s st rest Hok Hc Hb
              Hr (@payload_ok_other _ _ Hnot) Hal)
    as ([[lx2 m2] e2] & Hpj & Hr2 & Hn2 & Hb2 & Hal2 & Ht2 & Hsv2 & Hl2 & He2).
  cbn [ls lex mem err] in *.
  exists lx2. split; [|split; [exact Ht2|split; [exact Hsv2|exact Hl2]]].
  rewrite (bind_ok _ _ _ Hpj).
  unfold bind at 1, ret at 1.
  unfold bind at 1, lexer at 1, lex_close.
  unfold bind at 1, on_lex at 1, gets at 1.
  cbn [ls lex mem err]. rewrite Ht2.
  change (TOKEN_INVALID =? TOKEN_STRING) with false.
  cbn [ret finish obind ls lex mem err]. rewrite He2.
  rewrite (@held_other _ _ Hnot) in Hb2. cbn [st ls lex mem err] in *.
  destruct m2 as [h2 b2 a2]. cbn [nodes blocks allocs] in *. subst.
  do 3 f_equal. lia.
Qed.

End RefusedDocuments.

(** * The claims that rest on the forward lemmas *)

(** ** Strings: the Unicode escape *)

(** C4.  The [\u] escape.  What holds for the token: (1) when the
    first pass of [lex_scan_string] reaches the closing quote, the text
    it saved consists of well-formed pieces: every [\u] in it is
    followed by four hexadecimal digits.  (2) [scan_hex] goes past the
    four characters after [\u] only when all four are hexadecimal
    digits.  (3) The second pass yields nothing on a text with [\u],
    whatever the characters after it.  (4) So a token whose saved text
    has a [\u] after well-formed pieces is INVALID, with no payload
    left and no block held.  (5) [parse_value] turns an INVALID token
    into NULL and the error "invalid token".  (6) For every source that
    hands out its characters, on a literal of well-formed pieces of ASCII
    characters with a [\u] among them, [lex_scan] returns INVALID with
    the literal as saved text, a NULL payload and the buffer freed, and
    what follows the closing quote is read next.  (7) The documents:
    take a text that begins an array or an object and is cut after its
    first string with a [\u] escape, the string being a value or a
    key at any depth, what comes before it being of the grammar (strings
    of ASCII characters without [\u]), with any white space before
    each token and anything after the string.  When no allocation fails,
    [json_loadf] on a file with the text and [json_loads] on a string
    with the text return NULL; the error record, if there is one, gets
    the message of the place ("invalid token" where a value stands,
    "string or '}' expected" where a key stands) near the literal, with
    the line of the literal; every node made on the way is released and
    no block is left.  (8) Two such texts evaluated in every build.  What
    does not hold, for the documents of the last clause: (9) [json_loadf]
    never scans what follows the top-level value, so it returns the empty
    object from a file where a string with [\u] follows it, in every
    build; (10) in a build with assertions a [\u] cut short by the end
    of the file aborts the program, where [stream_unget] is handed the
    EOF. *)
Theorem unicode_escape_rejected {P : Platform} {D} (view : D -> list Z) :
  (forall fuel c (s s' : @lexst D),
     scan_string_raw fuel c s = Ok (true, s') ->
     exists ps app,
       forallb piece_ok ps = true /\
       saved_text (lex s') = saved_text (lex s) ++ app /\
       c :: app = body_text ps ++ [QUOTE]) /\
  (forall c c' (s s' : @lexst D),
     scan_hex 4 c s = Ok (Some c', s') ->
     exists h2 h3 h4,
       isxdigit c && isxdigit h2 && isxdigit h3 && isxdigit h4 = true /\
       saved_text (lex s') = saved_text (lex s) ++ [h2; h3; h4; c']) /\
  (forall ps rest,
     forallb piece_ok ps = true ->
     decode_escapes (body_text ps ++ ch "\" :: ch "u" :: rest) = Ok None) /\
  (forall fuel (s s' : @lexst D) ps rest,
     saved_text (lex s) = [QUOTE] ->
     lex_scan_string fuel s = Ok (tt, s') ->
     forallb piece_ok ps = true ->
     saved_text (lex s') = QUOTE :: body_text ps ++ ch "\" :: ch "u" :: rest ->
     token (lex s') = TOKEN_INVALID /\
     blocks (mem s') = blocks (mem s) /\
     (value (lex s') = value (lex s) \/ value (lex s') = VString None)) /\
  (forall budget depth (s : @parst D),
     token (lex (ls s)) = TOKEN_INVALID ->
     parse_value budget (S depth) s =
     Ok (None,
         set_err (error_set (err s) (Some (lex (ls s))) "invalid token") s)) /\
  (forall ws ps rest fuel (s : @lexst D),
     forallb is_blank ws = true -> forallb piece_ok ps = true ->
     forallb piece_ascii ps = true -> existsb is_unicode ps = true ->
     (List.length ws + List.length ps < fuel)%nat -> payload_ok s ->
     can_allocate (mem s) ->
     reading view s (ws ++ literal_text ps ++ rest) ->
     exists s',
       lex_scan fuel s = Ok (TOKEN_INVALID, s') /\ reading view s' rest /\
       saved_text (lex s') = literal_text ps /\
       value (lex s') = VString None /\
       nodes (mem s') = nodes (mem s) /\
       blocks (mem s') = blocks (mem (released s))) /\
  (forall (sp : nat -> list Z) (budget : nat) (d : spoiled)
          (rest : list Z) (error : option json_error_t) (m : memory),
     (forall i, forallb is_blank (sp i) = true) ->
     spoiled_ok d = true -> spoiled_container d = true ->
     (List.length (layout sp 0 (spoiled_tokens d)) < budget)%nat ->
     allocs m = [] ->
     let text := layout sp 0 (spoiled_tokens d) in
     let m' := {| nodes := nodes m ++ repeat None (spoiled_size d);
                  blocks := blocks m; allocs := [] |} in
     exists (lf : @lex_t FILE) (lm : @lex_t string_data_t),
       json_loadf budget (file_with (text ++ rest)) error m =
         Ok (None, error_set error (Some lf) (spoiled_message d), m') /\
       json_loads budget (text ++ rest) error m =
         Ok (None, error_set error (Some lm) (spoiled_message d), m') /\
       saved_text lf = literal_text (spoiled_literal d) /\
       line lf = 1 + newlines text /\
       saved_text lm = literal_text (spoiled_literal d) /\
       line lm = 1 + newlines text) /\
  (forall B : Platform, In B [debug_build; release_build; debug_build32] ->
     json_loadf (P := B) 100 (file_with (json_text "[`\u0041`]"))
                (Some blank_error) empty_memory =
     Ok (None,
         Some {| error_line := 1;
                 error_text :=
                   string_of_bytes (json_text "invalid token near '`\u0041`'") |},
         {| nodes := [None]; blocks := 0; allocs := [] |}) /\
     json_loads (P := B) 100 (c_string (json_text "{`a`:`x\u0041`}") [0])
                (Some blank_error) empty_memory =
     Ok (None,
         Some {| error_line := 1;
                 error_text :=
                   string_of_bytes (json_text "invalid token near '`x\u0041`'") |},
         {| nodes := [None]; blocks := 0; allocs := [] |})) /\
  (forall B : Platform, In B [debug_build; release_build; debug_build32] ->
   forall error,
     json_loadf (P := B) 100 (file_with (json_text "{}`\u0041`"))
                error empty_memory =
     Ok (Some 0%nat, error,
         {| nodes := [Some {| refcount := 1; body := JObject [] |}];
            blocks := 0; allocs := [] |})) /\
  json_loadf (P := debug_build) 100 (file_with (json_text "[`\u00"))
             (Some blank_error) empty_memory = Abort.
Proof.
  split; [|split; [|split; [|split; [|split; [|split; [|split; [|split;
    [|split]]]]]]]].
  - intros fuel c s s' H. apply scan_string_raw_inv in H.
    destruct H as (_ & H). now apply H.
  - intros c c' s s' H. apply scan_hex_inv in H. destruct H as (_ & H).
    destruct (H c' eq_refl) as (hs & app & Hl & Hh & Hs & He).
    destruct hs as [|h1 [|h2 [|h3 [|h4 [|h5 hs]]]]]; try discriminate.
    simpl in He. inversion He. subst. exists h2, h3, h4.
    split; [|assumption]. simpl in Hh.
    destruct (isxdigit h1), (isxdigit h2), (isxdigit h3), (isxdigit h4);
      try discriminate; reflexivity.
  - intros ps rest Hok. now apply decode_escapes_unicode.
  - intros fuel s s' ps rest Hsv H Hok Hraw.
    destruct (@lex_scan_string_inv _ _ fuel s s' Hsv H) as (_ & _ & [Hinv|Hstr]).
    + exact Hinv.
    + exfalso. destruct Hstr as (_ & _ & ps' & Hok' & Hu' & Hs' & _).
      rewrite Hs' in Hraw. unfold literal_text in Hraw. inversion Hraw as [E].
      pose proof (decode_escapes_pieces ps' [] Hok') as D1.
      rewrite Hu', E in D1.
      rewrite (decode_escapes_unicode ps rest Hok) in D1. discriminate.
  - intros. now apply parse_value_invalid.
  - intros ws ps rest fuel s Hws Hok Has Hun Hfuel Hp Hal Hr.
    destruct (@lex_scan_unicode_literal P D view ws ps rest fuel s
                Hws Hok Has Hun Hfuel Hp Hal Hr)
      as (s' & H1 & H2 & H3 & _ & H4 & _ & H5 & H6 & _).
    exists s'. repeat (split; [assumption|]). assumption.
  - intros sp budget d rest error m Hsp Hok Hc Hb Hal text m'.
    destruct (@json_loadf_refuses P sp Hsp budget d rest error m Hok Hc Hb Hal)
      as (lf & Hf & _ & Hsf & Hlf).
    destruct (@json_loads_refuses P sp Hsp budget d rest error m Hok Hc Hb Hal)
      as (lm & Hm & _ & Hsm & Hlm).
    exists lf, lm. repeat (split; [assumption|]). assumption.
  - intros B [<-|[<-|[<-|[]]]]; split; vm_compute; reflexivity.
  - intros B [<-|[<-|[<-|[]]]] error; vm_compute; reflexivity.
  - vm_compute. reflexivity.
Qed.

Lemma unicode_escape_rejected_witness :
  let ps := [Plain (ch "x"); Unicode (ch "0") (ch "0") (ch "4") (ch "1")] in
  let s := lexing (json_text " `x\u0041`]") in
  let d := SMember [([Plain (ch "a")], DNumber number_one)] [Plain (ch "k")]
             (SElement [DTrue] (SString ps)) in
  let text := layout sample_layout 0 (spoiled_tokens d) in
  let rest := json_text ", 2]} and more" in
  let m' := {| nodes := repeat None 4; blocks := 0; allocs := [] |} in
  (exists s',
     lex_scan (P := debug_build) 100 s = Ok (TOKEN_INVALID, s') /\
     reading file_view s' [ch "]"] /\
     saved_text (lex s') = literal_text ps /\
     value (lex s') = VString None /\
     nodes (mem s') = nodes (mem s) /\
     blocks (mem s') = blocks (mem (released s))) /\
  (exists (lf : @lex_t FILE) (lm : @lex_t string_data_t),
     json_loadf (P := debug_build) 100 (file_with (text ++ rest))
                (Some blank_error) empty_memory =
       Ok (None, error_set (P := debug_build) (Some blank_error) (Some lf)
                           "invalid token", m') /\
     json_loads (P := debug_build) 100 (text ++ rest)
                (Some blank_error) empty_memory =
       Ok (None, error_set (P := debug_build) (Some blank_error) (Some lm)
                           "invalid token", m') /\
     saved_text lf = literal_text ps /\ line lf = 1 + newlines text /\
     saved_text lm = literal_text ps /\ line lm = 1 + newlines text).
Proof.
  intros ps s d text rest m'. split.
  - apply (proj1 (proj2 (proj2 (proj2 (proj2 (proj2
             (@unicode_escape_rejected debug_build FILE file_view))))))
             [32] ps [ch "]"] 100%nat s).
    + reflexivity.
    + reflexivity.
    + reflexivity.
    + reflexivity.
    + vm_compute. lia.
    + intros H. discriminate H.
    + reflexivity.
    + apply lexing_reading.
  - apply (proj1 (proj2 (proj2 (proj2 (proj2 (proj2 (proj2
             (@unicode_escape_rejected debug_build FILE file_view)))))))
             sample_layout 100%nat d rest (Some blank_error) empty_memory).
    + intros i. unfold sample_layout.
      destruct (i mod 3)%nat as [|[|n]]; reflexivity.
    + reflexivity.
    + reflexivity.
    + vm_compute. lia.
    + reflexivity.
Defined.

(** ** A repeated key *)

(** C9.  An object that repeats a key.  Let a text hold an object whose
    keys are strings of ASCII characters and two-character escapes and
    whose values are documents of the grammar, with any white space before
    each token; the keys may repeat.  When no allocation fails,
    [json_loadf] on a file that begins with the text and [json_loads] on a
    string that holds the text, blanks and the terminating NUL (the byte
    after it being NUL) return the same object and leave the error record
    as it was.  The object has exactly one member for every key of the
    text and no other member; the member of a key holds the value of the
    last member of the text with that key, whose tree is stored; and the
    value of every member whose key comes again later in the object has
    been released.  For the text of the claim, an object with a member a
    of value 1 and then a member a of value 2, the object has the one
    member a and its value is the integer 2; the node of the 1 is
    released.  (The insertion, [json_object_set_nocheck], is modelled from
    its documented behaviour; [parse_object] calls it once for each
    member, in the order of the text, lines 473-480.) *)
Theorem repeated_key_last_wins :
  (forall (P : Platform) (sp : nat -> list Z) (budget : nat)
          (ms : list (list piece * doc)) (rest ws after : list Z)
          (error : option json_error_t) (m : memory),
      (forall i, forallb is_blank (sp i) = true) ->
      doc_ok (DObject ms) = true ->
      forallb is_blank ws = true ->
      (List.length (layout sp 0 (token_texts (DObject ms))) < budget)%nat ->
      (List.length ws < budget)%nat ->
      allocs m = [] ->
      let root := List.length (nodes m) in
      exists members m',
        json_loadf budget (file_with (layout sp 0 (token_texts (DObject ms)) ++ rest))
                   error m = Ok (Some root, error, m') /\
        json_loads budget
                   (c_string (layout sp 0 (token_texts (DObject ms)) ++ ws) (0 :: after))
                   error m = Ok (Some root, error, m') /\
        nth_error (nodes m') root =
          Some (Some {| refcount := 1; body := JObject members |}) /\
        (forall key,
            count_key key members =
            if has_key key (keys ms) then 1%nat else 0%nat) /\
        (forall key x,
            last_value key ms = Some x ->
            exists a, assoc_find key members = Some a /\
                      stored (nodes m') a x) /\
        (forall pre k x post,
            ms = pre ++ (k, x) :: post ->
            has_key (string_bytes k) (keys post) = true ->
            released_cells (nodes m') (S root + members_size pre)
                           (doc_size x))) /\
  layout dense 0 (token_texts repeated_doc) = json_text "{`a`:1,`a`:2}" /\
  (forall P : Platform, In P [debug_build; release_build; debug_build32] ->
   forall from_string : bool,
     load_repeated_key from_string =
     Ok (Some 0%nat, Some blank_error,
         {| nodes := [Some {| refcount := 1;
                              body := JObject [([ch "a"], 2%nat)] |};
                      None; integer_node 2];
            blocks := 0; allocs := [] |})).
Proof.
  split; [|split; [reflexivity|]].
  - intros P sp budget ms rest ws after error m Hsp Hok Hws Hb Hbw Hal root.
    rewrite <- doc_text_layout in *.
    exists (member_addresses (S root) ms),
      {| nodes := nodes m ++ doc_cells root (DObject ms);
         blocks := blocks m; allocs := [] |}.
    split; [now apply json_loadf_doc|].
    split; [now apply json_loads_doc|].
    cbn [nodes]. rewrite doc_cells_object.
    split; [apply nth_error_mid|].
    split.
    { intros key. rewrite count_key_nodup by apply member_addresses_nodup.
      apply f_equal with (f := fun b : bool => if b then 1%nat else 0%nat).
      apply has_key_eq. apply member_addresses_keys. }
    set (cell := Some {| refcount := 1;
                         body := JObject (member_addresses (S root) ms) |}).
    assert (El : S root = List.length (nodes m ++ [cell]))
      by (rewrite length_app; cbn [List.length]; unfold root; lia).
    assert (Ecells : forall l,
               nodes m ++ cell :: object_cells [] (S root) l =
               (nodes m ++ [cell]) ++
               object_cells [] (List.length (nodes m ++ [cell])) l ++ []).
    { intros l. now rewrite <- El, app_nil_r, <- app_assoc. }
    split.
    + intros key x Hlast.
      destruct (last_member_split key ms (S root) Hlast)
        as (pre & kk & post & Hms & Hkk & Hpost & Ha).
      exists (S root + members_size pre)%nat.
      split; [now rewrite member_addresses_find|].
      pose proof (@object_cells_stored P (nodes m ++ [cell]) pre post kk x [])
        as Hst.
      cbv zeta in Hst. rewrite Hkk, Hpost, <- Hms in Hst.
      rewrite Ecells, El. exact Hst.
    + intros pre k x post Hms Hagain.
      pose proof (@object_cells_stored P (nodes m ++ [cell]) pre post k x [])
        as Hst.
      cbv zeta in Hst. rewrite Hagain, <- Hms in Hst.
      rewrite Ecells, El. exact Hst.
  - intros P HP from_string.
    destruct HP as [<-|[<-|[<-|[]]]]; destruct from_string;
      vm_compute; reflexivity.
Qed.

Lemma repeated_key_last_wins_witness :
  let ms := [([Plain (ch "a")], DNumber number_one);
             ([Plain (ch "a")], DNumber number_two)] in
  let text := layout sample_layout 0 (token_texts (DObject ms)) in
  exists members m',
    json_loadf (P := debug_build) 100 (file_with (text ++ [ch "x"])) None
               empty_memory = Ok (Some 0%nat, None, m') /\
    json_loads (P := debug_build) 100 (c_string (text ++ [32]) [0]) None
               empty_memory = Ok (Some 0%nat, None, m') /\
    nth_error (nodes m') 0 =
      Some (Some {| refcount := 1; body := JObject members |}) /\
    (forall key,
        count_key key members =
        if has_key key (keys ms) then 1%nat else 0%nat) /\
    (forall key x,
        last_value key ms = Some x ->
        exists a, assoc_find key members = Some a /\
                  stored (P := debug_build) (nodes m') a x) /\
    (forall pre k x post,
        ms = pre ++ (k, x) :: post ->
        has_key (string_bytes k) (keys post) = true ->
        released_cells (nodes m') (1 + members_size pre) (doc_size x)).
Proof.
  intros ms text.
  apply (proj1 repeated_key_last_wins debug_build sample_layout 100%nat ms
           [ch "x"] [32] [] None empty_memory).
  - intros i. unfold sample_layout.
    destruct (i mod 3)%nat as [|[|n]]; reflexivity.
  - reflexivity.
  - reflexivity.
  - vm_compute. lia.
  - vm_compute. lia.
  - reflexivity.
Defined.

(** * The loaders on whole documents *)

(** X1.  [json_loadf] on the documents of the grammar.  Let a file begin
    with the text of an object or an array whose strings are made of ASCII
    characters (no control character, quote or backslash) and
    two-character escapes, whose numbers are those of the JSON grammar and
    whose objects may repeat a key; before each token stands any run of
    blanks, [sp i] before the token of number [i]: the text is
    [layout sp 0 (token_texts v)].  When no allocation
    fails, for every loop budget greater than the length of the text,
    [json_loadf] returns the root of the tree of the document: its cells
    are added to the store in the order of the text, every node before its
    children, each live cell holding one reference, the elements in their
    order, the members in the order in which their keys first come; the
    value of a member whose key comes again is released.  No block of
    [malloc] or [strdup] is left allocated and the error record is left as
    it was, whatever follows the document in the file.  (The cells are
    made by the constructors of the value module, [json_object],
    [json_array_append] and the others, which are modelled from their
    documented behaviour.) *)
Theorem json_loadf_parses_documents {P : Platform} (sp : nat -> list Z)
  (budget : nat) (v : doc) (rest : list Z) (error : option json_error_t)
  (m : memory) :
  (forall i, forallb is_blank (sp i) = true) ->
  doc_ok v = true -> is_container v = true ->
  (List.length (layout sp 0 (token_texts v)) < budget)%nat ->
  allocs m = [] ->
  json_loadf budget (file_with (layout sp 0 (token_texts v) ++ rest)) error m =
  Ok (Some (List.length (nodes m)), error,
      {| nodes := nodes m ++ doc_cells (List.length (nodes m)) v;
         blocks := blocks m; allocs := [] |}).
Proof.
  intros Hsp Hok Hc Hb Hal. rewrite <- doc_text_layout in *.
  now apply json_loadf_doc.
Qed.

Lemma json_loadf_parses_documents_witness :
  json_loadf (P := debug_build) 100
             (file_with (layout sample_layout 0 (token_texts sample_doc) ++ [ch "x"]))
             None empty_memory =
  Ok (Some 0%nat, None,
      {| nodes := doc_cells (P := debug_build) 0 sample_doc;
         blocks := 0; allocs := [] |}).
Proof.
  apply (@json_loadf_parses_documents debug_build sample_layout 100%nat
           sample_doc [ch "x"] None empty_memory).
  - intros i. unfold sample_layout.
    destruct (i mod 3)%nat as [|[|n]]; reflexivity.
  - reflexivity.
  - reflexivity.
  - vm_compute. lia.
  - reflexivity.
Defined.

(** X2.  [parse_json] reads a document and nothing after it.  For every
    byte source that hands out its characters, from any state of the lexer
    between two tokens: when the lexer is about to read the text of a
    document of the class of X1 (ASCII strings without [\u], numbers of
    the grammar, any blanks before each token, keys that may repeat)
    followed by [rest], and no allocation fails, [parse_json] returns the
    root of its tree and leaves [rest] to be read next, so the closing
    bracket is the last character taken from the source.  The line number
    has grown by the newlines of the text, the current token is the
    closing bracket, the only block released is the payload of a string
    token that was current at the start, and the error record is not
    written. *)
Theorem parse_json_consumes_document {P : Platform} {D} (view : D -> list Z)
  (sp : nat -> list Z) (budget : nat) (v : doc) (s : @parst D)
  (rest : list Z) :
  (forall i, forallb is_blank (sp i) = true) ->
  doc_ok v = true -> is_container v = true ->
  (List.length (layout sp 0 (token_texts v)) < budget)%nat ->
  reading view (ls s) (layout sp 0 (token_texts v) ++ rest) ->
  payload_ok (ls s) -> allocs (mem (ls s)) = [] ->
  exists s2,
    parse_json budget s = Ok (Some (List.length (nodes (mem (ls s)))), s2) /\
    reading view (ls s2) rest /\
    nodes (mem (ls s2)) =
      nodes (mem (ls s)) ++ doc_cells (List.length (nodes (mem (ls s)))) v /\
    blocks (mem (ls s2)) = blocks (mem (ls s)) - held (ls s) /\
    err s2 = err s /\
    token (lex (ls s2)) = last_token v /\
    line (lex (ls s2)) = line (lex (ls s)) + newlines (layout sp 0 (token_texts v)).
Proof.
  intros Hsp Hok Hc Hb Hr Hp Hal. rewrite <- doc_text_layout in *.
  destruct (@parse_json_doc P sp Hsp budget D view v s rest Hok Hc Hb Hr Hp Hal)
    as (s2 & Hpj & Hr2 & Hn2 & Hb2 & _ & He2 & Ht2 & Hl2).
  exists s2. repeat (split; [assumption|]). assumption.
Qed.

Lemma parse_json_consumes_document_witness :
  let s := parsing (layout sample_layout 0 (token_texts sample_doc) ++ [ch "x"]) None in
  exists s2,
    parse_json (P := debug_build) 100 s
    = Ok (Some (List.length (nodes (mem (ls s)))), s2) /\
    reading file_view (ls s2) [ch "x"] /\
    nodes (mem (ls s2)) =
      nodes (mem (ls s)) ++
      doc_cells (P := debug_build) (List.length (nodes (mem (ls s)))) sample_doc /\
    blocks (mem (ls s2)) = blocks (mem (ls s)) - held (ls s) /\
    err s2 = err s /\
    token (lex (ls s2)) = last_token sample_doc /\
    line (lex (ls s2)) =
      line (lex (ls s)) + newlines (layout sample_layout 0 (token_texts sample_doc)).
Proof.
  intros s.
  apply (@parse_json_consumes_document debug_build FILE file_view
           sample_layout 100%nat sample_doc s [ch "x"]).
  - intros i. unfold sample_layout.
    destruct (i mod 3)%nat as [|[|n]]; reflexivity.
  - reflexivity.
  - reflexivity.
  - vm_compute. lia.
  - apply lexing_reading.
  - intros H. discriminate H.
  - reflexivity.
Defined.

(** X3.  [json_loads] on the documents of the grammar.  On a string
    holding a document of the class of X1 (ASCII strings without [\u],
    numbers of the grammar, any blanks before each token, keys that may
    repeat), then blanks, then the terminating NUL, when the byte after
    the NUL is NUL as well and no allocation fails, [json_loads] returns
    the root of the tree of the document, with the store, the blocks and
    the error record as [json_loadf] leaves them. *)
Theorem json_loads_parses_documents {P : Platform} (sp : nat -> list Z)
  (budget : nat) (v : doc) (ws after : list Z) (error : option json_error_t)
  (m : memory) :
  (forall i, forallb is_blank (sp i) = true) ->
  doc_ok v = true -> is_container v = true ->
  forallb is_blank ws = true ->
  (List.length (layout sp 0 (token_texts v)) < budget)%nat ->
  (List.length ws < budget)%nat ->
  allocs m = [] ->
  json_loads budget (c_string (layout sp 0 (token_texts v) ++ ws) (0 :: after)) error m =
  Ok (Some (List.length (nodes m)), error,
      {| nodes := nodes m ++ doc_cells (List.length (nodes m)) v;
         blocks := blocks m; allocs := [] |}).
Proof.
  intros Hsp Hok Hc Hws Hb Hbw Hal. rewrite <- doc_text_layout in *.
  now apply json_loads_doc.
Qed.

Lemma json_loads_parses_documents_witness :
  json_loads (P := debug_build) 100
             (c_string (layout sample_layout 0 (token_texts sample_doc) ++ [10]) [0])
             (Some blank_error) empty_memory =
  Ok (Some 0%nat, Some blank_error,
      {| nodes := doc_cells (P := debug_build) 0 sample_doc;
         blocks := 0; allocs := [] |}).
Proof.
  apply (@json_loads_parses_documents debug_build sample_layout 100%nat
           sample_doc [10] [] (Some blank_error) empty_memory).
  - intros i. unfold sample_layout.
    destruct (i mod 3)%nat as [|[|n]]; reflexivity.
  - reflexivity.
  - reflexivity.
  - reflexivity.
  - vm_compute. lia.
  - vm_compute. lia.
  - reflexivity.
Defined.

(** X4.  [json_loads] reads the byte after the terminating NUL.
    [string_get] steps over the NUL before [string_eof] looks at the
    position (lines 637 and 647).  On a string holding a document of the
    class of X1 (ASCII strings without [\u], numbers of the grammar, any
    blanks before each token, keys that may repeat) and blanks, whose
    object ends with the terminating NUL, when no allocation fails, the
    call reads outside the object: its behaviour is undefined. *)
Theorem json_loads_reads_past_terminator {P : Platform}
  (sp : nat -> list Z) (budget : nat) (v : doc) (ws : list Z)
  (error : option json_error_t) (m : memory) :
  (forall i, forallb is_blank (sp i) = true) ->
  doc_ok v = true -> is_container v = true ->
  forallb is_blank ws = true ->
  (List.length (layout sp 0 (token_texts v)) < budget)%nat ->
  (List.length ws < budget)%nat ->
  allocs m = [] ->
  json_loads budget (c_string (layout sp 0 (token_texts v) ++ ws) []) error m = Undef.
Proof.
  intros Hsp Hok Hc Hws Hb Hbw Hal. rewrite <- doc_text_layout in *.
  destruct (@json_loads_parses P sp Hsp budget v ws [] error m Hok Hc Hb Hal)
    as (s2 & -> & Hr2 & Hget & Heof & Hnot & Hm2 & He2 & _).
  pose proof (@lex_scan_breaks P string_data_t string_view [0] ws
                budget (ls s2) Hws Hbw
                ltac:(unfold no_token, ascii; lia)
                (@payload_ok_other _ _ Hnot)
                (string_source_breaks _ Hget Heof) Hr2) as Hscan.
  repeat rewrite <- bind_assoc_at.
  unfold bind at 1, lexer at 1. rewrite Hscan. reflexivity.
Qed.

Lemma json_loads_reads_past_terminator_witness :
  json_loads (P := debug_build) 100
             (c_string (layout dense 0 (token_texts sample_doc) ++ []) [])
             (Some blank_error) empty_memory = Undef.
Proof.
  apply (@json_loads_reads_past_terminator debug_build dense 100%nat
           sample_doc [] (Some blank_error) empty_memory).
  - intros i. reflexivity.
  - reflexivity.
  - reflexivity.
  - reflexivity.
  - vm_compute. lia.
  - vm_compute. lia.
  - reflexivity.
Defined.

(** X5.  The verdict of [json_loads] hangs on the byte after the
    terminating NUL.  On a string holding a document of the class of X1
    (ASCII strings without [\u], numbers of the grammar, any blanks before
    each token, keys that may repeat) and blanks, when the byte after the
    terminating NUL is not NUL and no allocation fails, [string_eof]
    denies the end, [stream_get] takes the EOF for the first byte of a
    sequence that is not UTF-8 and returns 0 (where [utf8_check_first]
    rejects that byte), and the token after the document is INVALID:
    [json_loads] releases the whole tree, returns NULL and reports "end of
    file expected near end of file" at the line of the end of the text,
    in an error record whose text has room for it. *)
Theorem json_loads_rejects_by_next_byte {P : Platform} (sp : nat -> list Z)
  (budget : nat) (v : doc) (ws : list Z) (b : Z) (after : list Z)
  (e : json_error_t) (m : memory) :
  (forall i, forallb is_blank (sp i) = true) ->
  doc_ok v = true -> is_container v = true ->
  forallb is_blank ws = true ->
  (List.length (layout sp 0 (token_texts v)) < budget)%nat ->
  (List.length ws < budget)%nat ->
  allocs m = [] ->
  to_char b <> 0 -> utf8_check_first EOF = 0 ->
  (37 < JSON_ERROR_TEXT_LENGTH)%nat ->
  json_loads budget (c_string (layout sp 0 (token_texts v) ++ ws) (b :: after)) (Some e) m =
  Ok (None,
      Some {| error_line := 1 + newlines (layout sp 0 (token_texts v) ++ ws);
              error_text := "end of file expected near end of file" |},
      {| nodes := nodes m ++ repeat None (doc_size v);
         blocks := blocks m; allocs := [] |}).
Proof.
  intros Hsp Hok Hc Hws Hb Hbw Hal Hnz Hfirst Hlen.
  rewrite <- doc_text_layout in *.
  destruct (@json_loads_parses P sp Hsp budget v ws (b :: after) (Some e) m
              Hok Hc Hb Hal)
    as (s2 & -> & Hr2 & Hget & Heof & Hnot & Hm2 & He2 & Hl2).
  destruct (@lex_scan_passes P string_data_t string_view Hfirst
              (0 :: b :: after) ws budget (ls s2) Hws Hbw
              ltac:(unfold no_token, ascii; lia)
              (@payload_ok_other _ _ Hnot)
              (string_source_passes _ Hget Heof Hnz) Hr2)
    as (l3 & Hscan & Hs3 & Ht3 & _ & Hl3 & Hm3).
  repeat rewrite <- bind_assoc_at.
  rewrite (bind_ok _ _ _ (lexer_ok _ _ Hscan)).
  repeat rewrite <- bind_assoc_at.
  rewrite (bind_ok _ _ _ (cur_token_eq _ _)). rewrite Ht3.
  change (negb (TOKEN_INVALID =? TOKEN_EOF)) with true. cbv iota.
  repeat rewrite <- bind_assoc_at.
  unfold bind at 1, parse_error at 1, modify at 1.
  assert (Hm4 : mem l3 =
                {| nodes := nodes m ++ doc_cells (List.length (nodes m)) v;
                   blocks := blocks m; allocs := [] |}).
  { rewrite Hm3. unfold released. rewrite (eqb_false Hnot). cbn [mem].
    exact Hm2. }
  assert (Hd : json_decref (List.length (nodes m)) (mem l3) =
               Ok (tt, set_nodes (nodes m ++ repeat None (doc_size v))
                                 (mem l3))).
  { apply json_decref_doc. now rewrite Hm4. }
  unfold set_err. cbn [ls err lex mem]. repeat rewrite <- bind_assoc_at.
  rewrite (bind_ok _ _ _
             (heap_ok _ {| ls := {| lex := lex l3; mem := mem l3 |};
                           err := _ |} Hd)).
  unfold bind at 1, ret at 1.
  unfold bind at 1, lexer at 1, lex_close.
  unfold bind at 1, on_lex at 1, gets at 1.
  cbn [ls lex mem err token set_err with_mem].
  rewrite Ht3. change (TOKEN_INVALID =? TOKEN_STRING) with false.
  cbn [ret finish obind ls lex mem err].
  unfold error_set. rewrite He2, Hs3. cbn [strbuffer_value cstr Z.eqb].
  rewrite Hl3, Hl2, Hm4. unfold set_nodes. cbn [nodes blocks allocs].
  rewrite (@snprintf_fits _ "end of file expected") by (simpl; lia).
  rewrite snprintf_fits by (simpl; lia).
  rewrite newlines_app. now rewrite Z.add_assoc.
Qed.

Lemma json_loads_rejects_by_next_byte_witness :
  json_loads (P := debug_build) 100
             (c_string (layout sample_layout 0 (token_texts sample_doc) ++ [32]) [ch "x"])
             (Some blank_error) empty_memory =
  Ok (None,
      Some {| error_line := 6;
              error_text := "end of file expected near end of file" |},
      {| nodes := repeat None 6; blocks := 0; allocs := [] |}).
Proof.
  apply (@json_loads_rejects_by_next_byte debug_build sample_layout 100%nat
           sample_doc [32] (ch "x") [] blank_error empty_memory).
  - intros i. unfold sample_layout.
    destruct (i mod 3)%nat as [|[|n]]; reflexivity.
  - reflexivity.
  - reflexivity.
  - reflexivity.
  - vm_compute. lia.
  - vm_compute. lia.
  - reflexivity.
  - vm_compute. discriminate.
  - reflexivity.
  - vm_compute. lia.
Defined.

(** * What every call keeps *)

(** X6.  The loaders free every block of [malloc] and [strdup].
    Whatever the input and whichever allocations fail, when [json_loadf]
    or [json_loads] returns, with a tree or with NULL, as many of these
    blocks are allocated as before the call: the payload of every string
    token and every copy of a key has been freed.  (The buffer of the
    saved text, which [strbuffer_init] sets up, and the nodes of the tree
    are not among these blocks.) *)
Theorem load_frees_every_block {P : Platform} (budget : nat) (input : FILE)
  (text : list Z) (error : option json_error_t) (m : memory)
  (r : option nat) (e : option json_error_t) (m' : memory) :
  json_loadf budget input error m = Ok (r, e, m') \/
  json_loads budget text error m = Ok (r, e, m') ->
  blocks m' = blocks m.
Proof.
  intros [H|H].
  - exact (proj1 (@json_loadf_discipline P budget input error m r e m' H)).
  - exact (proj1 (@json_loads_discipline P budget text error m r e m' H)).
Qed.

Lemma load_frees_every_block_witness :
  let m := memory_with [true; true; true; false] in
  let run := json_loadf (P := debug_build) 100
               (file_with (json_text "{`a`:[`b`,`c`]}")) None m in
  exists r e m', run = Ok (r, e, m') /\ blocks m' = blocks m.
Proof.
  intros m run.
  assert (H : exists r e m', run = Ok (r, e, m'))
    by (vm_compute; eauto).
  destruct H as (r & e & m' & H). exists r, e, m'. split; [exact H|].
  apply (@load_frees_every_block debug_build 100%nat
           (file_with (json_text "{`a`:[`b`,`c`]}")) [] None m r e m').
  left. exact H.
Defined.

(** X7.  A tree and a silent error record, or NULL and a message from
    the lexer where the parse stopped.  When no allocation fails, for
    every input, [json_loadf] returns what [parse_json] returns from the
    state [lex_init] leaves, and [json_loads] what [parse_json] and the
    check of the token after the value return.  If that is a tree, the
    error record is as it was before the call.  If it is NULL, the error
    record is what [error_set] makes of it with one of the eight messages
    of the parser and the lexer as the parse left it: the line and the
    saved text are those of the last token scanned.  (Without an error
    record there is nothing to fill: [error_set] does nothing.) *)
Theorem load_reports_or_returns {P : Platform} (budget : nat) (input : FILE)
  (text : list Z) (error : option json_error_t) (m : memory)
  (r : option nat) (e : option json_error_t) (m' : memory) :
  allocs m = [] ->
  (json_loadf budget input error m = Ok (r, e, m') ->
   exists s',
     parse_json budget (started fgetc feof input m error) = Ok (r, s') /\
     match r with
     | Some _ => e = error
     | None => reported (lex (ls s')) error e
     end) /\
  (json_loads budget text error m = Ok (r, e, m') ->
   exists s',
     loads_parse budget
       (started string_get string_eof {| str_data := text; str_pos := 0 |}
                m error) = Ok (r, s') /\
     match r with
     | Some _ => e = error
     | None => reported (lex (ls s')) error e
     end).
Proof.
  intros Hal. split; intros H.
  - exact (proj2 (proj2 (@json_loadf_discipline P budget input error m r e m' H)
                    Hal)).
  - exact (proj2 (proj2 (@json_loads_discipline P budget text error m r e m' H)
                    Hal)).
Qed.

Lemma load_reports_or_returns_witness :
  let e := Some {| error_line := 2;
                   error_text := "']' expected near end of file" |} in
  exists s',
    parse_json (P := debug_build) 100
      (started fgetc feof (file_with (json_text "[1," ++ [10])) empty_memory
               (Some blank_error)) = Ok (None, s') /\
    reported (P := debug_build) (lex (ls s')) (Some blank_error) e.
Proof.
  intros e.
  apply (proj1 (@load_reports_or_returns debug_build 100%nat
                  (file_with (json_text "[1," ++ [10])) []
                  (Some blank_error) empty_memory None e
                  {| nodes := [None; None]; blocks := 0; allocs := [] |}
                  eq_refl)).
  vm_compute. reflexivity.
Defined.



(** * The lexer, token by token *)

(** X9.  Blanks, lines and the tokens of one character.  For every byte
    source that hands out its characters, from any state between two
    tokens: [lex_scan] skips the blanks [ws] before a token and adds their
    newlines to the line number.  (1) On one of the six characters of
    punctuation it returns the character itself, as token and as saved
    text, and leaves what follows it to be read next.  (2) At the end of
    the source it returns TOKEN_EOF with no saved text.  Either way the
    payload of the string token that was current is freed and nothing else
    changes in the memory.  (The line number is an
    unbounded integer here and an [int] in the source: the statement is
    about inputs with fewer than 2^31 - 1 newlines.) *)
Theorem lex_scan_skips_blanks {P : Platform} {D} (view : D -> list Z)
  (ws : list Z) (c : Z) (rest tail : list Z) (fuel : nat) (s : @lexst D) :
  forallb is_blank ws = true -> (List.length ws < fuel)%nat ->
  payload_ok s ->
  (is_punctuation c = true -> reading view s (ws ++ c :: rest) ->
   exists s',
     lex_scan fuel s = Ok (c, s') /\ reading view s' rest /\
     saved_text (lex s') = [c] /\ token (lex s') = c /\
     line (lex s') = line (lex s) + newlines ws /\
     mem s' = mem (released s)) /\
  (no_token tail -> source_end view tail (stream (lex s)) ->
   reading view s (ws ++ tail) ->
   exists s',
     lex_scan fuel s = Ok (TOKEN_EOF, s') /\
     saved_text (lex s') = [] /\ token (lex s') = TOKEN_EOF /\
     line (lex s') = line (lex s) + newlines ws /\
     mem s' = mem (released s)).
Proof.
  intros Hws Hfuel Hp. split.
  - intros Hc Hr.
    destruct (@lex_scan_punctuation P D view ws c rest fuel s Hws Hc Hfuel Hp Hr)
      as (s' & H1 & H2 & H3 & H4 & _ & H5 & H6).
    exists s'. repeat (split; [assumption|]). assumption.
  - intros Htail Hend Hr.
    destruct (@lex_scan_end P D view tail ws fuel s Hws Hfuel Htail Hp Hend Hr)
      as (s' & H1 & H2 & H3 & _ & H4 & H5).
    exists s'. repeat (split; [assumption|]). assumption.
Qed.

Lemma lex_scan_skips_blanks_witness :
  let s := lexing [32; 10; 13; 10; 9; ch "{"; ch "}"] in
  exists s',
    lex_scan (P := debug_build) 100 s = Ok (ch "{", s') /\
    reading file_view s' [ch "}"] /\
    saved_text (lex s') = [ch "{"] /\ token (lex s') = ch "{" /\
    line (lex s') = line (lex s) + newlines [32; 10; 13; 10; 9] /\
    mem s' = mem (released s).
Proof.
  intros s.
  apply (proj1 (@lex_scan_skips_blanks debug_build FILE file_view
                  [32; 10; 13; 10; 9] (ch "{") [ch "}"] [] 100%nat s
                  eq_refl ltac:(vm_compute; lia)
                  ltac:(intros H; discriminate H))).
  - reflexivity.
  - apply lexing_reading.
Defined.

(** X10.  Identifiers.  For every byte source that hands out its
    characters: on a run of ASCII letters followed by an ASCII character
    that is no letter, [lex_scan] takes all the letters as saved text and
    leaves the character after them to be read again.  The token is
    TOKEN_TRUE, TOKEN_FALSE or TOKEN_NULL when the letters spell true,
    false or null in lower case, and TOKEN_INVALID for every other
    word.  (The line number is an
    unbounded integer here and an [int] in the source: the statement is
    about inputs with fewer than 2^31 - 1 newlines.) *)
Theorem lex_scan_identifiers {P : Platform} {D} (view : D -> list Z)
  (ws : list Z) (l : Z) (letters : list Z) (x : Z) (rest : list Z)
  (fuel : nat) (s : @lexst D) :
  forallb is_blank ws = true -> forallb is_letter (l :: letters) = true ->
  is_letter x = false -> ascii x ->
  (List.length ws + List.length letters < fuel)%nat -> payload_ok s ->
  reading view s (ws ++ (l :: letters) ++ x :: rest) ->
  exists s',
    lex_scan fuel s = Ok (token (lex s'), s') /\
    reading view s' (x :: rest) /\
    saved_text (lex s') = l :: letters /\
    line (lex s') = line (lex s) + newlines ws /\
    mem s' = mem (released s) /\
    (l :: letters = bytes_of_string "true" -> token (lex s') = TOKEN_TRUE) /\
    (l :: letters = bytes_of_string "false" -> token (lex s') = TOKEN_FALSE) /\
    (l :: letters = bytes_of_string "null" -> token (lex s') = TOKEN_NULL) /\
    (l :: letters <> bytes_of_string "true" ->
     l :: letters <> bytes_of_string "false" ->
     l :: letters <> bytes_of_string "null" ->
     token (lex s') = TOKEN_INVALID).
Proof.
  intros Hws Hl Hx Hax Hfuel Hp Hr.
  destruct (@lex_scan_word P D view ws l letters x rest fuel s
              Hws Hl Hx Hax Hfuel Hp Hr)
    as (s' & H1 & H2 & H3 & H4 & _ & H5 & H6).
  exists s'. rewrite H4.
  repeat (split; [assumption|]).
  unfold word_token, strcmp_eq, list_eqb.
  rewrite (cstr_nonzero _ (letters_nonzero _ Hl)).
  repeat split.
  - intros E. rewrite E. reflexivity.
  - intros E. rewrite E. reflexivity.
  - intros E. rewrite E. reflexivity.
  - intros N1 N2 N3.
    destruct (list_eq_dec Z.eq_dec (l :: letters) (bytes_of_string "true"));
      [contradiction|].
    destruct (list_eq_dec Z.eq_dec (l :: letters) (bytes_of_string "false"));
      [contradiction|].
    destruct (list_eq_dec Z.eq_dec (l :: letters) (bytes_of_string "null"));
      [contradiction|].
    reflexivity.
Qed.

Lemma lex_scan_identifiers_witness :
  let s := lexing (json_text " null]") in
  let w := json_text "null" in
  exists s',
    lex_scan (P := debug_build) 100 s = Ok (token (lex s'), s') /\
    reading file_view s' [ch "]"] /\
    saved_text (lex s') = w /\
    line (lex s') = line (lex s) + newlines [32] /\
    mem s' = mem (released s) /\
    (w = bytes_of_string "true" -> token (lex s') = TOKEN_TRUE) /\
    (w = bytes_of_string "false" -> token (lex s') = TOKEN_FALSE) /\
    (w = bytes_of_string "null" -> token (lex s') = TOKEN_NULL) /\
    (w <> bytes_of_string "true" ->
     w <> bytes_of_string "false" ->
     w <> bytes_of_string "null" ->
     token (lex s') = TOKEN_INVALID).
Proof.
  intros s w.
  apply (@lex_scan_identifiers debug_build FILE file_view [32] (ch "n")
           (json_text "ull") (ch "]") [] 100%nat s).
  - reflexivity.
  - reflexivity.
  - reflexivity.
  - unfold ascii. vm_compute. split; reflexivity.
  - vm_compute. lia.
  - intros H. discriminate H.
  - apply lexing_reading.
Defined.

(** X11.  String literals and the buffer of their value.  For every byte
    source that hands out its characters: on a literal of ASCII
    characters and two-character escapes between two quotes, (1) when the
    buffer of the value can be allocated, [lex_scan] returns TOKEN_STRING
    with the literal as saved text and the decoded bytes as payload, in
    one block more than before; (2) when that allocation fails, it returns
    TOKEN_INVALID with the literal as saved text and a NULL payload, and
    no block is allocated: the failure is told apart from a malformed
    string by nothing.  Either way the characters after the closing quote
    are read next.  (The line number is an
    unbounded integer here and an [int] in the source: the statement is
    about inputs with fewer than 2^31 - 1 newlines.) *)
Theorem lex_scan_string_literals {P : Platform} {D} (view : D -> list Z)
  (ws : list Z) (ps : list piece) (rest : list Z) (fuel : nat)
  (s : @lexst D) :
  forallb is_blank ws = true -> string_ok ps = true ->
  (List.length ws + List.length ps < fuel)%nat -> payload_ok s ->
  reading view s (ws ++ literal_text ps ++ rest) ->
  (can_allocate (mem s) ->
   exists s',
     lex_scan fuel s = Ok (TOKEN_STRING, s') /\ reading view s' rest /\
     saved_text (lex s') = literal_text ps /\
     value (lex s') = VString (Some (string_bytes ps)) /\
     line (lex s') = line (lex s) + newlines ws /\
     mem s' = allocated (mem (released s))) /\
  (forall plan, allocs (mem s) = false :: plan ->
   exists s',
     lex_scan fuel s = Ok (TOKEN_INVALID, s') /\ reading view s' rest /\
     saved_text (lex s') = literal_text ps /\
     value (lex s') = VString None /\
     line (lex s') = line (lex s) + newlines ws /\
     mem s' = {| nodes := nodes (mem (released s));
                 blocks := blocks (mem (released s)); allocs := plan |}).
Proof.
  intros Hws Hps Hfuel Hp Hr.
  unfold string_ok in Hps.
  apply andb_true_iff in Hps. destruct Hps as (Hps & Hun).
  apply andb_true_iff in Hps. destruct Hps as (Hok & Has).
  apply negb_true_iff in Hun.
  split.
  - intros Hal.
    destruct (@lex_scan_string_token P D view ws ps rest fuel s
                Hws Hok Has Hun Hfuel Hp Hal Hr)
      as (s' & H1 & H2 & H3 & _ & H4 & H5 & H6).
    exists s'. repeat (split; [assumption|]). assumption.
  - intros plan Hal.
    destruct (@lex_scan_string_no_memory P D view ws ps rest fuel s plan
                Hws Hok Has Hun Hfuel Hp Hal Hr)
      as (s' & H1 & H2 & H3 & _ & H4 & H5 & H6).
    exists s'. repeat (split; [assumption|]). assumption.
Qed.

Lemma lex_scan_string_literals_witness :
  let ps := [Plain (ch "a"); Shortcut (ch "t"); Plain (ch "b")] in
  let s := lexing (json_text " `a\tb`]") in
  exists s',
    lex_scan (P := debug_build) 100 s = Ok (TOKEN_STRING, s') /\
    reading file_view s' [ch "]"] /\
    saved_text (lex s') = literal_text ps /\
    value (lex s') = VString (Some (string_bytes ps)) /\
    line (lex s') = line (lex s) + newlines [32] /\
    mem s' = allocated (mem (released s)).
Proof.
  intros ps s.
  apply (proj1 (@lex_scan_string_literals debug_build FILE file_view [32] ps
                  [ch "]"] 100%nat s eq_refl eq_refl
                  ltac:(vm_compute; lia)
                  ltac:(intros H; discriminate H)
                  (lexing_reading _))).
  reflexivity.
Defined.

(** * The stream *)

(** X12.  Pushing a character back.  For every byte source that hands
    out its characters: [stream_get] returns the next ASCII character;
    [stream_unget] of that character succeeds, in every build, and takes
    nothing from the source; the next [stream_get] returns the same
    character again and leaves the stream exactly as the first one did. *)
Theorem stream_pushback_roundtrip {P : Platform} {D} (view : D -> list Z)
  (st : @stream_t D) (c : Z) (cs : list Z) :
  source_ok view st -> pending view st (c :: cs) -> ascii c ->
  exists st1 st2 st3,
    stream_get st = Ok (c, st1) /\
    stream_unget c st1 = Ok (tt, st2) /\
    stream_get st2 = Ok (c, st3) /\
    data st2 = data st1 /\ st3 = st1 /\
    pending view st2 (c :: cs) /\ pending view st1 cs.
Proof.
  intros Hsrc Hp Hc.
  destruct (stream_get_pending Hsrc Hp Hc) as (st1 & Hg & Hh & Hv & Hget & Heof).
  destruct (stream_unget_holds Hh Hc) as (st2 & Hu & Hh2 & Hd & Hget2 & Heof2).
  assert (Hp2 : pending view st2 (c :: cs)).
  { subst cs. rewrite <- Hd. now apply pending_pushed. }
  assert (Hsrc2 : source_ok view st2).
  { eapply source_ok_get; [|exact Hsrc]. congruence. }
  destruct (stream_get_pending Hsrc2 Hp2 Hc)
    as (st3 & Hg3 & Hh3 & Hv3 & Hget3 & Heof3).
  exists st1, st2, st3. split; [exact Hg|]. split; [exact Hu|].
  split; [exact Hg3|]. split; [exact Hd|]. split.
  { destruct Hh as (Hp1 & b2 & b3 & b4 & Hb1).
    destruct Hh2 as (Hp2' & c2 & c3 & c4 & Hb2).
    destruct st1 as [g1 e1 d1 bu1 p1], st2 as [g2 e2 d2 bu2 p2].
    cbn in *. subst.
    unfold stream_get, bind, gets, buffer_read in Hg3. cbn in Hg3.
    replace (c =? 0) with false in Hg3
      by (symmetry; apply Z.eqb_neq; unfold ascii in Hc; lia).
    cbn in Hg3. inversion Hg3; subst.
    unfold stream_unget, bind, assert, gets, modify, buffer_read, ret in Hu.
    destruct NDEBUG; cbn in Hu;
      rewrite ?(to_uchar_ascii Hc), ?Z.eqb_refl in Hu; inversion Hu; subst;
      reflexivity. }
  split; [exact Hp2|]. subst cs. apply pending_source.
  eapply holds_drained; eassumption.
Qed.

Lemma stream_pushback_roundtrip_witness :
  let st := stream_init fgetc feof (file_with [ch "a"; ch "b"]) in
  exists st1 st2 st3,
    stream_get (P := debug_build) st = Ok (ch "a", st1) /\
    stream_unget (P := debug_build) (ch "a") st1 = Ok (tt, st2) /\
    stream_get (P := debug_build) st2 = Ok (ch "a", st3) /\
    data st2 = data st1 /\ st3 = st1 /\
    pending file_view st2 [ch "a"; ch "b"] /\ pending file_view st1 [ch "b"].
Proof.
  intros st.
  apply (@stream_pushback_roundtrip debug_build FILE file_view st (ch "a")
           [ch "b"]).
  - apply fgetc_source_ok. reflexivity.
  - apply (pending_source file_view). split; reflexivity.
  - unfold ascii. vm_compute. split; reflexivity.
Defined.

(** X13.  Sequences of more than one byte.  When a file holds a byte
    that is negative as a [char], for which [utf8_check_first] announces
    a sequence of two, three or four bytes that [utf8_check_full]
    accepts, as many calls of [stream_get] hand out the bytes of the
    sequence, as [char] values and in order; after the last one the
    buffer is used up and the file stands right after the sequence. *)
Theorem stream_get_multibyte {P : Platform} (st : @stream_t FILE) (b0 : Z)
  (bs rest : list Z) :
  get st = fgetc -> eof st = feof -> drained st ->
  data st = {| unread := b0 :: bs ++ rest; at_eof := false |} ->
  to_char b0 < 0 ->
  utf8_check_first (to_char b0) = Z.of_nat (S (List.length bs)) ->
  (1 <= List.length bs <= 3)%nat ->
  utf8_check_full (map to_char (b0 :: bs)) (Z.of_nat (S (List.length bs)))
  = true ->
  Forall (fun b => to_char b <> 0) bs ->
  exists st',
    stream_get_many (S (List.length bs)) st
    = Ok (map to_char (b0 :: bs), st') /\
    data st' = {| unread := rest; at_eof := false |} /\ drained st'.
Proof.
  intros Hg He (Hlen & Hrd) Hd Hneg Hfirst Hn Hfull Hnz.
  destruct st as [g e d buf pos]. cbn [get eof data buffer buffer_pos] in *.
  subst g e d.
  destruct buf as [|x0 [|x1 [|x2 [|x3 [|x4 [|]]]]]]; try discriminate.
  assert (Hc0 : (to_char b0 <? 0) = true) by now apply Z.ltb_lt.
  assert (Hz0 : to_char b0 <> 0) by lia.
  destruct bs as [|b1 [|b2 [|b3 [|b4 bs]]]]; cbn [List.length] in Hn; try lia;
    repeat match goal with
           | H : Forall _ (_ :: _) |- _ => inversion H; subst; clear H
           end;
    cbn [List.length Z.of_nat Pos.of_succ_nat Pos.succ map] in Hfirst, Hfull |- *.
  - cbn [stream_get_many].
    assert (Hfill : stream_get {| get := fgetc; eof := feof;
                                  data := {| unread := b0 :: [b1] ++ rest;
                                             at_eof := false |};
                                  buffer := [x0; x1; x2; x3; x4];
                                  buffer_pos := pos |} =
                    Ok (to_char b0,
                        {| get := fgetc; eof := feof;
                           data := {| unread := rest; at_eof := false |};
                           buffer := [Some (to_char b0); Some (to_char b1);
                                      Some 0; x3; x4];
                           buffer_pos := 1 |})).
    { unfold stream_get, bind, gets. cbn [buffer_pos]. rewrite Hrd.
      cbn [Z.eqb]. unfold stream_fill, bind, call_get. cbn.
      rewrite !to_char_to_uchar. unfold call_eof. cbn.
      destruct (to_char b0 =? EOF); cbn; rewrite Hc0, Hfirst; cbn;
        unfold assert; destruct NDEBUG; cbn; norm_pos;
        cbn [read_continuation buffer_prefix]; unfold bind, call_get; cbn;
        rewrite ?to_char_to_uchar, ?Hfull; cbn; norm_pos; cbn;
        rewrite ?Hfull; cbn; unfold buffer_read; cbn; reflexivity. }
    rewrite (bind_ok _ _ _ Hfill).
    unfold stream_get, bind, gets, buffer_read, ret. cbn.
    walk_buffer.
    eexists. split; [reflexivity|]. split; [reflexivity|].
    split; reflexivity.
  - cbn [stream_get_many].
    assert (Hfill : stream_get {| get := fgetc; eof := feof;
                                  data := {| unread := b0 :: [b1; b2] ++ rest;
                                             at_eof := false |};
                                  buffer := [x0; x1; x2; x3; x4];
                                  buffer_pos := pos |} =
                    Ok (to_char b0,
                        {| get := fgetc; eof := feof;
                           data := {| unread := rest; at_eof := false |};
                           buffer := [Some (to_char b0); Some (to_char b1);
                                      Some (to_char b2); Some 0; x4];
                           buffer_pos := 1 |})).
    { unfold stream_get, bind, gets. cbn [buffer_pos]. rewrite Hrd.
      cbn [Z.eqb]. unfold stream_fill, bind, call_get. cbn.
      rewrite !to_char_to_uchar. unfold call_eof. cbn.
      destruct (to_char b0 =? EOF); cbn; rewrite Hc0, Hfirst; cbn;
        unfold assert; destruct NDEBUG; cbn; norm_pos;
        cbn [read_continuation buffer_prefix]; unfold bind, call_get; cbn;
        rewrite ?to_char_to_uchar, ?Hfull; cbn; norm_pos; cbn;
        rewrite ?Hfull; cbn; unfold buffer_read; cbn; reflexivity. }
    rewrite (bind_ok _ _ _ Hfill).
    unfold stream_get, bind, gets, buffer_read, ret. cbn.
    walk_buffer.
    eexists. split; [reflexivity|]. split; [reflexivity|].
    split; reflexivity.
  - cbn [stream_get_many].
    assert (Hfill : stream_get {| get := fgetc; eof := feof;
                                  data := {| unread := b0 :: [b1; b2; b3] ++ rest;
                                             at_eof := false |};
                                  buffer := [x0; x1; x2; x3; x4];
                                  buffer_pos := pos |} =
                    Ok (to_char b0,
                        {| get := fgetc; eof := feof;
                           data := {| unread := rest; at_eof := false |};
                           buffer := [Some (to_char b0); Some (to_char b1);
                                      Some (to_char b2); Some (to_char b3);
                                      Some 0];
                           buffer_pos := 1 |})).
    { unfold stream_get, bind, gets. cbn [buffer_pos]. rewrite Hrd.
      cbn [Z.eqb]. unfold stream_fill, bind, call_get. cbn.
      rewrite !to_char_to_uchar. unfold call_eof. cbn.
      destruct (to_char b0 =? EOF); cbn; rewrite Hc0, Hfirst; cbn;
        unfold assert; destruct NDEBUG; cbn; norm_pos;
        cbn [read_continuation buffer_prefix]; unfold bind, call_get; cbn;
        rewrite ?to_char_to_uchar, ?Hfull; cbn; norm_pos; cbn;
        rewrite ?Hfull; cbn; unfold buffer_read; cbn; reflexivity. }
    rewrite (bind_ok _ _ _ Hfill).
    unfold stream_get, bind, gets, buffer_read, ret. cbn.
    walk_buffer.
    eexists. split; [reflexivity|]. split; [reflexivity|].
    split; reflexivity.
Qed.

Lemma stream_get_multibyte_witness :
  let st := stream_init fgetc feof (file_with [195; 169; ch "]"]) in
  exists st',
    stream_get_many (P := debug_build) 2 st = Ok ([-61; -87], st') /\
    data st' = {| unread := [ch "]"]; at_eof := false |} /\ drained st'.
Proof.
  intros st.
  apply (@stream_get_multibyte debug_build st 195 [169] [ch "]"]).
  - reflexivity.
  - reflexivity.
  - split; reflexivity.
  - reflexivity.
  - vm_compute. reflexivity.
  - reflexivity.
  - simpl. lia.
  - reflexivity.
  - repeat constructor. vm_compute. discriminate.
Defined.

(** X14.  A negative character cannot be pushed back.  The second
    assertion of [stream_unget] compares the [char] in the buffer with
    the character converted to [unsigned char] (line 146).  In a build
    with assertions, whatever the state of the stream and its source:
    when [stream_get] has returned a negative character, a byte of a
    UTF-8 sequence or EOF, [stream_unget] of that character aborts the
    program. *)
Theorem stream_unget_negative_aborts {P : Platform} {D}
  (st st1 : @stream_t D) (c : Z) :
  NDEBUG = false -> stream_get st = Ok (c, st1) -> c < 0 ->
  stream_unget c st1 = Abort.
Proof.
  intros Hdbg Hg Hc.
  assert (Hu : (c =? to_uchar c) = false).
  { apply Z.eqb_neq. unfold to_uchar.
    pose proof (Z.mod_pos_bound c 256 ltac:(lia)). lia. }
  destruct (stream_get_position _ Hg) as [H0|(p & Hp & Hrd)].
  - unfold stream_unget, bind at 1, assert at 1. rewrite Hdbg.
    unfold bind, gets, ret. rewrite H0. reflexivity.
  - assert (Hb : (p <? 0) || (5 <=? p) = false /\
                 nth_error (buffer st1) (Z.to_nat p) = Some (Some c)).
    { unfold buffer_read in Hrd.
      destruct ((p <? 0) || (5 <=? p)); [discriminate|]. split; [reflexivity|].
      destruct (nth_error (buffer st1) (Z.to_nat p)) as [[v|]|];
        try discriminate.
      inversion Hrd; subst. reflexivity. }
    destruct Hb as (Hb & Hn).
    assert (Hp0 : (0 <? p + 1) = true).
    { apply Z.ltb_lt. apply orb_false_iff in Hb. destruct Hb as (Hb & _).
      apply Z.ltb_ge in Hb. lia. }
    unfold stream_unget, bind at 1, assert at 1. rewrite Hdbg.
    unfold bind at 1, gets at 1, ret at 1. rewrite Hp, Hp0.
    unfold bind at 1, modify at 1. unfold assert. rewrite Hdbg.
    unfold bind at 1, gets at 1. cbn [buffer_pos set_buffer_pos].
    rewrite Hp. replace (p + 1 - 1) with p by lia.
    unfold bind, buffer_read, ret. cbn [buffer set_buffer_pos].
    rewrite Hb, Hn, Hu. reflexivity.
Qed.

Lemma stream_unget_negative_aborts_witness :
  let st := stream_init fgetc feof (file_with [195; 169; ch "]"]) in
  let st1 := {| get := fgetc; eof := feof;
                data := {| unread := [ch "]"]; at_eof := false |};
                buffer := [Some (-61); Some (-87); Some 0; None; None];
                buffer_pos := 1 |} in
  stream_unget (P := debug_build) (-61) st1 = Abort.
Proof.
  intros st st1.
  apply (@stream_unget_negative_aborts debug_build FILE st st1 (-61)).
  - reflexivity.
  - vm_compute. reflexivity.
  - lia.
Defined.
